(* ===== verification/_CoqProject ===== *)
-Q . S2P
Prelude.v
RustStd.v
Effects.v
Types.v
KeyRegistry.v
Dedup.v
Wire.v
Env.v
Bundle.v
Bp7Cbor.v
Session.v
LinkCalls.v
NodeState.v
Router.v
SendSafety.v
Node.v
NodeSafety.v
Ownership.v
Kinds.v
Dispatch.v
Sending.v
Queues.v
Lifecycle.v
LinkRuns.v
EndToEnd.v
Routes.v
Models.v
Witnesses.v
Limits.v
Utf8.v
Advertising.v
Framing.v
Quic.v
NetAddr.v
Channels.v
Chat.v
ChatFacts.v
WifiDirect.v
WifiLinux.v
WifiWindows.v
Ble.v
BlePeripheral.v
BleFacts.v
BleMacos.v
TransportKinds.v
Layers.v
Carriers.v
Stack.v
FullStack.v
Bearers.v
AdvertisingStack.v
Transparency.v
TransportWitnesses.v
WifiWitnesses.v
BleRuns.v
ChatRuns.v
StackWitnesses.v
BearerWitnesses.v
