(* ===== verification/Prelude.v ===== *)
(** * Pathweave: a verification development

    Pathweave (crates under [src/crates/]) lets devices exchange end-to-end encrypted
    messages over whatever link they share. A node ([pathweave-core], node.rs) owns an
    identity, a table of peers and of their keys, and queues for peers that cannot be
    reached; its router (router.rs) drives the registered transports, dials peers and
    sends with retries; a connection carries BPv7 bundles (bundle.rs) and on top of them a
    Noise session (session.rs). Frames received are dispatched by a route flag: delivered,
    relayed, or learned from. The transports are separate crates behind the traits
    [Transport] and [Connection]: QUIC with mDNS, BLE over GATT, BLE advertisements, WiFi
    Direct. [src/examples/pw-chat] is a terminal program over the node's public API.

    ** How the code is modelled

    An [async fn] is a program of [Effects.v]: critical sections on a record that stands
    for the shared state behind [Arc<Mutex<_>>], calls of an environment, spawned tasks,
    panics. A mutex that the code holds across an await has its guard in the state
    ([Channels.guarded_rx], [Channels.mutex_lock]). Everything outside the repository is
    the environment, one type of calls per crate ([env_op], [quic_op], [linux_op], ...),
    whose answers are arbitrary unless a theorem says otherwise, or a class with laws:
    [Types.Crypto] (blake3, x25519), [Bundle.Bp7]/[Bp7Laws]/[Bp7Sizes] (the bp7 crate),
    [Session.Snow]/[SnowLaws] (the snow crate). [Models.v] and [Bp7Cbor.v] give concrete
    instances of all of them, on which every theorem with hypotheses is applied in the
    files of witnesses. Integers keep their width ([uN], below), strings their UTF-8
    ([RustStd.rstring]), slices and indices their panics ([RustStd.rust]).

    [Effects.run] executes one task alone, [Effects.exec] interleaves a pool of tasks
    under any schedule. [safe] is the proof rule for invariants under interleaving,
    [safe_under] the one for a restricted environment, and [sturdy] the one for programs
    that panic when a call fails, and only then; [total] is the rule for termination.
    [logged] is an environment that keeps the list of what it was asked and answered, for
    theorems that say which calls were made; [tells] is the rule for them.

    Two calls of the core can fail in a way that panics ([Env.env_fails]): the entropy
    source, where the code says [expect], and [connect] of a transport, which slices
    strings it was given in two of the transports.

    Loops without a bound of their own (reading a stream, polling a channel) take a bound
    from the environment ([LoopBound] and the like). A loop that uses it up is [Blocked]:
    the task has not got further yet. Theorems about such loops hold for every bound, or
    fix an environment whose bound is one more than the events it will deliver, which is
    enough for the loop to reach its end; those theorems then say that the task returns.

    ** The files

    Shared: [Prelude] (integers, bytes, big-endian numbers, tactics), [RustStd] (what the
    sources use of the standard library), [Utf8] ([char], [String::from_utf8_lossy]),
    [NetAddr] ([SocketAddr::from_str]), [Effects], [Channels] (mpsc channels with counted senders, guarded receivers).

    The core, [crates/pathweave-core/src/]:
    - [Types] (lib.rs: identities, addresses, events, configuration), [KeyRegistry]
      (lib.rs), [Dedup] (node.rs), [Wire] (router.rs: address exchange, key announcements);
    - [Env]: the traits [Transport] and [Connection] as the calls a node makes;
    - [Bundle], [Bp7Cbor] (bundle.rs); [Session] (session.rs); [LinkCalls]: the calls of
      the environment that bundles and sessions make;
    - [NodeState]: the state that node.rs and router.rs share; [Router] (router.rs);
      [Node] (node.rs);
    - theorems about them: [SendSafety] (invariants of a send, as the interface
      [SendInv]), [NodeSafety], [Ownership] (the pool of tasks with the owners of the router
      and of the event channel's senders, and what their drops do), [Kinds] (addresses
      and transports match), [Dispatch], [Sending], [Queues], [Lifecycle]; [LinkRuns] (a
      send and the handling of it, at the two ends of one link), [EndToEnd] (between
      neighbours) and [Routes] (over relays); [Limits] are runs in which the code does less than its documentation says;
    - [Models], [Witnesses]: concrete instances and inputs.

    The transports:
    - [Advertising] and [Bearers] ([pathweave-transport-ble]: advertising.rs,
      linux_adv.rs, windows_adv.rs);
    - [Ble], [BlePeripheral], [BleFacts], [BleMacos] ([pathweave-transport-ble]: lib.rs);
    - [Framing] (the length-prefixed frames of QUIC and WiFi Direct), [Quic]
      ([pathweave-transport-quic]);
    - [WifiDirect], [WifiLinux], [WifiWindows] ([pathweave-transport-wifi-direct]);
    - [TransportKinds]: the class [KeepsKind], what [Kinds] asks of a transport, and each
      transport as an instance of it;
    - [TransportWitnesses], [WifiWitnesses], [BleRuns], [BearerWitnesses].

    The core on top of the transports:
    - [Layers]: the trait [Connection] as a record of programs, the contract
      [CarriesFrames], and [compile], which puts a connection's code in place of the calls
      a program of the core makes; [Carriers]: the connections of QUIC, WiFi Direct and
      BLE (both ends) as instances of the contract; [Stack]: sessions over them;
      [FullStack]: nodes over them; [StackWitnesses];
    - [AdvertisingStack]: a bearer's code in place of the calls the advertising transport
      makes of it, and the transport's connection as an instance of the contract;
      [Transparency]: all the connections against the abstract link.

    The chat demo: [Chat] (main.rs), [ChatFacts], [ChatRuns].

    ** What the theorems show

    - Safety of the whole node: [NodeSafety.node_safety], an invariant of the shared state
      under every interleaving of API calls and background tasks, every network and every
      received byte string, and that a task panics only at a call that fails.
    - Types and lifetimes: [Kinds.dials_well_typed] (a transport is asked to dial addresses
      of its kind only, given what [TransportKinds.announcements_keep_kind] shows of each);
      [Ownership.event_task_never_ends] (no drop of the node ends its event task, and with
      it the router and the monitors).
    - Messages from node to node, all layers above the link included:
      [EndToEnd.message_end_to_end] (a message to a neighbour), [stored_message_delivered]
      (one that waited in the queue for the peer), [key_reaches_neighbour] (gossip);
      [Routes.sealed_along_route] (a sealed message over up to seven relays, the most the
      hop count allows).
    - Identity and encryption: [Session.session_identity], [handshake_honest],
      [session_channel]; [Dispatch.sealed_end_to_end].
    - The layers composed: [Transparency.connections_as_the_link] (no program of the core
      can tell the code of a transport's connection from the abstract link);
      [Stack.handshake_over_streams], [handshake_over_ble], [conversation_over_streams];
      [FullStack.message_over_streams] and [message_over_ble], a message between two nodes
      down to the bytes or the characteristics; [AdvertisingStack.advertised_frames_arrive],
      frames over the air through both bearers, and [message_over_advertising].
    - Codecs and fragmentation: [Bundle.bundle_roundtrip], [reassembly_any_order],
      [fragment_size_bound]; [Wire.addr_exchange_roundtrip], [addr_exchange_decode_sound],
      [key_announcement_codec].
    - Tables against abstract specifications: [KeyRegistry.registry_refines_spec],
      [direct_survives_gossip], [gossip_respects_bound]; [Dedup.dedup_refines_history],
      [dedup_at_most_once].
    - Every branch of dispatch, with what is delivered, relayed to whom, and acknowledged,
      and the hop bound of flooding: the theorems of [Dispatch].
    - Sending and store-and-forward: [Sending.router_send_outcome] (success only after an
      acknowledgement, and which error otherwise); [Queues] (nothing is lost or reordered by
      a drain; outcome and order of queueing).
    - Transports over time: [Lifecycle.monitor_round_spec], [arrival_outcome].
    - Each transport's contract: [Advertising.adv_demultiplex] (one mailbox per peer),
      [short_id_text], [adv_dropped_peer_lost]; [Bearers.bearer_packets],
      [linux_scan_never_ends]; [BleFacts.peripheral_mailbox],
      [peripheral_one_connection], [service_data_codec]; [BleMacos.macos_releases],
      [orphaned_task_ends]; [Framing.frames_roundtrip], [dropped_receive_loses_stream];
      [Quic.quic_bridge_spec], [quic_lifecycle], [Cost.detect_linux_spec];
      [WifiLinux.linux_lifecycle], [linux_stop_hangs], [group_owner_election];
      [WifiWindows.windows_roles].
    - The chat demo: [ChatFacts.terminal_restored], [draw_spec], [line_goes_through].

    ** What is not modelled

    - The UniFFI crate, a stub without code.
    - Calls of libraries behind which nothing of this repository runs: the declaration of
      GATT services to bluer and WinRT are lists of steps that may fail, Objective-C objects
      are made and messaged through the environment, ratatui and crossterm draw and read
      keys. The rustls verifier of the QUIC client, which accepts every certificate, is
      part of the stack behind [quic_op].
    - Clocks of timers: a receive raced with a timer is one call ([ConnRecvBefore]) whose
      answer says who won. Over a connection's code ([Layers.compile]) a receive that loses
      is dropped at whichever of its awaits the environment picks
      ([Effects.dropped_after]); [Framing.dropped_receive_loses_stream] shows what that
      leaves behind.
    - Panics of code outside the repository: the application's handler, the libraries and
      the methods of a transport other than [connect] are taken to return. (A panic in the
      handler would poison its mutex, and every later delivery would panic.) The
      announcements a key flood sends at the same time are tasks of their own here, which
      allows more interleavings than the source's [join_all] (there, a panic of one of them
      ends the event task too).
    - Release builds: arithmetic on [u16] in [Chat] is checked, as in a debug build.
    - Logging. The texts of errors are kept where the source writes them; those of
      libraries are the environment's. *)

From Stdlib Require Export ZArith Lia.
From Stdlib Require Export Strings.Byte.
From Stdlib Require Import Eqdep_dec.
From stdpp Require Export base tactics list gmap strings fin_maps sorting.
From stdpp Require Import countable.

#[export] Set Default Goal Selector "!".

(** ** Scope, hint databases and tactics of the development *)

Declare Scope pw_scope.
Delimit Scope pw_scope with pw.
Open Scope pw_scope.

Create HintDb pw discriminated.

(** Case analysis on the innermost test of the goal or of a hypothesis. *)
Ltac pw_case :=
  match goal with
  | |- context [match ?x with _ => _ end] =>
      lazymatch x with
      | context [match _ with _ => _ end] => fail
      | _ => destruct x eqn:?
      end
  | H : context [match ?x with _ => _ end] |- _ =>
      lazymatch x with
      | context [match _ with _ => _ end] => fail
      | _ => destruct x eqn:?
      end
  end.

Ltac pw_crush := repeat (simplify_eq/=; try done; pw_case); simplify_eq/=; try done.

(** ** Machine integers

    [uN w] is a [w]-bit unsigned integer; [wrap] is the reduction every
    [wrapping_*] operation and every [as] cast performs. *)

Local Open Scope Z_scope.

Definition in_range (w z : Z) : bool := (0 <=? z) && (z <? 2 ^ w).

Record uN (w : Z) := UN { uval : Z; uval_ok : in_range w uval = true }.
Arguments UN {w} _ _.
Arguments uval {w} _.

Lemma in_range_spec w z : in_range w z = true ↔ 0 <= z < 2 ^ w.
Proof. unfold in_range. rewrite andb_true_iff, Z.leb_le, Z.ltb_lt. done. Qed.

Lemma uval_range {w} (u : uN w) : 0 <= uval u < 2 ^ w.
Proof. apply in_range_spec, uval_ok. Qed.

Lemma uN_eq {w} (a b : uN w) : uval a = uval b → a = b.
Proof.
  destruct a as [a Ha], b as [b Hb]; simpl; intros ->.
  f_equal. apply UIP_dec, bool_dec.
Qed.

Lemma wrap_ok w z : 0 <= w → in_range w (z mod 2 ^ w) = true.
Proof. intros Hw. apply in_range_spec, Z.mod_pos_bound. lia. Qed.

Definition wrap (w : Z) (z : Z) : uN (Z.max 0 w) :=
  UN (z mod 2 ^ Z.max 0 w) (wrap_ok _ z (Z.le_max_l 0 w)).

Abbreviation u16 := (uN 16).
Abbreviation u32 := (uN 32).
Abbreviation u64 := (uN 64).

Definition u16_of_Z (z : Z) : u16 := wrap 16 z.
Definition u32_of_Z (z : Z) : u32 := wrap 32 z.
Definition u64_of_Z (z : Z) : u64 := wrap 64 z.

Definition u64_wrapping_add (a : u64) (n : Z) : u64 := u64_of_Z (uval a + n).

#[export] Instance uN_eq_dec w : EqDecision (uN w).
Proof.
  refine (λ a b, cast_if (decide (uval a = uval b))); [by apply uN_eq | congruence].
Defined.

#[export] Program Instance uN_countable w : Countable (uN w) :=
  inj_countable uval
    (λ z, match bool_dec (in_range w z) true with
          | left H => Some (UN z H) | right _ => None end) _.
Next Obligation.
  intros w [z Hz]; simpl. destruct (bool_dec _ _) as [H|H]; [|done].
  f_equal. by apply uN_eq.
Qed.

Lemma u64_of_Z_uval z : uval (u64_of_Z z) = z mod 2 ^ 64.
Proof. done. Qed.

Lemma u16_of_Z_uval z : uval (u16_of_Z z) = z mod 2 ^ 16.
Proof. done. Qed.

Lemma u32_of_Z_uval z : uval (u32_of_Z z) = z mod 2 ^ 32.
Proof. done. Qed.

Lemma u64_of_Z_id (u : u64) : u64_of_Z (uval u) = u.
Proof. apply uN_eq. rewrite u64_of_Z_uval. apply Z.mod_small, uval_range. Qed.

(** ** Bytes *)

#[export] Instance byte_eq_dec : EqDecision byte := Byte.byte_eq_dec.

#[export] Program Instance byte_countable : Countable byte :=
  inj_countable Byte.to_N Byte.of_N _.
Next Obligation. intros b. apply Byte.of_to_N. Qed.

Definition byte_to_Z (b : byte) : Z := Z.of_N (Byte.to_N b).

Definition byte_of_Z (z : Z) : byte :=
  default x00 (Byte.of_N (Z.to_N (z mod 256))).

Lemma byte_to_Z_range b : 0 <= byte_to_Z b < 256.
Proof.
  unfold byte_to_Z. pose proof (Byte.to_N_bounded b). lia.
Qed.

Lemma byte_of_to_Z b : byte_of_Z (byte_to_Z b) = b.
Proof.
  unfold byte_of_Z. rewrite Z.mod_small by apply byte_to_Z_range.
  unfold byte_to_Z. by rewrite N2Z.id, Byte.of_to_N.
Qed.

Lemma byte_to_of_Z z : byte_to_Z (byte_of_Z z) = z mod 256.
Proof.
  unfold byte_of_Z, byte_to_Z.
  pose proof (Z.mod_pos_bound z 256 ltac:(lia)) as Hz.
  destruct (Byte.of_N (Z.to_N (z mod 256))) as [b|] eqn:Hb; simpl.
  - apply Byte.to_of_N in Hb. rewrite Hb. lia.
  - apply Byte.of_N_None_iff in Hb. lia.
Qed.

Lemma byte_to_Z_inj a b : byte_to_Z a = byte_to_Z b → a = b.
Proof. intros H. by rewrite <-(byte_of_to_Z a), H, byte_of_to_Z. Qed.

(** [u8::min], saturating and plain subtraction on bytes. *)
Definition byte_min (a b : byte) : byte :=
  if byte_to_Z a <=? byte_to_Z b then a else b.
Definition byte_pred (a : byte) : byte := byte_of_Z (byte_to_Z a - 1).

Lemma byte_to_Z_min a b : byte_to_Z (byte_min a b) = Z.min (byte_to_Z a) (byte_to_Z b).
Proof. unfold byte_min. destruct (Z.leb_spec (byte_to_Z a) (byte_to_Z b)); lia. Qed.

Lemma byte_to_Z_pred a : 0 < byte_to_Z a → byte_to_Z (byte_pred a) = byte_to_Z a - 1.
Proof.
  intros H. unfold byte_pred. rewrite byte_to_of_Z.
  apply Z.mod_small. pose proof (byte_to_Z_range a). lia.
Qed.

(** Big-endian encodings ([to_be_bytes], [from_be_bytes]). *)
Fixpoint from_be (l : list byte) : Z :=
  match l with
  | [] => 0
  | b :: l => Z.shiftl (byte_to_Z b) (8 * Z.of_nat (length l)) + from_be l
  end.

Fixpoint to_be (n : nat) (z : Z) : list byte :=
  match n with
  | O => []
  | S n => byte_of_Z (Z.shiftr z (8 * Z.of_nat n)) :: to_be n z
  end.

Lemma length_to_be n z : length (to_be n z) = n.
Proof. by induction n as [|n IH]; simpl; [|rewrite IH]. Qed.

Lemma from_be_range l : 0 <= from_be l < 2 ^ (8 * Z.of_nat (length l)).
Proof.
  induction l as [|b l IH]; simpl; [done|].
  rewrite Z.shiftl_mul_pow2 by lia.
  replace (8 * Z.of_nat (S (length l))) with (8 * Z.of_nat (length l) + 8) by lia.
  rewrite Z.pow_add_r by lia. pose proof (byte_to_Z_range b). nia.
Qed.

Lemma from_to_be n z : from_be (to_be n z) = z mod 2 ^ (8 * Z.of_nat n).
Proof.
  revert z. induction n as [|n IH]; intros z; cbn [to_be from_be].
  { by rewrite Z.mod_1_r. }
  rewrite length_to_be, IH, byte_to_of_Z, Z.shiftl_mul_pow2, Z.shiftr_div_pow2 by lia.
  replace (8 * Z.of_nat (S n)) with (8 * Z.of_nat n + 8) by lia.
  rewrite Z.pow_add_r by lia.
  rewrite Z.rem_mul_r by lia. change (2 ^ 8) with 256. lia.
Qed.

Lemma to_be_plus_high n a r :
  to_be n (a * 2 ^ (8 * Z.of_nat n) + r) = to_be n r.
Proof.
  assert (∀ m, (m <= n)%nat → to_be m (a * 2 ^ (8 * Z.of_nat n) + r) = to_be m r) as H.
  { induction m as [|m IH]; intros Hm; cbn [to_be]; [done|]. rewrite IH by lia. f_equal.
    apply byte_to_Z_inj. rewrite !byte_to_of_Z, !Z.shiftr_div_pow2 by lia.
    replace (8 * Z.of_nat n) with (8 * Z.of_nat (n - m - 1) + 8 + 8 * Z.of_nat m) by lia.
    rewrite !Z.pow_add_r by lia. change (2 ^ 8) with 256.
    rewrite !Z.mul_assoc, Z.div_add_l by lia.
    by rewrite Z.add_comm, Z_mod_plus_full. }
  by apply H.
Qed.

Lemma to_from_be l : to_be (length l) (from_be l) = l.
Proof.
  induction l as [|b l IH]; cbn [length to_be from_be]; [done|].
  rewrite Z.shiftl_mul_pow2 by lia. rewrite to_be_plus_high, IH. f_equal.
  apply byte_to_Z_inj. rewrite byte_to_of_Z, Z.shiftr_div_pow2 by lia.
  pose proof (from_be_range l). pose proof (byte_to_Z_range b).
  rewrite Z.div_add_l, (Z.div_small (from_be l)), Z.add_0_r by lia.
  by apply Z.mod_small.
Qed.

Definition u64_to_be_bytes (u : u64) : list byte := to_be 8 (uval u).
Definition u64_from_be_bytes (l : list byte) : u64 := u64_of_Z (from_be l).
Definition u16_to_be_bytes (u : u16) : list byte := to_be 2 (uval u).
Definition u16_from_be_bytes (l : list byte) : u16 := u16_of_Z (from_be l).
Definition u32_to_be_bytes (u : u32) : list byte := to_be 4 (uval u).
Definition u32_from_be_bytes (l : list byte) : u32 := u32_of_Z (from_be l).

Lemma u64_from_to_be u : u64_from_be_bytes (u64_to_be_bytes u) = u.
Proof.
  apply uN_eq. unfold u64_from_be_bytes, u64_to_be_bytes. rewrite u64_of_Z_uval, from_to_be.
  change (8 * Z.of_nat 8) with 64. rewrite Z.mod_mod by lia.
  apply Z.mod_small, uval_range.
Qed.

Lemma u64_to_from_be l : length l = 8%nat → u64_to_be_bytes (u64_from_be_bytes l) = l.
Proof.
  intros Hl. unfold u64_from_be_bytes, u64_to_be_bytes. rewrite u64_of_Z_uval.
  rewrite Z.mod_small.
  - rewrite <-Hl at 1. apply to_from_be.
  - pose proof (from_be_range l) as H. rewrite Hl in H. exact H.
Qed.

Lemma u16_from_to_be u : u16_from_be_bytes (u16_to_be_bytes u) = u.
Proof.
  apply uN_eq. unfold u16_from_be_bytes, u16_to_be_bytes. rewrite u16_of_Z_uval, from_to_be.
  change (8 * Z.of_nat 2) with 16. rewrite Z.mod_mod by lia. apply Z.mod_small, uval_range.
Qed.

Lemma u16_to_from_be l : length l = 2%nat → u16_to_be_bytes (u16_from_be_bytes l) = l.
Proof.
  intros Hl. unfold u16_from_be_bytes, u16_to_be_bytes. rewrite u16_of_Z_uval.
  rewrite Z.mod_small.
  - rewrite <-Hl at 1. apply to_from_be.
  - pose proof (from_be_range l) as H. rewrite Hl in H. exact H.
Qed.

Lemma u32_from_to_be u : u32_from_be_bytes (u32_to_be_bytes u) = u.
Proof.
  apply uN_eq. unfold u32_from_be_bytes, u32_to_be_bytes. rewrite u32_of_Z_uval, from_to_be.
  change (8 * Z.of_nat 4) with 32. rewrite Z.mod_mod by lia. apply Z.mod_small, uval_range.
Qed.

Close Scope Z_scope.
