(* ===== verification/RustStd.v ===== *)
(** * The part of the Rust language and standard library the sources use

    - panics as a value ([rust]): an index or a slice out of range, and a
      string slice off a character boundary, abort the task;
    - fixed-size byte arrays [[u8; n]] and [TryInto];
    - [String] as UTF-8 checked bytes ([std::str::from_utf8]);
    - [u8::from_str_radix], [format!("{:02x}")];
    - [slice::sort_by_key] (stable), [Iterator::min_by_key] (first minimum);
    - [BTreeMap] as an association list sorted by key. *)

From S2P Require Import Prelude.
From Stdlib Require Import Eqdep_dec.
From Stdlib Require Import Bool.

(** ** Panics *)

Inductive rust (A : Type) :=
| Val (a : A)
| Panic.
Arguments Val {A} _.
Arguments Panic {A}.

Definition rust_bind {A B} (m : rust A) (f : A → rust B) : rust B :=
  match m with Val a => f a | Panic => Panic end.

Notation "'let!' x := m 'in' k" := (rust_bind m (λ x, k))
  (at level 10, x pattern, m at level 100, k at level 200) : pw_scope.

Lemma rust_bind_Val {A B} (m : rust A) (f : A → rust B) b :
  rust_bind m f = Val b ↔ ∃ a, m = Val a ∧ f a = Val b.
Proof. destruct m; simpl; split; [eauto|by intros (? & [= ->] & ?)|done|by intros (? & ? & _)]. Qed.

(** [v[i]] *)
Definition index {A} (l : list A) (i : nat) : rust A :=
  match l !! i with Some a => Val a | None => Panic end.

(** [&v[a..b]] *)
Definition slice {A} (l : list A) (a b : nat) : rust (list A) :=
  if (a <=? b) && (b <=? length l) then Val (take (b - a) (drop a l)) else Panic.

(** [&v[a..]] *)
Definition slice_from {A} (l : list A) (a : nat) : rust (list A) := slice l a (length l).

Lemma index_Val {A} (l : list A) i : i < length l → ∃ a, index l i = Val a ∧ l !! i = Some a.
Proof.
  intros Hi. destruct (lookup_lt_is_Some_2 l i Hi) as [a Ha].
  exists a. unfold index. by rewrite Ha.
Qed.

Lemma slice_Val {A} (l : list A) a b :
  a ≤ b → b ≤ length l → slice l a b = Val (take (b - a) (drop a l)).
Proof.
  intros Hab Hb. unfold slice.
  by rewrite (proj2 (Nat.leb_le a b)), (proj2 (Nat.leb_le b (length l))).
Qed.

Lemma slice_from_Val {A} (l : list A) a : a ≤ length l → slice_from l a = Val (drop a l).
Proof.
  intros Ha. unfold slice_from. rewrite slice_Val by lia.
  f_equal. apply take_ge. rewrite length_drop. lia.
Qed.

(** Reading inside a concatenation, the shape every decoder meets. *)
Lemma index_app_head {A} (l1 : list A) x l2 : index (l1 ++ x :: l2) (length l1) = Val x.
Proof. unfold index. by rewrite list_lookup_middle. Qed.

Lemma slice_app_mid {A} (l1 l l2 : list A) a b :
  a = length l1 → b = length l1 + length l → slice (l1 ++ l ++ l2) a b = Val l.
Proof.
  intros -> ->. rewrite slice_Val; [|lia|rewrite !length_app; lia].
  rewrite drop_app_length. f_equal.
  replace (length l1 + length l - length l1) with (length l) by lia.
  apply take_app_length.
Qed.

(** ** Byte arrays *)

Record array (n : nat) := Array {
  array_to_list : list byte;
  array_len : (length array_to_list =? n) = true
}.
Arguments Array {n} _ _.
Arguments array_to_list {n} _.

Lemma array_length {n} (a : array n) : length (array_to_list a) = n.
Proof. apply Nat.eqb_eq, array_len. Qed.

Lemma array_eq {n} (a b : array n) : array_to_list a = array_to_list b → a = b.
Proof.
  destruct a as [a Ha], b as [b Hb]; simpl; intros ->.
  f_equal. apply UIP_dec, bool_dec.
Qed.

#[export] Instance array_eq_dec n : EqDecision (array n).
Proof.
  refine (λ a b, cast_if (decide (array_to_list a = array_to_list b)));
    [by apply array_eq | congruence].
Defined.

(** [slice.try_into() : Result<[u8; n], _>] *)
Definition try_into (n : nat) (l : list byte) : option (array n) :=
  match bool_dec (length l =? n) true with
  | left H => Some (Array l H)
  | right _ => None
  end.

Lemma try_into_Some n l a : try_into n l = Some a ↔ array_to_list a = l.
Proof.
  unfold try_into. destruct (bool_dec _ _) as [H|H].
  - split; [by intros [= <-] | intros <-]. f_equal. by apply array_eq.
  - split; [done|]. intros <-. destruct H. apply array_len.
Qed.

Lemma try_into_array {n} (a : array n) : try_into n (array_to_list a) = Some a.
Proof. by apply try_into_Some. Qed.

Lemma try_into_is_Some n l : length l = n → ∃ a, try_into n l = Some a ∧ array_to_list a = l.
Proof.
  intros Hl. unfold try_into. destruct (bool_dec _ _) as [H|H]; [eauto|].
  destruct H. by apply Nat.eqb_eq.
Qed.

Lemma try_into_None n l : length l ≠ n → try_into n l = None.
Proof.
  intros Hl. unfold try_into. destruct (bool_dec _ _) as [H|H]; [|done].
  destruct Hl. by apply Nat.eqb_eq.
Qed.

#[export] Program Instance array_countable n : Countable (array n) :=
  inj_countable array_to_list (try_into n) _.
Next Obligation. intros n a. apply try_into_array. Qed.

(** [slice.try_into().expect(..)] *)
Definition try_into_expect (n : nat) (l : list byte) : rust (array n) :=
  match try_into n l with Some a => Val a | None => Panic end.

Lemma try_into_expect_Val n l :
  length l = n → ∃ a, try_into_expect n l = Val a ∧ array_to_list a = l.
Proof.
  intros Hl. destruct (try_into_is_Some n l Hl) as (a & Ha & <-).
  exists a. unfold try_into_expect. by rewrite Ha.
Qed.

Lemma try_into_expect_array {n} (a : array n) : try_into_expect n (array_to_list a) = Val a.
Proof. unfold try_into_expect. by rewrite try_into_array. Qed.

(** An array filled with one byte ([[b; n]]). *)
Lemma replicate_array_len n (b : byte) : (length (replicate n b) =? n) = true.
Proof. apply Nat.eqb_eq, length_replicate. Qed.

Definition array_of_byte (n : nat) (b : byte) : array n :=
  Array (replicate n b) (replicate_array_len n b).

(** ** Strings *)

Definition byte_in (lo hi : Z) (b : byte) : bool :=
  (lo <=? byte_to_Z b)%Z && (byte_to_Z b <=? hi)%Z.

Definition utf8_cont (b : byte) : bool := byte_in 128 191 b.

(** The well-formed byte sequences of [std::str::from_utf8] (Unicode table 3-7). *)
Fixpoint utf8_valid (l : list byte) : bool :=
  match l with
  | [] => true
  | b0 :: l1 =>
    if byte_in 0 127 b0 then utf8_valid l1 else
    match l1 with
    | [] => false
    | b1 :: l2 =>
      if byte_in 194 223 b0 then utf8_cont b1 && utf8_valid l2 else
      match l2 with
      | [] => false
      | b2 :: l3 =>
        if byte_in 224 239 b0 then
          (if byte_in 224 224 b0 then byte_in 160 191 b1
           else if byte_in 237 237 b0 then byte_in 128 159 b1
           else utf8_cont b1) && utf8_cont b2 && utf8_valid l3
        else
        match l3 with
        | [] => false
        | b3 :: l4 =>
          if byte_in 240 244 b0 then
            (if byte_in 240 240 b0 then byte_in 144 191 b1
             else if byte_in 244 244 b0 then byte_in 128 143 b1
             else utf8_cont b1) && utf8_cont b2 && utf8_cont b3 && utf8_valid l4
          else false
        end
      end
    end
  end.

Record rstring := RString { str_bytes : list byte; str_utf8 : utf8_valid str_bytes = true }.

Lemma rstring_eq (a b : rstring) : str_bytes a = str_bytes b → a = b.
Proof.
  destruct a as [a Ha], b as [b Hb]; simpl; intros ->.
  f_equal. apply UIP_dec, bool_dec.
Qed.

#[export] Instance rstring_eq_dec : EqDecision rstring.
Proof.
  refine (λ a b, cast_if (decide (str_bytes a = str_bytes b)));
    [by apply rstring_eq | congruence].
Defined.

(** [std::str::from_utf8(bytes).ok()] *)
Definition from_utf8 (l : list byte) : option rstring :=
  match bool_dec (utf8_valid l) true with
  | left H => Some (RString l H)
  | right _ => None
  end.

Lemma from_utf8_Some l s : from_utf8 l = Some s ↔ str_bytes s = l.
Proof.
  unfold from_utf8. destruct (bool_dec _ _) as [H|H].
  - split; [by intros [= <-] | intros <-]. f_equal. by apply rstring_eq.
  - split; [done|]. intros <-. destruct H. apply str_utf8.
Qed.

Lemma from_utf8_str s : from_utf8 (str_bytes s) = Some s.
Proof. by apply from_utf8_Some. Qed.

#[export] Program Instance rstring_countable : Countable rstring :=
  inj_countable str_bytes from_utf8 _.
Next Obligation. intros s. apply from_utf8_str. Qed.

(** A string literal of the model: ASCII text is UTF-8. *)
Fixpoint ascii_bytes (s : string) : list byte :=
  match s with
  | EmptyString => []
  | String c s => Ascii.byte_of_ascii c :: ascii_bytes s
  end.

(** [str::is_char_boundary] *)
Definition is_char_boundary (l : list byte) (i : nat) : bool :=
  if i =? 0 then true else
  match l !! i with
  | Some b => negb (utf8_cont b)
  | None => i =? length l
  end.

(** [&s[a..b]] on a string: both ends must be character boundaries. *)
Definition str_slice (l : list byte) (a b : nat) : rust (list byte) :=
  if (a <=? b) && is_char_boundary l a && is_char_boundary l b
  then Val (take (b - a) (drop a l)) else Panic.

(** Hexadecimal digits: [format!("{:02x}", b)] and [u8::from_str_radix(s, 16)]. *)
Definition hex_digit (n : Z) : byte :=
  byte_of_Z (if (n <? 10)%Z then 48 + n else 87 + n).

Definition hex_byte (b : byte) : list byte :=
  [hex_digit (byte_to_Z b / 16); hex_digit (byte_to_Z b mod 16)].

(** [char::to_digit(16)] *)
Definition digit_of_hex (b : byte) : option Z :=
  if byte_in 48 57 b then Some (byte_to_Z b - 48)%Z
  else if byte_in 97 102 b then Some (byte_to_Z b - 87)%Z
  else if byte_in 65 70 b then Some (byte_to_Z b - 55)%Z
  else None.

Fixpoint radix16_digits (acc : Z) (l : list byte) : option Z :=
  match l with
  | [] => Some acc
  | b :: l =>
    match digit_of_hex b with
    | Some d => if (acc * 16 + d <? 256)%Z then radix16_digits (acc * 16 + d) l else None
    | None => None
    end
  end.

(** [u8::from_str_radix(s, 16).ok()]: the empty string and a lone sign are
    errors, and a leading ['+'] is accepted. *)
Definition u8_from_str_radix16 (l : list byte) : option byte :=
  match l with
  | [] => None
  | b :: l' =>
    let digits := if byte_in 43 43 b then l' else l in
    match digits with
    | [] => None
    | _ => byte_of_Z <$> radix16_digits 0 digits
    end
  end.

Lemma hex_byte_parse b : u8_from_str_radix16 (hex_byte b) = Some b.
Proof. by destruct b. Qed.

Lemma hex_byte_length b : length (hex_byte b) = 2.
Proof. done. Qed.

Lemma hex_byte_ascii b c : c ∈ hex_byte b → byte_in 0 127 c = true.
Proof.
  assert (forallb (byte_in 0 127) (hex_byte b) = true) as H by by destruct b.
  rewrite forallb_forall in H. intros Hc. by apply H, list_elem_of_In.
Qed.

Lemma utf8_valid_ascii l : (∀ c, c ∈ l → byte_in 0 127 c = true) → utf8_valid l = true.
Proof.
  induction l as [|c l IH]; intros H; [done|]. simpl. rewrite H by set_solver.
  apply IH. set_solver.
Qed.

Lemma ascii_not_cont b : byte_in 0 127 b = true → utf8_cont b = false.
Proof.
  unfold utf8_cont, byte_in. rewrite andb_true_iff, !Z.leb_le. intros [_ ?].
  apply andb_false_iff. left. apply Z.leb_gt. lia.
Qed.

(** ** [slice::sort_by_key]: stable *)

Section sort_by_key.
Context {A : Type} (key : A → Z).

Fixpoint sort_insert (x : A) (l : list A) : list A :=
  match l with
  | [] => [x]
  | y :: l' => if (key x <=? key y)%Z then x :: l else y :: sort_insert x l'
  end.

Definition sort_by_key (l : list A) : list A := foldr sort_insert [] l.

Definition key_le (x y : A) : Prop := (key x <= key y)%Z.

Lemma sort_insert_perm x l : sort_insert x l ≡ₚ x :: l.
Proof.
  induction l as [|y l IH]; simpl; [done|].
  destruct (key x <=? key y)%Z; [done|]. rewrite IH. apply perm_swap.
Qed.

Lemma sort_by_key_perm l : sort_by_key l ≡ₚ l.
Proof. induction l as [|x l IH]; simpl; [done|]. by rewrite sort_insert_perm, IH. Qed.

Lemma sort_insert_sorted x l : StronglySorted key_le l → StronglySorted key_le (sort_insert x l).
Proof.
  induction 1 as [|y l Hl IH Hy]; simpl; [repeat constructor|].
  destruct (Z.leb_spec (key x) (key y)) as [Hxy|Hxy].
  - constructor; [by constructor|]. constructor; [done|].
    eapply Forall_impl; [exact Hy|]. unfold key_le. intros z Hz. lia.
  - constructor; [done|]. rewrite sort_insert_perm. constructor; [unfold key_le; lia|done].
Qed.

Lemma sort_by_key_sorted l : StronglySorted key_le (sort_by_key l).
Proof. induction l; simpl; [constructor|by apply sort_insert_sorted]. Qed.

Lemma sort_insert_filter k x l :
  StronglySorted key_le l →
  filter (λ y, key y = k) (sort_insert x l) = filter (λ y, key y = k) (x :: l).
Proof.
  induction 1 as [|y l Hl IH Hy]; simpl; [done|].
  destruct (Z.leb_spec (key x) (key y)) as [Hxy|Hxy]; [done|].
  rewrite filter_cons, IH, !filter_cons.
  repeat case_decide; try done. lia.
Qed.

(** Elements with equal keys keep their order. *)
Lemma sort_by_key_stable k l :
  filter (λ y, key y = k) (sort_by_key l) = filter (λ y, key y = k) l.
Proof.
  induction l as [|x l IH]; simpl; [done|].
  rewrite sort_insert_filter by apply sort_by_key_sorted.
  by rewrite !filter_cons, IH.
Qed.

(** [Iterator::min_by_key]: the first of the minimal elements. *)
Fixpoint min_by_key (l : list A) : option A :=
  match l with
  | [] => None
  | x :: l' =>
    match min_by_key l' with
    | Some y => if (key x <=? key y)%Z then Some x else Some y
    | None => Some x
    end
  end.

Lemma min_by_key_None l : min_by_key l = None ↔ l = [].
Proof. destruct l; simpl; [done|]. split; [|done]. repeat case_match; done. Qed.

Lemma min_by_key_Some l x :
  min_by_key l = Some x → x ∈ l ∧ ∀ y, y ∈ l → (key x <= key y)%Z.
Proof.
  revert x. induction l as [|z l IH]; intros x; simpl; [done|].
  destruct (min_by_key l) as [y|] eqn:Hm.
  - destruct (IH y eq_refl) as [Hy Hmin].
    destruct (Z.leb_spec (key z) (key y)) as [Hzy|Hzy]; intros [= <-].
    + split; [set_solver|]. intros w [->|Hw]%elem_of_cons; [lia|].
      specialize (Hmin w Hw). lia.
    + split; [set_solver|]. intros w [->|Hw]%elem_of_cons; [lia|]. auto.
  - apply min_by_key_None in Hm as ->. intros [= <-].
    split; [set_solver|]. intros w [->|Hw]%elem_of_cons; [lia|]. set_solver.
Qed.
End sort_by_key.

(** ** [BTreeMap]: association list in increasing key order *)

Section btree.
Context {V : Type}.

Fixpoint btree_insert (k : Z) (v : V) (m : list (Z * V)) : list (Z * V) :=
  match m with
  | [] => [(k, v)]
  | (k', v') :: m' =>
    if (k <? k')%Z then (k, v) :: m
    else if (k =? k')%Z then (k, v) :: m'
    else (k', v') :: btree_insert k v m'
  end.

Definition btree_values (m : list (Z * V)) : list V := m.*2.

Definition btree_wf (m : list (Z * V)) : Prop := StronglySorted Z.lt m.*1.

Lemma btree_insert_elem k v m p :
  btree_wf m → p ∈ btree_insert k v m ↔ p = (k, v) ∨ (p ∈ m ∧ p.1 ≠ k).
Proof.
  induction m as [|[k' v'] m IH]; simpl; intros Hwf; [set_solver|].
  apply StronglySorted_inv in Hwf as [Hwf Hall].
  assert (∀ q, q ∈ m → (k' < q.1)%Z) as Hlt.
  { intros q Hq. rewrite Forall_forall in Hall. apply Hall. by apply list_elem_of_fmap_2. }
  destruct (Z.ltb_spec k k') as [H1|H1]; [|destruct (Z.eqb_spec k k') as [->|H2]].
  - rewrite !elem_of_cons. split; [|naive_solver].
    intros [->|[->|Hp]]; [naive_solver| |]; right; (split; [naive_solver|simpl]); [lia|].
    specialize (Hlt p Hp). lia.
  - rewrite !elem_of_cons. split; [|naive_solver].
    intros [->|Hp]; [naive_solver|]. right. split; [naive_solver|].
    specialize (Hlt p Hp). lia.
  - rewrite !elem_of_cons, IH by done. split; [|naive_solver].
    intros [->|[->|[Hp Hne]]]; [right; simpl; split; [naive_solver|lia]|naive_solver|naive_solver].
Qed.

Lemma btree_insert_wf k v m : btree_wf m → btree_wf (btree_insert k v m).
Proof.
  unfold btree_wf. induction m as [|[k' v'] m IH]; intros Hwf; [repeat constructor|].
  cbn [btree_insert]. pose proof Hwf as Hwf'. cbn [fmap list_fmap fst] in Hwf'.
  apply StronglySorted_inv in Hwf' as [Hm Hall].
  destruct (Z.ltb_spec k k') as [H1|H1]; [|destruct (Z.eqb_spec k k') as [->|H2]].
  - constructor; [done|]. constructor; [done|].
    eapply Forall_impl; [exact Hall|]. simpl. intros; lia.
  - by constructor.
  - cbn [fmap list_fmap fst]. constructor; [by apply IH|].
    apply Forall_forall. intros j ([j' w] & -> & Hj)%list_elem_of_fmap.
    apply btree_insert_elem in Hj as [[= -> ->]|[Hj _]]; [simpl; lia| |done].
    rewrite Forall_forall in Hall. apply Hall. by apply (list_elem_of_fmap_2 fst) in Hj.
Qed.

(** Two sorted association lists with the same elements are equal. *)
Lemma btree_ext (m1 m2 : list (Z * V)) :
  btree_wf m1 → btree_wf m2 → (∀ p, p ∈ m1 ↔ p ∈ m2) → m1 = m2.
Proof.
  unfold btree_wf. revert m2. induction m1 as [|[k v] m1 IH]; intros m2 H1 H2 Heq.
  { destruct m2 as [|p m2]; [done|]. exfalso. specialize (Heq p). set_solver. }
  destruct m2 as [|[k' v'] m2].
  { exfalso. specialize (Heq (k, v)). set_solver. }
  cbn in H1, H2. apply StronglySorted_inv in H1 as [H1 A1], H2 as [H2 A2].
  rewrite Forall_forall in A1, A2.
  assert (∀ q, q ∈ m1 → (k < q.1)%Z) as L1.
  { intros q Hq. apply A1. by apply list_elem_of_fmap_2. }
  assert (∀ q, q ∈ m2 → (k' < q.1)%Z) as L2.
  { intros q Hq. apply A2. by apply list_elem_of_fmap_2. }
  assert ((k, v) = (k', v')) as E.
  { pose proof (proj1 (Heq (k, v)) ltac:(set_solver)) as [?|Ha]%elem_of_cons; [done|].
    pose proof (proj2 (Heq (k', v')) ltac:(set_solver)) as [?|Hb]%elem_of_cons; [done|].
    apply L2 in Ha. apply L1 in Hb. simpl in *. lia. }
  injection E as <- <-. f_equal. apply IH; [done..|].
  intros p. specialize (Heq p). rewrite !elem_of_cons in Heq.
  split; intros Hp; [pose proof (L1 p Hp) as Hk | pose proof (L2 p Hp) as Hk].
  - destruct (proj1 Heq (or_intror Hp)) as [->|]; [simpl in Hk; lia|done].
  - destruct (proj2 Heq (or_intror Hp)) as [->|]; [simpl in Hk; lia|done].
Qed.
End btree.
