(* ===== verification/Effects.v ===== *)
(** * Tasks, critical sections and calls to the environment

    An [async fn] of the sources is a program ([prog]) over

    - [Lock f]: one critical section of the node's shared state ([Arc<Mutex<_>>]
      and atomics): [f] runs without interleaving;
    - [Call e]: an [.await] on, or a call of, code outside the node (a transport,
      the operating system's entropy or timers); the answer is the environment's;
    - [Spawn t]: [tokio::spawn] of the task [t], a value that names its code;
    - [Stuck]: the task has panicked, or waits for ever.

    [run] executes one program alone; [exec] interleaves a pool of tasks, one
    atomic step at a time, under an arbitrary schedule. [safe] is the proof
    principle: a program that keeps an invariant at each of its critical sections,
    whatever the environment answers, keeps it under every interleaving. *)

From S2P Require Import Prelude RustStd.

Inductive stuck := Panicked | Blocked.

#[export] Instance stuck_eq_dec : EqDecision stuck.
Proof. solve_decision. Defined.

Section Effects.
(** Shared state, calls of the environment (indexed by the type of the
    answer), names of background tasks. *)
Context {S : Type} {E : Type → Type} {T : Type}.

Inductive prog (A : Type) : Type :=
| Ret (a : A)
| Lock (X : Type) (f : S → X * S) (k : X → prog A)
| Call (X : Type) (e : E X) (k : X → prog A)
| Spawn (t : T) (k : prog A)
| Stuck (w : stuck).
#[global] Arguments Ret {A} _.
#[global] Arguments Lock {A X} _ _.
#[global] Arguments Call {A X} _ _.
#[global] Arguments Spawn {A} _ _.
#[global] Arguments Stuck {A} _.

Fixpoint bind {A B} (p : prog A) (f : A → prog B) : prog B :=
  match p with
  | Ret a => f a
  | Lock g k => Lock g (λ x, bind (k x) f)
  | Call e k => Call e (λ x, bind (k x) f)
  | Spawn t k => Spawn t (bind k f)
  | Stuck w => Stuck w
  end.

Definition lock {X} (f : S → X * S) : prog X := Lock f Ret.
Definition modify (f : S → S) : prog unit := lock (λ s, (tt, f s)).
Definition read {X} (f : S → X) : prog X := lock (λ s, (f s, s)).
Definition call {X} (e : E X) : prog X := Call e Ret.
Definition spawn (t : T) : prog unit := Spawn t (Ret tt).

(** A pure computation that may panic, inside a task. *)
Definition lift {A} (m : rust A) : prog A :=
  match m with Val a => Ret a | Panic => Stuck Panicked end.

(** A future that is dropped, as [tokio::time::timeout] drops the one it polls when its timer
    fires: [n] of its calls have been answered, the others never happen. *)
Fixpoint dropped_after {A} (n : nat) (p : prog A) : prog unit :=
  match p with
  | Ret _ => Ret tt
  | Lock g k => Lock g (λ x, dropped_after n (k x))
  | Call e k =>
    match n with
    | O => Ret tt
    | Datatypes.S n => Call e (λ x, dropped_after n (k x))
    end
  | Spawn t k => Spawn t (dropped_after n k)
  | Stuck Panicked => Stuck Panicked
  | Stuck Blocked => Ret tt
  end.

(** ** One task alone *)

Inductive final (A : Type) := Returned (a : A) | StuckAt (w : stuck).
#[global] Arguments Returned {A} _.
#[global] Arguments StuckAt {A} _.

Section semantics.
(** The environment: its state, its answers (with the time the call took). *)
Context {W : Type} (answer : ∀ X, E X → W → X * N * W) (tick : N → S → S).

Record ran (A : Type) := Ran {
  r_final : final A; r_shared : S; r_env : W; r_spawned : list T }.
#[global] Arguments Ran {A} _ _ _ _.
#[global] Arguments r_final {A} _.
#[global] Arguments r_shared {A} _.
#[global] Arguments r_env {A} _.
#[global] Arguments r_spawned {A} _.

Definition add_spawned {A} (ts : list T) (r : ran A) : ran A :=
  Ran (r_final r) (r_shared r) (r_env r) (ts ++ r_spawned r).

Lemma add_spawned_nil {A} (r : ran A) : add_spawned [] r = r.
Proof. by destruct r. Qed.

Fixpoint run {A} (p : prog A) (s : S) (w : W) : ran A :=
  match p with
  | Ret a => Ran (Returned a) s w []
  | Lock f k => run (k (f s).1) (f s).2 w
  | Call e k =>
    let '(x, d, w') := answer _ e w in run (k x) (tick d s) w'
  | Spawn t k => add_spawned [t] (run k s w)
  | Stuck why => Ran (StuckAt why) s w []
  end.

Lemma run_bind {A B} (p : prog A) (f : A → prog B) s w :
  run (bind p f) s w =
  match r_final (run p s w) with
  | Returned a =>
    add_spawned (r_spawned (run p s w))
      (run (f a) (r_shared (run p s w)) (r_env (run p s w)))
  | StuckAt why =>
    Ran (StuckAt why) (r_shared (run p s w)) (r_env (run p s w)) (r_spawned (run p s w))
  end.
Proof.
  revert s w. induction p as [a|X g k IH|X e k IH|t k IH|why]; intros s w; simpl.
  - by destruct (run (f a) s w).
  - apply IH.
  - destruct (answer X e w) as [[x d] w']. apply IH.
  - rewrite IH. by destruct (run k s w) as [[] ? ? ?].
  - done.
Qed.

(** A sequence that returned: its first part did, and the rest went on from there. *)
Lemma run_bind_returned {A B} (p : prog A) (f : A → prog B) s w b :
  r_final (run (bind p f) s w) = Returned b →
  ∃ a, r_final (run p s w) = Returned a ∧
    r_final (run (f a) (r_shared (run p s w)) (r_env (run p s w))) = Returned b ∧
    r_env (run (bind p f) s w) = r_env (run (f a) (r_shared (run p s w)) (r_env (run p s w))).
Proof. rewrite run_bind. destruct (r_final (run p s w)) as [a|why]; [|done]. by exists a. Qed.

(** A program that does not look at the shared state: from environment [w] it
    returns [a] and leaves [w']. *)
Definition yields {A} (p : prog A) (w : W) (a : A) (w' : W) : Prop :=
  ∀ s, r_final (run p s w) = Returned a ∧ r_env (run p s w) = w'.

Lemma yields_ret {A} (a : A) w : yields (Ret a) w a w.
Proof. done. Qed.

Lemma yields_bind {A B} (p : prog A) (f : A → prog B) w a w' b w'' :
  yields p w a w' → yields (f a) w' b w'' → yields (bind p f) w b w''.
Proof.
  intros Hp Hf s. rewrite run_bind. destruct (Hp s) as [-> ->]. apply Hf.
Qed.

Lemma yields_call {X} (e : E X) w x d w' :
  answer X e w = (x, d, w') → yields (call e) w x w'.
Proof. intros He s. simpl. by rewrite He. Qed.

(** ** A pool of tasks *)

(** One atomic step of a task: it continues as the returned program. *)
Definition step_prog (p : prog unit) (s : S) (w : W) : prog unit * S * W * list T :=
  match p with
  | Ret a => (Ret a, s, w, [])
  | Lock f k => (k (f s).1, (f s).2, w, [])
  | Call e k => let '(x, d, w') := answer _ e w in (k x, tick d s, w', [])
  | Spawn t k => (k, s, w, [t])
  | Stuck why => (Stuck why, s, w, [])
  end.

Record config := Config { c_pool : list (prog unit); c_shared : S; c_env : W }.

(** The scheduler's choices: step task [i], or let time pass. *)
Inductive choice := Step (i : nat) | Idle (d : N).

(** The code of each background task. *)
Context (body : T → prog unit).

Definition step_config (ch : choice) (c : config) : config :=
  match ch with
  | Step i =>
    match c_pool c !! i with
    | Some p =>
      let '(p', s', w', ts) := step_prog p (c_shared c) (c_env c) in
      Config (<[i := p']> (c_pool c) ++ (body <$> ts)) s' w'
    | None => c
    end
  | Idle d => Config (c_pool c) (tick d (c_shared c)) (c_env c)
  end.

Fixpoint exec (sched : list choice) (c : config) : config :=
  match sched with
  | [] => c
  | ch :: sched => exec sched (step_config ch c)
  end.

Lemma exec_app sched1 sched2 c : exec (sched1 ++ sched2) c = exec sched2 (exec sched1 c).
Proof. revert c. induction sched1 as [|ch sched1 IH]; intros c; simpl; [done|apply IH]. Qed.
End semantics.

(** ** Invariants under interleaving *)

(** [R] restricts what the environment answers, [I] is the invariant of the shared
    state, [G] what is required of a task that is spawned. *)
Section under.
Context (R : ∀ X, E X → X → Prop) (I : S → Prop) (G : T → Prop).

Fixpoint safe_under {A} (p : prog A) (Q : A → Prop) : Prop :=
  match p with
  | Ret a => Q a
  | Lock f k => ∀ s, I s → I (f s).2 ∧ safe_under (k (f s).1) Q
  | Call e k => ∀ x, R _ e x → safe_under (k x) Q
  | Spawn t k => G t ∧ safe_under k Q
  | Stuck w => w = Blocked
  end.

Lemma safe_under_bind {A B} (p : prog A) (f : A → prog B) (Q : B → Prop) :
  safe_under p (λ a, safe_under (f a) Q) → safe_under (bind p f) Q.
Proof.
  induction p as [a|X g k IH|X e k IH|t k IH|w]; simpl; [done| | | |done].
  - intros H s Hs. destruct (H s Hs). auto.
  - auto.
  - intros [? ?]. auto.
Qed.

Lemma safe_under_mono {A} (p : prog A) (Q Q' : A → Prop) :
  (∀ a, Q a → Q' a) → safe_under p Q → safe_under p Q'.
Proof.
  intros HQ. induction p as [a|X f k IH|X e k IH|t k IH|w]; simpl; [auto| | | |done].
  - intros H s Hs. destruct (H s Hs). auto.
  - auto.
  - intros [? ?]. auto.
Qed.

Context {W : Type} (answer : ∀ X, E X → W → X * N * W) (tick : N → S → S).
Context (body : T → prog unit).
Hypothesis answers : ∀ X (e : E X) w, R X e (answer X e w).1.1.
Hypothesis tick_inv : ∀ d s, I s → I (tick d s).
Hypothesis body_safe : ∀ t, G t → safe_under (body t) (λ _, True).

Lemma step_under (p : prog unit) (Q : unit → Prop) s w p' s' w' ts :
  step_prog answer tick p s w = (p', s', w', ts) →
  safe_under p Q → I s → I s' ∧ safe_under p' Q ∧ Forall G ts.
Proof.
  destruct p as [a|X f k|X e k|t k|why]; simpl.
  - intros [= <- <- <- <-]. auto.
  - intros [= <- <- <- <-] H Hs. destruct (H s Hs). auto.
  - pose proof (answers X e w) as Ha. destruct (answer X e w) as [[x d] w''].
    intros [= <- <- <- <-] H Hs. auto.
  - intros [= <- <- <- <-] [? ?] Hs. auto.
  - intros [= <- <- <- <-]. auto.
Qed.

(** [Qs i] holds once task [i] has returned. *)
Context (Qs : nat → Prop).

Definition pool_under (c : config (W := W)) : Prop :=
  I (c_shared c) ∧
  (∀ i p, c_pool c !! i = Some p → safe_under p (λ _, Qs i)) ∧
  (∀ i, length (c_pool c) ≤ i → Qs i).

Lemma step_config_under ch c :
  pool_under c → pool_under (step_config answer tick body ch c).
Proof.
  intros (HI & Hp & Hq). destruct ch as [i|d]; simpl; [|by split_and!; simpl; auto].
  destruct (c_pool c !! i) as [p|] eqn:Hi; [|done].
  destruct (step_prog answer tick p (c_shared c) (c_env c)) as [[[p' s'] w'] ts] eqn:Hs.
  destruct (step_under _ _ _ _ _ _ _ _ Hs (Hp i p Hi) HI) as (HI' & Hp' & Hts).
  split_and!; simpl; [done| |].
  - intros j q [Hj|[Hj Hq']]%lookup_app_Some.
    + apply list_lookup_insert_Some in Hj as [(<- & <- & _)|[_ Hj]]; [done|eauto].
    + rewrite length_insert in Hj. apply list_lookup_fmap_Some in Hq' as (t & -> & Ht).
      eapply safe_under_mono; [|eapply body_safe, Forall_lookup_1; eauto]. auto.
  - intros j. rewrite length_app, length_insert. intros Hj. apply Hq. lia.
Qed.

Lemma exec_under sched c :
  pool_under c → pool_under (exec answer tick body sched c).
Proof.
  revert c. induction sched as [|ch sched IH]; intros c Hc; simpl; [done|].
  by apply IH, step_config_under.
Qed.
End under.

Section safe.
(** [I] the invariant of the shared state, [G] what is required of a task
    that is spawned. *)
Context (I : S → Prop) (G : T → Prop).

Fixpoint safe {A} (p : prog A) (Q : A → Prop) : Prop :=
  match p with
  | Ret a => Q a
  | Lock f k => ∀ s, I s → I (f s).2 ∧ safe (k (f s).1) Q
  | Call e k => ∀ x, safe (k x) Q
  | Spawn t k => G t ∧ safe k Q
  | Stuck w => w = Blocked
  end.

Lemma safe_mono {A} (p : prog A) (Q Q' : A → Prop) :
  (∀ a, Q a → Q' a) → safe p Q → safe p Q'.
Proof.
  intros HQ. induction p as [a|X f k IH|X e k IH|t k IH|w]; simpl; [auto| | | |done].
  - intros H s Hs. destruct (H s Hs). auto.
  - auto.
  - intros [? ?]. auto.
Qed.

Lemma safe_bind {A B} (p : prog A) (f : A → prog B) (Q : B → Prop) :
  safe p (λ a, safe (f a) Q) → safe (bind p f) Q.
Proof.
  induction p as [a|X g k IH|X e k IH|t k IH|w]; simpl; [done| | | |done].
  - intros H s Hs. destruct (H s Hs). auto.
  - auto.
  - intros [? ?]. auto.
Qed.

(** The shape sequential proofs use: a result [R] of the first part suffices. *)
Lemma safe_seq {A B} (R : A → Prop) (p : prog A) (f : A → prog B) (Q : B → Prop) :
  safe p R → (∀ a, R a → safe (f a) Q) → safe (bind p f) Q.
Proof. intros Hp Hf. apply safe_bind. eapply safe_mono; [exact Hf|exact Hp]. Qed.

Section exec.
Context {W : Type} (answer : ∀ X, E X → W → X * N * W) (tick : N → S → S).
Context (body : T → prog unit).
Hypothesis tick_inv : ∀ d s, I s → I (tick d s).
Hypothesis body_safe : ∀ t, G t → safe (body t) (λ _, True).

Definition pool_safe (c : config (W := W)) : Prop :=
  I (c_shared c) ∧ Forall (λ p, safe p (λ _, True)) (c_pool c).

Lemma run_safe {A} (p : prog A) (Q : A → Prop) s w :
  safe p Q → I s →
  I (r_shared (run answer tick p s w)) ∧
  Forall G (r_spawned (run answer tick p s w)) ∧
  match r_final (run answer tick p s w) with
  | Returned a => Q a | StuckAt why => why = Blocked end.
Proof.
  revert s w. induction p as [a|X f k IH|X e k IH|t k IH|why]; intros s w; simpl.
  - done.
  - intros H Hs. destruct (H s Hs). auto.
  - intros H Hs. destruct (answer X e w) as [[x d] w']. auto.
  - intros [? H] Hs. destruct (IH s w H Hs) as (? & ? & ?). auto.
  - done.
Qed.

Lemma safe_unrestricted {A} (p : prog A) (Q : A → Prop) :
  safe p Q ↔ safe_under (λ _ _ _, True) I G p Q.
Proof.
  induction p as [a|X f k IH|X e k IH|t k IH|w]; simpl; [done| | | |done].
  - split; intros H s Hs; destruct (H s Hs); split; try done; by apply IH.
  - split; intros H x; [intros _; by apply IH|by apply IH, H].
  - by rewrite IH.
Qed.

(** Every interleaving keeps the invariant, and no task panics. *)
Lemma exec_safe sched c :
  pool_safe c → pool_safe (exec answer tick body sched c).
Proof.
  intros [HI Hp].
  destruct (exec_under (λ _ _ _, True) I G answer tick body (λ _ _ _, Logic.I) tick_inv
    (λ t Ht, proj1 (safe_unrestricted _ _) (body_safe t Ht)) (λ _, True) sched c)
    as (HI' & Hp' & _).
  - split_and!; [done| |done]. intros i p Hi. apply safe_unrestricted.
    by eapply Forall_lookup_1 in Hp.
  - split; [done|]. apply Forall_lookup. intros i p Hi. apply safe_unrestricted. eauto.
Qed.
End exec.
End safe.
(** ** Calls that fail

    Some answers make the task that gets them panic ([fails]). [sturdy] is [safe] but for
    that: the program keeps the invariant, and panics only at such an answer. *)
Section sturdy.
Context (fails : ∀ X, E X → X → bool) (I : S → Prop) (G : T → Prop).

Fixpoint sturdy {A} (p : prog A) (Q : A → Prop) : Prop :=
  match p with
  | Ret a => Q a
  | Lock f k => ∀ s, I s → I (f s).2 ∧ sturdy (k (f s).1) Q
  | Call e k => ∀ x, sturdy (k x) Q ∨ fails _ e x = true ∧ k x = Stuck Panicked
  | Spawn t k => G t ∧ sturdy k Q
  | Stuck w => w = Blocked
  end.

Lemma sturdy_of_safe {A} (p : prog A) (Q : A → Prop) : safe I G p Q → sturdy p Q.
Proof.
  induction p as [a|X f k IH|X e k IH|t k IH|w]; simpl; [done| | | |done].
  - intros H s Hs. destruct (H s Hs). auto.
  - auto.
  - intros [? ?]. auto.
Qed.

Lemma sturdy_mono {A} (p : prog A) (Q Q' : A → Prop) :
  (∀ a, Q a → Q' a) → sturdy p Q → sturdy p Q'.
Proof.
  intros HQ. induction p as [a|X f k IH|X e k IH|t k IH|w]; simpl; [auto| | | |done].
  - intros H s Hs. destruct (H s Hs). auto.
  - intros H x. destruct (H x); auto.
  - intros [? ?]. auto.
Qed.

Lemma sturdy_seq {A B} (R : A → Prop) (p : prog A) (f : A → prog B) (Q : B → Prop) :
  sturdy p R → (∀ a, R a → sturdy (f a) Q) → sturdy (bind p f) Q.
Proof.
  intros Hp Hf. revert Hp. induction p as [a|X g k IH|X e k IH|t k IH|w]; simpl; [auto| | | |done].
  - intros H s Hs. destruct (H s Hs). auto.
  - intros H x. destruct (H x) as [Hx|[Hx Hk]]; [auto|]. right. by rewrite Hk.
  - intros [? ?]. auto.
Qed.

Section runs.
Context {W : Type} (answer : ∀ X, E X → W → X * N * W) (tick : N → S → S).
Hypothesis tick_inv : ∀ d s, I s → I (tick d s).

(** Some call, in some state of the environment, fails. *)
Definition may_fail : Prop := ∃ X (e : E X) w, fails X e (answer X e w).1.1 = true.

Lemma run_sturdy {A} (p : prog A) (Q : A → Prop) s w :
  sturdy p Q → I s →
  I (r_shared (run answer tick p s w)) ∧
  Forall G (r_spawned (run answer tick p s w)) ∧
  match r_final (run answer tick p s w) with
  | Returned a => Q a | StuckAt why => why = Panicked → may_fail end.
Proof.
  revert s w. induction p as [a|X f k IH|X e k IH|t k IH|why]; intros s w; simpl.
  - done.
  - intros H Hs. destruct (H s Hs). auto.
  - intros H Hs. destruct (answer X e w) as [[x d] w'] eqn:Ha.
    destruct (H x) as [Hx|[Hx ->]]; [auto|]. simpl. split_and!; auto.
    intros _. exists X, e, w. by rewrite Ha.
  - intros [? H] Hs. destruct (IH s w H Hs) as (? & ? & ?). auto.
  - by intros -> ?.
Qed.

Context (body : T → prog unit).
Hypothesis body_sturdy : ∀ t, G t → sturdy (body t) (λ _, True).

(** Task [i], stepped by this choice, gets an answer that makes it panic. *)
Definition call_fails (c : config (W := W)) (ch : choice) (i : nat) : Prop :=
  ch = Step i ∧ ∃ X (e : E X) k, c_pool c !! i = Some (Call e k) ∧
    fails X e (answer X e (c_env c)).1.1 = true.

(** At some point of the schedule it did. *)
Definition failed_call (sched : list choice) (c : config (W := W)) (i : nat) : Prop :=
  ∃ n ch, sched !! n = Some ch ∧ call_fails (exec answer tick body (take n sched) c) ch i.

Definition sturdy_pool (failed : nat → Prop) (c : config (W := W)) : Prop :=
  I (c_shared c) ∧ ∀ i p, c_pool c !! i = Some p →
    sturdy p (λ _, True) ∨ p = Stuck Panicked ∧ failed i.

Lemma step_sturdy failed ch c :
  sturdy_pool failed c → (∀ i, call_fails c ch i → failed i) →
  sturdy_pool failed (step_config answer tick body ch c).
Proof.
  intros [HI Hpool] Hnow. destruct ch as [j|d]; simpl; [|split; simpl; auto].
  destruct (c_pool c !! j) as [p|] eqn:Hj; [|by split].
  assert (∀ p' s' w' ts, step_prog answer tick p (c_shared c) (c_env c) = (p', s', w', ts) →
    I s' ∧ Forall G ts ∧ (sturdy p' (λ _, True) ∨ p' = Stuck Panicked ∧ failed j)) as Hstep.
  { intros p' s' w' ts Hst. destruct (Hpool j p Hj) as [Hp|[-> Hb]].
    2:{ injection Hst as <- <- <- <-. by auto. }
    destruct p as [a|X f k|X e k|t k|why]; simpl in *.
    - injection Hst as <- <- <- <-. by auto.
    - injection Hst as <- <- <- <-. destruct (Hp _ HI). auto.
    - destruct (answer X e (c_env c)) as [[x d] w''] eqn:Ha. injection Hst as <- <- <- <-.
      split_and!; [auto|done|]. destruct (Hp x) as [?|[Hf Hk]]; [by left|]. right. split; [done|].
      apply Hnow. split; [done|]. exists X, e, k. by rewrite Ha.
    - injection Hst as <- <- <- <-. destruct Hp. auto.
    - injection Hst as <- <- <- <-. by auto. }
  destruct (step_prog _ _ _ _ _) as [[[p' s'] w'] ts].
  destruct (Hstep _ _ _ _ eq_refl) as (Hs' & Hts & Hp').
  split; simpl; [done|]. intros i q [Hi|[Hi Hq]]%lookup_app_Some.
  - apply list_lookup_insert_Some in Hi as [(-> & <- & _)|[_ Hi]]; [done|eauto].
  - left. apply list_lookup_fmap_Some in Hq as (t & -> & Ht).
    eapply body_sturdy, Forall_lookup_1; eauto.
Qed.

Lemma failed_call_snoc sched ch c i :
  failed_call (sched ++ [ch]) c i ↔
  failed_call sched c i ∨ call_fails (exec answer tick body sched c) ch i.
Proof.
  split.
  - intros (n & ch' & Hn & Hf). apply lookup_app_Some in Hn as [Hn|[Hle Hn]].
    + left. exists n, ch'. pose proof (lookup_lt_Some _ _ _ Hn). rewrite take_app_le in Hf by lia. done.
    + right. apply list_lookup_singleton_Some in Hn as [Hn ->].
      replace n with (length sched) in Hf by lia. by rewrite take_app_length in Hf.
  - intros [(n & ch' & Hn & Hf)|Hf].
    + exists n, ch'. pose proof (lookup_lt_Some _ _ _ Hn).
      rewrite lookup_app_l, take_app_le by lia. done.
    + exists (length sched), ch. rewrite list_lookup_middle, take_app_length by done. done.
Qed.

(** Every interleaving keeps the invariant, and a task that has panicked did so at a call
    that failed. *)
Lemma exec_sturdy sched c :
  I (c_shared c) → Forall (λ p, sturdy p (λ _, True)) (c_pool c) →
  sturdy_pool (failed_call sched c) (exec answer tick body sched c).
Proof.
  intros HI Hpool. induction sched as [|ch sched IH] using rev_ind.
  { split; [done|]. intros i p Hi. left. by eapply Forall_lookup_1 in Hpool. }
  rewrite exec_app. apply step_sturdy.
  - destruct IH as [? IH]. split; [done|]. intros i p Hi.
    destruct (IH i p Hi) as [?|[-> ?]]; [by left|]. right. rewrite failed_call_snoc. auto.
  - intros i Hf. apply failed_call_snoc. by right.
Qed.
End runs.

(** Where no call fails a sturdy program is safe. *)
Lemma sturdy_under (R : ∀ X, E X → X → Prop) {A} (p : prog A) (Q : A → Prop) :
  (∀ X (e : E X) x, R X e x → fails X e x = false) →
  sturdy p Q → safe_under R I G p Q.
Proof.
  intros HR. induction p as [a|X f k IH|X e k IH|t k IH|w]; simpl; [done| | | |done].
  - intros H s Hs. destruct (H s Hs). auto.
  - intros H x Hx. destruct (H x) as [?|[Hf _]]; [auto|]. by rewrite (HR X e x Hx) in Hf.
  - intros [? ?]. auto.
Qed.
End sturdy.

(** ** What was asked and answered *)

(** A call that was made, with its answer. *)
Inductive asked : Type := | Asked (X : Type) (e : E X) (x : X) : asked.
#[global] Arguments Asked {X} _ _.

(** The environment [answer], keeping a log of its calls. *)
Definition logged {W} (answer : ∀ X, E X → W → X * N * W) (X : Type) (e : E X)
    (w : W * list asked) : X * N * (W * list asked) :=
  let '(x, d, w') := answer X e w.1 in (x, d, (w', w.2 ++ [Asked e x])).

(** [tells p Q]: when [p] returns, [Q] holds of the calls it has made and its result,
    whatever it is answered and whatever state it finds. *)
Fixpoint tells {A} (p : prog A) (Q : list asked → A → Prop) : Prop :=
  match p with
  | Ret a => Q [] a
  | Lock f k => ∀ s, tells (k (f s).1) Q
  | Call e k => ∀ x, tells (k x) (λ l a, Q (Asked e x :: l) a)
  | Spawn _ k => tells k Q
  | Stuck _ => True
  end.

Lemma tells_mono {A} (p : prog A) (Q Q' : list asked → A → Prop) :
  (∀ l a, Q l a → Q' l a) → tells p Q → tells p Q'.
Proof.
  revert Q Q'. induction p as [a|X f k IH|X e k IH|t k IH|why]; intros Q Q' HQ; simpl; eauto.
  intros Hk x. eapply IH; [|apply Hk]. eauto.
Qed.

Lemma tells_bind {A B} (p : prog A) (f : A → prog B) (Q : list asked → B → Prop) :
  tells p (λ l a, tells (f a) (λ l' b, Q (l ++ l') b)) → tells (bind p f) Q.
Proof.
  revert Q. induction p as [a|X g k IH|X e k IH|t k IH|why]; intros Q; simpl; eauto.
Qed.

Lemma tells_seq {A B} (R : list asked → A → Prop) (p : prog A) (f : A → prog B)
    (Q : list asked → B → Prop) :
  tells p R → (∀ l a, R l a → tells (f a) (λ l' b, Q (l ++ l') b)) → tells (bind p f) Q.
Proof. intros Hp Hf. apply tells_bind. eapply tells_mono; [exact Hf|exact Hp]. Qed.

Lemma tells_true {A} (p : prog A) : tells p (λ _ _, True).
Proof. induction p; simpl; auto. Qed.

(** What is known of results only. *)
Lemma tells_result {A B} (R : A → Prop) (p : prog A) (f : A → prog B) (Q : B → Prop) :
  tells p (λ _ a, R a) → (∀ a, R a → tells (f a) (λ _ b, Q b)) → tells (bind p f) (λ _ b, Q b).
Proof. intros Hp Hf. eapply tells_seq; [exact Hp|]. auto. Qed.

Lemma run_result {W A} (answer : ∀ X, E X → W → X * N * W) (tick : N → S → S) (p : prog A)
    (Q : A → Prop) s w a :
  tells p (λ _ a, Q a) → r_final (run answer tick p s w) = Returned a → Q a.
Proof.
  revert s w. induction p as [b|X f k IH|X e k IH|t k IH|why]; intros s w Hp; simpl in *.
  - by intros [= ->].
  - eauto.
  - destruct (answer X e w) as [[x d] w']. eauto.
  - eauto.
  - done.
Qed.

Lemma run_call_logged {W X A} (answer : ∀ X, E X → W → X * N * W) (tick : N → S → S) (e : E X)
    (f : X → prog A) s w l :
  run (logged answer) tick (bind (call e) f) s (w, l) =
  let '(x, d, w') := answer X e w in
  run (logged answer) tick (f x) (tick d s) (w', l ++ [Asked e x]).
Proof. simpl. unfold logged at 1. simpl. by destruct (answer X e w) as [[x d] w']. Qed.

(** The log changes nothing. *)
Lemma run_logged {W A} (answer : ∀ X, E X → W → X * N * W) (tick : N → S → S) (p : prog A) s w l :
  let r := run (logged answer) tick p s (w, l) in
  run answer tick p s w = Ran (r_final r) (r_shared r) (r_env r).1 (r_spawned r).
Proof.
  revert s w l. induction p as [b|X f k IH|X e k IH|t k IH|why]; intros s w l; simpl; auto.
  - unfold logged at 1 3 5 7. simpl. destruct (answer X e w) as [[x d] w']. apply IH.
  - by rewrite (IH s w l).
Qed.

(** ** Programs that always return *)

Fixpoint total {A} (p : prog A) : Prop :=
  match p with
  | Ret _ => True
  | Lock f k => ∀ s, total (k (f s).1)
  | Call _ k => ∀ x, total (k x)
  | Spawn _ k => total k
  | Stuck _ => False
  end.

Lemma total_bind {A B} (p : prog A) (f : A → prog B) :
  total p → (∀ a, total (f a)) → total (bind p f).
Proof. intros Hp Hf. induction p; simpl in *; auto. Qed.

Lemma run_total {W A} (answer : ∀ X, E X → W → X * N * W) (tick : N → S → S) (p : prog A) s w :
  total p → ∃ a, r_final (run answer tick p s w) = Returned a.
Proof.
  revert s w. induction p as [a|X f k IH|X e k IH|t k IH|why]; intros s w Hp; simpl in *; auto.
  - eauto.
  - destruct (answer X e w) as [[x d] w']. auto.
  - done.
Qed.
End Effects.

Arguments prog S E T A : clear implicits.
Arguments asked E : clear implicits.
Arguments Asked {E X} _ _.

Notation "x ← p ; q" := (bind p (λ x, q))
  (at level 20, p at level 100, q at level 200, right associativity,
   format "x  ←  p ;  '//' q") : pw_scope.
Notation "' x ← p ; q" := (bind p (λ x', match x' with x => q end))
  (at level 20, x pattern, p at level 100, q at level 200, right associativity,
   format "' x  ←  p ;  '//' q") : pw_scope.
Notation "p ;; q" := (bind p (λ _, q))
  (at level 100, q at level 200, right associativity, format "p ;;  '//' q") : pw_scope.
