(* ===== verification/Types.v ===== *)
(** * The vocabulary of [crates/pathweave-core/src/lib.rs]

    Errors, identities, addresses, announcements, transport events and the node's
    configuration. The cryptographic primitives are code outside the repository
    and enter as the class [Crypto]. *)

From S2P Require Import Prelude RustStd.

(** ** Identity *)

Record PeerId := PeerId_from_bytes { PeerId_as_bytes : array 32 }.

#[export] Instance PeerId_eq_dec : EqDecision PeerId.
Proof. solve_decision. Defined.

#[export] Program Instance PeerId_countable : Countable PeerId :=
  inj_countable PeerId_as_bytes (λ a, Some (PeerId_from_bytes a)) _.
Next Obligation. by intros []. Qed.

Abbreviation PublicKey := (array 32).

(** [blake3::hash] and the X25519 base-point multiplication. *)
Class Crypto := {
  blake3_hash : list byte → array 32;
  x25519_public : array 32 → array 32
}.

Definition peer_id_from_public_key `{Crypto} (public_key : list byte) : PeerId :=
  PeerId_from_bytes (blake3_hash public_key).

(** ** Errors *)

Inductive PathweaveError :=
| NoTransportAvailable
| DeliveryFailed
| ETransport (msg : string)
| ESession (msg : string)
| EBundle (msg : string)
| InvalidKey
| KeyUnknown (p : PeerId)
| Io (msg : string).

Inductive result (A : Type) := Ok (a : A) | Err (e : PathweaveError).
Arguments Ok {A} _.
Arguments Err {A} _.

#[export] Instance PathweaveError_eq_dec : EqDecision PathweaveError.
Proof. solve_decision. Defined.

#[export] Instance result_eq_dec `{EqDecision A} : EqDecision (result A).
Proof. solve_decision. Defined.

Definition result_map {A B} (f : A → B) (r : result A) : result B :=
  match r with Ok a => Ok (f a) | Err e => Err e end.

Definition result_bind {A B} (r : result A) (f : A → result B) : result B :=
  match r with Ok a => f a | Err e => Err e end.

Definition is_ok {A} (r : result A) : bool :=
  match r with Ok _ => true | Err _ => false end.

(** [option.ok_or(e)] *)
Definition ok_or {A} (o : option A) (e : PathweaveError) : result A :=
  match o with Some a => Ok a | None => Err e end.

(** [r.map_err(|e| PathweaveError::Session(e.to_string()))]: the errors of the
    libraries are their messages. *)
Definition map_err {A} (f : string → PathweaveError) (r : string + A) : result A :=
  match r with inr a => Ok a | inl e => Err (f e) end.

(** ** [NodeIdentity] *)

Record NodeIdentity := {
  private_key : list byte;
  public_key : list byte;
  peer_id : PeerId
}.

Section identity.
Context `{Crypto}.

(** [NodeIdentity::generate], given the key pair the Noise library drew. *)
Definition NodeIdentity_generate (keypair : list byte * list byte) : NodeIdentity :=
  {| private_key := keypair.1;
     public_key := keypair.2;
     peer_id := peer_id_from_public_key keypair.2 |}.

Definition NodeIdentity_from_bytes (private : list byte) : result NodeIdentity :=
  match try_into 32 private with
  | None => Err InvalidKey
  | Some key_array =>
    let public := array_to_list (x25519_public key_array) in
    Ok {| private_key := private;
          public_key := public;
          peer_id := peer_id_from_public_key public |}
  end.

(** The binding every constructor of an identity establishes. *)
Definition identity_wf (id : NodeIdentity) : Prop :=
  peer_id id = peer_id_from_public_key (public_key id).
End identity.

(** ** Addresses *)

Inductive SocketAddr :=
| V4 (ip : array 4) (port : u16)
| V6 (ip : array 16) (port : u16) (flowinfo scope_id : u32).

#[export] Instance SocketAddr_eq_dec : EqDecision SocketAddr.
Proof. solve_decision. Defined.

#[export] Program Instance SocketAddr_countable : Countable SocketAddr :=
  inj_countable
    (λ a, match a with
          | V4 ip p => inl (ip, p) | V6 ip p f sc => inr (ip, p, f, sc) end)
    (λ x, Some match x with
               | inl (ip, p) => V4 ip p | inr (ip, p, f, sc) => V6 ip p f sc end) _.
Next Obligation. by intros []. Qed.

Inductive PeerAddress :=
| Quic (addr : SocketAddr)
| Ble (id : rstring)
| WifiDirect (id : rstring)
| BleAdvertising (id : rstring).

#[export] Instance PeerAddress_eq_dec : EqDecision PeerAddress.
Proof. solve_decision. Defined.

#[export] Program Instance PeerAddress_countable : Countable PeerAddress :=
  inj_countable
    (λ a, match a with
          | Quic s => inl (inl s) | Ble s => inl (inr s)
          | WifiDirect s => inr (inl s) | BleAdvertising s => inr (inr s) end)
    (λ x, Some match x with
               | inl (inl s) => Quic s | inl (inr s) => Ble s
               | inr (inl s) => WifiDirect s | inr (inr s) => BleAdvertising s end) _.
Next Obligation. by intros []. Qed.

Record PeerAnnouncement := {
  address : PeerAddress;
  short_id : option (array 8)
}.

#[export] Instance PeerAnnouncement_eq_dec : EqDecision PeerAnnouncement.
Proof. solve_decision. Defined.

Inductive TransportCost := Free | Metered | Unknown.

Inductive TransportKind := KQuic | KBle | KWifiDirect | KBleAdvertising.

#[export] Instance TransportCost_eq_dec : EqDecision TransportCost.
Proof. solve_decision. Defined.

#[export] Instance TransportKind_eq_dec : EqDecision TransportKind.
Proof. solve_decision. Defined.

Definition PeerAddress_kind (a : PeerAddress) : TransportKind :=
  match a with
  | Quic _ => KQuic
  | Ble _ => KBle
  | WifiDirect _ => KWifiDirect
  | BleAdvertising _ => KBleAdvertising
  end.

Inductive TransportEvent :=
| TransportChanged (from : option TransportKind) (to : TransportKind)
| PeerConnected (p : PeerId)
| PeerDisconnected (p : PeerId)
| MessageDelivered (p : PeerId) (transport : TransportKind)
| StoreFailed (p : PeerId)
| KeyLearned (p : PeerId) (key : PublicKey).

#[export] Instance TransportEvent_eq_dec : EqDecision TransportEvent.
Proof. solve_decision. Defined.

(** [PeerEvent] of router.rs: what a transport's discovery streams yield. *)
Inductive PeerEvent :=
| Arrival (ann : PeerAnnouncement)
| Departure (addr : PeerAddress).

(** Durations and instants are nanoseconds of the monotonic clock. *)
Definition secs (n : Z) : Z := (n * 1000000000)%Z.

Record NodeConfig := {
  listen_port : option u16;
  cfg_store_ttl : option Z;
  cfg_max_queue_depth : option nat;
  cfg_max_key_registry_size : option nat
}.

(** [NodeConfig::default()] *)
Definition NodeConfig_default : NodeConfig := {|
  listen_port := None; cfg_store_ttl := None;
  cfg_max_queue_depth := None; cfg_max_key_registry_size := None |}.

Section identity_facts.
Context `{Crypto}.

Lemma from_bytes_Ok private id :
  NodeIdentity_from_bytes private = Ok id ↔
  ∃ k : array 32, array_to_list k = private ∧
    id = {| private_key := private;
            public_key := array_to_list (x25519_public k);
            peer_id := peer_id_from_public_key (array_to_list (x25519_public k)) |}.
Proof.
  unfold NodeIdentity_from_bytes. destruct (try_into 32 private) as [k|] eqn:Hk.
  - apply try_into_Some in Hk. split.
    + intros [= <-]. eauto.
    + intros (k' & Hk' & ->). rewrite <-Hk in Hk'. apply array_eq in Hk' as ->. done.
  - split; [done|]. intros (k & <- & _). by rewrite try_into_array in Hk.
Qed.

Lemma from_bytes_wf private id : NodeIdentity_from_bytes private = Ok id → identity_wf id.
Proof. intros (k & _ & ->)%from_bytes_Ok. done. Qed.

Lemma from_bytes_Err private e :
  NodeIdentity_from_bytes private = Err e ↔ length private ≠ 32 ∧ e = InvalidKey.
Proof.
  unfold NodeIdentity_from_bytes. destruct (try_into 32 private) as [k|] eqn:Hk.
  - apply try_into_Some in Hk. split; [done|]. intros [Hl _]. destruct Hl.
    rewrite <-Hk. apply array_length.
  - split; [|by intros [_ ->]]. intros [= <-]. split; [|done].
    intros Hl. destruct (try_into_is_Some 32 private Hl) as (k & Hk' & _).
    by rewrite Hk in Hk'.
Qed.
End identity_facts.
