(* ===== verification/KeyRegistry.v ===== *)
(** * The key registry ([KeyRegistryState] of lib.rs)

    A map from peer to static public key, with a FIFO of the peers that were
    learned by gossip only; at capacity the oldest of these makes room. The file
    gives the operations, their well-formedness invariant, the size bound, and a
    refinement to an abstract registry of two tables. *)

From S2P Require Import Prelude RustStd Types.

Record KeyRegistryState := {
  entries : gmap PeerId PublicKey;
  gossip_order : list PeerId;
  max_size : option nat
}.

(** ** Operations *)

Definition registry_new (max : option nat) : KeyRegistryState :=
  {| entries := ∅; gossip_order := []; max_size := max |}.

Definition registry_get (r : KeyRegistryState) (p : PeerId) : option PublicKey :=
  entries r !! p.

Definition registry_remove (r : KeyRegistryState) (p : PeerId) :
    option PublicKey * KeyRegistryState :=
  (entries r !! p,
   {| entries := delete p (entries r);
      gossip_order := filter (λ q, q ≠ p) (gossip_order r);
      max_size := max_size r |}).

(** Returns whether the peer had no entry before. *)
Definition insert_direct (r : KeyRegistryState) (p : PeerId) (key : PublicKey) :
    bool * KeyRegistryState :=
  (bool_decide (entries r !! p = None),
   {| entries := <[p := key]> (entries r);
      gossip_order := filter (λ q, q ≠ p) (gossip_order r);
      max_size := max_size r |}).

Definition insert_gossip (r : KeyRegistryState) (p : PeerId) (key : PublicKey) :
    KeyRegistryState :=
  match entries r !! p with
  | Some _ =>
    {| entries := <[p := key]> (entries r);
       gossip_order := gossip_order r; max_size := max_size r |}
  | None =>
    let at_capacity :=
      match max_size r with Some max => max <=? size (entries r) | None => false end in
    let insert_new (m : gmap PeerId PublicKey) (o : list PeerId) :=
      {| entries := <[p := key]> m; gossip_order := o ++ [p]; max_size := max_size r |} in
    if at_capacity then
      match gossip_order r with
      | oldest :: rest => insert_new (delete oldest (entries r)) rest
      | [] => r
      end
    else insert_new (entries r) (gossip_order r)
  end.

(** ** Well-formedness *)

Record registry_wf (r : KeyRegistryState) : Prop := {
  wf_nodup : NoDup (gossip_order r);
  wf_known : ∀ p, p ∈ gossip_order r → is_Some (entries r !! p)
}.

(** Learned by a direct handshake: known, and not up for eviction. *)
Definition is_direct (r : KeyRegistryState) (p : PeerId) : Prop :=
  is_Some (entries r !! p) ∧ p ∉ gossip_order r.

Inductive registry_op :=
| ORemove (p : PeerId)
| ODirect (p : PeerId) (key : PublicKey)
| OGossip (p : PeerId) (key : PublicKey).

Definition apply_op (r : KeyRegistryState) (o : registry_op) : KeyRegistryState :=
  match o with
  | ORemove p => (registry_remove r p).2
  | ODirect p key => (insert_direct r p key).2
  | OGossip p key => insert_gossip r p key
  end.

Definition insert_gossips (r : KeyRegistryState) (l : list (PeerId * PublicKey)) :
    KeyRegistryState :=
  foldl (λ r '(p, key), insert_gossip r p key) r l.

Lemma registry_new_wf max : registry_wf (registry_new max).
Proof. split; simpl; [constructor|set_solver]. Qed.

Lemma registry_remove_wf r p : registry_wf r → registry_wf (registry_remove r p).2.
Proof.
  intros [Hnd Hk]; split; simpl.
  - by apply NoDup_filter.
  - intros q [Hqp Hq]%list_elem_of_filter. rewrite lookup_delete_ne by congruence. auto.
Qed.

Lemma insert_direct_wf r p key : registry_wf r → registry_wf (insert_direct r p key).2.
Proof.
  intros [Hnd Hk]; split; simpl.
  - by apply NoDup_filter.
  - intros q [Hqp Hq]%list_elem_of_filter. rewrite lookup_insert_ne by congruence. auto.
Qed.

Lemma insert_gossip_wf r p key : registry_wf r → registry_wf (insert_gossip r p key).
Proof.
  intros [Hnd Hk]. unfold insert_gossip. destruct (entries r !! p) as [old|] eqn:Hp.
  { split; simpl; [done|]. intros q Hq. rewrite lookup_insert_is_Some'. auto. }
  assert (p ∉ gossip_order r) as Hpn by (intros [? ?]%Hk; congruence).
  match goal with |- context [if ?b then _ else _] => destruct b end.
  - destruct (gossip_order r) as [|oldest rest] eqn:Ho.
    { split; rewrite Ho; [constructor|set_solver]. }
    apply NoDup_cons in Hnd as [Hold Hnd].
    split; simpl.
    + apply NoDup_app. split_and!; [done|set_solver|apply NoDup_singleton].
    + intros q [Hq|Hq]%elem_of_app; rewrite lookup_insert_is_Some'; [|set_solver].
      right. rewrite lookup_delete_ne by set_solver. apply Hk. set_solver.
  - split; simpl.
    + apply NoDup_app. split_and!; [done|set_solver|apply NoDup_singleton].
    + intros q [Hq|Hq]%elem_of_app; rewrite lookup_insert_is_Some'; [auto|set_solver].
Qed.

#[export] Hint Resolve registry_new_wf registry_remove_wf insert_direct_wf insert_gossip_wf : pw.

Lemma apply_op_wf r o : registry_wf r → registry_wf (apply_op r o).
Proof. destruct o; cbn [apply_op]; eauto with pw. Qed.

Lemma apply_ops_wf r ops : registry_wf r → registry_wf (foldl apply_op r ops).
Proof. revert r. induction ops as [|o ops IH]; simpl; intros r Hr; [done|]. by apply IH, apply_op_wf. Qed.

Lemma insert_gossips_wf r l : registry_wf r → registry_wf (insert_gossips r l).
Proof.
  unfold insert_gossips. revert r. induction l as [|[p key] l IH]; simpl; intros r Hr; [done|].
  by apply IH, insert_gossip_wf.
Qed.

(** ** What an insertion does, by cases *)

Definition at_capacity (r : KeyRegistryState) : Prop :=
  ∃ m, max_size r = Some m ∧ m ≤ size (entries r).

Lemma insert_gossip_known r p key :
  is_Some (entries r !! p) →
  insert_gossip r p key =
  {| entries := <[p := key]> (entries r);
     gossip_order := gossip_order r; max_size := max_size r |}.
Proof. intros [old Hp]. unfold insert_gossip. by rewrite Hp. Qed.

Lemma insert_gossip_room r p key :
  entries r !! p = None → ¬ at_capacity r →
  insert_gossip r p key =
  {| entries := <[p := key]> (entries r);
     gossip_order := gossip_order r ++ [p]; max_size := max_size r |}.
Proof.
  intros Hp Hc. unfold insert_gossip. rewrite Hp.
  destruct (max_size r) as [m|] eqn:Hm; [|done].
  destruct (Nat.leb_spec m (size (entries r))) as [H|H]; [|done].
  destruct Hc. exists m. done.
Qed.

Lemma insert_gossip_evict r p key oldest rest :
  entries r !! p = None → at_capacity r → gossip_order r = oldest :: rest →
  insert_gossip r p key =
  {| entries := <[p := key]> (delete oldest (entries r));
     gossip_order := rest ++ [p]; max_size := max_size r |}.
Proof.
  intros Hp (m & Hm & Hs) Ho. unfold insert_gossip. rewrite Hp, Hm, Ho.
  by rewrite (proj2 (Nat.leb_le _ _) Hs).
Qed.

Lemma insert_gossip_drop r p key :
  entries r !! p = None → at_capacity r → gossip_order r = [] → insert_gossip r p key = r.
Proof.
  intros Hp (m & Hm & Hs) Ho. unfold insert_gossip. rewrite Hp, Hm, Ho.
  by rewrite (proj2 (Nat.leb_le _ _) Hs).
Qed.

#[export] Instance at_capacity_dec r : Decision (at_capacity r).
Proof.
  unfold at_capacity. destruct (max_size r) as [m|].
  - destruct (decide (m ≤ size (entries r))) as [H|H]; [left; eauto|right].
    intros (m' & [= <-] & ?). done.
  - right. by intros (m & [=] & _).
Defined.

(** The four branches, as an induction-free case analysis. *)
Lemma insert_gossip_cases (P : KeyRegistryState → Prop) r p key :
  (is_Some (entries r !! p) →
   P {| entries := <[p := key]> (entries r);
        gossip_order := gossip_order r; max_size := max_size r |}) →
  (entries r !! p = None → ¬ at_capacity r →
   P {| entries := <[p := key]> (entries r);
        gossip_order := gossip_order r ++ [p]; max_size := max_size r |}) →
  (∀ oldest rest, entries r !! p = None → at_capacity r → gossip_order r = oldest :: rest →
   P {| entries := <[p := key]> (delete oldest (entries r));
        gossip_order := rest ++ [p]; max_size := max_size r |}) →
  (entries r !! p = None → at_capacity r → gossip_order r = [] → P r) →
  P (insert_gossip r p key).
Proof.
  intros H1 H2 H3 H4. destruct (entries r !! p) as [old|] eqn:Hp.
  { rewrite insert_gossip_known by eauto. apply H1. eauto. }
  destruct (decide (at_capacity r)) as [Hc|Hc]; [|rewrite insert_gossip_room by done; auto].
  destruct (gossip_order r) as [|oldest rest] eqn:Ho.
  - rewrite insert_gossip_drop by done. auto.
  - rewrite (insert_gossip_evict r p key oldest rest) by done. auto.
Qed.

Lemma insert_gossip_max_size r p key : max_size (insert_gossip r p key) = max_size r.
Proof. by apply insert_gossip_cases. Qed.

(** ** Size *)

Lemma insert_gossip_size r p key m :
  registry_wf r → max_size r = Some m →
  size (entries (insert_gossip r p key)) ≤ size (entries r) `max` m.
Proof.
  intros [_ Hk] Hm. apply insert_gossip_cases; simpl.
  - intros [old Hp]. rewrite map_size_insert_Some by eauto. lia.
  - intros Hp Hc. rewrite map_size_insert_None by done.
    assert (size (entries r) < m); [|lia].
    destruct (Nat.lt_ge_cases (size (entries r)) m); [done|].
    destruct Hc. exists m. done.
  - intros oldest rest Hp (m' & Hm' & Hs) Ho.
    destruct (Hk oldest) as [k Hold]; [rewrite Ho; set_solver|].
    rewrite map_size_insert_None.
    + rewrite (map_size_delete_Some oldest) by eauto.
      assert (size (entries r) ≠ 0); [|lia].
      intros H0%map_size_empty_inv. rewrite H0 in Hold. set_solver.
    + rewrite lookup_delete_None. auto.
  - intros _ _ _. lia.
Qed.

Lemma insert_gossips_size r l m :
  registry_wf r → max_size r = Some m →
  size (entries (insert_gossips r l)) ≤ size (entries r) `max` m.
Proof.
  unfold insert_gossips. revert r.
  induction l as [|[p key] l IH]; intros r Hwf Hm; simpl; [lia|].
  specialize (IH (insert_gossip r p key) (insert_gossip_wf _ _ _ Hwf)).
  rewrite insert_gossip_max_size in IH. specialize (IH Hm).
  pose proof (insert_gossip_size r p key m Hwf Hm). lia.
Qed.

(** ** Direct entries *)

Lemma insert_gossip_direct r p key q :
  registry_wf r → is_direct r q → is_direct (insert_gossip r p key) q.
Proof.
  intros Hwf [Hq Hn]. apply insert_gossip_cases; unfold is_direct; simpl.
  - intros _. split; [|done]. apply lookup_insert_is_Some'. auto.
  - intros Hp _. assert (q ≠ p) by (intros ->; destruct Hq; congruence).
    rewrite lookup_insert_ne by done. split; [done|set_solver].
  - intros oldest rest Hp _ Ho. assert (q ≠ p) by (intros ->; destruct Hq; congruence).
    rewrite Ho in Hn. rewrite lookup_insert_ne, lookup_delete_ne by set_solver.
    split; [done|set_solver].
  - done.
Qed.

Lemma insert_gossip_direct_key r p key q :
  registry_wf r → is_direct r q → q ≠ p →
  registry_get (insert_gossip r p key) q = registry_get r q.
Proof.
  intros Hwf [Hq Hn] Hne. unfold registry_get. apply insert_gossip_cases; simpl.
  - intros _. by rewrite lookup_insert_ne.
  - intros _ _. by rewrite lookup_insert_ne.
  - intros oldest rest _ _ Ho. rewrite Ho in Hn.
    by rewrite lookup_insert_ne, lookup_delete_ne by set_solver.
  - done.
Qed.

Lemma insert_direct_is_direct r p key : is_direct (insert_direct r p key).2 p.
Proof.
  split; simpl; [rewrite lookup_insert_eq; eauto|]. intros [? _]%list_elem_of_filter. done.
Qed.

(** ** The self-certifying binding *)

Section binding.
Context `{Crypto}.

(** Every stored key hashes to the peer it is stored for. *)
Definition registry_bound (r : KeyRegistryState) : Prop :=
  ∀ p key, entries r !! p = Some key → p = peer_id_from_public_key (array_to_list key).

Lemma registry_new_bound max : registry_bound (registry_new max).
Proof. intros p key Hp. set_solver. Qed.

Lemma registry_remove_bound r p : registry_bound r → registry_bound (registry_remove r p).2.
Proof. intros Hr q key Hq. simpl in Hq. apply lookup_delete_Some in Hq as [_ Hq]. auto. Qed.

Lemma insert_direct_bound r key :
  registry_bound r →
  registry_bound (insert_direct r (peer_id_from_public_key (array_to_list key)) key).2.
Proof. intros Hr q k Hq. simpl in Hq. apply lookup_insert_Some in Hq as [[<- <-]|[_ ?]]; auto. Qed.

Lemma insert_gossip_bound r p key :
  p = peer_id_from_public_key (array_to_list key) →
  registry_bound r → registry_bound (insert_gossip r p key).
Proof.
  intros Hp Hr q k. apply insert_gossip_cases; simpl; [| | |auto].
  - intros _ [[<- <-]|[_ ?]]%lookup_insert_Some; auto.
  - intros _ _ [[<- <-]|[_ ?]]%lookup_insert_Some; auto.
  - intros ? ? _ _ _ [[<- <-]|[_ [_ ?]%lookup_delete_Some]]%lookup_insert_Some; auto.
Qed.
End binding.

#[export] Hint Resolve registry_new_bound registry_remove_bound insert_direct_bound
  insert_gossip_bound : pw.

(** ** Abstract registry: a table of confirmed peers and a FIFO of rumours *)

Module Spec.
Record registry := {
  confirmed : gmap PeerId PublicKey;
  rumours : list (PeerId * PublicKey)
}.

Definition rumour (l : list (PeerId * PublicKey)) (p : PeerId) : option PublicKey :=
  snd <$> find (λ x, bool_decide (x.1 = p)) l.

Definition get (r : registry) (p : PeerId) : option PublicKey :=
  match confirmed r !! p with Some key => Some key | None => rumour (rumours r) p end.

Definition forget (p : PeerId) (l : list (PeerId * PublicKey)) : list (PeerId * PublicKey) :=
  filter (λ x, x.1 ≠ p) l.

Definition remove (r : registry) (p : PeerId) : registry :=
  {| confirmed := delete p (confirmed r); rumours := forget p (rumours r) |}.

(** A handshake confirms the peer. *)
Definition confirm (r : registry) (p : PeerId) (key : PublicKey) : registry :=
  {| confirmed := <[p := key]> (confirmed r); rumours := forget p (rumours r) |}.

Definition count (r : registry) : nat := size (confirmed r) + length (rumours r).

Definition refresh (p : PeerId) (key : PublicKey) (l : list (PeerId * PublicKey)) :
    list (PeerId * PublicKey) :=
  (λ x, if bool_decide (x.1 = p) then (p, key) else x) <$> l.

(** A rumour about a known peer refreshes its key; about a new one it is
    appended, in place of the oldest rumour when the registry is full, and
    dropped when there is none to replace. *)
Definition hear (max : option nat) (r : registry) (p : PeerId) (key : PublicKey) : registry :=
  if decide (is_Some (confirmed r !! p)) then
    {| confirmed := <[p := key]> (confirmed r); rumours := rumours r |}
  else if decide (p ∈ (rumours r).*1) then
    {| confirmed := confirmed r; rumours := refresh p key (rumours r) |}
  else if (match max with Some m => m <=? count r | None => false end) then
    match rumours r with
    | _ :: rest => {| confirmed := confirmed r; rumours := rest ++ [(p, key)] |}
    | [] => r
    end
  else {| confirmed := confirmed r; rumours := rumours r ++ [(p, key)] |}.

Definition apply (max : option nat) (r : registry) (o : registry_op) : registry :=
  match o with
  | ORemove p => remove r p
  | ODirect p key => confirm r p key
  | OGossip p key => hear max r p key
  end.

Definition empty : registry := {| confirmed := ∅; rumours := [] |}.
End Spec.

(** The abstraction: direct entries, and gossip entries in their order. *)
Definition lookup_pair (m : gmap PeerId PublicKey) (p : PeerId) : option (PeerId * PublicKey) :=
  pair p <$> m !! p.

Definition abs (r : KeyRegistryState) : Spec.registry := {|
  Spec.confirmed := filter (λ x, x.1 ∉ gossip_order r) (entries r);
  Spec.rumours := omap (lookup_pair (entries r)) (gossip_order r)
|}.

Section refinement.
Implicit Types (r : KeyRegistryState) (m : gmap PeerId PublicKey) (o : list PeerId).

Lemma omap_pair_cons m q o :
  omap (lookup_pair m) (q :: o) =
  match m !! q with
  | Some k => (q, k) :: omap (lookup_pair m) o
  | None => omap (lookup_pair m) o
  end.
Proof. unfold lookup_pair. simpl. by destruct (m !! q). Qed.

Lemma omap_pair_ext m m' o :
  (∀ q, q ∈ o → m !! q = m' !! q) → omap (lookup_pair m) o = omap (lookup_pair m') o.
Proof.
  intros Heq. induction o as [|q o IH]; [done|].
  rewrite !omap_pair_cons, Heq, IH by set_solver. done.
Qed.

Lemma omap_pair_forget m o p :
  omap (lookup_pair m) (filter (λ q, q ≠ p) o) = Spec.forget p (omap (lookup_pair m) o).
Proof.
  unfold Spec.forget. induction o as [|q o IH]; [done|].
  rewrite filter_cons, (omap_pair_cons m q o). case_decide as Hq.
  - rewrite omap_pair_cons, IH. destruct (m !! q) as [k|]; [|done].
    by rewrite filter_cons_True.
  - rewrite IH. destruct (m !! q) as [k|]; [|done]. rewrite filter_cons_False; auto.
Qed.

Lemma omap_pair_refresh m o p key :
  p ∈ dom m →
  omap (lookup_pair (<[p := key]> m)) o = Spec.refresh p key (omap (lookup_pair m) o).
Proof.
  intros [old Hold]%elem_of_dom. unfold Spec.refresh.
  induction o as [|q o IH]; [done|]. rewrite !omap_pair_cons, IH.
  destruct (decide (q = p)) as [->|Hne].
  - rewrite lookup_insert_eq, Hold. simpl. by rewrite bool_decide_eq_true_2.
  - rewrite lookup_insert_ne by done. destruct (m !! q) as [k|]; simpl; [|done].
    by rewrite bool_decide_eq_false_2.
Qed.

Lemma abs_rumour_peers r : registry_wf r → (Spec.rumours (abs r)).*1 = gossip_order r.
Proof.
  intros [_ Hk]. cbn [abs Spec.rumours]. revert Hk. generalize (gossip_order r) as o.
  induction o as [|q o IH]; intros Hk; [done|]. rewrite omap_pair_cons.
  destruct (Hk q) as [k ->]; [set_solver|]. rewrite fmap_cons, IH by set_solver. done.
Qed.

Lemma abs_confirmed r p :
  Spec.confirmed (abs r) !! p = if decide (p ∈ gossip_order r) then None else entries r !! p.
Proof.
  simpl. case_decide as Hp.
  - apply map_lookup_filter_None. right. intros k _. simpl. tauto.
  - destruct (entries r !! p) as [k|] eqn:Hk.
    + apply map_lookup_filter_Some. done.
    + apply map_lookup_filter_None. by left.
Qed.

Lemma abs_count r : registry_wf r → Spec.count (abs r) = size (entries r).
Proof.
  intros Hwf. unfold Spec.count.
  rewrite <-(length_fmap fst (Spec.rumours (abs r))), abs_rumour_peers by done.
  destruct Hwf as [Hnd Hk].
  rewrite <-(size_dom (entries r)), <-(size_dom (Spec.confirmed (abs r))).
  rewrite <-(size_list_to_set (C := gset PeerId) _ Hnd).
  rewrite <-size_union.
  - f_equal. apply set_eq. intros p.
    rewrite elem_of_union, !elem_of_dom, abs_confirmed, elem_of_list_to_set.
    split; [|case_decide; naive_solver].
    case_decide; [|naive_solver]. intros [[]%is_Some_None|?]; auto.
  - intros p. rewrite elem_of_dom, abs_confirmed, elem_of_list_to_set.
    case_decide; [|done]. by intros []%is_Some_None.
Qed.

Lemma abs_get r p : registry_wf r → Spec.get (abs r) p = registry_get r p.
Proof.
  intros [_ Hk]. unfold Spec.get, registry_get. rewrite abs_confirmed.
  case_decide as Hp.
  - simpl. unfold Spec.rumour. revert Hk Hp. generalize (gossip_order r) as o.
    induction o as [|q o IH]; intros Hk Hp; [set_solver|].
    destruct (Hk q) as [k Hq]; [set_solver|]. rewrite omap_pair_cons, Hq. simpl.
    case_bool_decide as Hqp; [subst; by rewrite Hq|]. apply IH; set_solver.
  - destruct (entries r !! p) as [k|] eqn:Hkp; [done|]. simpl. unfold Spec.rumour.
    revert Hp Hk. generalize (gossip_order r) as o.
    induction o as [|q o IH]; intros Hp Hk; [done|].
    destruct (Hk q) as [k Hq]; [set_solver|]. rewrite omap_pair_cons, Hq. simpl.
    rewrite bool_decide_eq_false_2 by set_solver. apply IH; set_solver.
Qed.

Lemma abs_remove r p : abs (registry_remove r p).2 = Spec.remove (abs r) p.
Proof.
  unfold abs, Spec.remove; simpl. f_equal.
  - apply map_eq. intros q. rewrite (lookup_delete _ p q).
    apply option_eq. intros k. rewrite map_lookup_filter_Some, lookup_delete_Some.
    rewrite list_elem_of_filter. case_decide; [naive_solver|].
    rewrite map_lookup_filter_Some. simpl. naive_solver.
  - rewrite <-omap_pair_forget. apply omap_pair_ext.
    intros q [Hq _]%list_elem_of_filter. by rewrite lookup_delete_ne.
Qed.

Lemma abs_insert_direct r p key :
  abs (insert_direct r p key).2 = Spec.confirm (abs r) p key.
Proof.
  unfold abs, Spec.confirm; simpl. f_equal.
  - apply map_eq. intros q. rewrite (lookup_insert _ p q).
    apply option_eq. intros k. rewrite map_lookup_filter_Some, lookup_insert_Some.
    rewrite list_elem_of_filter. case_decide; [naive_solver|].
    rewrite map_lookup_filter_Some. simpl. naive_solver.
  - rewrite <-omap_pair_forget. apply omap_pair_ext.
    intros q [Hq _]%list_elem_of_filter. by rewrite lookup_insert_ne.
Qed.

(** Confirmed tables that differ from [abs r] as the operation says. *)
Lemma confirmed_filter_insert m o p key :
  p ∉ o →
  filter (λ x, x.1 ∉ o) (<[p := key]> m) = <[p := key]> (filter (λ x, x.1 ∉ o) m).
Proof. intros Hp. by apply map_filter_insert_True. Qed.

Lemma confirmed_filter_known m o p key :
  p ∈ o → filter (λ x, x.1 ∉ o) (<[p := key]> m) = filter (λ x, x.1 ∉ o) m.
Proof. intros Hp. apply map_filter_insert_not'; simpl; tauto. Qed.

Lemma confirmed_filter_rumour m o p key :
  m !! p = None →
  filter (λ x, x.1 ∉ o ++ [p]) (<[p := key]> m) = filter (λ x, x.1 ∉ o) m.
Proof.
  intros Hp. apply map_eq. intros q. apply option_eq. intros k.
  rewrite !map_lookup_filter_Some, lookup_insert_Some. simpl.
  rewrite elem_of_app, list_elem_of_singleton. split; [naive_solver|].
  intros [Hq Hn]. assert (q ≠ p) by congruence. naive_solver.
Qed.

Lemma confirmed_filter_evict m o q :
  q ∉ o → filter (λ x, x.1 ∉ o) (delete q m) = filter (λ x, x.1 ∉ q :: o) m.
Proof.
  intros Hq. apply map_eq. intros p. apply option_eq. intros k.
  rewrite !map_lookup_filter_Some, lookup_delete_Some. simpl.
  rewrite elem_of_cons. naive_solver.
Qed.

Lemma omap_pair_rumour m o p key :
  p ∉ o → omap (lookup_pair (<[p := key]> m)) (o ++ [p]) = omap (lookup_pair m) o ++ [(p, key)].
Proof.
  intros Hp. rewrite omap_app. f_equal.
  - apply omap_pair_ext. intros q Hq. rewrite lookup_insert_ne; set_solver.
  - unfold lookup_pair. simpl. by rewrite lookup_insert_eq.
Qed.

Lemma abs_insert_gossip r p key :
  registry_wf r → abs (insert_gossip r p key) = Spec.hear (max_size r) (abs r) p key.
Proof.
  intros Hwf. pose proof Hwf as [Hnd Hk]. unfold Spec.hear.
  rewrite abs_confirmed, abs_rumour_peers, abs_count by done.
  destruct (decide (is_Some (entries r !! p))) as [Hp|Hp].
  { rewrite insert_gossip_known by done. unfold abs; cbn [entries gossip_order].
    destruct (decide (p ∈ gossip_order r)) as [Hin|Hin].
    - rewrite decide_False by apply is_Some_None. cbn. f_equal.
      + by apply confirmed_filter_known.
      + apply omap_pair_refresh. by apply elem_of_dom.
    - rewrite decide_True by done. cbn. f_equal.
      + by apply confirmed_filter_insert.
      + apply omap_pair_ext. intros q Hq. rewrite lookup_insert_ne; set_solver. }
  apply eq_None_not_Some in Hp.
  assert (p ∉ gossip_order r) as Hpn by (intros [? ?]%Hk; congruence).
  rewrite decide_False by (rewrite decide_False, Hp by done; apply is_Some_None).
  rewrite decide_False by done.
  destruct (decide (at_capacity r)) as [Hc|Hc].
  - destruct Hc as (m & Hm & Hs) eqn:Ec. clear Ec.
    rewrite Hm, (proj2 (Nat.leb_le _ _) Hs). unfold abs at 2; cbn [Spec.rumours].
    destruct (gossip_order r) as [|oldest rest] eqn:Ho.
    + rewrite insert_gossip_drop by (done || by exists m). done.
    + rewrite (insert_gossip_evict r p key oldest rest) by (done || by exists m).
      apply NoDup_cons in Hnd as [Hold Hnd].
      destruct (Hk oldest) as [k Hok]; [set_solver|]. rewrite omap_pair_cons, Hok.
      unfold abs; cbn [entries gossip_order Spec.confirmed Spec.rumours]. f_equal.
      * rewrite confirmed_filter_rumour by (rewrite lookup_delete_None; auto).
        rewrite confirmed_filter_evict, Ho by done. done.
      * rewrite omap_pair_rumour by set_solver. f_equal. apply omap_pair_ext.
        intros q Hq. rewrite lookup_delete_ne; set_solver.
  - replace (match max_size r with Some m => m <=? size (entries r) | None => false end)
      with false.
    + rewrite insert_gossip_room by done. unfold abs; cbn. f_equal.
      * by apply confirmed_filter_rumour.
      * by apply omap_pair_rumour.
    + destruct (max_size r) as [m|] eqn:Hm; [|done]. symmetry. apply Nat.leb_gt.
      destruct (Nat.lt_ge_cases (size (entries r)) m); [done|]. destruct Hc. by exists m.
Qed.

Lemma abs_apply_op r (o : registry_op) :
  registry_wf r → abs (apply_op r o) = Spec.apply (max_size r) (abs r) o.
Proof.
  intros Hwf. destruct o; cbn [apply_op Spec.apply];
    [apply abs_remove|apply abs_insert_direct|by apply abs_insert_gossip].
Qed.

Lemma apply_op_max_size r (o : registry_op) : max_size (apply_op r o) = max_size r.
Proof. destruct o; simpl; [done..|]. apply insert_gossip_max_size. Qed.

Lemma abs_apply_ops r ops :
  registry_wf r →
  abs (foldl apply_op r ops) = foldl (Spec.apply (max_size r)) (abs r) ops.
Proof.
  revert r. induction ops as [|o ops IH]; intros r Hwf; simpl; [done|].
  rewrite IH by by apply apply_op_wf. by rewrite apply_op_max_size, abs_apply_op.
Qed.
End refinement.

(** ** Properties *)

(** C15. Refinement: after any sequence of operations on a fresh registry, a
    lookup answers what the abstract registry of confirmed peers and rumours
    answers, and the state is its image. *)
Theorem registry_refines_spec max ops p :
  abs (foldl apply_op (registry_new max) ops) = foldl (Spec.apply max) Spec.empty ops ∧
  registry_get (foldl apply_op (registry_new max) ops) p =
  Spec.get (foldl (Spec.apply max) Spec.empty ops) p.
Proof.
  pose proof (abs_apply_ops (registry_new max) ops (registry_new_wf max)) as Habs.
  change (abs (registry_new max)) with Spec.empty in Habs. split; [done|].
  rewrite <-abs_get by apply apply_ops_wf, registry_new_wf. by rewrite Habs.
Qed.

(** C16. A key learned by a direct handshake survives any amount of gossip: the
    peer stays known and out of the eviction queue, and its key changes only
    through gossip about that same peer. *)
Theorem direct_survives_gossip r p key l
    (Hwf : registry_wf r) :
  let r' := insert_gossips (insert_direct r p key).2 l in
  is_direct r' p ∧ (p ∉ l.*1 → registry_get r' p = Some key).
Proof.
  cbv zeta. assert (∀ l r1, registry_wf r1 → is_direct r1 p →
    is_direct (insert_gossips r1 l) p ∧
    (p ∉ l.*1 → registry_get (insert_gossips r1 l) p = registry_get r1 p)) as H.
  { clear. intros l. unfold insert_gossips.
    induction l as [|[q k] l IH]; intros r1 Hwf Hd; simpl; [done|].
    destruct (IH (insert_gossip r1 q k)) as [H1 H2]; [by apply insert_gossip_wf|
      by apply insert_gossip_direct|]. split; [done|]. intros Hn.
    rewrite H2 by set_solver. apply insert_gossip_direct_key; set_solver. }
  destruct (H l (insert_direct r p key).2) as [H1 H2];
    [by apply insert_direct_wf|apply insert_direct_is_direct|].
  split; [done|]. intros Hn. rewrite H2 by done. unfold registry_get. simpl.
  apply lookup_insert_eq.
Qed.

(** Bound: gossip never takes a well-formed registry past its configured
    maximum; a registry that already holds more (direct handshakes are not
    bounded) does not grow. *)
Theorem gossip_respects_bound r l m
    (Hwf : registry_wf r) (Hmax : max_size r = Some m) :
  size (entries (insert_gossips r l)) ≤ size (entries r) `max` m.
Proof. by apply insert_gossips_size. Qed.

(** Eviction is first in, first out: at capacity a key for a new peer takes
    the place of the oldest gossip entry; every other entry keeps its key. *)
Theorem gossip_evicts_oldest r p key oldest rest
    (Hwf : registry_wf r) (Hnew : registry_get r p = None) (Hcap : at_capacity r)
    (Horder : gossip_order r = oldest :: rest) :
  let r' := insert_gossip r p key in
  registry_get r' oldest = None ∧ registry_get r' p = Some key ∧
  gossip_order r' = rest ++ [p] ∧
  ∀ q, q ≠ oldest → q ≠ p → registry_get r' q = registry_get r q.
Proof.
  cbv zeta. unfold registry_get in *.
  rewrite (insert_gossip_evict r p key oldest rest) by done. simpl.
  assert (oldest ≠ p) as Hne.
  { intros ->. destruct (wf_known r Hwf p) as [k Hk]; [rewrite Horder; set_solver|].
    by rewrite Hnew in Hk. }
  split_and!; [|by rewrite lookup_insert_eq|done|].
  - by rewrite lookup_insert_ne, lookup_delete_eq.
  - intros q Hq1 Hq2. by rewrite lookup_insert_ne, lookup_delete_ne.
Qed.
