(* ===== verification/Dedup.v ===== *)
(** * The deduplication cache ([DeduplicationCache] of node.rs)

    Two maps from message keys to the instant they were first seen; entries older
    than the TTL are evicted by each check. The file relates the cache to a
    history that forgets nothing, and derives at-most-once acceptance per window. *)

From S2P Require Import Prelude RustStd Types.

Local Open Scope Z_scope.

Record DeduplicationCache := {
  seen : gmap (PeerId * u64) Z;
  seen_routed : gmap u64 Z;
  ttl : Z
}.

Definition DEDUP_TTL : Z := secs 60.

Definition dedup_new : DeduplicationCache :=
  {| seen := ∅; seen_routed := ∅; ttl := DEDUP_TTL |}.

(** [Instant::checked_duration_since] *)
Definition checked_duration_since (now t : Z) : option Z :=
  if t <=? now then Some (now - t) else None.

(** The predicate of both [retain] calls. *)
Definition still_fresh (now ttl t : Z) : bool :=
  match checked_duration_since now t with Some age => age <? ttl | None => true end.

Definition retain_fresh {K} `{Countable K} (now ttl : Z) (m : gmap K Z) : gmap K Z :=
  filter (λ x, still_fresh now ttl x.2 = true) m.

Definition check_and_insert (c : DeduplicationCache) (now : Z) (p : PeerId) (id : u64) :
    bool * DeduplicationCache :=
  let kept := retain_fresh now (ttl c) (seen c) in
  match kept !! (p, id) with
  | Some _ => (true, {| seen := kept; seen_routed := seen_routed c; ttl := ttl c |})
  | None =>
    (false, {| seen := <[(p, id) := now]> kept; seen_routed := seen_routed c; ttl := ttl c |})
  end.

Definition check_and_insert_routed (c : DeduplicationCache) (now : Z) (id : u64) :
    bool * DeduplicationCache :=
  let kept := retain_fresh now (ttl c) (seen_routed c) in
  match kept !! id with
  | Some _ => (true, {| seen := seen c; seen_routed := kept; ttl := ttl c |})
  | None =>
    (false, {| seen := seen c; seen_routed := <[id := now]> kept; ttl := ttl c |})
  end.

(** ** A history that forgets nothing *)

(** The two operations, and a run of timed calls. *)
Inductive dedup_call :=
| CDirect (p : PeerId) (id : u64)
| CRouted (id : u64).

#[export] Instance dedup_call_eq_dec : EqDecision dedup_call.
Proof. solve_decision. Defined.

#[export] Program Instance dedup_call_countable : Countable dedup_call :=
  inj_countable
    (λ c, match c with CDirect p id => inl (p, id) | CRouted id => inr id end)
    (λ x, Some match x with inl (p, id) => CDirect p id | inr id => CRouted id end) _.
Next Obligation. by intros []. Qed.

Definition dedup_step (c : DeduplicationCache) (now : Z) (k : dedup_call) :
    bool * DeduplicationCache :=
  match k with
  | CDirect p id => check_and_insert c now p id
  | CRouted id => check_and_insert_routed c now id
  end.

Fixpoint dedup_run (c : DeduplicationCache) (calls : list (dedup_call * Z)) : list bool :=
  match calls with
  | [] => []
  | (k, now) :: calls =>
    let r := dedup_step c now k in r.1 :: dedup_run r.2 calls
  end.

(** The specification keeps, for every key, the instant of its last acceptance:
    a call is a duplicate iff that instant lies within the window. *)
Definition spec_dup (ttl : Z) (h : gmap dedup_call Z) (now : Z) (k : dedup_call) : bool :=
  match h !! k with Some t => now - t <? ttl | None => false end.

Definition spec_step (ttl : Z) (h : gmap dedup_call Z) (now : Z) (k : dedup_call) :
    gmap dedup_call Z :=
  if spec_dup ttl h now k then h else <[k := now]> h.

Fixpoint spec_run (ttl : Z) (h : gmap dedup_call Z) (calls : list (dedup_call * Z)) : list bool :=
  match calls with
  | [] => []
  | (k, now) :: calls => spec_dup ttl h now k :: spec_run ttl (spec_step ttl h now k) calls
  end.

(** Calls are made at non-decreasing instants, from [t0] on ([Instant] is monotonic). *)
Fixpoint monotone (t0 : Z) (calls : list (dedup_call * Z)) : Prop :=
  match calls with
  | [] => True
  | (_, t) :: calls => t0 <= t ∧ monotone t calls
  end.

(** The cache, seen as one map. *)
Definition dedup_lookup (c : DeduplicationCache) (k : dedup_call) : option Z :=
  match k with CDirect p id => seen c !! (p, id) | CRouted id => seen_routed c !! id end.

Lemma still_fresh_spec now tl t : t <= now → still_fresh now tl t = (now - t <? tl).
Proof.
  intros H. unfold still_fresh, checked_duration_since.
  by rewrite (proj2 (Z.leb_le t now) H).
Qed.

Lemma lookup_retain_fresh {K} `{Countable K} now tl (m : gmap K Z) k t :
  retain_fresh now tl m !! k = Some t ↔ m !! k = Some t ∧ still_fresh now tl t = true.
Proof. unfold retain_fresh. by rewrite map_lookup_filter_Some. Qed.

(** [k]'s own map after a step, and the other map, which the step leaves alone. *)
Lemma dedup_step_spec c now k :
  let r := dedup_step c now k in
  ttl r.2 = ttl c ∧
  (∀ t, r.1 = true ∧ dedup_lookup r.2 k = Some t ↔
        dedup_lookup c k = Some t ∧ still_fresh now (ttl c) t = true) ∧
  (r.1 = false → dedup_lookup r.2 k = Some now) ∧
  (∀ k' t, k' ≠ k → dedup_lookup r.2 k' = Some t → dedup_lookup c k' = Some t) ∧
  (∀ k' t, k' ≠ k → dedup_lookup c k' = Some t → still_fresh now (ttl c) t = true →
           dedup_lookup r.2 k' = Some t).
Proof.
  destruct k as [p id|id]; cbv zeta; cbn [dedup_step].
  - unfold check_and_insert.
    destruct (retain_fresh now (ttl c) (seen c) !! (p, id)) as [t0|] eqn:Hk; simpl.
    + split_and!; [done| |done| |].
      * intros t. rewrite lookup_retain_fresh. naive_solver.
      * intros [p' id'|id'] t Hne; simpl; [rewrite lookup_retain_fresh; tauto|done].
      * intros [p' id'|id'] t Hne; simpl; [rewrite lookup_retain_fresh; tauto|done].
    + split_and!; [done| |by rewrite lookup_insert_eq| |].
      * intros t. split; [by intros [? _]|]. rewrite <-lookup_retain_fresh, Hk. done.
      * intros [p' id'|id'] t Hne; simpl; [|done].
        rewrite lookup_insert_ne, lookup_retain_fresh by congruence. tauto.
      * intros [p' id'|id'] t Hne; simpl; [|done].
        rewrite lookup_insert_ne, lookup_retain_fresh by congruence. tauto.
  - unfold check_and_insert_routed.
    destruct (retain_fresh now (ttl c) (seen_routed c) !! id) as [t0|] eqn:Hk; simpl.
    + split_and!; [done| |done| |].
      * intros t. rewrite lookup_retain_fresh. naive_solver.
      * intros [p' id'|id'] t Hne; simpl; [done|rewrite lookup_retain_fresh; tauto].
      * intros [p' id'|id'] t Hne; simpl; [done|rewrite lookup_retain_fresh; tauto].
    + split_and!; [done| |by rewrite lookup_insert_eq| |].
      * intros t. split; [by intros [? _]|]. rewrite <-lookup_retain_fresh, Hk. done.
      * intros [p' id'|id'] t Hne; simpl; [done|].
        rewrite lookup_insert_ne, lookup_retain_fresh by congruence. tauto.
      * intros [p' id'|id'] t Hne; simpl; [done|].
        rewrite lookup_insert_ne, lookup_retain_fresh by congruence. tauto.
Qed.

(** ** Simulation *)

(** The cache holds only last acceptances, and all those still in the window. *)
Record dedup_sim (c : DeduplicationCache) (h : gmap dedup_call Z) (now : Z) : Prop := {
  sim_sound : ∀ k t, dedup_lookup c k = Some t → h !! k = Some t;
  sim_complete : ∀ k t, h !! k = Some t → now - t < ttl c → dedup_lookup c k = Some t;
  sim_past : ∀ k t, h !! k = Some t → t <= now
}.

Lemma dedup_sim_step c h t0 now k :
  dedup_sim c h t0 → t0 <= now →
  (dedup_step c now k).1 = spec_dup (ttl c) h now k ∧
  ttl (dedup_step c now k).2 = ttl c ∧
  dedup_sim (dedup_step c now k).2 (spec_step (ttl c) h now k) now.
Proof.
  intros [Hs Hc Hp] Hle.
  destruct (dedup_step_spec c now k) as (Httl & Hdup & Hacc & Hkeep & Hstay).
  assert ((dedup_step c now k).1 = spec_dup (ttl c) h now k) as Hres.
  { unfold spec_dup. destruct ((dedup_step c now k).1) eqn:Hr.
    - destruct (dedup_lookup (dedup_step c now k).2 k) as [t|] eqn:Hl.
      + destruct (proj1 (Hdup t) (conj eq_refl eq_refl)) as [H1 H2].
        rewrite (Hs _ _ H1).
        rewrite still_fresh_spec in H2 by (specialize (Hp _ _ (Hs _ _ H1)); lia). done.
      + exfalso. destruct k; simpl in Hr, Hl; unfold check_and_insert, check_and_insert_routed in *;
          pw_crush.
    - destruct (h !! k) as [t|] eqn:Hk; [|done]. symmetry. apply Z.ltb_ge.
      destruct (Z.lt_ge_cases (now - t) (ttl c)) as [Hlt|]; [|done]. exfalso.
      assert (dedup_lookup c k = Some t) as H1 by (apply Hc; [done|lia]).
      assert (still_fresh now (ttl c) t = true) as H2.
      { rewrite still_fresh_spec by (specialize (Hp _ _ Hk); lia). by apply Z.ltb_lt. }
      by destruct (proj2 (Hdup t) (conj H1 H2)). }
  split_and!; [done|done|]. unfold spec_step. rewrite <-Hres.
  destruct ((dedup_step c now k).1) eqn:Hr; split.
  - intros k' t Ht. destruct (decide (k' = k)) as [->|Hne].
    + apply Hs. by apply Hdup.
    + by apply Hs, Hkeep.
  - intros k' t Ht Hlt. rewrite Httl in Hlt. specialize (Hc k' t Ht ltac:(lia)).
    assert (still_fresh now (ttl c) t = true) as Hf.
    { rewrite still_fresh_spec by (specialize (Hp _ _ Ht); lia). by apply Z.ltb_lt. }
    destruct (decide (k' = k)) as [->|Hne]; [|by apply Hstay].
    by destruct (proj2 (Hdup t) (conj Hc Hf)).
  - intros k' t Ht. specialize (Hp _ _ Ht). lia.
  - intros k' t Ht. destruct (decide (k' = k)) as [->|Hne].
    + rewrite Hacc in Ht by done. by rewrite lookup_insert_eq.
    + rewrite lookup_insert_ne by done. by apply Hs, Hkeep.
  - intros k' t Ht Hlt. rewrite Httl in Hlt. destruct (decide (k' = k)) as [->|Hne].
    + rewrite lookup_insert_eq in Ht. injection Ht as <-. by apply Hacc.
    + rewrite lookup_insert_ne in Ht by done. apply Hstay; [done|apply Hc; [done|lia]|].
      rewrite still_fresh_spec by (specialize (Hp _ _ Ht); lia). by apply Z.ltb_lt.
  - intros k' t Ht. destruct (decide (k' = k)) as [->|Hne].
    + rewrite lookup_insert_eq in Ht. injection Ht as <-. lia.
    + rewrite lookup_insert_ne in Ht by done. specialize (Hp _ _ Ht). lia.
Qed.

Lemma dedup_sim_run c h t0 calls :
  dedup_sim c h t0 → monotone t0 calls → dedup_run c calls = spec_run (ttl c) h calls.
Proof.
  revert c h t0. induction calls as [|[k now] calls IH]; intros c h t0 Hsim Hmono; simpl; [done|].
  destruct Hmono as [Hle Hmono].
  destruct (dedup_sim_step c h t0 now k Hsim Hle) as (-> & Httl & Hsim').
  by rewrite (IH _ _ now Hsim' Hmono), Httl.
Qed.

Lemma dedup_sim_new t0 : dedup_sim dedup_new ∅ t0.
Proof. split; intros k t; [destruct k|..]; simpl; set_solver. Qed.

Lemma spec_step_past tl h t0 now k0 :
  (∀ k t, h !! k = Some t → t <= t0) → t0 <= now →
  ∀ k t, spec_step tl h now k0 !! k = Some t → t <= now.
Proof.
  intros Hp Hle k' t. unfold spec_step. destruct (spec_dup _ _ _ _).
  - intros Ht. specialize (Hp _ _ Ht). lia.
  - intros [[<- <-]|[_ Ht]]%lookup_insert_Some; [lia|]. specialize (Hp _ _ Ht). lia.
Qed.

(** Once [k] was accepted at [t1], it is next accepted a full window later. *)
Lemma spec_run_window tl h t1 t0 t2 k calls j :
  0 < tl → h !! k = Some t1 → t1 <= t0 → monotone t0 calls →
  calls !! j = Some (k, t2) → spec_run tl h calls !! j = Some false → tl <= t2 - t1.
Proof.
  intros Htl. revert h t1 t0 j. induction calls as [|[k0 now] calls IH];
    intros h t1 t0 j Hk Hle Hmono Hj Hr; [done|]. destruct Hmono as [Hle' Hm].
  destruct j as [|j]; simpl in *.
  { injection Hj as -> ->. injection Hr as Hd. unfold spec_dup in Hd. rewrite Hk in Hd.
    by apply Z.ltb_ge in Hd. }
  unfold spec_step in Hr. destruct (spec_dup tl h now k0) eqn:Hd.
  { eapply (IH h t1 now j); [done|lia|done|done|done]. }
  destruct (decide (k0 = k)) as [->|Hne].
  - pose proof (IH _ now now j (lookup_insert_eq _ _ _) ltac:(lia) Hm Hj Hr).
    unfold spec_dup in Hd. rewrite Hk in Hd. apply Z.ltb_ge in Hd. lia.
  - eapply (IH _ t1 now j); [by rewrite lookup_insert_ne|lia|done|done|done].
Qed.

Lemma spec_run_spaced tl h t0 calls i j k t1 t2 :
  0 < tl → (∀ k t, h !! k = Some t → t <= t0) → monotone t0 calls →
  (i < j)%nat → calls !! i = Some (k, t1) → calls !! j = Some (k, t2) →
  spec_run tl h calls !! i = Some false → spec_run tl h calls !! j = Some false →
  tl <= t2 - t1.
Proof.
  intros Htl. revert h t0 i j. induction calls as [|[k0 now] calls IH];
    intros h t0 i j Hp Hm Hij Hi Hj Hri Hrj; [done|].
  destruct Hm as [Hle Hm]. destruct j as [|j]; [lia|]. destruct i as [|i]; simpl in *.
  - injection Hi as -> ->. injection Hri as Hri. unfold spec_step in Hrj. rewrite Hri in Hrj.
    eapply (spec_run_window tl _ t1 t1); [done|apply lookup_insert_eq|lia|done|done|done].
  - eapply (IH _ now i j); [by eapply spec_step_past|done|lia|done|done|done|done].
Qed.

(** ** Properties *)

(** C17. Refinement: on any sequence of direct and routed checks at non-decreasing
    instants, the cache answers as the history that never forgets: a message is a
    duplicate iff its last acceptance is less than the TTL ago. *)
Theorem dedup_refines_history t0 calls
    (Hmono : monotone t0 calls) :
  dedup_run dedup_new calls = spec_run DEDUP_TTL ∅ calls.
Proof. apply (dedup_sim_run dedup_new ∅ t0 calls); [apply dedup_sim_new|done]. Qed.

(** At most once per window: of two calls for the same message, direct or
    routed, that are both accepted, the later one is at least [DEDUP_TTL] (60 s)
    after the earlier one. *)
Theorem dedup_at_most_once t0 calls i j k t1 t2
    (Hmono : monotone t0 calls) (Hij : (i < j)%nat)
    (Hi : calls !! i = Some (k, t1)) (Hj : calls !! j = Some (k, t2))
    (Hri : dedup_run dedup_new calls !! i = Some false)
    (Hrj : dedup_run dedup_new calls !! j = Some false) :
  DEDUP_TTL <= t2 - t1.
Proof.
  rewrite (dedup_sim_run dedup_new ∅ t0) in Hri, Hrj by (apply dedup_sim_new || done).
  eapply (spec_run_spaced DEDUP_TTL ∅ t0 calls i j k); done.
Qed.

(** Lazy eviction is complete: after a check at [now], the map that was
    checked holds no entry of [DEDUP_TTL] or more; the other map is untouched. *)
Theorem dedup_evicts_expired c now k k' t
    (Hpast : ∀ k t, dedup_lookup c k = Some t → t <= now) (Hpos : 0 < ttl c)
    (Hl : dedup_lookup (dedup_step c now k).2 k' = Some t) :
  match k, k' with
  | CDirect _ _, CDirect _ _ | CRouted _, CRouted _ => now - t < ttl c
  | _, _ => dedup_lookup c k' = Some t
  end.
Proof.
  destruct k as [p id|id], k' as [p' id'|id'];
    unfold dedup_step, check_and_insert, check_and_insert_routed in Hl; simpl in Hl;
    case_match; simpl in Hl; try done.
  - apply lookup_retain_fresh in Hl as [Hl Hf].
    rewrite still_fresh_spec in Hf by by apply (Hpast (CDirect p' id')). by apply Z.ltb_lt.
  - apply lookup_insert_Some in Hl as [[_ <-]|[_ [Hl Hf]%lookup_retain_fresh]]; [lia|].
    rewrite still_fresh_spec in Hf by by apply (Hpast (CDirect p' id')). by apply Z.ltb_lt.
  - apply lookup_retain_fresh in Hl as [Hl Hf].
    rewrite still_fresh_spec in Hf by by apply (Hpast (CRouted id')). by apply Z.ltb_lt.
  - apply lookup_insert_Some in Hl as [[_ <-]|[_ [Hl Hf]%lookup_retain_fresh]]; [lia|].
    rewrite still_fresh_spec in Hf by by apply (Hpast (CRouted id')). by apply Z.ltb_lt.
Qed.
