(* ===== verification/Wire.v ===== *)
(** * Wire formats of router.rs

    Message identifiers, the address-exchange control frame and the key
    announcement. The decoders are written with the indices and slices of the
    source, so that "never panics" is a theorem about them. *)

From S2P Require Import Prelude RustStd Types.

Definition MAX_TTL : byte := x07.

(** ** Message identifiers *)

(** The identifier [new_message_id] makes of eight bytes of entropy: the high bit of the
    first is set. *)
Definition message_id_of (entropy : array 8) : u64 :=
  match array_to_list entropy with
  | b0 :: rest => u64_from_be_bytes (byte_of_Z (Z.lor (byte_to_Z b0) 128) :: rest)
  | [] => u64_from_be_bytes []
  end.

(** The frame [try_send] puts on the wire: identifier, then payload. *)
Definition frame_message (message_id : u64) (payload : list byte) : list byte :=
  u64_to_be_bytes message_id ++ payload.

(** ** Address exchange *)

Definition ADDR_EXCHANGE_CTRL : list byte := [x00; x00; x00; x00; x00; x00; x00; x01].

Definition encode_id (tag : byte) (id : rstring) : list byte :=
  let bytes := str_bytes id in
  let len := Nat.min (length bytes) 255 in
  tag :: byte_of_Z (Z.of_nat len) :: take len bytes.

Definition encode_addr (addr : PeerAddress) : list byte :=
  match addr with
  | Quic (V4 ip port) => x00 :: array_to_list ip ++ u16_to_be_bytes port
  | Quic (V6 ip port _ _) => x01 :: array_to_list ip ++ u16_to_be_bytes port
  | Ble id => encode_id x02 id
  | WifiDirect id => encode_id x03 id
  | BleAdvertising id => encode_id x04 id
  end.

Definition encode_addr_exchange (addrs : list PeerAddress) : list byte :=
  let count := Nat.min (length addrs) 255 in
  ADDR_EXCHANGE_CTRL ++ [byte_of_Z (Z.of_nat count)] ++ concat (encode_addr <$> take 255 addrs).

(** The length-prefixed string at [pos], and the position after it. *)
Definition decode_id (bytes : list byte) (pos : nat) : rust (option (rstring * nat)) :=
  if length bytes <=? pos then Val None else
  let! n := index bytes pos in
  let len := Z.to_nat (byte_to_Z n) in
  let pos := pos + 1 in
  if length bytes <? pos + len then Val None else
  let! raw := slice bytes pos (pos + len) in
  Val match from_utf8 raw with Some id => Some (id, pos + len) | None => None end.

Definition decode_v4 (bytes : list byte) (pos : nat) : rust (option (PeerAddress * nat)) :=
  if length bytes <? pos + 6 then Val None else
  let! b0 := index bytes pos in
  let! b1 := index bytes (pos + 1) in
  let! b2 := index bytes (pos + 2) in
  let! b3 := index bytes (pos + 3) in
  let! ip := try_into_expect 4 [b0; b1; b2; b3] in
  let! p0 := index bytes (pos + 4) in
  let! p1 := index bytes (pos + 5) in
  Val (Some (Quic (V4 ip (u16_from_be_bytes [p0; p1])), pos + 6)).

Definition decode_v6 (bytes : list byte) (pos : nat) : rust (option (PeerAddress * nat)) :=
  if length bytes <? pos + 18 then Val None else
  let! raw := slice bytes pos (pos + 16) in
  let! ip := try_into_expect 16 raw in
  let! p0 := index bytes (pos + 16) in
  let! p1 := index bytes (pos + 17) in
  Val (Some (Quic (V6 ip (u16_from_be_bytes [p0; p1]) (u32_of_Z 0) (u32_of_Z 0)), pos + 18)).

Definition decode_tagged_id (mk : rstring → PeerAddress) (bytes : list byte) (pos : nat) :
    rust (option (PeerAddress * nat)) :=
  let! r := decode_id bytes pos in
  Val match r with Some (id, pos') => Some (mk id, pos') | None => None end.

(** One iteration of the decoding loop. *)
Definition decode_addr (bytes : list byte) (pos : nat) : rust (option (PeerAddress * nat)) :=
  if length bytes <=? pos then Val None else
  let! tag := index bytes pos in
  match byte_to_Z tag with
  | 0%Z => decode_v4 bytes (pos + 1)
  | 1%Z => decode_v6 bytes (pos + 1)
  | 2%Z => decode_tagged_id Ble bytes (pos + 1)
  | 3%Z => decode_tagged_id WifiDirect bytes (pos + 1)
  | 4%Z => decode_tagged_id BleAdvertising bytes (pos + 1)
  | _ => Val None
  end.

Fixpoint decode_addrs (count : nat) (bytes : list byte) (pos : nat) :
    rust (option (list PeerAddress)) :=
  match count with
  | O => Val (Some [])
  | S count =>
    let! r := decode_addr bytes pos in
    match r with
    | None => Val None
    | Some (addr, pos') =>
      let! rest := decode_addrs count bytes pos' in
      Val match rest with Some addrs => Some (addr :: addrs) | None => None end
    end
  end.

Definition decode_addr_exchange (bytes : list byte) : rust (option (list PeerAddress)) :=
  if length bytes <? 9 then Val None else
  let! ctrl := slice bytes 0 8 in
  if bool_decide (ctrl = ADDR_EXCHANGE_CTRL) then
    let! n := index bytes 8 in
    decode_addrs (Z.to_nat (byte_to_Z n)) bytes 9
  else Val None.

(** ** Key announcements *)

(** Route flag, identity, key, TTL. *)
Definition encode_key_announcement (p : PeerId) (key : PublicKey) (ttl : byte) : list byte :=
  x02 :: array_to_list (PeerId_as_bytes p) ++ array_to_list key ++ [ttl].

(** The payload excludes the identifier and the route flag. *)
Definition decode_key_announcement (payload : list byte) :
    rust (option (PeerId * PublicKey * byte)) :=
  if negb (length payload =? 32 + 32 + 1) then Val None else
  let! raw_id := slice payload 0 32 in
  let! raw_key := slice payload 32 64 in
  match try_into 32 raw_id, try_into 32 raw_key with
  | Some id, Some key =>
    let! ttl := index payload 64 in
    Val (Some (PeerId_from_bytes id, key, ttl))
  | _, _ => Val None
  end.

Definition validate_key_announcement `{Crypto} (p : PeerId) (key : PublicKey) : bool :=
  bool_decide (peer_id_from_public_key (array_to_list key) = p).

(** ** The peer table ([upsert_peer_addresses]) *)

Definition has_address (addr : PeerAddress) (anns : list PeerAnnouncement) : bool :=
  existsb (λ a, bool_decide (address a = addr)) anns.

Definition upsert_address (anns : list PeerAnnouncement) (addr : PeerAddress) :
    list PeerAnnouncement :=
  if has_address addr anns then anns
  else anns ++ [{| address := addr; short_id := None |}].

Definition upsert_peer_addresses (peers : gmap PeerId (list PeerAnnouncement))
    (p : PeerId) (addrs : list PeerAddress) : gmap PeerId (list PeerAnnouncement) :=
  <[p := foldl upsert_address (default [] (peers !! p)) addrs]> peers.

(** ** Decoding what was encoded *)

(** What the receiver of an address sees: flow label and scope are not carried,
    and an identifier is cut to 255 bytes, which must still be UTF-8. *)
Definition wire_id (id : rstring) : option rstring := from_utf8 (take 255 (str_bytes id)).

Definition wire_form (addr : PeerAddress) : option PeerAddress :=
  match addr with
  | Quic (V4 ip port) => Some (Quic (V4 ip port))
  | Quic (V6 ip port _ _) => Some (Quic (V6 ip port (u32_of_Z 0) (u32_of_Z 0)))
  | Ble id => Ble <$> wire_id id
  | WifiDirect id => WifiDirect <$> wire_id id
  | BleAdvertising id => BleAdvertising <$> wire_id id
  end.

Lemma take_min_length {A} (l : list A) n : take (Nat.min (length l) n) l = take n l.
Proof.
  destruct (Nat.le_ge_cases (length l) n).
  - rewrite Nat.min_l, !take_ge by lia. done.
  - by rewrite Nat.min_r.
Qed.

Lemma length_wire_bytes (id : rstring) :
  length (take 255 (str_bytes id)) = Nat.min (length (str_bytes id)) 255.
Proof. rewrite length_take. lia. Qed.

Lemma byte_of_small_nat n : n ≤ 255 → Z.to_nat (byte_to_Z (byte_of_Z (Z.of_nat n))) = n.
Proof. intros Hn. rewrite byte_to_of_Z, Z.mod_small by lia. lia. Qed.

(** Reading byte [i] of the block that starts at [pre]. *)
Lemma index_block {A} (pre blk post : list A) i n x :
  n = length pre + i → blk !! i = Some x → index (pre ++ blk ++ post) n = Val x.
Proof.
  intros -> Hi. unfold index.
  rewrite lookup_app_r by lia. replace (length pre + i - length pre) with i by lia.
  rewrite lookup_app_l by by eapply lookup_lt_Some. by rewrite Hi.
Qed.

Lemma decode_id_encoded pre (id : rstring) post len :
  len = Nat.min (length (str_bytes id)) 255 →
  decode_id (pre ++ (byte_of_Z (Z.of_nat len) :: take len (str_bytes id)) ++ post) (length pre) =
  Val ((λ s, (s, length pre + 1 + len)) <$> wire_id id).
Proof.
  intros Hmin. assert (len ≤ 255) as Hlen by lia.
  assert (length (take len (str_bytes id)) = len) as Htl.
  { rewrite Hmin, take_min_length. apply length_wire_bytes. }
  unfold decode_id. rewrite (proj2 (Nat.leb_gt _ _)) by (rewrite !length_app; simpl; lia).
  rewrite (index_block pre _ post 0 _ (byte_of_Z (Z.of_nat len))) by (lia || done).
  cbn [rust_bind]. rewrite byte_of_small_nat by done.
  rewrite (proj2 (Nat.ltb_ge _ _)) by (rewrite !length_app; cbn [length]; lia).
  cbn [app]. rewrite (cons_middle _ pre), app_assoc.
  rewrite (slice_app_mid (pre ++ [_]) (take len (str_bytes id)) post)
    by (rewrite length_app; simpl; lia).
  cbn [rust_bind]. unfold wire_id. rewrite Hmin, take_min_length.
  by destruct (from_utf8 (take 255 (str_bytes id))).
Qed.

Lemma decode_tagged_encoded mk pre (id : rstring) post len :
  len = Nat.min (length (str_bytes id)) 255 →
  decode_tagged_id mk
    (pre ++ (byte_of_Z (Z.of_nat len) :: take len (str_bytes id)) ++ post) (length pre) =
  Val ((λ s, (mk s, length pre + 1 + len)) <$> wire_id id).
Proof.
  intros Hmin. unfold decode_tagged_id. rewrite decode_id_encoded by done. simpl.
  by destruct (wire_id id).
Qed.

Lemma array_bytes_4 (a : array 4) : ∃ b0 b1 b2 b3, array_to_list a = [b0; b1; b2; b3].
Proof.
  pose proof (array_length a) as Hl. destruct (array_to_list a) as [|b0 [|b1 [|b2 [|b3 [|]]]]];
    try done. eauto.
Qed.

Lemma u16_be_bytes u : ∃ p0 p1, u16_to_be_bytes u = [p0; p1].
Proof. unfold u16_to_be_bytes. simpl. eauto. Qed.

Lemma decode_v4_encoded pre (ip : array 4) port post :
  decode_v4 (pre ++ (array_to_list ip ++ u16_to_be_bytes port) ++ post) (length pre) =
  Val (Some (Quic (V4 ip port), length pre + 6)).
Proof.
  destruct (array_bytes_4 ip) as (b0 & b1 & b2 & b3 & Hip).
  destruct (u16_be_bytes port) as (p0 & p1 & Hp). unfold decode_v4. rewrite Hip, Hp.
  rewrite (proj2 (Nat.ltb_ge _ _)) by (rewrite !length_app; simpl; lia).
  rewrite (index_block pre _ post 0 _ b0), (index_block pre _ post 1 _ b1),
    (index_block pre _ post 2 _ b2), (index_block pre _ post 3 _ b3) by (lia || done).
  cbn [rust_bind]. rewrite <-Hip, try_into_expect_array. cbn [rust_bind].
  rewrite (index_block pre _ post 4 _ p0), (index_block pre _ post 5 _ p1)
    by (lia || by rewrite Hip). cbn [rust_bind].
  by rewrite <-Hp, u16_from_to_be.
Qed.

Lemma decode_v6_encoded pre (ip : array 16) port post :
  decode_v6 (pre ++ (array_to_list ip ++ u16_to_be_bytes port) ++ post) (length pre) =
  Val (Some (Quic (V6 ip port (u32_of_Z 0) (u32_of_Z 0)), length pre + 18)).
Proof.
  pose proof (array_length ip) as Hip. destruct (u16_be_bytes port) as (p0 & p1 & Hp).
  unfold decode_v6. rewrite Hp.
  rewrite (proj2 (Nat.ltb_ge _ _)) by (rewrite !length_app, Hip; simpl; lia).
  rewrite (index_block pre _ post 16 _ p0), (index_block pre _ post 17 _ p1)
    by (lia || by rewrite lookup_app_r, Hip by lia).
  rewrite <-!app_assoc, (slice_app_mid pre (array_to_list ip)) by lia.
  cbn [rust_bind]. rewrite try_into_expect_array. cbn [rust_bind].
  by rewrite <-Hp, u16_from_to_be.
Qed.

(** One address, anywhere in a frame. *)
Lemma decode_addr_encoded pre addr post :
  decode_addr (pre ++ encode_addr addr ++ post) (length pre) =
  Val ((λ a, (a, length pre + length (encode_addr addr))) <$> wire_form addr).
Proof.
  assert (∀ tag blk, encode_addr addr = tag :: blk →
    decode_addr (pre ++ encode_addr addr ++ post) (length pre) =
    match byte_to_Z tag with
    | 0%Z => decode_v4 ((pre ++ [tag]) ++ blk ++ post) (length (pre ++ [tag]))
    | 1%Z => decode_v6 ((pre ++ [tag]) ++ blk ++ post) (length (pre ++ [tag]))
    | 2%Z => decode_tagged_id Ble ((pre ++ [tag]) ++ blk ++ post) (length (pre ++ [tag]))
    | 3%Z => decode_tagged_id WifiDirect ((pre ++ [tag]) ++ blk ++ post) (length (pre ++ [tag]))
    | 4%Z => decode_tagged_id BleAdvertising ((pre ++ [tag]) ++ blk ++ post) (length (pre ++ [tag]))
    | _ => Val None
    end) as Hstep.
  { intros tag blk ->. unfold decode_addr.
    rewrite (proj2 (Nat.leb_gt _ _)) by (rewrite !length_app; simpl; lia).
    rewrite (index_block pre _ post 0 _ tag) by (lia || done). cbn [rust_bind].
    rewrite length_app. cbn [app length]. by rewrite <-app_assoc. }
  assert (∀ n, length (pre ++ [n]) = length pre + 1) as Hl by (intros n; rewrite length_app; done).
  destruct addr as [[ip port|ip port fl sc]|id|id|id]; cbn [encode_addr] in *;
    try unfold encode_id in *; rewrite (Hstep _ _ eq_refl); clear Hstep; cbn [byte_to_Z Byte.to_N].
  - change (byte_to_Z x00) with 0%Z; cbv iota. rewrite decode_v4_encoded, Hl. simpl.
    rewrite length_app, array_length. do 3 f_equal. simpl. lia.
  - change (byte_to_Z x01) with 1%Z; cbv iota. rewrite decode_v6_encoded, Hl. simpl.
    rewrite length_app, array_length. do 3 f_equal. simpl. lia.
  - change (byte_to_Z x02) with 2%Z; cbv iota. rewrite decode_tagged_encoded, Hl by done. cbn [wire_form].
    destruct (wire_id id); simpl; [|done]. rewrite take_min_length, length_wire_bytes.
    do 3 f_equal. lia.
  - change (byte_to_Z x03) with 3%Z; cbv iota. rewrite decode_tagged_encoded, Hl by done. cbn [wire_form].
    destruct (wire_id id); simpl; [|done]. rewrite take_min_length, length_wire_bytes.
    do 3 f_equal. lia.
  - change (byte_to_Z x04) with 4%Z; cbv iota. rewrite decode_tagged_encoded, Hl by done. cbn [wire_form].
    destruct (wire_id id); simpl; [|done]. rewrite take_min_length, length_wire_bytes.
    do 3 f_equal. lia.
Qed.

Lemma decode_addrs_encoded addrs pre post :
  decode_addrs (length addrs) (pre ++ concat (encode_addr <$> addrs) ++ post) (length pre) =
  Val (mapM wire_form addrs).
Proof.
  revert pre. induction addrs as [|a addrs IH]; intros pre; [done|].
  cbn [length decode_addrs fmap list_fmap concat]. rewrite <-app_assoc, decode_addr_encoded.
  cbn [rust_bind mapM]. destruct (wire_form a) as [a'|]; [|done]. simpl.
  rewrite app_assoc, <-length_app, (IH (pre ++ encode_addr a)). simpl.
  by destruct (mapM wire_form addrs).
Qed.

Lemma ctrl_slice l : slice (ADDR_EXCHANGE_CTRL ++ l) 0 8 = Val ADDR_EXCHANGE_CTRL.
Proof. rewrite slice_Val; [done|lia|rewrite length_app; simpl; lia]. Qed.

Lemma decode_exchange_encoded addrs post :
  decode_addr_exchange (encode_addr_exchange addrs ++ post) =
  Val (mapM wire_form (take 255 addrs)).
Proof.
  unfold decode_addr_exchange, encode_addr_exchange. rewrite <-!app_assoc.
  rewrite (proj2 (Nat.ltb_ge _ _)) by (rewrite !length_app; simpl; lia).
  rewrite ctrl_slice. cbn [rust_bind]. rewrite bool_decide_eq_true_2 by done.
  rewrite (index_block ADDR_EXCHANGE_CTRL [_] _ 0 8 _ eq_refl eq_refl). cbn [rust_bind].
  rewrite byte_of_small_nat by lia.
  replace (Nat.min (length addrs) 255) with (length (take 255 addrs))
    by (rewrite length_take; lia).
  rewrite app_assoc. apply (decode_addrs_encoded (take 255 addrs) (ADDR_EXCHANGE_CTRL ++ [_])).
Qed.

(** ** Decoding arbitrary bytes *)

Lemma index_drop {A} (l : list A) pos i : index l (pos + i) = index (drop pos l) i.
Proof. unfold index. by rewrite lookup_drop. Qed.

Lemma index_drop_0 {A} (l : list A) pos : index l pos = index (drop pos l) 0.
Proof. rewrite <-index_drop. f_equal. lia. Qed.

Lemma slice_take_drop {A} (l : list A) pos n :
  pos + n ≤ length l → slice l pos (pos + n) = Val (take n (drop pos l)).
Proof. intros H. rewrite slice_Val by lia. do 2 f_equal. lia. Qed.

(** [decode_addr] reads one block: it fails, or the block at [pos] is exactly the
    encoding of the address it returns. *)
Definition reads_block (bytes : list byte) (pos : nat) (tag : list byte)
    (r : rust (option (PeerAddress * nat))) : Prop :=
  r = Val None ∨
  ∃ a n, r = Val (Some (a, pos + n)) ∧ pos + n ≤ length bytes ∧
         encode_addr a = tag ++ take n (drop pos bytes) ∧ wire_form a = Some a.

Lemma decode_v4_reads bytes pos : reads_block bytes pos [x00] (decode_v4 bytes pos).
Proof.
  unfold decode_v4, reads_block. destruct (Nat.ltb_spec (length bytes) (pos + 6)); [by left|right].
  rewrite (index_drop_0 bytes pos), !index_drop.
  assert (length (drop pos bytes) = length bytes - pos) as Hl by apply length_drop.
  destruct (drop pos bytes) as [|b0 [|b1 [|b2 [|b3 [|p0 [|p1 rest]]]]]];
    cbn [length] in Hl; try lia. unfold index; cbn [lookup list_lookup rust_bind].
  destruct (try_into_expect_Val 4 [b0; b1; b2; b3] eq_refl) as (ip & -> & Hip).
  cbn [rust_bind]. exists (Quic (V4 ip (u16_from_be_bytes [p0; p1]))), 6.
  split_and!; [done|lia| |done]. cbn [encode_addr].
  by rewrite Hip, u16_to_from_be.
Qed.

Lemma decode_v6_reads bytes pos : reads_block bytes pos [x01] (decode_v6 bytes pos).
Proof.
  unfold decode_v6, reads_block. destruct (Nat.ltb_spec (length bytes) (pos + 18)); [by left|right].
  rewrite slice_take_drop by lia. cbn [rust_bind]. rewrite !index_drop.
  assert (length (drop pos bytes) = length bytes - pos) as Hl by apply length_drop.
  destruct (try_into_expect_Val 16 (take 16 (drop pos bytes))) as (ip & -> & Hip).
  { rewrite length_take, Hl. lia. }
  cbn [rust_bind].
  destruct (index_Val (drop pos bytes) 16) as (p0 & -> & Hp0); [lia|].
  destruct (index_Val (drop pos bytes) 17) as (p1 & -> & Hp1); [lia|]. cbn [rust_bind].
  eexists _, 18. split_and!; [done|lia| |done]. cbn [encode_addr].
  rewrite Hip, u16_to_from_be by done. cbn [app].
  rewrite (take_S_r (drop pos bytes) 17 p1), (take_S_r (drop pos bytes) 16 p0) by done.
  by rewrite <-app_assoc.
Qed.

Lemma byte_of_nat_of_byte b : byte_of_Z (Z.of_nat (Z.to_nat (byte_to_Z b))) = b.
Proof. pose proof (byte_to_Z_range b). rewrite Z2Nat.id by lia. apply byte_of_to_Z. Qed.

Lemma encode_id_small tag (id : rstring) :
  length (str_bytes id) ≤ 255 →
  encode_id tag id = tag :: byte_of_Z (Z.of_nat (length (str_bytes id))) :: str_bytes id.
Proof. intros H. unfold encode_id. by rewrite Nat.min_l, firstn_all by done. Qed.

Lemma wire_id_small (id : rstring) : length (str_bytes id) ≤ 255 → wire_id id = Some id.
Proof. intros H. unfold wire_id. rewrite take_ge by done. apply from_utf8_str. Qed.

Lemma decode_tagged_reads mk tag bytes pos :
  (∀ id, encode_addr (mk id) = encode_id tag id) →
  (∀ id, wire_form (mk id) = mk <$> wire_id id) →
  reads_block bytes pos [tag] (decode_tagged_id mk bytes pos).
Proof.
  intros Henc Hwire. unfold decode_tagged_id, decode_id, reads_block.
  destruct (Nat.leb_spec (length bytes) pos); [by left|].
  destruct (index_Val bytes pos) as (n & -> & Hn); [done|]. cbn [rust_bind].
  set (len := Z.to_nat (byte_to_Z n)).
  assert (len ≤ 255) as Hlen by (unfold len; pose proof (byte_to_Z_range n); lia).
  destruct (Nat.ltb_spec (length bytes) (pos + 1 + len)); [by left|].
  rewrite slice_take_drop by lia. cbn [rust_bind].
  destruct (from_utf8 (take len (drop (pos + 1) bytes))) as [id|] eqn:Hid; [right|by left].
  apply from_utf8_Some in Hid.
  assert (length (str_bytes id) = len) as Hl by (rewrite Hid, length_take, length_drop; lia).
  exists (mk id), (1 + len). rewrite Nat.add_assoc. split_and!; [done|lia| |].
  - rewrite Henc, encode_id_small, Hl by lia. cbn [app]. f_equal.
    unfold len at 1. rewrite byte_of_nat_of_byte, Hid.
    rewrite (drop_S bytes n pos Hn). cbn [take Nat.add]. do 3 f_equal. lia.
  - rewrite Hwire, wire_id_small by lia. done.
Qed.

Lemma decode_addr_reads bytes pos : reads_block bytes pos [] (decode_addr bytes pos).
Proof.
  unfold decode_addr. destruct (Nat.leb_spec (length bytes) pos) as [|Hpos]; [by left|].
  destruct (index_Val bytes pos Hpos) as (tag & -> & Htag). cbn [rust_bind].
  assert (∀ t r, tag = t → reads_block bytes (pos + 1) [t] r → reads_block bytes pos [] r) as Hsub.
  { intros t r <- [->|(a & n & -> & Hle & Henc & Hw)]; [by left|right].
    exists a, (1 + n). rewrite Nat.add_assoc. split_and!; [done|lia| |done].
    rewrite Henc, (drop_S bytes tag pos Htag). cbn [app take Nat.add]. do 3 f_equal. lia. }
  pose proof (λ t, byte_to_Z_inj tag t) as Hinj.
  destruct (byte_to_Z tag) as [|[[|[]|]|[|[]|]|]|] eqn:Hz; try by left.
  - apply (Hsub x00); [by apply Hinj|]. apply decode_v4_reads.
  - apply (Hsub x03); [by apply Hinj|]. by apply decode_tagged_reads.
  - apply (Hsub x04); [by apply Hinj|]. by apply decode_tagged_reads.
  - apply (Hsub x02); [by apply Hinj|]. by apply decode_tagged_reads.
  - apply (Hsub x01); [by apply Hinj|]. apply decode_v6_reads.
Qed.

Lemma decode_addrs_reads count bytes pos :
  ∃ r, decode_addrs count bytes pos = Val r ∧
       ∀ addrs, r = Some addrs →
         length addrs = count ∧ Forall (λ a, wire_form a = Some a) addrs ∧
         ∃ rest, drop pos bytes = concat (encode_addr <$> addrs) ++ rest.
Proof.
  revert pos. induction count as [|count IH]; intros pos; cbn [decode_addrs].
  { eexists; split; [done|]. intros addrs [= <-]. split_and!; [done|constructor|].
    by exists (drop pos bytes). }
  destruct (decode_addr_reads bytes pos) as [->|(a & n & -> & Hle & Henc & Hw)];
    cbn [rust_bind]; [by eexists|].
  destruct (IH (pos + n)) as (r & -> & Hr). cbn [rust_bind].
  eexists; split; [done|]. intros addrs Heq.
  destruct r as [addrs'|]; [|done]. injection Heq as <-.
  destruct (Hr addrs' eq_refl) as (Hlen & Hall & rest & Hrest).
  split_and!; [simpl; by rewrite Hlen|by constructor|]. exists rest.
  rewrite fmap_cons. cbn [concat]. rewrite <-app_assoc, <-Hrest, Henc. cbn [app].
  by rewrite <-drop_drop, take_drop.
Qed.

Lemma exchange_prefix bytes :
  9 ≤ length bytes → take 8 bytes = ADDR_EXCHANGE_CTRL →
  ∃ n, bytes = ADDR_EXCHANGE_CTRL ++ n :: drop 9 bytes ∧ index bytes 8 = Val n.
Proof.
  intros Hlen Hc. destruct (index_Val bytes 8) as (n & Hn & Hl); [lia|].
  exists n. split; [|done]. rewrite <-Hc, <-(drop_S bytes n 8 Hl). by rewrite take_drop.
Qed.

Lemma decode_exchange_reads bytes :
  ∃ r, decode_addr_exchange bytes = Val r ∧
       ∀ addrs, r = Some addrs →
         Forall (λ a, wire_form a = Some a) addrs ∧ length addrs ≤ 255 ∧
         ∃ rest, bytes = encode_addr_exchange addrs ++ rest.
Proof.
  unfold decode_addr_exchange. destruct (Nat.ltb_spec (length bytes) 9); [by eexists|].
  rewrite slice_Val by lia. cbn [rust_bind Nat.sub]. rewrite drop_0.
  case_bool_decide as Hc; [|by eexists].
  destruct (exchange_prefix bytes) as (n & Hbytes & ->); [done|done|]. cbn [rust_bind].
  destruct (decode_addrs_reads (Z.to_nat (byte_to_Z n)) bytes 9) as (r & -> & Hr).
  eexists; split; [done|]. intros addrs ->.
  destruct (Hr addrs eq_refl) as (Hlen & Hall & rest & Hrest).
  pose proof (byte_to_Z_range n). split_and!; [done|lia|]. exists rest.
  unfold encode_addr_exchange. rewrite Nat.min_l, take_ge by lia.
  rewrite Hlen, byte_of_nat_of_byte, <-!app_assoc, <-Hrest. exact Hbytes.
Qed.

(** ** Message identifiers and key announcements *)

Lemma message_id_of_bytes (e : array 8) :
  ∃ b0 rest, array_to_list e = b0 :: rest ∧
    u64_to_be_bytes (message_id_of e) = byte_of_Z (Z.lor (byte_to_Z b0) 128) :: rest.
Proof.
  pose proof (array_length e) as Hl. unfold message_id_of.
  destruct (array_to_list e) as [|b0 rest]; [done|]. exists b0, rest. split; [done|].
  apply u64_to_from_be. simpl in *. lia.
Qed.

Lemma lor_128_range b : (128 <= byte_to_Z (byte_of_Z (Z.lor (byte_to_Z b) 128)))%Z.
Proof. by destruct b. Qed.

Lemma decode_key_total payload :
  ∃ r, decode_key_announcement payload = Val r ∧
       ∀ p key ttl, r = Some (p, key, ttl) ↔ x02 :: payload = encode_key_announcement p key ttl.
Proof.
  unfold decode_key_announcement. change (32 + 32 + 1) with 65.
  destruct (Nat.eqb_spec (length payload) 65) as [Hl|Hl]; cbn [negb].
  - rewrite !slice_Val by lia. cbn [rust_bind Nat.sub]. rewrite drop_0.
    destruct (try_into_is_Some 32 (take 32 payload)) as (id & -> & Hid); [rewrite length_take; lia|].
    destruct (try_into_is_Some 32 (take 32 (drop 32 payload))) as (k & -> & Hk);
      [rewrite length_take, length_drop; lia|].
    destruct (index_Val payload 64) as (t & -> & Ht); [lia|]. cbn [rust_bind].
    assert (payload = array_to_list id ++ array_to_list k ++ [t]) as Hpay.
    { rewrite Hid, Hk. rewrite <-(take_drop 32 payload) at 1. f_equal.
      rewrite <-(take_drop 32 (drop 32 payload)) at 1. f_equal. rewrite drop_drop. simpl.
      rewrite (drop_S _ _ _ Ht). f_equal. apply drop_ge. lia. }
    eexists; split; [done|]. intros p key ttl. unfold encode_key_announcement. split.
    + intros [= <- <- <-]. simpl. by f_equal.
    + rewrite Hpay. intros [= Heq]. destruct p as [pid]; simpl in *.
      apply app_inj_1 in Heq as [E1 Heq]; [|by rewrite !array_length].
      apply app_inj_1 in Heq as [E2 [= ->]]; [|by rewrite !array_length].
      by apply array_eq in E1 as ->, E2 as ->.
  - eexists; split; [done|]. intros p key ttl. split; [done|]. intros [= ->]. destruct Hl.
    rewrite !length_app, !array_length. done.
Qed.

(** ** The peer table *)

Lemma has_address_spec addr anns : has_address addr anns = true ↔ addr ∈ (address <$> anns).
Proof.
  unfold has_address. rewrite existsb_exists, list_elem_of_fmap. split.
  - intros (a & Ha & Hb%bool_decide_eq_true). exists a. split; [done|by apply list_elem_of_In].
  - intros (a & -> & Ha). exists a. split; [by apply list_elem_of_In|by apply bool_decide_eq_true].
Qed.

Lemma upsert_address_spec anns addr :
  ∃ new, upsert_address anns addr = anns ++ new ∧
    addr ∈ (address <$> upsert_address anns addr) ∧
    (∀ a, a ∈ new → a = {| address := addr; short_id := None |}) ∧
    (NoDup (address <$> anns) → NoDup (address <$> upsert_address anns addr)).
Proof.
  unfold upsert_address. destruct (has_address addr anns) eqn:Hh.
  - exists []. rewrite app_nil_r. split_and!; [done|by apply has_address_spec|set_solver|done].
  - assert (addr ∉ (address <$> anns)) as Hn.
    { intros H%has_address_spec. congruence. }
    eexists. split_and!; [done| |set_solver|].
    + rewrite fmap_app. set_solver.
    + intros Hnd. rewrite fmap_app. apply NoDup_app.
      split_and!; [done|set_solver|apply NoDup_singleton].
Qed.

Lemma upsert_addresses_spec addrs anns :
  ∃ new, foldl upsert_address anns addrs = anns ++ new ∧
    (∀ a, a ∈ addrs → a ∈ (address <$> (anns ++ new))) ∧
    (∀ a, a ∈ new → address a ∈ addrs ∧ short_id a = None) ∧
    (NoDup (address <$> anns) → NoDup (address <$> (anns ++ new))).
Proof.
  revert anns. induction addrs as [|a addrs IH]; intros anns; simpl.
  { exists []. rewrite app_nil_r. split_and!; set_solver. }
  destruct (upsert_address_spec anns a) as (n1 & He & Hin & Hn1 & Hnd1).
  destruct (IH (upsert_address anns a)) as (n2 & -> & Hall & Hn2 & Hnd2).
  exists (n1 ++ n2). rewrite He in *. rewrite <-app_assoc in *.
  split_and!; [done| | |auto].
  - intros b [->|Hb]%elem_of_cons; [|auto]. rewrite app_assoc, fmap_app. set_solver.
  - intros b [Hb|Hb]%elem_of_app.
    + rewrite (Hn1 b Hb). set_solver.
    + destruct (Hn2 b Hb). set_solver.
Qed.

(** ** Properties *)

(** C28. Round trip of the address exchange: decoding an encoded list, with any
    bytes after it, gives the first 255 addresses as the wire carries them (IPv6
    flow label and scope cleared, identifiers cut to 255 bytes), and nothing if
    one of the cut identifiers is no longer UTF-8. *)
Theorem addr_exchange_roundtrip addrs post :
  decode_addr_exchange (encode_addr_exchange addrs ++ post) =
  Val (mapM wire_form (take 255 addrs)).
Proof. apply decode_exchange_encoded. Qed.


(** Key announcements: the decoder never panics, and accepts exactly the
    bytes the encoder writes after the route flag. *)
Theorem key_announcement_codec payload :
  ∃ r, decode_key_announcement payload = Val r ∧
       ∀ p key ttl, r = Some (p, key, ttl) ↔ x02 :: payload = encode_key_announcement p key ttl.
Proof. apply decode_key_total. Qed.

(** Application frames and control frames never collide: a frame under a
    fresh message identifier starts with a byte of 128 or more whatever the
    entropy, an address exchange starts with zero, and the identifier is read
    back from the first eight bytes. *)
Theorem message_id_not_control (entropy : array 8) payload addrs :
  (∃ b rest, frame_message (message_id_of entropy) payload = b :: rest ∧
     (128 <= byte_to_Z b)%Z) ∧
  (∃ rest, encode_addr_exchange addrs = x00 :: rest) ∧
  u64_from_be_bytes (take 8 (frame_message (message_id_of entropy) payload)) =
    message_id_of entropy.
Proof.
  unfold frame_message.
  destruct (message_id_of_bytes entropy) as (b0 & rest & He & Hb). split_and!.
  - rewrite Hb. eexists _, _. split; [done|]. apply lor_128_range.
  - by eexists.
  - rewrite take_app_le, take_ge by (unfold u64_to_be_bytes; rewrite length_to_be; lia).
    apply u64_from_to_be.
Qed.

(** [upsert_peer_addresses] adds every address that is missing, without a
    short id, behind the known announcements of that peer, keeps the addresses of
    a peer distinct, and touches no other peer. *)
Theorem upsert_peer_addresses_spec peers p addrs :
  let peers' := upsert_peer_addresses peers p addrs in
  let old := default [] (peers !! p) in
  ∃ new, peers' !! p = Some (old ++ new) ∧
    (∀ a, a ∈ addrs → a ∈ (address <$> (old ++ new))) ∧
    (∀ a, a ∈ new → address a ∈ addrs ∧ short_id a = None) ∧
    (NoDup (address <$> old) → NoDup (address <$> (old ++ new))) ∧
    ∀ q, q ≠ p → peers' !! q = peers !! q.
Proof.
  cbv zeta. destruct (upsert_addresses_spec addrs (default [] (peers !! p)))
    as (new & He & Hall & Hnew & Hnd).
  exists new. unfold upsert_peer_addresses. rewrite He, lookup_insert_eq.
  split_and!; [done..|]. intros q Hq. by rewrite lookup_insert_ne.
Qed.
