(* ===== verification/Env.v ===== *)
(** * The environment of a node

    The calls a task of the node makes outside its own state: the transports
    ([trait Transport]), raw connections ([trait Connection]), entropy, timers,
    network interfaces, the broadcast channel's receiver. Every answer is the
    environment's choice; theorems that need more say so. Two calls may answer in a way
    that makes the code panic ([env_fails]): the entropy source, and [connect] of a
    transport. The other methods of a transport or a connection return. *)

From S2P Require Import Prelude RustStd Types Effects.

(** A registered transport (its [Arc] pointer), and a raw connection. *)
Abbreviation tid := nat (only parsing).
Abbreviation conn := nat (only parsing).

(** An interface as the [if_addrs] crate lists it. *)
Inductive IfAddr := IfV4 (ip : array 4) | IfV6 (ip : array 16).
Record Interface := { if_addr : IfAddr; is_loopback : bool }.

(** [current_ipv4_addrs], on what [get_if_addrs()] returned. *)
Definition current_ipv4_addrs (ifs : option (list Interface)) : gset (array 4) :=
  list_to_set (omap (λ i, match if_addr i with IfV4 ip => Some ip | IfV6 _ => None end)
                 (filter (λ i, is_loopback i = false) (default [] ifs))).

Inductive env_op : Type → Type :=
| TransportStart (t : tid) : env_op (result unit)
| TransportStop (t : tid) : env_op (result unit)
(** [connect] of a transport may panic: [BleAdvertisingTransport] and [WifiDirectTransport]
    slice the identifier of the address they are given (advertising.rs, linux.rs). *)
| TransportConnect (t : tid) (ann : PeerAnnouncement) : env_op (rust (result conn))
| TransportAccept (t : tid) : env_op (result conn)
| TransportLocalAddresses (t : tid) : env_op (list PeerAddress)
| TransportCostOf (t : tid) : env_op TransportCost
| TransportNextPeerEvent (t : tid) : env_op (option PeerEvent)
(** Sleep until a watch channel changes: [true] when its sender is gone. *)
| WaitStarted (t : tid) : env_op bool
| ConnSend (c : conn) (bytes : list byte) : env_op (result unit)
| ConnRecv (c : conn) : env_op (result (list byte))
(** A receive raced with a timer: [None] when the timer fires first. *)
| ConnRecvBefore (c : conn) (limit : Z) : env_op (option (result (list byte)))
| ConnClose (c : conn) : env_op (result unit)
| ConnMtu (c : conn) : env_op nat
(** [getrandom]: [None] when the system has no entropy. *)
| Entropy8 : env_op (option (array 8))
| NoiseEntropy : env_op (list byte)
| GetIfAddrs : env_op (option (list Interface))
| Sleep (d : Z) : env_op unit
(** Sleep until the event channel has something new: [true] when it is closed. *)
| WaitEvent : env_op bool
(** The iteration order of a hash map, as the seed of [hash_iter]. *)
| HashSeed : env_op nat
(** How often a loop that only the environment ends goes round. *)
| LoopBound : env_op nat.

(** The answers that make the calling task panic: no entropy, a [connect] that panics. *)
Definition env_fails (X : Type) (e : env_op X) : X → bool :=
  match e in env_op X return X → bool with
  | Entropy8 => λ x, bool_decide (x = None)
  | TransportConnect _ _ => λ x, match x with Panic => true | Val _ => false end
  | _ => λ _, false
  end.

(** ** One end of a link: the environment of codec round trips

    Frames written by [ConnSend] are appended to [p_out], [ConnRecv] takes them
    from [p_in] in order; the mtu is fixed, entropy is a given stream. Reading with
    nothing left is the error [p_eof], as on a closed channel; no timer fires. *)

Record pipe := {
  p_mtu : nat;
  p_eof : PathweaveError;
  p_in : list (list byte);
  p_out : list (list byte);
  p_entropy : list (list byte);
  p_bound : nat;
  (** What each transport says its addresses are. *)
  p_local : list PeerAddress
}.

Definition set_in (w : pipe) (fs : list (list byte)) : pipe :=
  {| p_mtu := p_mtu w; p_eof := p_eof w; p_in := fs; p_out := p_out w;
     p_entropy := p_entropy w; p_bound := p_bound w; p_local := p_local w |}.

(** More frames written. *)
Definition push (w : pipe) (fs : list (list byte)) : pipe :=
  {| p_mtu := p_mtu w; p_eof := p_eof w; p_in := p_in w; p_out := p_out w ++ fs;
     p_entropy := p_entropy w; p_bound := p_bound w; p_local := p_local w |}.

Definition pipe_answer (X : Type) (e : env_op X) (w : pipe) : X * N * pipe :=
  match e in env_op X return X * N * pipe with
  | ConnSend _ bytes => (Ok tt, 0%N, push w [bytes])
  | ConnRecv _ =>
    match p_in w with
    | f :: fs => (Ok f, 0%N, set_in w fs)
    | [] => (Err (p_eof w), 0%N, w)
    end
  | ConnRecvBefore _ _ =>
    match p_in w with
    | f :: fs => (Some (Ok f), 0%N, set_in w fs)
    | [] => (Some (Err (p_eof w)), 0%N, w)
    end
  | ConnClose _ => (Ok tt, 0%N, w)
  | ConnMtu _ => (p_mtu w, 0%N, w)
  | LoopBound => (p_bound w, 0%N, w)
  | TransportStart _ => (Ok tt, 0%N, w)
  | TransportStop _ => (Ok tt, 0%N, w)
  | TransportConnect _ _ => (Val (Ok 0), 0%N, w)
  | TransportAccept _ => (Ok 0, 0%N, w)
  | TransportLocalAddresses _ => (p_local w, 0%N, w)
  | TransportCostOf _ => (Free, 0%N, w)
  | TransportNextPeerEvent _ => (None, 0%N, w)
  | WaitStarted _ => (true, 0%N, w)
  | Entropy8 => (Some (array_of_byte 8 x00), 0%N, w)
  | NoiseEntropy =>
    (default [] (head (p_entropy w)), 0%N,
     {| p_mtu := p_mtu w; p_eof := p_eof w; p_in := p_in w; p_out := p_out w;
        p_entropy := tail (p_entropy w); p_bound := p_bound w; p_local := p_local w |})
  | GetIfAddrs => (None, 0%N, w)
  | Sleep _ => (tt, 0%N, w)
  | WaitEvent => (true, 0%N, w)
  | HashSeed => (0, 0%N, w)
  end.

Lemma push_nil w : push w [] = w.
Proof. destruct w. unfold push; simpl. by rewrite app_nil_r. Qed.

Lemma push_push w fs gs : push (push w fs) gs = push w (fs ++ gs).
Proof. unfold push; simpl. by rewrite app_assoc. Qed.

Lemma set_in_id w : set_in w (p_in w) = w.
Proof. by destruct w. Qed.

Lemma set_in_set_in w a b : set_in (set_in w a) b = set_in w b.
Proof. done. Qed.
