(* ===== verification/Bundle.v ===== *)
(** * Bundle layer ([crates/pathweave-core/src/bundle.rs])

    BPv7 framing, fragmentation to the transport's mtu and reassembly. The bundle
    codec itself is the [bp7] crate, outside the repository: its operations are
    the class [Bp7], and what the layer relies on is the class [Bp7Laws]. *)

From S2P Require Import Prelude RustStd Types Effects Env.
Local Open Scope Z_scope.

(** ** The interface of the [bp7] crate *)

(** The primary block, with the fields the builder sets. *)
Record PrimaryBlock (EID : Type) := {
  bundle_control_flags : Z;
  destination : EID;
  source : EID;
  report_to : EID;
  creation_time : Z;
  creation_seqno : u64;
  lifetime : Z;
  fragmentation_offset : u64;
  total_data_length : u64
}.
Arguments bundle_control_flags {EID} _.
Arguments destination {EID} _.
Arguments source {EID} _.
Arguments report_to {EID} _.
Arguments creation_time {EID} _.
Arguments creation_seqno {EID} _.
Arguments lifetime {EID} _.
Arguments fragmentation_offset {EID} _.
Arguments total_data_length {EID} _.

(** A decoded bundle: its primary block, and its payload block's data if any. *)
Record Bundle (EID : Type) := { primary : PrimaryBlock EID; payload : option (list byte) }.
Arguments primary {EID} _.
Arguments payload {EID} _.

(** The third-party operations: errors are their messages. [to_cbor pb data] is
    [Bundle::new(pb, vec![new_payload_block(empty, data)])] without checksum,
    with its canonical blocks sorted, serialised. *)
Class Bp7 := {
  EndpointID : Type;
  with_dtn : string → string + EndpointID;
  eid_none : EndpointID;
  build : PrimaryBlock EndpointID → string + PrimaryBlock EndpointID;
  to_cbor : PrimaryBlock EndpointID → list byte → list byte;
  bundle_try_from : list byte → string + Bundle EndpointID
}.

Definition BUNDLE_IS_FRAGMENT : Z := 1.
Definition DTN_TIME_EPOCH : Z := 0.
Definition PW_NODE : string := "pathweave/local".
Definition BUNDLE_LIFETIME : Z := secs 3600.

(** [BundleControlFlags::from_bits_truncate(bits).contains(BUNDLE_IS_FRAGMENT)] *)
Definition is_fragment (bits : Z) : bool := Z.testbit bits 0.

(** [n as u64] of a length *)
Definition u64_of_nat (n : nat) : u64 := u64_of_Z (Z.of_nat n).

(** ** Pending reassemblies *)

Record PendingBundle := {
  pb_total_data_length : u64;
  fragments : list (Z * list byte) (* a [BTreeMap<u64, Vec<u8>>] *)
}.

Definition received_len (p : PendingBundle) : Z :=
  foldr (λ c n, Z.of_nat (length c.2) + n) 0 (fragments p).

Definition is_complete (p : PendingBundle) : bool :=
  uval (pb_total_data_length p) <=? received_len p.

Definition reassemble (p : PendingBundle) : list byte := concat (snd <$> fragments p).

Record BundleLayer := {
  inner : conn;
  seq : u64;
  pending : gmap u64 PendingBundle
}.

Definition BundleLayer_new (inner : conn) : BundleLayer :=
  {| inner := inner; seq := u64_of_Z 0; pending := ∅ |}.

Section layer.
Context `{Bp7} {S : Type} {T : Type}.
Local Abbreviation prog := (prog S env_op T).

Definition pw_eid : result EndpointID := map_err EBundle (with_dtn PW_NODE).

Definition whole_primary (eid : EndpointID) (sq : u64) : PrimaryBlock EndpointID := {|
  bundle_control_flags := 0;
  destination := eid; source := eid; report_to := eid_none;
  creation_time := DTN_TIME_EPOCH; creation_seqno := sq;
  lifetime := BUNDLE_LIFETIME;
  fragmentation_offset := u64_of_Z 0; total_data_length := u64_of_Z 0 |}.

Definition fragment_primary (eid : EndpointID) (sq : u64) (offset total : nat) :
    PrimaryBlock EndpointID := {|
  bundle_control_flags := BUNDLE_IS_FRAGMENT;
  destination := eid; source := eid; report_to := eid_none;
  creation_time := DTN_TIME_EPOCH; creation_seqno := sq;
  lifetime := BUNDLE_LIFETIME;
  fragmentation_offset := u64_of_nat offset; total_data_length := u64_of_nat total |}.

Definition fragment_header_overhead (eid : EndpointID) (sq : u64) (total_len : nat) :
    result nat :=
  result_map (λ pblock, length (to_cbor pblock []))
    (map_err EBundle (build (fragment_primary eid sq total_len total_len))).

(** The [while offset < bytes.len()] loop; [fuel] bounds the rounds, and running
    out of it would be a task that never ends. *)
Fixpoint send_fragments (fuel : nat) (c : conn) (eid : EndpointID) (sq : u64)
    (max_payload : nat) (bytes : list byte) (offset : nat) : prog (result unit) :=
  if (offset <? length bytes)%nat then
    match fuel with
    | O => Stuck Blocked
    | Datatypes.S fuel =>
      let end_ := Nat.min (offset + max_payload) (length bytes) in
      chunk ← lift (slice bytes offset end_);
      match map_err EBundle (build (fragment_primary eid sq offset (length bytes))) with
      | Err e => Ret (Err e)
      | Ok pblock =>
        r ← call (ConnSend c (to_cbor pblock chunk));
        match r with
        | Err e => Ret (Err e)
        | Ok _ => send_fragments fuel c eid sq max_payload bytes end_
        end
      end
    end
  else Ret (Ok tt).

Definition layer_send_bytes (l : BundleLayer) (bytes : list byte) :
    prog (result unit * BundleLayer) :=
  let sq := seq l in
  let l := {| inner := inner l; seq := u64_wrapping_add (seq l) 1; pending := pending l |} in
  match pw_eid with
  | Err e => Ret (Err e, l)
  | Ok eid =>
    mtu ← call (ConnMtu (inner l));
    match map_err EBundle (build (whole_primary eid sq)) with
    | Err e => Ret (Err e, l)
    | Ok pblock =>
      let cbor := to_cbor pblock bytes in
      if (mtu =? 0)%nat || (length cbor <=? mtu)%nat then
        r ← call (ConnSend (inner l) cbor); Ret (r, l)
      else
        match fragment_header_overhead eid sq (length bytes) with
        | Err e => Ret (Err e, l)
        | Ok overhead =>
          let max_payload := (mtu - overhead)%nat in
          if (max_payload =? 0)%nat then
            Ret (Err (EBundle "MTU too small for BPv7 bundle framing overhead"), l)
          else
            r ← send_fragments (length bytes) (inner l) eid sq max_payload bytes 0;
            Ret (r, l)
        end
    end
  end.

(** The body of [recv_bytes]'s loop after the read: the value returned, or
    [None] to go round again. *)
Definition absorb_fragment (l : BundleLayer) (pb : PrimaryBlock EndpointID)
    (chunk : list byte) : option (result (list byte)) * BundleLayer :=
  let sq := creation_seqno pb in
  let entry := default {| pb_total_data_length := total_data_length pb; fragments := [] |}
                 (pending l !! sq) in
  let entry := {| pb_total_data_length := pb_total_data_length entry;
                  fragments := btree_insert (uval (fragmentation_offset pb)) chunk
                                 (fragments entry) |} in
  if is_complete entry then
    (Some (Ok (reassemble entry)),
     {| inner := inner l; seq := seq l; pending := delete sq (pending l) |})
  else
    (None, {| inner := inner l; seq := seq l; pending := <[sq := entry]> (pending l) |}).

Definition absorb (l : BundleLayer) (raw : list byte) :
    option (result (list byte)) * BundleLayer :=
  match map_err EBundle (bundle_try_from raw) with
  | Err e => (Some (Err e), l)
  | Ok b =>
    if negb (is_fragment (bundle_control_flags (primary b))) then
      (Some (ok_or (payload b) (EBundle "bundle missing payload")), l)
    else
      match ok_or (payload b) (EBundle "fragment missing payload") with
      | Err e => (Some (Err e), l)
      | Ok chunk => absorb_fragment l (primary b) chunk
      end
  end.

(** How the next frame is read: plainly, or raced with a timer ([None] when the
    timer fires, which drops the future of the receive). *)
Definition raw_recv (c : conn) : prog (option (result (list byte))) :=
  r ← call (ConnRecv c); Ret (Some r).
Definition raw_recv_before (limit : Z) (c : conn) : prog (option (result (list byte))) :=
  call (ConnRecvBefore c limit).

Fixpoint recv_loop (bound : nat) (raw : conn → prog (option (result (list byte))))
    (l : BundleLayer) : prog (option (result (list byte)) * BundleLayer) :=
  match bound with
  | O => Stuck Blocked
  | Datatypes.S bound =>
    r ← raw (inner l);
    match r with
    | None => Ret (None, l)
    | Some (Err e) => Ret (Some (Err e), l)
    | Some (Ok bytes) =>
      match absorb l bytes with
      | (Some res, l) => Ret (Some res, l)
      | (None, l) => recv_loop bound raw l
      end
    end
  end.

Definition layer_recv (raw : conn → prog (option (result (list byte)))) (l : BundleLayer) :
    prog (option (result (list byte)) * BundleLayer) :=
  bound ← call LoopBound; recv_loop bound raw l.

Definition layer_recv_bytes (l : BundleLayer) : prog (result (list byte) * BundleLayer) :=
  '(o, l) ← layer_recv raw_recv l;
  match o with
  | Some r => Ret (r, l)
  | None => Stuck Blocked
  end.

Definition layer_close (l : BundleLayer) : prog (result unit) := call (ConnClose (inner l)).
Definition layer_mtu (l : BundleLayer) : prog nat := call (ConnMtu (inner l)).
End layer.

(** ** What the layer relies on *)

Section laws.
Context `{Bp7}.

(** A primary block the codec keeps: fields in range (a lifetime is whole
    milliseconds), and the fragment fields present exactly on fragments. *)
Record encodable (eid : EndpointID) (pb : PrimaryBlock EndpointID) : Prop := {
  enc_flags : 0 <= bundle_control_flags pb < 2 ^ 64;
  enc_destination : destination pb = eid;
  enc_source : source pb = eid;
  enc_report_to : report_to pb = eid_none;
  enc_time : 0 <= creation_time pb < 2 ^ 64;
  enc_lifetime : ∃ ms, lifetime pb = ms * 1000000 ∧ 0 <= ms < 2 ^ 64;
  enc_fragment : is_fragment (bundle_control_flags pb) = false →
    fragmentation_offset pb = u64_of_Z 0 ∧ total_data_length pb = u64_of_Z 0
}.

Class Bp7Laws := {
  local_eid : EndpointID;
  with_dtn_node : with_dtn PW_NODE = inr local_eid;
  build_valid : ∀ pb, destination pb = local_eid → build pb = inr pb;
  decode_encode : ∀ pb data, encodable local_eid pb → Z.of_nat (length data) < 2 ^ 64 →
    bundle_try_from (to_cbor pb data) = inr {| primary := pb; payload := Some data |}
}.

(** RFC 8949: a byte string is a head and its bytes; an unsigned integer's
    encoding never shrinks as the integer grows. *)
Definition cbor_head_len (n : Z) : nat :=
  if n <? 24 then 1 else if n <? 2 ^ 8 then 2 else if n <? 2 ^ 16 then 3
  else if n <? 2 ^ 32 then 5 else 9.

Class Bp7Sizes := {
  payload_size : ∀ pb data, Z.of_nat (length data) < 2 ^ 64 →
    (length (to_cbor pb data) + 1 =
     length (to_cbor pb []) + length data + cbor_head_len (Z.of_nat (length data)))%nat;
  offset_size : ∀ eid sq o o' total, (o ≤ o')%nat → Z.of_nat o' < 2 ^ 64 →
    (length (to_cbor (fragment_primary eid sq o total) []) ≤
     length (to_cbor (fragment_primary eid sq o' total) []))%nat;
  whole_size : ∀ eid sq o total,
    (length (to_cbor (whole_primary eid sq) []) ≤
     length (to_cbor (fragment_primary eid sq o total) []))%nat
}.
End laws.
Arguments Bp7Laws : clear implicits.
Arguments Bp7Laws {_}.
Arguments Bp7Sizes : clear implicits.
Arguments Bp7Sizes {_}.

Lemma cbor_head_len_bounds n : (1 ≤ cbor_head_len n ≤ 9)%nat.
Proof. unfold cbor_head_len. repeat case_match; lia. Qed.

Lemma uval_u64_of_nat n : Z.of_nat n < 2 ^ 64 → uval (u64_of_nat n) = Z.of_nat n.
Proof. intros Hn. unfold u64_of_nat. rewrite u64_of_Z_uval. apply Z.mod_small. lia. Qed.

(** ** Cutting a message *)

(** The (offset, data) pairs the sending loop makes of a message. *)
Fixpoint cut (fuel max_payload : nat) (bytes : list byte) (offset : nat) :
    list (nat * list byte) :=
  if (offset <? length bytes)%nat then
    match fuel with
    | O => []
    | S fuel =>
      (offset, take max_payload (drop offset bytes)) ::
      cut fuel max_payload bytes (Nat.min (offset + max_payload) (length bytes))
    end
  else [].

Definition pieces (max_payload : nat) (bytes : list byte) : list (nat * list byte) :=
  cut (length bytes) max_payload bytes 0.

Definition zpiece (c : nat * list byte) : Z * list byte := (Z.of_nat c.1, c.2).

Definition sizes {K} (l : list (K * list byte)) : Z :=
  foldr (λ c n, Z.of_nat (length c.2) + n) 0 l.

Section cut.
Context (k : nat) (bytes : list byte) (Hk : (0 < k)%nat).

Lemma cut_end fuel off : (length bytes ≤ off)%nat → cut fuel k bytes off = [].
Proof. clear Hk.
  intros Hoff. destruct fuel; simpl; destruct (Nat.ltb_spec off (length bytes)); done || lia.
Qed.

Lemma cut_cons fuel off : (off < length bytes)%nat →
  cut (S fuel) k bytes off =
  (off, take k (drop off bytes)) :: cut fuel k bytes (Nat.min (off + k) (length bytes)).
Proof. clear Hk.
  intros Hoff. cbn [cut]. destruct (Nat.ltb_spec off (length bytes)); [done|lia].
Qed.

Lemma cut_concat fuel off : (length bytes - off ≤ fuel)%nat →
  concat (cut fuel k bytes off).*2 = drop off bytes.
Proof.
  revert off. induction fuel as [|fuel IH]; intros off Hf.
  { rewrite cut_end by lia. by rewrite drop_ge by lia. }
  destruct (decide (off < length bytes)%nat) as [Hoff|Hoff].
  - rewrite cut_cons by done. simpl. rewrite IH by lia.
    rewrite <-(take_drop k (drop off bytes)) at 2. f_equal. rewrite drop_drop.
    destruct (Nat.min_spec (off + k) (length bytes)) as [[? ->]|[? ->]]; [done|].
    rewrite !drop_ge; [done|lia|lia].
  - rewrite cut_end by lia. by rewrite drop_ge by lia.
Qed.

Lemma cut_elem fuel off c : c ∈ cut fuel k bytes off →
  (off ≤ c.1 < length bytes)%nat ∧ c.2 = take k (drop c.1 bytes).
Proof. clear Hk.
  revert off. induction fuel as [|fuel IH]; intros off Hc.
  { cbn [cut] in Hc. destruct (_ <? _)%nat; by apply elem_of_nil in Hc. }
  destruct (decide (off < length bytes)%nat) as [Hoff|Hoff].
  - rewrite cut_cons in Hc by done. apply elem_of_cons in Hc as [->|Hc]; simpl; [split; [lia|done]|].
    destruct (IH _ Hc) as [? ?]. split; [lia|done].
  - rewrite cut_end in Hc by lia. by apply elem_of_nil in Hc.
Qed.

Lemma cut_sorted fuel off : btree_wf (zpiece <$> cut fuel k bytes off).
Proof.
  unfold btree_wf. revert off. induction fuel as [|fuel IH]; intros off.
  { cbn [cut]. destruct (_ <? _)%nat; constructor. }
  destruct (decide (off < length bytes)%nat) as [Hoff|Hoff].
  - rewrite cut_cons by done. cbn [fmap list_fmap]. constructor; [apply IH|].
    apply Forall_forall. intros z Hz. apply list_elem_of_fmap in Hz as ([z' d] & -> & Hz).
    apply list_elem_of_fmap in Hz as (c & [= -> ->] & Hc). apply cut_elem in Hc. simpl. lia.
  - rewrite cut_end by lia. constructor.
Qed.

Lemma pieces_concat : concat (pieces k bytes).*2 = bytes.
Proof. apply cut_concat. lia. Qed.

Lemma piece_nonempty c : c ∈ pieces k bytes → (0 < length c.2 ≤ k)%nat.
Proof.
  intros [? ->]%cut_elem. rewrite length_take, length_drop. lia.
Qed.
End cut.

Lemma sizes_cons {K} (c : K * list byte) l : sizes (c :: l) = Z.of_nat (length c.2) + sizes l.
Proof. done. Qed.

Lemma sizes_concat {K} (l : list (K * list byte)) : sizes l = Z.of_nat (length (concat l.*2)).
Proof.
  induction l as [|[x d] l IH]; [done|]. rewrite sizes_cons, IH. cbn [fmap list_fmap concat].
  rewrite length_app. simpl. lia.
Qed.

Lemma sizes_zpiece l : sizes (zpiece <$> l) = sizes l.
Proof. induction l as [|c l IH]; [done|]. by rewrite fmap_cons, !sizes_cons, IH. Qed.

Lemma sizes_perm {K} (l1 l2 : list (K * list byte)) : l1 ≡ₚ l2 → sizes l1 = sizes l2.
Proof. induction 1; rewrite ?sizes_cons; lia. Qed.

Lemma sizes_app {K} (l1 l2 : list (K * list byte)) : sizes (l1 ++ l2) = sizes l1 + sizes l2.
Proof. induction l1 as [|c l1 IH]; [done|]. cbn [app]. rewrite !sizes_cons. lia. Qed.

Lemma sizes_nonneg {K} (l : list (K * list byte)) : 0 <= sizes l.
Proof. induction l; rewrite ?sizes_cons; [done|lia]. Qed.

(** A proper part of the pieces is strictly shorter than the message. *)
Lemma sizes_missing {K} (m C : list (K * list byte)) x :
  NoDup m → (∀ p, p ∈ m → p ∈ C) → x ∈ C → x ∉ m → (0 < length x.2)%nat → sizes m < sizes C.
Proof.
  intros Hm Hsub Hx Hxm Hlen.
  assert (x :: m ⊆+ C) as HC.
  { apply NoDup_submseteq; [by constructor|]. intros p [->|Hp]%elem_of_cons; auto. }
  apply submseteq_Permutation in HC as (r & Hr).
  rewrite (sizes_perm _ _ Hr), sizes_app, sizes_cons. pose proof (sizes_nonneg r). lia.
Qed.

Lemma btree_wf_NoDup {V} (m : list (Z * V)) : btree_wf m → NoDup m.
Proof.
  unfold btree_wf. intros Hm. apply (NoDup_fmap_1 fst).
  induction Hm as [|z l Hl IH Hz]; constructor; [|done].
  intros Hin. rewrite Forall_forall in Hz. specialize (Hz z Hin). lia.
Qed.

(** ** Reassembly *)

Section reassembly.
Context `{Bp7} {LAWS : Bp7Laws}.

Definition absorb_all (l : BundleLayer) (frames : list (list byte)) : BundleLayer :=
  foldl (λ l f, (absorb l f).2) l frames.

(** The fragments the layer holds for message [sq] of [n] bytes. *)
Definition held (l : BundleLayer) (sq : u64) (n : nat) : PendingBundle :=
  default {| pb_total_data_length := u64_of_nat n; fragments := [] |} (pending l !! sq).

Lemma fragment_primary_encodable sq o n :
  encodable local_eid (fragment_primary local_eid sq o n).
Proof. split; try done. exists 3600000. done. Qed.

Lemma whole_primary_encodable sq : encodable local_eid (whole_primary local_eid sq).
Proof. split; try done. exists 3600000. done. Qed.

(** The frame of a piece of a message of [n] bytes. *)
Definition frame (sq : u64) (n : nat) (c : nat * list byte) : list byte :=
  to_cbor (fragment_primary local_eid sq c.1 n) c.2.

Lemma absorb_frame l sq n c : Z.of_nat (length c.2) < 2 ^ 64 →
  absorb l (frame sq n c) = absorb_fragment l (fragment_primary local_eid sq c.1 n) c.2.
Proof.
  intros Hc. unfold absorb, frame.
  rewrite decode_encode by (done || apply fragment_primary_encodable). done.
Qed.

(** Frames that are not fragments of message [sq]. *)
Definition foreign (sq : u64) (raw : list byte) : Prop :=
  ∀ b, bundle_try_from raw = inr b → is_fragment (bundle_control_flags (primary b)) = true →
    creation_seqno (primary b) ≠ sq.

Lemma held_foreign l sq n raw : foreign sq raw → held (absorb l raw).2 sq n = held l sq n.
Proof.
  intros Hf. unfold absorb. destruct (bundle_try_from raw) as [e|b] eqn:Hb; simpl; [done|].
  destruct (is_fragment _) eqn:Hfr; simpl; [|done].
  specialize (Hf b Hb Hfr). destruct (payload b) as [chunk|]; simpl; [|done].
  unfold absorb_fragment, held. destruct (is_complete _); simpl.
  - by rewrite lookup_delete_ne.
  - by rewrite lookup_insert_ne.
Qed.

Section message.
Context (sq : u64) (bytes : list byte) (k : nat).
Context (Hk : (0 < k)%nat) (Hlen : Z.of_nat (length bytes) < 2 ^ 64).
Local Abbreviation C := (pieces k bytes).
Local Abbreviation n := (length bytes).

Definition holds (l : BundleLayer) (seen : list (nat * list byte)) : Prop :=
  uval (pb_total_data_length (held l sq n)) = Z.of_nat n ∧
  btree_wf (fragments (held l sq n)) ∧
  ∀ p, p ∈ fragments (held l sq n) ↔ p ∈ zpiece <$> seen.

Lemma holds_none l : pending l !! sq = None → holds l [].
Proof.
  intros Hl. unfold holds, held. rewrite Hl. simpl. split; [by apply uval_u64_of_nat|].
  split; [constructor|done].
Qed.

Lemma piece_small c : c ∈ C → Z.of_nat (length c.2) < 2 ^ 64 ∧ Z.of_nat c.1 < 2 ^ 64.
Proof.
  intros [? ->]%cut_elem. rewrite length_take, length_drop. lia.
Qed.

(** The entry after a piece arrives. *)
Definition with_piece (l : BundleLayer) (c : nat * list byte) : PendingBundle := {|
  pb_total_data_length := pb_total_data_length (held l sq n);
  fragments := btree_insert (Z.of_nat c.1) c.2 (fragments (held l sq n)) |}.

Lemma absorb_piece l c : c ∈ C →
  absorb l (frame sq n c) =
  if is_complete (with_piece l c) then
    (Some (Ok (reassemble (with_piece l c))),
     {| inner := inner l; seq := seq l; pending := delete sq (pending l) |})
  else (None, {| inner := inner l; seq := seq l;
                 pending := <[sq := with_piece l c]> (pending l) |}).
Proof.
  intros Hc. destruct (piece_small c Hc) as [Hd Ho]. rewrite absorb_frame by done.
  unfold absorb_fragment. cbn [creation_seqno fragmentation_offset fragment_primary
    total_data_length]. rewrite uval_u64_of_nat by done. done.
Qed.

Lemma with_piece_elems l seen c p : holds l seen → c ∈ C → Forall (λ x, x ∈ C) seen →
  p ∈ fragments (with_piece l c) ↔ p ∈ zpiece <$> (c :: seen).
Proof.
  intros (_ & Hwf & Hel) Hc Hseen. cbn [with_piece fragments].
  rewrite btree_insert_elem by done. rewrite fmap_cons, elem_of_cons, Hel. split.
  - intros [->|[Hp _]]; auto.
  - intros [->|Hp]; [by left|].
    destruct (decide (p.1 = Z.of_nat c.1)) as [Heq|Hne]; [left|by right].
    apply list_elem_of_fmap in Hp as (c' & -> & Hc'). rewrite Forall_forall in Hseen.
    apply Hseen, cut_elem in Hc' as [_ Hd']. apply cut_elem in Hc as [_ Hd].
    destruct c as [o d], c' as [o' d']; simpl in *. apply Nat2Z.inj in Heq as ->.
    by rewrite Hd, Hd'.
Qed.

Lemma complete_iff m : btree_wf m → (∀ p, p ∈ m → p ∈ zpiece <$> C) →
  (Z.of_nat n <=? sizes m) = true ↔ ∀ c, c ∈ C → zpiece c ∈ m.
Proof.
  intros Hwf Hsub.
  assert (sizes (zpiece <$> C) = Z.of_nat n) as Hn
    by (rewrite sizes_zpiece, sizes_concat, pieces_concat by done; done).
  rewrite Z.leb_le. split.
  - intros Hle c Hc. destruct (decide (zpiece c ∈ m)) as [|Hni]; [done|].
    assert (sizes m < sizes (zpiece <$> C)); [|lia].
    apply (sizes_missing m _ (zpiece c)); [by apply btree_wf_NoDup|done| |done|].
    + by apply list_elem_of_fmap_2.
    + apply piece_nonempty in Hc; [|done]. simpl. lia.
  - intros Hall. rewrite (btree_ext m (zpiece <$> C)); [lia|done|apply cut_sorted; done|].
    intros p. split; [auto|]. intros Hp. apply list_elem_of_fmap in Hp as (c & -> & ?). auto.
Qed.

Lemma complete_reassemble m : btree_wf m → (∀ p, p ∈ m → p ∈ zpiece <$> C) →
  (∀ c, c ∈ C → zpiece c ∈ m) → concat m.*2 = bytes.
Proof.
  intros Hwf Hsub Hall. rewrite (btree_ext m (zpiece <$> C)); [|done|apply cut_sorted; done|].
  - rewrite <-(pieces_concat k bytes Hk) at 2. f_equal. rewrite <-list_fmap_compose. done.
  - intros p. split; [auto|]. intros Hp. apply list_elem_of_fmap in Hp as (c & -> & ?). auto.
Qed.

(** One more piece: the message exactly when it was the last one missing. *)
Lemma absorb_step l seen c : holds l seen → c ∈ C → Forall (λ x, x ∈ C) seen →
  if decide (Forall (λ x, x ∈ c :: seen) C)
  then absorb l (frame sq n c) =
         (Some (Ok bytes), {| inner := inner l; seq := seq l; pending := delete sq (pending l) |})
  else ∃ l', absorb l (frame sq n c) = (None, l') ∧ holds l' (c :: seen) ∧
             delete sq (pending l') = delete sq (pending l) ∧
             inner l' = inner l ∧ seq l' = seq l.
Proof.
  intros Hl Hc Hseen. rewrite absorb_piece by done.
  pose proof (λ p, with_piece_elems l seen c p Hl Hc Hseen) as Hel.
  destruct Hl as (Ht & Hwf & _).
  assert (btree_wf (fragments (with_piece l c))) as Hwf' by (by apply btree_insert_wf).
  assert (∀ p, p ∈ fragments (with_piece l c) → p ∈ zpiece <$> C) as Hsub.
  { intros p (x & -> & Hx)%Hel%list_elem_of_fmap. apply list_elem_of_fmap_2.
    rewrite Forall_forall in Hseen. apply elem_of_cons in Hx as [->|]; auto. }
  assert (is_complete (with_piece l c) = true ↔ ∀ x, x ∈ C → x ∈ c :: seen) as Hcomp.
  { unfold is_complete. cbn [with_piece pb_total_data_length]. rewrite Ht.
    change (received_len (with_piece l c)) with (sizes (fragments (with_piece l c))).
    rewrite complete_iff by done. apply forall_proper; intros x. rewrite Hel.
    rewrite list_elem_of_fmap. split; [|by intros Hx Hx'; exists x; auto].
    intros Hx Hx'. destruct (Hx Hx') as (y & Hy & ?). destruct x as [o d], y as [o' d'].
    injection Hy as Ho ->. by apply Nat2Z.inj in Ho as ->. }
  destruct (decide _) as [Hall|Hnot]; rewrite Forall_forall in *.
  - rewrite (proj2 Hcomp Hall). do 3 f_equal. apply complete_reassemble; try done.
    intros x Hx. apply Hel, list_elem_of_fmap_2. auto.
  - destruct (is_complete (with_piece l c)) eqn:Hf; [by destruct Hnot; apply Hcomp|].
    eexists. split; [done|]. split_and!; [|by simpl; rewrite delete_insert_eq|done|done].
    unfold holds, held. simpl. rewrite lookup_insert_eq. done.
Qed.

Lemma holds_foreign l seen raw : foreign sq raw → holds l seen → holds (absorb l raw).2 seen.
Proof. intros Hf. unfold holds. by rewrite held_foreign. Qed.
(** A trace of arrivals: pieces of the message and foreign frames. *)
Definition arrival_frame (a : nat * list byte + list byte) : list byte :=
  match a with inl c => frame sq n c | inr raw => raw end.

Definition arrivals_ok (trace : list (nat * list byte + list byte)) : Prop :=
  Forall (λ a, match a with inl c => c ∈ C | inr raw => foreign sq raw end) trace.

Lemma absorb_trace l trace x : pending l !! sq = None → arrivals_ok trace →
  x ∈ C → inl x ∉ trace →
  ∃ seen, (∀ c, c ∈ seen ↔ inl c ∈ trace) ∧
    holds (absorb_all l (arrival_frame <$> trace)) seen.
Proof.
  intros Hl Hok Hx Hnx. induction trace as [|a trace IH] using rev_ind.
  { exists []. split; [|by apply holds_none]. intros c. by rewrite !elem_of_nil. }
  apply Forall_app in Hok as [Hok [Ha _]%Forall_cons].
  rewrite elem_of_app, list_elem_of_singleton in Hnx.
  destruct IH as (seen & Hseen & Hholds); [done|tauto|].
  rewrite fmap_app. unfold absorb_all. rewrite foldl_app. cbn [fmap list_fmap foldl].
  fold (absorb_all l (arrival_frame <$> trace)).
  destruct a as [c|raw]; simpl.
  - pose proof (absorb_step (absorb_all l (arrival_frame <$> trace)) seen c) as Hst.
    destruct (decide _) as [Hall|_].
    { rewrite Forall_forall in Hall. specialize (Hall x Hx). exfalso.
      apply elem_of_cons in Hall as [->|Hxs]; [tauto|]. apply Hseen in Hxs. tauto. }
    destruct Hst as (l' & -> & Hl' & _); [done|done| |].
    { apply Forall_forall. intros y Hy. apply Hseen in Hy.
      rewrite Forall_forall in Hok. apply (Hok _ Hy). }
    exists (c :: seen). split; [|done]. intros y.
    rewrite elem_of_cons, elem_of_app, list_elem_of_singleton, Hseen.
    split; [intros [->|?]; auto|intros [?|[= ->]]; auto].
  - exists seen. split; [|by apply holds_foreign]. intros y.
    rewrite elem_of_app, list_elem_of_singleton, Hseen. split; [auto|]. by intros [?|?].
Qed.
End message.

(** C14. Reassembly does not depend on order: pieces of one message arriving in
    any order, repeated, interleaved with frames of other messages, give back
    exactly the message when the last missing piece arrives, and nothing before. *)
Theorem reassembly_any_order l sq bytes k trace y x
    (Hk : (0 < k)%nat) (Hlen : Z.of_nat (length bytes) < 2 ^ 64)
    (Hnew : pending l !! sq = None) (Hok : arrivals_ok sq bytes k trace)
    (Hy : y ∈ pieces k bytes) (Hmissing : inl y ∉ trace) (Hx : x ∈ pieces k bytes) :
  (absorb (absorb_all l (arrival_frame sq bytes <$> trace)) (frame sq (length bytes) x)).1 =
  if decide (Forall (λ c, inl c ∈ trace ++ [inl x]) (pieces k bytes))
  then Some (Ok bytes) else None.
Proof.
  destruct (absorb_trace sq bytes k Hk Hlen l trace y) as (seen & Hseen & Hholds); try done.
  pose proof (absorb_step sq bytes k Hk Hlen _ seen x Hholds Hx) as Hst.
  assert (∀ c, c ∈ x :: seen ↔ inl c ∈ trace ++ [inl x]) as Heq.
  { intros c. rewrite elem_of_cons, elem_of_app, list_elem_of_singleton, Hseen.
    split; [intros [->|?]; auto|intros [?|[= ->]]; auto]. }
  assert (Forall (λ x, x ∈ pieces k bytes) seen) as Hsub.
  { apply Forall_forall. intros c Hc. apply Hseen in Hc. unfold arrivals_ok in Hok.
    rewrite Forall_forall in Hok. apply (Hok _ Hc). }
  specialize (Hst Hsub).
  destruct (decide (Forall (λ c, c ∈ x :: seen) _)) as [Hall|Hnot], (decide _) as [Hall'|Hnot'].
  - by rewrite Hst.
  - destruct Hnot'. eapply Forall_impl; [exact Hall|]. intros c. by rewrite Heq.
  - destruct Hnot. eapply Forall_impl; [exact Hall'|]. intros c. by rewrite Heq.
  - by destruct Hst as (l' & -> & _).
Qed.
End reassembly.

(** ** Sending *)

Section sending.
Context `{Bp7} {LAWS : Bp7Laws} {S T : Type} (tick : N → S → S).
Local Abbreviation run p := (run (T := T) pipe_answer tick p).

Lemma slice_piece (bytes : list byte) off k : (off < length bytes)%nat →
  slice bytes off (Nat.min (off + k) (length bytes)) = Val (take k (drop off bytes)).
Proof.
  intros Hoff. rewrite slice_Val by lia. f_equal.
  destruct (Nat.min_spec (off + k) (length bytes)) as [[? ->]|[? ->]]; [by f_equal; lia|].
  rewrite !take_ge; [done|rewrite length_drop; lia|rewrite length_drop; lia].
Qed.

Lemma run_send_fragments fuel c sq k bytes off s w :
  (0 < k)%nat → (off ≤ length bytes)%nat → (length bytes - off ≤ fuel)%nat →
  let r := run (send_fragments fuel c local_eid sq k bytes off) s w in
  r_final r = Returned (Ok tt) ∧
  r_env r = push w (frame sq (length bytes) <$> cut fuel k bytes off).
Proof.
  intros Hk. revert off s w. induction fuel as [|fuel IH]; intros off s w Hoff Hf r; subst r.
  { cbn [send_fragments cut]. destruct (Nat.ltb_spec off (length bytes)); [lia|].
    simpl. by rewrite push_nil. }
  destruct (decide (off < length bytes)%nat) as [Hlt|Hge].
  - rewrite (cut_cons k bytes) by done. cbn [send_fragments].
    rewrite (proj2 (Nat.ltb_lt _ _) Hlt), slice_piece, build_valid by done. simpl.
    destruct (IH (Nat.min (off + k) (length bytes)) (tick 0%N s)
      (push w [frame sq (length bytes) (off, take k (drop off bytes))])) as [IH1 IH2]; [lia|lia|].
    split; [exact IH1|]. etrans; [exact IH2|]. by rewrite push_push.
  - rewrite (cut_end k bytes) by lia. cbn [send_fragments].
    destruct (Nat.ltb_spec off (length bytes)); [lia|]. simpl. by rewrite push_nil.
Qed.

(** What one call sends: a whole bundle when it fits, else the fragments, else
    nothing, with an error. *)
Definition overhead (sq : u64) (n : nat) : nat :=
  length (to_cbor (fragment_primary local_eid sq n n) []).

Definition fits (mtu : nat) (sq : u64) (bytes : list byte) : bool :=
  (mtu =? 0)%nat || (length (to_cbor (whole_primary local_eid sq) bytes) <=? mtu)%nat.

Definition sent_frames (mtu : nat) (sq : u64) (bytes : list byte) : result (list (list byte)) :=
  if fits mtu sq bytes then Ok [to_cbor (whole_primary local_eid sq) bytes]
  else if (mtu <=? overhead sq (length bytes))%nat
    then Err (EBundle "MTU too small for BPv7 bundle framing overhead")
    else Ok (frame sq (length bytes) <$> pieces (mtu - overhead sq (length bytes)) bytes).

Lemma run_send_bytes l bytes s w :
  let r := run (layer_send_bytes l bytes) s w in
  r_final r = Returned (result_map (λ _, tt) (sent_frames (p_mtu w) (seq l) bytes),
    {| inner := inner l; seq := u64_wrapping_add (seq l) 1; pending := pending l |}) ∧
  r_env r = push w match sent_frames (p_mtu w) (seq l) bytes with Ok fs => fs | Err _ => [] end.
Proof.
  unfold layer_send_bytes, pw_eid. rewrite with_dtn_node. cbn [map_err]. simpl run.
  rewrite build_valid by done. simpl run. unfold sent_frames, fits.
  destruct (_ || _); [done|].
  unfold fragment_header_overhead. rewrite build_valid by done. cbn [map_err result_map].
  fold (overhead (seq l) (length bytes)).
  destruct (Nat.leb_spec (p_mtu w) (overhead (seq l) (length bytes))).
  - replace (p_mtu w - _)%nat with 0%nat by lia. simpl. by rewrite push_nil.
  - rewrite (proj2 (Nat.eqb_neq (p_mtu w - _) 0)) by lia. rewrite run_bind.
    destruct (run_send_fragments (length bytes) (inner l) (seq l)
      (p_mtu w - overhead (seq l) (length bytes)) bytes 0 (tick 0%N s) w) as [-> Hw]; [lia..|].
    split; [done|]. exact Hw.
Qed.

(** A way to read the next frame that takes it from the pipe when there is one. *)
Definition reads (raw : conn → prog S env_op T (option (result (list byte)))) : Prop :=
  ∀ c s w f rest, p_in w = f :: rest →
    run (raw c) s w = Ran (Returned (Some (Ok f))) (tick 0%N s) (set_in w rest) [].

Lemma reads_raw : reads raw_recv.
Proof. intros c s w f rest Hw. cbn. by rewrite Hw. Qed.

Lemma reads_before limit : reads (raw_recv_before limit).
Proof. intros c s w f rest Hw. cbn. by rewrite Hw. Qed.

(** Reading frames none of which ends a message, then one that does. *)
Lemma run_recv_loop raw (Hraw : reads raw) fs f rest bound l l' res s w :
  p_in w = fs ++ f :: rest → (length fs < bound)%nat →
  (∀ fs1 g fs2, fs = fs1 ++ g :: fs2 → (absorb (absorb_all l fs1) g).1 = None) →
  absorb (absorb_all l fs) f = (Some res, l') →
  let r := run (recv_loop bound raw l) s w in
  r_final r = Returned (Some res, l') ∧
  r_env r = set_in w rest.
Proof.
  revert bound l s w. induction fs as [|g fs IH]; intros bound l s w Hw Hb Hnone Hlast.
  - destruct bound as [|bound]; [simpl in Hb; lia|]. simpl in Hlast.
    cbn [recv_loop]. cbv zeta. rewrite run_bind, (Hraw _ s w f rest Hw). simpl. rewrite Hlast. done.
  - destruct bound as [|bound]; [simpl in Hb; lia|].
    cbn [recv_loop]. cbv zeta. rewrite run_bind, (Hraw _ s w g (fs ++ f :: rest) Hw). simpl.
    pose proof (Hnone [] g fs eq_refl) as Hg. simpl in Hg.
    destruct (absorb l g) as [o l1] eqn:Ha; simpl in Hg; subst o.
    destruct (IH bound l1 (tick 0%N s)
(set_in w (fs ++ f :: rest)))
      as [IH1 IH2]; simpl; [done|simpl in Hb; lia| | |by split].
    + intros fs1 g' fs2 ->. pose proof (Hnone (g :: fs1) g' fs2 eq_refl) as Hn.
      unfold absorb_all in Hn; simpl in Hn. by rewrite Ha in Hn.
    + unfold absorb_all in Hlast; simpl in Hlast. by rewrite Ha in Hlast.
Qed.

Lemma run_layer_recv raw (Hraw : reads raw) fs f rest l l' res s w :
  p_in w = fs ++ f :: rest → (length fs < p_bound w)%nat →
  (∀ fs1 g fs2, fs = fs1 ++ g :: fs2 → (absorb (absorb_all l fs1) g).1 = None) →
  absorb (absorb_all l fs) f = (Some res, l') →
  let r := run (layer_recv raw l) s w in
  r_final r = Returned (Some res, l') ∧
  r_env r = set_in w rest.
Proof.
  intros Hw Hb Hnone Hlast. unfold layer_recv. cbn [bind call Effects.run pipe_answer].
  by apply (run_recv_loop raw Hraw fs f rest (p_bound w) l l' res (tick 0%N s) w).
Qed.
End sending.

Lemma length_cut fuel k bytes off : (length (cut fuel k bytes off) ≤ fuel)%nat.
Proof.
  revert off. induction fuel as [|fuel IH]; intros off; simpl; destruct (_ <? _)%nat; simpl; try lia.
  specialize (IH (Nat.min (off + k) (length bytes))). lia.
Qed.

(** ** Through a pipe *)

Section through_pipe.
Context `{Bp7} {LAWS : Bp7Laws} {SIZES : Bp7Sizes} {S T : Type} (tick : N → S → S).
Local Abbreviation run p := (run (T := T) pipe_answer tick p).

Lemma pieces_NoDup k bytes : (0 < k)%nat → NoDup (pieces k bytes).
Proof.
  intros Hk. apply (NoDup_fmap_1 zpiece), btree_wf_NoDup, cut_sorted. done.
Qed.

(** In-order arrival of the first pieces leaves only the pending entry. *)
Lemma absorb_prefix l sq bytes k C1 y C2 :
  (0 < k)%nat → Z.of_nat (length bytes) < 2 ^ 64 → pending l !! sq = None →
  pieces k bytes = C1 ++ y :: C2 →
  let l1 := absorb_all l (frame sq (length bytes) <$> C1) in
  holds sq bytes l1 (reverse C1) ∧ delete sq (pending l1) = pending l ∧
  inner l1 = inner l ∧ seq l1 = seq l.
Proof.
  intros Hk Hlen Hl. revert y C2. induction C1 as [|c C1 IH] using rev_ind; intros y C2 HC.
  { simpl. split; [by apply holds_none|]. by rewrite delete_id. }
  rewrite <-app_assoc in HC. simpl in HC. destruct (IH c (y :: C2) HC) as (Hh & Hd & Hi & Hs).
  rewrite fmap_app. unfold absorb_all. rewrite foldl_app. cbn [fmap list_fmap foldl].
  fold (absorb_all l (frame sq (length bytes) <$> C1)).
  pose proof (pieces_NoDup k bytes Hk) as Hnd. rewrite HC in Hnd.
  assert (Forall (λ x, x ∈ pieces k bytes) (C1 ++ [c; y])) as Hin.
  { apply Forall_forall. intros x. rewrite HC, !elem_of_app, !elem_of_cons, elem_of_nil. naive_solver. }
  apply Forall_app in Hin as [Hin [Hc [Hy _]%Forall_cons]%Forall_cons].
  pose proof (absorb_step sq bytes k Hk Hlen _ (reverse C1) c Hh Hc) as Hst.
  destruct (decide _) as [Hall|_].
  { rewrite Forall_forall in Hall. specialize (Hall y Hy).
    rewrite elem_of_cons, elem_of_reverse in Hall.
    apply NoDup_app in Hnd as (_ & Hdis & [Hcy _]%NoDup_cons).
    exfalso. destruct Hall as [->|Hall]; [apply Hcy, elem_of_cons; auto|].
    apply (Hdis y Hall). rewrite !elem_of_cons. auto. }
  destruct Hst as (l' & -> & Hl' & Hd' & Hi' & Hs').
  { by apply Forall_reverse. }
  rewrite reverse_app. simpl. rewrite Hd', Hi', Hs'. auto.
Qed.

Lemma absorb_last l sq bytes k C1 y :
  (0 < k)%nat → Z.of_nat (length bytes) < 2 ^ 64 → pending l !! sq = None →
  pieces k bytes = C1 ++ [y] →
  absorb (absorb_all l (frame sq (length bytes) <$> C1)) (frame sq (length bytes) y) =
  (Some (Ok bytes), l).
Proof.
  intros Hk Hlen Hl HC. destruct (absorb_prefix l sq bytes k C1 y [] Hk Hlen Hl HC)
    as (Hh & Hd & Hi & Hs).
  pose proof (absorb_step sq bytes k Hk Hlen _ (reverse C1) y Hh) as Hst.
  destruct (decide _) as [_|Hnot].
  - rewrite Hst, Hd, Hi, Hs; [by destruct l| |].
    + rewrite HC, elem_of_app, list_elem_of_singleton. auto.
    + apply Forall_reverse, Forall_forall. intros x Hx. rewrite HC, elem_of_app. auto.
  - destruct Hnot. apply Forall_forall. intros x. rewrite HC.
    rewrite elem_of_app, list_elem_of_singleton, elem_of_cons, elem_of_reverse. tauto.
Qed.

Lemma absorb_early l sq bytes k C1 c y C2 :
  (0 < k)%nat → Z.of_nat (length bytes) < 2 ^ 64 → pending l !! sq = None →
  pieces k bytes = C1 ++ c :: y :: C2 →
  (absorb (absorb_all l (frame sq (length bytes) <$> C1)) (frame sq (length bytes) c)).1 = None.
Proof.
  intros Hk Hlen Hl HC.
  destruct (absorb_prefix l sq bytes k C1 c (y :: C2) Hk Hlen Hl HC) as (Hh & _).
  pose proof (absorb_step sq bytes k Hk Hlen _ (reverse C1) c Hh) as Hst.
  assert (∀ x, x ∈ C1 ++ [c] → x ∈ pieces k bytes) as Hin.
  { intros x. rewrite HC, !elem_of_app, !elem_of_cons, elem_of_nil. tauto. }
  destruct (decide _) as [Hall|_].
  - exfalso. rewrite Forall_forall in Hall.
    assert (y ∈ C1 ++ [c]) as Hy.
    { specialize (Hall y). rewrite HC, !elem_of_app, !elem_of_cons, elem_of_reverse in Hall.
      rewrite elem_of_app, list_elem_of_singleton. tauto. }
    pose proof (pieces_NoDup k bytes Hk) as Hnd.
    rewrite HC, (cons_middle c C1 (y :: C2)), app_assoc in Hnd.
    apply NoDup_app in Hnd as (_ & Hdis & _). apply (Hdis y Hy), elem_of_cons. auto.
  - destruct Hst as (l' & -> & _); [| |done].
    + apply Hin. rewrite elem_of_app, list_elem_of_singleton. auto.
    + apply Forall_reverse, Forall_forall. intros x Hx. apply Hin. rewrite elem_of_app. auto.
Qed.

Lemma recv_pieces raw (Hraw : reads (T := T) tick raw) l2 sq bytes k s w rest :
  (0 < k)%nat → Z.of_nat (length bytes) < 2 ^ 64 →
  p_in w = (frame sq (length bytes) <$> pieces k bytes) ++ rest →
  (length bytes < p_bound w)%nat → pending l2 !! sq = None → pieces k bytes ≠ [] →
  let r := run (layer_recv raw l2) s w in
  r_final r = Returned (Some (Ok bytes), l2) ∧ r_env r = set_in w rest.
Proof.
  intros Hk Hlen Hin Hbound Hnew Hne.
  destruct (exists_last Hne) as (C1 & y & HC).
  destruct (run_layer_recv (T := T) tick raw Hraw (frame sq (length bytes) <$> C1)
    (frame sq (length bytes) y) rest l2 l2 (Ok bytes) s w) as [H1 H2]; simpl.
  - by rewrite Hin, HC, fmap_app, <-app_assoc.
  - rewrite length_fmap. pose proof (length_cut (length bytes) k bytes 0) as Hc.
    unfold pieces in HC. rewrite HC, length_app in Hc. simpl in Hc. lia.
  - intros fs1 g fs2 Hfs. apply fmap_app_inv in Hfs as (D1 & D2 & -> & HD2 & ->).
    symmetry in HD2. apply fmap_cons_inv in HD2 as (c & D2' & -> & -> & ->).
    rewrite <-app_assoc in HC. destruct D2' as [|c' D2']; simpl in HC;
      eapply absorb_early; eauto.
  - by apply (absorb_last l2 sq bytes k).
  - by split.
Qed.

(** Receiving what one call of [send_bytes] wrote. *)
Lemma layer_recv_sent raw (Hraw : reads (T := T) tick raw) l2 sq bytes mtu fs s w rest :
  Z.of_nat (length bytes) < 2 ^ 64 → sent_frames mtu sq bytes = Ok fs →
  p_in w = fs ++ rest → (length bytes < p_bound w)%nat → pending l2 !! sq = None →
  let r := run (layer_recv raw l2) s w in
  r_final r = Returned (Some (Ok bytes), l2) ∧ r_env r = set_in w rest.
Proof.
  intros Hlen Hfs Hin Hbound Hnew. unfold sent_frames in Hfs.
  destruct (fits _ _ _) eqn:Hfit.
  - simplify_eq. apply (run_layer_recv (T := T) tick raw Hraw [] (to_cbor (whole_primary local_eid sq) bytes));
      [done|simpl; lia|by intros []|].
    unfold absorb. by rewrite decode_encode by (apply whole_primary_encodable || done).
  - destruct (Nat.leb_spec mtu (overhead sq (length bytes))) as [Hle|Hgt]; [done|]. simplify_eq.
    set (k := (mtu - overhead sq (length bytes))%nat) in *.
    apply (recv_pieces raw Hraw l2 sq bytes k); [lia|done..|]. intros HC.
    pose proof (pieces_concat k bytes ltac:(lia)) as Hb. rewrite HC in Hb. simpl in Hb.
    subst bytes. apply orb_false_iff in Hfit as [_ Hfit%Nat.leb_gt].
    pose proof (whole_size local_eid sq 0 0). unfold overhead in Hgt. simpl in *. lia.
Qed.

Lemma recv_sent l2 sq bytes mtu fs s w rest :
  Z.of_nat (length bytes) < 2 ^ 64 → sent_frames mtu sq bytes = Ok fs →
  p_in w = fs ++ rest → (length bytes < p_bound w)%nat → pending l2 !! sq = None →
  let r := run (layer_recv_bytes l2) s w in
  r_final r = Returned (Ok bytes, l2) ∧ r_env r = set_in w rest.
Proof.
  intros Hlen Hfs Hin Hbound Hnew. unfold layer_recv_bytes. cbv zeta. rewrite run_bind.
  destruct (layer_recv_sent raw_recv (reads_raw tick) l2 sq bytes mtu fs s w rest) as [H1 H2];
    try done. cbv zeta in H1, H2. by rewrite H1, H2.
Qed.

Lemma sent_frames_Err mtu sq bytes e : sent_frames mtu sq bytes = Err e →
  (mtu ≤ overhead sq (length bytes))%nat.
Proof.
  unfold sent_frames. destruct (fits _ _ _); [done|]. case_match eqn:Hle; [|done].
  intros _. by apply Nat.leb_le.
Qed.

(** C13. Send then receive: whatever the mtu, a message handed to [send_bytes]
    either is refused, with an error and nothing on the wire, or comes out of
    the peer's [recv_bytes] unchanged, with exactly its frames consumed and no
    fragment left pending; it is refused only when the mtu does not exceed the
    fragment header. *)
Theorem bundle_roundtrip (l1 l2 : BundleLayer) bytes (w1 w2 : pipe) rest (s1 s2 : S)
    (Hlen : Z.of_nat (length bytes) < 2 ^ 64) (Hempty : p_out w1 = [])
    (Hlink : p_in w2 = p_out (r_env (run (layer_send_bytes l1 bytes) s1 w1)) ++ rest)
    (Hbound : (length bytes < p_bound w2)%nat) (Hnew : pending l2 !! seq l1 = None) :
  (∃ l1', r_final (run (layer_send_bytes l1 bytes) s1 w1) = Returned (Ok tt, l1') ∧
     let received := run (layer_recv_bytes l2) s2 w2 in
     r_final received = Returned (Ok bytes, l2) ∧ r_env received = set_in w2 rest) ∨
  (∃ l1' e, r_final (run (layer_send_bytes l1 bytes) s1 w1) = Returned (Err e, l1') ∧
     p_in w2 = rest ∧ (p_mtu w1 ≤ overhead (seq l1) (length bytes))%nat).
Proof.
  destruct (run_send_bytes (T := T) tick l1 bytes s1 w1) as [Hf He].
  rewrite He in Hlink. simpl in Hlink. rewrite Hempty in Hlink.
  destruct (sent_frames (p_mtu w1) (seq l1) bytes) as [fs|e] eqn:Hfs.
  - left. eexists. split; [exact Hf|]. by eapply recv_sent.
  - right. eexists _, e. split; [exact Hf|]. split; [done|]. by eapply sent_frames_Err.
Qed.

Lemma fragment_frame_size mtu sq bytes fs f :
  Z.of_nat (length bytes) < 2 ^ 64 → fits mtu sq bytes = false →
  sent_frames mtu sq bytes = Ok fs → f ∈ fs →
  ∃ off chunk, f = frame sq (length bytes) (off, chunk) ∧
    (length f ≤ mtu + (cbor_head_len (Z.of_nat (length chunk)) - 1))%nat ∧
    (length f ≤ mtu + 8)%nat ∧ ((length chunk < 24)%nat → (length f ≤ mtu)%nat).
Proof.
  intros Hlen Hfit Hfs Hf.
  unfold sent_frames in Hfs. rewrite Hfit in Hfs.
  destruct (Nat.leb_spec mtu (overhead sq (length bytes))) as [?|Hgt]; [done|]. simplify_eq.
  apply list_elem_of_fmap in Hf as ([off chunk] & -> & Hc).
  destruct (piece_small bytes (mtu - overhead sq (length bytes)) ltac:(lia) Hlen _ Hc) as [Hd _].
  pose proof (piece_nonempty (mtu - overhead sq (length bytes)) bytes ltac:(lia) _ Hc) as Hne. apply cut_elem in Hc.
  pose proof (payload_size (fragment_primary local_eid sq off (length bytes)) chunk Hd) as Hp.
  pose proof (offset_size local_eid sq off (length bytes) (length bytes)) as Ho.
  pose proof (cbor_head_len_bounds (Z.of_nat (length chunk))).
  exists off, chunk. split; [done|]. unfold frame, overhead in *. simpl in *.
  split_and!; [lia|lia|]. intros Hsmall.
  assert (cbor_head_len (Z.of_nat (length chunk)) = 1%nat); [|lia].
  unfold cbor_head_len. by rewrite (proj2 (Z.ltb_lt _ _)) by lia.
Qed.
(** With an mtu, no frame is more than eight bytes over it. *)
Lemma sent_frame_size mtu sq bytes fs :
  Z.of_nat (length bytes) < 2 ^ 64 → (0 < mtu)%nat → sent_frames mtu sq bytes = Ok fs →
  Forall (λ f, length f ≤ mtu + 8)%nat fs.
Proof.
  intros Hlen Hmtu Hfs. apply Forall_forall. intros f Hf.
  destruct (fits mtu sq bytes) eqn:Hfit.
  - unfold sent_frames in Hfs. rewrite Hfit in Hfs. simplify_eq.
    apply list_elem_of_singleton in Hf as ->. unfold fits in Hfit.
    apply orb_true_iff in Hfit as [Hz%Nat.eqb_eq|Hl%Nat.leb_le]; lia.
  - by destruct (fragment_frame_size _ _ _ _ _ Hlen Hfit Hfs Hf) as (? & ? & _ & _ & ? & _).
Qed.

(** Size of a fragment: of a message that does not fit the mtu, every frame
    put on the wire exceeds the mtu by at most the growth of its payload's
    length field, which the overhead estimate (made with an empty payload)
    leaves out: never for payloads under 24 bytes, at most eight bytes ever. *)
Theorem fragment_size_bound mtu sq bytes fs f
    (Hlen : Z.of_nat (length bytes) < 2 ^ 64) (Hfit : fits mtu sq bytes = false)
    (Hfs : sent_frames mtu sq bytes = Ok fs) (Hf : f ∈ fs) :
  ∃ off chunk, f = frame sq (length bytes) (off, chunk) ∧
    (length f ≤ mtu + (cbor_head_len (Z.of_nat (length chunk)) - 1))%nat ∧
    (length f ≤ mtu + 8)%nat ∧ ((length chunk < 24)%nat → (length f ≤ mtu)%nat).
Proof. by apply (fragment_frame_size mtu sq bytes fs). Qed.
End through_pipe.

(** Reassembly allocates no more than it holds: whatever the peer declares,
    the capacity [reassemble] reserves (the declared total) is at most the length
    of the bytes received and returned. *)
Theorem reassembly_allocation `{Bp7} l raw b l' m
    (Hraw : bundle_try_from raw = inr b)
    (Hfr : is_fragment (bundle_control_flags (primary b)) = true)
    (Hm : absorb l raw = (Some (Ok m), l')) :
  uval (pb_total_data_length (default {| pb_total_data_length := total_data_length (primary b);
      fragments := [] |} (pending l !! creation_seqno (primary b)))) <= Z.of_nat (length m) ∧
  pending l' !! creation_seqno (primary b) = None.
Proof.
  unfold absorb in Hm. rewrite Hraw in Hm. simpl in Hm. rewrite Hfr in Hm. simpl in Hm.
  destruct (payload b) as [chunk|]; simpl in Hm; [|done].
  unfold absorb_fragment in Hm. destruct (is_complete _) eqn:Hc; simplify_eq. simpl.
  split; [|apply lookup_delete_eq]. apply Z.leb_le in Hc. unfold reassemble.
  rewrite <-sizes_concat. exact Hc.
Qed.
