(* ===== verification/Bp7Cbor.v ===== *)
(** * A concrete bundle codec

    The encoding of RFC 9171 over RFC 8949 for the bundles the layer makes: an
    instance of [Bp7], [Bp7Laws] and [Bp7Sizes], on which the theorems of
    [Bundle.v] are applied at concrete inputs. *)

From S2P Require Import Prelude RustStd Types Effects Env Bundle.
Local Open Scope Z_scope.

(** ** Heads of data items *)

Definition head_bytes (n : Z) : Z * list byte :=
  if n <? 24 then (n, []) else if n <? 2 ^ 8 then (24, to_be 1 n)
  else if n <? 2 ^ 16 then (25, to_be 2 n) else if n <? 2 ^ 32 then (26, to_be 4 n)
  else (27, to_be 8 n).

Definition head (major n : Z) : list byte :=
  byte_of_Z (major * 32 + (head_bytes n).1) :: (head_bytes n).2.

Local Notation "'let?' x := m 'in' k" := (match m with Some x => k | None => None end)
  (at level 10, x pattern, m at level 100, k at level 200).

Definition parser (A : Type) := list byte → option (A * list byte).

Definition parse_be (k : nat) : parser Z := λ l,
  if (k <=? length l)%nat then Some (from_be (take k l), drop k l) else None.

Definition parse_head (major : Z) : parser Z := λ l,
  match l with
  | [] => None
  | b :: l =>
    if byte_to_Z b / 32 =? major then
      let a := byte_to_Z b mod 32 in
      if a <? 24 then Some (a, l) else
      if a =? 24 then parse_be 1 l else if a =? 25 then parse_be 2 l
      else if a =? 26 then parse_be 4 l else if a =? 27 then parse_be 8 l else None
    else None
  end.

Definition lit (p : list byte) : parser unit := λ l,
  if decide (take (length p) l = p) then Some (tt, drop (length p) l) else None.

Definition parse_bytes (major : Z) : parser (list byte) := λ l,
  let? (n, l) := parse_head major l in
  if n <=? Z.of_nat (length l) then Some (take (Z.to_nat n) l, drop (Z.to_nat n) l) else None.

Lemma parse_be_to_be k n rest : 0 <= n < 2 ^ (8 * Z.of_nat k) →
  parse_be k (to_be k n ++ rest) = Some (n, rest).
Proof.
  intros Hn. unfold parse_be. rewrite length_app, length_to_be.
  destruct (Nat.leb_spec k (k + length rest)); [|lia].
  rewrite take_app_length', drop_app_length' by (by rewrite length_to_be).
  by rewrite from_to_be, Z.mod_small.
Qed.

Lemma parse_head_head major n rest : 0 <= major < 8 → 0 <= n < 2 ^ 64 →
  parse_head major (head major n ++ rest) = Some (n, rest).
Proof.
  intros Hm Hn. unfold head. cbn [app parse_head]. rewrite byte_to_of_Z.
  assert (0 <= (head_bytes n).1 < 32) as Ha by (unfold head_bytes; repeat case_match; simpl; lia).
  rewrite (Z.mod_small (major * 32 + _)) by lia.
  rewrite Z.div_add_l, (Z.div_small (head_bytes n).1), Z.add_0_r, Z.eqb_refl by lia.
  rewrite (Z.add_comm (major * 32)), Z_mod_plus_full, (Z.mod_small (head_bytes n).1) by lia.
  clear Ha. unfold head_bytes.
  destruct (Z.ltb_spec n 24); [by cbn [fst snd]; rewrite (proj2 (Z.ltb_lt _ _))|].
  destruct (Z.ltb_spec n (2 ^ 8)); [apply parse_be_to_be; simpl; lia|].
  destruct (Z.ltb_spec n (2 ^ 16)); [apply parse_be_to_be; simpl; lia|].
  destruct (Z.ltb_spec n (2 ^ 32)); apply parse_be_to_be; simpl; lia.
Qed.

Lemma length_head major n : length (head major n) = cbor_head_len n.
Proof. unfold head, head_bytes, cbor_head_len. by repeat case_match. Qed.

Lemma cbor_head_len_mono n m : n <= m → (cbor_head_len n ≤ cbor_head_len m)%nat.
Proof.
  intros Hnm. unfold cbor_head_len. repeat case_match; rewrite ?Z.ltb_ge, ?Z.ltb_lt in *; lia.
Qed.

Lemma lit_app p rest : lit p (p ++ rest) = Some (tt, rest).
Proof.
  unfold lit. rewrite take_app_length, drop_app_length. by rewrite decide_True.
Qed.

Lemma lit_cons b rest : lit [b] (b :: rest) = Some (tt, rest).
Proof. apply (lit_app [b]). Qed.

Lemma parse_bytes_app major d rest : 0 <= major < 8 → Z.of_nat (length d) < 2 ^ 64 →
  parse_bytes major (head major (Z.of_nat (length d)) ++ d ++ rest) = Some (d, rest).
Proof.
  intros Hm Hd. unfold parse_bytes. rewrite parse_head_head by lia. simpl.
  rewrite length_app, (proj2 (Z.leb_le _ _)) by lia.
  by rewrite Nat2Z.id, take_app_length, drop_app_length.
Qed.

(** ** Bundles *)

(** An endpoint: [dtn:none], or a [dtn] URI's scheme-specific part. *)
Definition Eid := option (list byte).

Definition enc_eid (e : Eid) : list byte :=
  match e with
  | None => [x82; x01; x00]
  | Some uri => [x82; x01] ++ head 3 (Z.of_nat (length uri)) ++ uri
  end.

Definition parse_eid : parser Eid := λ l,
  let? (_, l) := lit [x82; x01] l in
  match lit [x00] l with
  | Some (_, l) => Some (None, l)
  | None => let? (uri, l) := parse_bytes 3 l in Some (Some uri, l)
  end.

Definition enc_primary (pb : PrimaryBlock Eid) : list byte :=
  (if is_fragment (bundle_control_flags pb) then [x8a] else [x88]) ++ [x07] ++
  head 0 (bundle_control_flags pb) ++ [x00] ++
  enc_eid (destination pb) ++ enc_eid (source pb) ++ enc_eid (report_to pb) ++
  [x82] ++ head 0 (creation_time pb) ++ head 0 (uval (creation_seqno pb)) ++
  head 0 (lifetime pb / 1000000) ++
  (if is_fragment (bundle_control_flags pb)
   then head 0 (uval (fragmentation_offset pb)) ++ head 0 (uval (total_data_length pb))
   else []).

Definition parse_primary : parser (PrimaryBlock Eid) := λ l,
  match l with
  | [] => None
  | _ :: l =>
    let? (_, l) := lit [x07] l in
    let? (flags, l) := parse_head 0 l in
    let? (_, l) := lit [x00] l in
    let? (dst, l) := parse_eid l in
    let? (src, l) := parse_eid l in
    let? (rep, l) := parse_eid l in
    let? (_, l) := lit [x82] l in
    let? (time, l) := parse_head 0 l in
    let? (sq, l) := parse_head 0 l in
    let? (life, l) := parse_head 0 l in
    let? (ot, l) :=
      if is_fragment flags then
        let? (o, l) := parse_head 0 l in let? (t, l) := parse_head 0 l in Some ((o, t), l)
      else Some ((0, 0), l) in
    Some ({| bundle_control_flags := flags; destination := dst; source := src;
             report_to := rep; creation_time := time; creation_seqno := u64_of_Z sq;
             lifetime := life * 1000000; fragmentation_offset := u64_of_Z ot.1;
             total_data_length := u64_of_Z ot.2 |}, l)
  end.

Definition enc_bundle (pb : PrimaryBlock Eid) (data : list byte) : list byte :=
  [x9f] ++ enc_primary pb ++
  [x85; x01; x01; x00; x00] ++ head 2 (Z.of_nat (length data)) ++ data ++ [xff].

Definition parse_bundle (l : list byte) : string + Bundle Eid :=
  let o :=
    let? (_, l) := lit [x9f] l in
    let? (pb, l) := parse_primary l in
    let? (_, l) := lit [x85; x01; x01; x00; x00] l in
    let? (data, l) := parse_bytes 2 l in
    let? (_, l) := lit [xff] l in
    match l with
    | [] => Some {| primary := pb; payload := Some data |}
    | _ => None
    end in
  match o with Some b => inr b | None => inl "invalid bundle"%string end.

#[export] Instance cbor_bp7 : Bp7 := {|
  EndpointID := Eid;
  with_dtn s := inr (Some ([x2f; x2f] ++ ascii_bytes s));
  eid_none := None;
  build pb :=
    match destination pb with
    | None => inl "no destination endpoint was provided"%string
    | Some _ => inr pb
    end;
  to_cbor := enc_bundle;
  bundle_try_from := parse_bundle
|}.

Definition node_eid : Eid := Some ([x2f; x2f] ++ ascii_bytes PW_NODE).

Lemma parse_eid_none rest : parse_eid (enc_eid None ++ rest) = Some (None, rest).
Proof. done. Qed.

Lemma parse_eid_node rest : parse_eid (enc_eid node_eid ++ rest) = Some (node_eid, rest).
Proof.
  unfold node_eid, enc_eid. set (uri := [x2f; x2f] ++ ascii_bytes PW_NODE).
  unfold parse_eid. rewrite <-!app_assoc, (lit_app [x82; x01]).
  assert (lit [x00] (head 3 (Z.of_nat (length uri)) ++ uri ++ rest) = None) as -> by done.
  by rewrite parse_bytes_app.
Qed.

Lemma parse_primary_enc (pb : PrimaryBlock Eid) rest : encodable (H := cbor_bp7) node_eid pb →
  parse_primary (enc_primary pb ++ rest) = Some (pb, rest).
Proof.
  destruct pb as [fl d s r t sq l o n]. intros [Hfl Hd Hs Hr Ht (ms & Hl & Hms) Hz].
  cbn [bundle_control_flags destination source report_to creation_time creation_seqno lifetime
    fragmentation_offset total_data_length] in *. subst.
  unfold enc_primary, parse_primary.
  cbn [bundle_control_flags destination source report_to creation_time creation_seqno lifetime
    fragmentation_offset total_data_length].
  assert (∃ b, (if is_fragment fl then [x8a] else [x88]) = [b]) as [b ->]
    by (destruct (is_fragment _); eauto).
  rewrite Z.div_mul by lia. rewrite <-!app_assoc. cbn [app].
  rewrite lit_cons, parse_head_head, lit_cons, !parse_eid_node by lia.
  change (@eid_none cbor_bp7) with (None : Eid).
  rewrite parse_eid_none, lit_cons.
  do 3 rewrite parse_head_head by (lia || apply uval_range).
  destruct (is_fragment fl) eqn:Hf.
  - rewrite <-!app_assoc. do 2 rewrite parse_head_head by (lia || apply uval_range).
    cbn [fst snd]. by rewrite !u64_of_Z_id.
  - destruct (Hz eq_refl) as [-> ->]. cbn [app fst snd]. by rewrite !u64_of_Z_id.
Qed.

#[export] Program Instance cbor_laws : Bp7Laws := {| local_eid := node_eid |}.
Next Obligation. done. Qed.
Next Obligation. intros [] Hd. simpl in *. by subst. Qed.
Next Obligation.
  intros pb data Hpb Hdata. simpl. unfold parse_bundle, enc_bundle.
  rewrite (lit_app [x9f]), parse_primary_enc by done.
  rewrite (lit_app [x85; x01; x01; x00; x00]), parse_bytes_app by lia. done.
Qed.

Lemma length_enc_bundle pb data :
  length (enc_bundle pb data) =
  (7 + length (enc_primary pb) + cbor_head_len (Z.of_nat (length data)) + length data)%nat.
Proof. unfold enc_bundle. rewrite !length_app, length_head. cbn [length]. lia. Qed.

Lemma length_enc_fragment eid sq o total :
  length (enc_primary (fragment_primary (H := cbor_bp7) eid sq o total)) =
  (length (enc_primary (whole_primary (H := cbor_bp7) eid sq)) +
   cbor_head_len (uval (u64_of_nat o)) + cbor_head_len (uval (u64_of_nat total)))%nat.
Proof.
  unfold enc_primary. rewrite !length_app.
  cbn [bundle_control_flags destination source report_to creation_time creation_seqno lifetime
    fragmentation_offset total_data_length fragment_primary whole_primary].
  change (is_fragment BUNDLE_IS_FRAGMENT) with true. change (is_fragment 0) with false.
  cbv iota. rewrite !length_app, !length_head. cbn [length].
  change (cbor_head_len BUNDLE_IS_FRAGMENT) with 1%nat. change (cbor_head_len 0) with 1%nat. lia.
Qed.

#[export] Program Instance cbor_sizes : Bp7Sizes.
Next Obligation.
  intros pb data Hdata. change (@to_cbor cbor_bp7) with enc_bundle.
  rewrite !length_enc_bundle. change (cbor_head_len (Z.of_nat (length []))) with 1%nat.
  cbn [length]. lia.
Qed.
Next Obligation.
  intros eid sq o o' total Ho Ho'. change (@to_cbor cbor_bp7) with enc_bundle.
  rewrite !length_enc_bundle, !length_enc_fragment.
  rewrite (uval_u64_of_nat o), (uval_u64_of_nat o') by lia.
  pose proof (cbor_head_len_mono (Z.of_nat o) (Z.of_nat o') ltac:(lia)). lia.
Qed.
Next Obligation.
  intros eid sq o total. change (@to_cbor cbor_bp7) with enc_bundle.
  rewrite !length_enc_bundle, length_enc_fragment. lia.
Qed.

(** The estimate of the header is short: at the mtu of a QUIC connection, a
    message of 4000 bytes goes out in fragments of which some are over it. *)
Lemma fragment_over_mtu :
  ∃ fs f, sent_frames 1200 (u64_of_Z 0) (replicate 4000 x00) = Ok fs ∧ f ∈ fs ∧
    (1200 < length f)%nat.
Proof.
  set (r := sent_frames 1200 (u64_of_Z 0) (replicate 4000 x00)).
  assert (match r with Ok (_ :: f :: _) => (1200 <? length f)%nat | _ => false end = true) as Hr
    by (vm_compute; reflexivity).
  destruct r as [[|g [|f fs]]|e]; try done. exists (g :: f :: fs), f.
  split; [done|]. split; [rewrite !elem_of_cons; auto|]. by apply Nat.ltb_lt.
Qed.
