(* ===== verification/Session.v ===== *)
(** * Sessions ([crates/pathweave-core/src/session.rs])

    The Noise handshakes XX and XK over a bundle layer, the encrypted channel they
    give, and one-shot sealing with Noise_K. The Noise implementation is the [snow]
    crate, outside the repository: its operations are the class [Snow], and what
    the code relies on is the class [SnowLaws]. *)

From S2P Require Import Prelude RustStd Types Effects Env Bundle.

(** ** The interface of the [snow] crate *)

(** [NOISE_PARAMS], [NOISE_XK_PARAMS] and [NOISE_K_PARAMS]. *)
Inductive noise_pattern := Noise_XX | Noise_XK | Noise_K.
Inductive noise_role := Initiator | Responder.

(** Every operation that fails gives its message. [snow_build] is the builder
    chain ([local_private_key], [remote_public_key] when given, [build_initiator]
    or [build_responder]); [hs_write]'s first list is the entropy it draws; a
    message longer than the given capacity is an error. *)
Class Snow := {
  HandshakeState : Type;
  TransportState : Type;
  snow_build : noise_pattern → noise_role → list byte → option PublicKey →
    string + HandshakeState;
  hs_write : list byte → HandshakeState → list byte → nat →
    string + list byte * HandshakeState;
  hs_read : HandshakeState → list byte → nat → string + list byte * HandshakeState;
  get_remote_static : HandshakeState → option (list byte);
  into_transport_mode : HandshakeState → string + TransportState;
  ts_write : TransportState → list byte → nat → (string + list byte) * TransportState;
  ts_read : TransportState → list byte → nat → (string + list byte) * TransportState;
  (** [PeerId]'s [Display] (the [bs58] crate) *)
  to_base58 : PeerId → string
}.

Definition NOISE_MSG_MAX : nat := Z.to_nat 65535.
Definition PROTO_XX : byte := x00.
Definition PROTO_XK : byte := x01.

Section session.
Context `{Crypto, Bp7, Snow} {S T : Type}.
Local Abbreviation prog := (prog S env_op T).

Record Session := {
  s_peer_id : PeerId;
  s_remote_static_key : PublicKey;
  s_state : TransportState;
  s_conn : BundleLayer
}.

Definition finish (state : HandshakeState) (conn : BundleLayer) : rust (result Session) :=
  match get_remote_static state with
  | None => Val (Err (ESession "remote static key unavailable after handshake"))
  | Some raw =>
    let! remote_static_key := try_into_expect 32 raw in
    Val
      match map_err ESession (into_transport_mode state) with
      | Err e => Err e
      | Ok transport =>
        Ok {| s_peer_id := peer_id_from_public_key (array_to_list remote_static_key);
              s_remote_static_key := remote_static_key;
              s_state := transport;
              s_conn := conn |}
      end
  end.

(** [state.write_message(&[], &mut buf)] and [conn.send_bytes(&buf[..n])] *)
Definition write_handshake (state : HandshakeState) (conn : BundleLayer) :
    prog (result (HandshakeState * BundleLayer)) :=
  entropy ← call NoiseEntropy;
  match map_err ESession (hs_write entropy state [] NOISE_MSG_MAX) with
  | Err e => Ret (Err e)
  | Ok (msg, state) =>
    '(r, conn) ← layer_send_bytes conn msg;
    Ret (result_map (λ _, (state, conn)) r)
  end.

(** [conn.recv_bytes()] and [state.read_message(&msg, &mut buf)] *)
Definition read_handshake (state : HandshakeState) (conn : BundleLayer) :
    prog (result (HandshakeState * BundleLayer)) :=
  '(r, conn) ← layer_recv_bytes conn;
  match r with
  | Err e => Ret (Err e)
  | Ok msg =>
    match map_err ESession (hs_read state msg NOISE_MSG_MAX) with
    | Err e => Ret (Err e)
    | Ok (_, state) => Ret (Ok (state, conn))
    end
  end.

(** [r?] inside a program *)
Definition bind_ok {A B} (p : prog (result A)) (f : A → prog (result B)) : prog (result B) :=
  bind p (λ r, match r with Ok a => f a | Err e => Ret (Err e) end).

Local Notation "'let?' x := p 'in' q" := (bind_ok p (λ x, q))
  (at level 10, x pattern, p at level 100, q at level 200).

Definition initiate (identity : NodeIdentity) (conn : BundleLayer)
    (remote_key : option PublicKey) : prog (result Session) :=
  let built :=
    match remote_key with
    | Some key =>
      (PROTO_XK, map_err ESession (snow_build Noise_XK Initiator (private_key identity) (Some key)))
    | None => (PROTO_XX, map_err ESession (snow_build Noise_XX Initiator (private_key identity) None))
    end in
  match built with
  | (_, Err e) => Ret (Err e)
  | (prefix, Ok state) =>
    let? conn := ('(r, conn) ← layer_send_bytes conn [prefix]; Ret (result_map (λ _, conn) r)) in
    let? (state, conn) := write_handshake state conn in
    let? (state, conn) := read_handshake state conn in
    let? (state, conn) := write_handshake state conn in
    lift (finish state conn)
  end.

Definition unknown_prefix (other : byte) : PathweaveError :=
  ESession ("unknown protocol prefix: 0x" ++ String.string_of_list_byte (hex_byte other))%string.

Definition respond (identity : NodeIdentity) (conn : BundleLayer) : prog (result Session) :=
  '(r, conn) ← layer_recv_bytes conn;
  match r with
  | Err e => Ret (Err e)
  | Ok prefix_msg =>
    match ok_or (head prefix_msg) (ESession "missing protocol prefix byte") with
    | Err e => Ret (Err e)
    | Ok prefix =>
      let params :=
        if decide (prefix = PROTO_XX) then Ok Noise_XX
        else if decide (prefix = PROTO_XK) then Ok Noise_XK
        else Err (unknown_prefix prefix) in
      match params with
      | Err e => Ret (Err e)
      | Ok pattern =>
        match map_err ESession (snow_build pattern Responder (private_key identity) None) with
        | Err e => Ret (Err e)
        | Ok state =>
          let? (state, conn) := read_handshake state conn in
          let? (state, conn) := write_handshake state conn in
          let? (state, conn) := read_handshake state conn in
          lift (finish state conn)
        end
      end
    end
  end.

Definition with_state (s : Session) (st : TransportState) (c : BundleLayer) : Session :=
  {| s_peer_id := s_peer_id s; s_remote_static_key := s_remote_static_key s;
     s_state := st; s_conn := c |}.

Definition session_send (s : Session) (plaintext : list byte) :
    prog (result unit * Session) :=
  match ts_write (s_state s) plaintext (length plaintext + 16) with
  | (inl e, st) => Ret (Err (ESession e), with_state s st (s_conn s))
  | (inr ciphertext, st) =>
    '(r, conn) ← layer_send_bytes (s_conn s) ciphertext;
    Ret (r, with_state s st conn)
  end.

(** The receive, over either way to read the connection. *)
Definition session_recv_from (raw : conn → prog (option (result (list byte)))) (s : Session) :
    prog (option (result (list byte)) * Session) :=
  '(o, conn) ← layer_recv raw (s_conn s);
  match o with
  | None => Ret (None, with_state s (s_state s) conn)
  | Some (Err e) => Ret (Some (Err e), with_state s (s_state s) conn)
  | Some (Ok ciphertext) =>
    let '(r, st) := ts_read (s_state s) ciphertext (length ciphertext) in
    Ret (Some (map_err ESession r), with_state s st conn)
  end.

Definition session_recv (s : Session) : prog (result (list byte) * Session) :=
  '(o, s) ← session_recv_from raw_recv s;
  match o with Some r => Ret (r, s) | None => Stuck Blocked end.

(** [tokio::time::timeout(limit, session.recv())] *)
Definition session_recv_timeout (limit : Z) (s : Session) :
    prog (option (result (list byte)) * Session) :=
  session_recv_from (raw_recv_before limit) s.

Definition session_close (s : Session) : prog (result unit) := layer_close (s_conn s).

(** [seal], given the entropy of its ephemeral key *)
Definition seal (entropy : list byte) (identity : NodeIdentity) (dest_public_key : PublicKey)
    (data : list byte) : result (list byte) :=
  match map_err ESession
          (snow_build Noise_K Initiator (private_key identity) (Some dest_public_key)) with
  | Err e => Err e
  | Ok state => result_map fst (map_err ESession (hs_write entropy state data NOISE_MSG_MAX))
  end.

Definition unseal (identity : NodeIdentity) (sender_peer_id : PeerId)
    (sender_public_key : PublicKey) (sealed : list byte) : result (list byte) :=
  match map_err ESession
          (snow_build Noise_K Responder (private_key identity) (Some sender_public_key)) with
  | Err e => Err e
  | Ok state =>
    result_map fst
      (map_err (λ e, ESession ("unseal failed for sender " ++ to_base58 sender_peer_id ++ ": " ++ e)%string)
         (hs_read state sealed (length sealed)))
  end.
End session.

(** ** What the code relies on *)

Section laws.
Context `{Crypto, Snow}.

Definition key_bytes (k : array 32) : list byte := array_to_list k.
Definition key_public (k : array 32) : list byte := array_to_list (x25519_public k).

(** The pattern and pre-shared key an initiator uses towards the holder of [kb]. *)
Definition usable (p : noise_pattern) (rk : option PublicKey) (kb : array 32) : Prop :=
  (p = Noise_XX ∧ rk = None) ∨ (p = Noise_XK ∧ rk = Some (x25519_public kb)).

Class SnowLaws := {
  (** X25519 static keys are 32 bytes. *)
  remote_static_len : ∀ h raw, get_remote_static h = Some raw → length raw = 32;
  (** A static key given to the builder, or learned, is never replaced. *)
  build_static : ∀ priv key h,
    snow_build Noise_XK Initiator priv (Some key) = inr h →
    get_remote_static h = Some (array_to_list key);
  write_static : ∀ e h d n m h' raw, hs_write e h d n = inr (m, h') →
    get_remote_static h = Some raw → get_remote_static h' = Some raw;
  read_static : ∀ h m n d h' raw, hs_read h m n = inr (d, h') →
    get_remote_static h = Some raw → get_remote_static h' = Some raw;
  (** Transport states of the two ends of one handshake. *)
  paired : TransportState → TransportState → Prop;
  paired_sym : ∀ a b, paired a b → paired b a;
  paired_message : ∀ a b d, paired a b → length d + 16 ≤ NOISE_MSG_MAX →
    ∃ c a' b', ts_write a d (length d + 16) = (inr c, a') ∧ length c = length d + 16 ∧
      ts_read b c (length c) = (inr d, b') ∧ paired a' b';
  (** The three-message exchange of XX and of XK with the right key. *)
  honest_exchange : ∀ p rk ka kb e1 e2 e3, usable p rk kb →
    ∃ i0 r0 m1 i1 r1 m2 r2 i2 m3 i3 r3 ti tr,
      snow_build p Initiator (key_bytes ka) rk = inr i0 ∧
      snow_build p Responder (key_bytes kb) None = inr r0 ∧
      hs_write e1 i0 [] NOISE_MSG_MAX = inr (m1, i1) ∧
      hs_read r0 m1 NOISE_MSG_MAX = inr ([], r1) ∧
      hs_write e2 r1 [] NOISE_MSG_MAX = inr (m2, r2) ∧
      hs_read i1 m2 NOISE_MSG_MAX = inr ([], i2) ∧
      hs_write e3 i2 [] NOISE_MSG_MAX = inr (m3, i3) ∧
      hs_read r2 m3 NOISE_MSG_MAX = inr ([], r3) ∧
      get_remote_static i3 = Some (key_public kb) ∧
      get_remote_static r3 = Some (key_public ka) ∧
      into_transport_mode i3 = inr ti ∧ into_transport_mode r3 = inr tr ∧ paired ti tr ∧
      length m1 ≤ NOISE_MSG_MAX ∧ length m2 ≤ NOISE_MSG_MAX ∧ length m3 ≤ NOISE_MSG_MAX;
  (** Noise_K: ephemeral key and tag add 48 bytes; only the named sender opens. *)
  honest_seal : ∀ e ka kb d, length d + 48 ≤ NOISE_MSG_MAX →
    ∃ i i' r r' c,
      snow_build Noise_K Initiator (key_bytes ka) (Some (x25519_public kb)) = inr i ∧
      snow_build Noise_K Responder (key_bytes kb) (Some (x25519_public ka)) = inr r ∧
      hs_write e i d NOISE_MSG_MAX = inr (c, i') ∧ hs_read r c (length c) = inr (d, r') ∧
      length c ≤ length d + 48
}.
End laws.
Arguments SnowLaws : clear implicits.
Arguments SnowLaws {_ _}.

(** ** Identity of a session *)

Section identity.
Context `{Crypto, Bp7, Snow, !SnowLaws} {S T : Type} (I : S → Prop) (G : T → Prop).
Local Abbreviation prog := (prog S env_op T).

(** Programs that only call the environment. *)
Lemma safe_send_fragments fuel c eid sq k bytes off :
  (off ≤ length bytes)%nat →
  safe I G (send_fragments (S := S) (T := T) fuel c eid sq k bytes off) (λ _, True).
Proof.
  revert off. induction fuel as [|fuel IH]; intros off Hoff; simpl;
    destruct (Nat.ltb_spec off (length bytes)); try done.
  rewrite slice_piece by done. simpl. destruct (build _); simpl; [done|].
  intros [[]|e]; simpl; [|done]. apply IH. lia.
Qed.

Lemma safe_layer_send l bytes :
  safe I G (layer_send_bytes (S := S) (T := T) l bytes) (λ _, True).
Proof.
  unfold layer_send_bytes. destruct pw_eid as [eid|e]; simpl; [|done]. intros mtu.
  destruct (build _); simpl; [done|]. destruct (_ || _); [by intros|].
  destruct (fragment_header_overhead _ _ _); [|done]. destruct (_ =? _); [done|].
  eapply safe_seq; [apply safe_send_fragments; lia|]. done.
Qed.

Lemma safe_recv_loop bound raw l :
  (∀ c, safe I G (raw c) (λ _, True)) →
  safe I G (recv_loop (S := S) (T := T) bound raw l) (λ _, True).
Proof.
  intros Hraw. revert l. induction bound as [|bound IH]; intros l; simpl; [done|].
  eapply safe_seq; [apply Hraw|]. intros [[bytes|e]|] _; simpl; [|done..].
  destruct (absorb l bytes) as [[res|] l']; simpl; [done|]. apply IH.
Qed.

Lemma safe_layer_recv raw l :
  (∀ c, safe I G (raw c) (λ _, True)) →
  safe I G (layer_recv (S := S) (T := T) raw l) (λ _, True).
Proof. intros Hraw bound. by apply safe_recv_loop. Qed.

Lemma safe_layer_recv_bytes l :
  safe I G (layer_recv_bytes (S := S) (T := T) l) (λ _, True).
Proof.
  eapply safe_seq; [by apply safe_layer_recv|]. by intros [[r|] l'] _.
Qed.

Lemma safe_session_recv_from raw s :
  (∀ c, safe I G (raw c) (λ _, True)) →
  safe I G (session_recv_from (S := S) (T := T) raw s) (λ _, True).
Proof.
  intros Hraw. eapply safe_seq; [by apply safe_layer_recv|]. intros [[[c|e]|] l'] _; try done.
  simpl. by destruct (ts_read _ _ _).
Qed.

Lemma safe_session_send s bytes :
  safe I G (session_send (S := S) (T := T) s bytes) (λ _, True).
Proof.
  unfold session_send. destruct (ts_write _ _ _) as [[e|c] st]; [done|].
  eapply safe_seq; [apply safe_layer_send|]. by intros [].
Qed.

(** Sends always return when the calls of the connection do. *)
Lemma total_send_fragments fuel c eid sq k bytes off :
  (0 < k)%nat → (off ≤ length bytes)%nat → (length bytes - off ≤ fuel)%nat →
  total (send_fragments (S := S) (T := T) fuel c eid sq k bytes off).
Proof.
  intros Hk. revert off. induction fuel as [|fuel IH]; intros off Hoff Hf; simpl;
    destruct (Nat.ltb_spec off (length bytes)); try done; [lia|].
  rewrite slice_piece by done. simpl. destruct (build _); simpl; [done|].
  intros [[]|e]; simpl; [|done]. apply IH; lia.
Qed.

Lemma total_layer_send l bytes : total (layer_send_bytes (S := S) (T := T) l bytes).
Proof.
  unfold layer_send_bytes. destruct pw_eid as [eid|e]; simpl; [|done]. intros mtu.
  destruct (build _); simpl; [done|]. destruct (_ || _); [by intros|].
  destruct (fragment_header_overhead _ _ _) as [o|]; [|done].
  destruct (Nat.eqb_spec (mtu - o) 0); [done|].
  apply total_bind; [apply total_send_fragments; lia|done].
Qed.

Lemma total_session_send s bytes : total (session_send (S := S) (T := T) s bytes).
Proof.
  unfold session_send. destruct (ts_write _ _ _) as [[e|c] st]; [done|].
  apply total_bind; [apply total_layer_send|]. by intros [].
Qed.

Definition bound_session (s : Session) : Prop :=
  s_peer_id s = peer_id_from_public_key (array_to_list (s_remote_static_key s)).

(** What a handshake state is known to hold: the key [rk], if one is given. *)
Definition pins (rk : option PublicKey) (h : HandshakeState) : Prop :=
  ∀ k, rk = Some k → get_remote_static h = Some (array_to_list k).

Definition good_session (rk : option PublicKey) (r : result Session) : Prop :=
  ∀ s, r = Ok s → bound_session s ∧ ∀ k, rk = Some k → s_remote_static_key s = k.

Lemma safe_finish rk h l : pins rk h →
  safe I G (lift (finish h l) : prog _) (good_session rk).
Proof.
  intros Hpin. unfold finish. destruct (get_remote_static h) as [raw|] eqn:Hraw; [|done].
  destruct (try_into_expect_Val 32 raw) as (k & Hk & Hkb); [by eapply remote_static_len|].
  rewrite Hk. simpl. destruct (into_transport_mode h) as [e|t]; simpl; [done|].
  intros s [= <-]. split; [done|]. intros k' Hk'. apply Hpin in Hk'. simpl.
  apply array_eq. congruence.
Qed.

Definition pinned (rk : option PublicKey) (r : result (HandshakeState * BundleLayer)) : Prop :=
  ∀ h l, r = Ok (h, l) → pins rk h.

Lemma safe_write_handshake rk h l : pins rk h →
  safe I G (write_handshake (S := S) (T := T) h l) (pinned rk).
Proof.
  intros Hpin. simpl. intros entropy. destruct (hs_write _ _ _ _) as [e|[m h']] eqn:Hw; simpl; [done|].
  eapply safe_seq; [apply safe_layer_send|]. intros [[[]|e] l'] _; simpl; [|done].
  intros h'' l'' [= <- <-] k Hk. eapply write_static; eauto.
Qed.

Lemma safe_read_handshake rk h l : pins rk h →
  safe I G (read_handshake (S := S) (T := T) h l) (pinned rk).
Proof.
  intros Hpin. eapply safe_seq; [apply safe_layer_recv_bytes|].
  intros [[m|e] l'] _; simpl; [|done].
  destruct (hs_read _ _ _) as [e|[d h']] eqn:Hr; simpl; [done|].
  intros h'' l'' [= <- <-] k Hk. eapply read_static; eauto.
Qed.

Lemma safe_bind_ok {A B} (p : prog (result A)) (f : A → prog (result B)) R Q :
  safe I G p R → (∀ a, R (Ok a) → safe I G (f a) Q) → (∀ e, Q (Err e)) →
  safe I G (bind_ok p f) Q.
Proof. intros Hp Hf He. eapply safe_seq; [exact Hp|]. intros [a|e] HR; simpl; auto. Qed.

Lemma safe_initiate identity l rk :
  safe I G (initiate (S := S) (T := T) identity l rk) (good_session rk).
Proof.
  unfold initiate.
  assert (∀ prefix h, pins rk h → safe I G
    (bind_ok ('(r, conn) ← layer_send_bytes l [prefix]; Ret (result_map (λ _, conn) r)) (λ conn,
     bind_ok (write_handshake h conn) (λ '(st, conn),
     bind_ok (read_handshake st conn) (λ '(st, conn),
     bind_ok (write_handshake st conn) (λ '(st, conn), lift (finish st conn)))))
     : prog (result Session)) (good_session rk)) as Hbody.
  { intros prefix h Hpin. eapply (safe_bind_ok _ _ (λ _, True)); [|intros l1 _|done].
    { eapply safe_seq; [apply safe_layer_send|]. by intros []. }
    eapply safe_bind_ok; [by apply safe_write_handshake|intros [h1 l2] Hp1|done].
    eapply safe_bind_ok; [eapply safe_read_handshake, Hp1; done|intros [h2 l3] Hp2|done].
    eapply safe_bind_ok; [eapply safe_write_handshake, Hp2; done|intros [h3 l4] Hp3|done].
    eapply safe_finish, Hp3. done. }
  destruct rk as [key|].
  - destruct (snow_build _ _ _ _) as [e|h] eqn:Hb; simpl; [done|]. apply Hbody.
    intros k [= <-]. by eapply build_static.
  - destruct (snow_build _ _ _ _) as [e|h] eqn:Hb; simpl; [done|]. by apply Hbody.
Qed.

Lemma safe_respond identity l :
  safe I G (respond (S := S) (T := T) identity l) (good_session None).
Proof.
  eapply safe_seq; [apply safe_layer_recv_bytes|]. intros [[m|e] l'] _; [|done].
  destruct (head m) as [prefix|]; [|done]. cbn [ok_or].
  destruct (decide _) as [_|_]; [|destruct (decide _) as [_|_]; [|done]];
    (destruct (snow_build _ _ _ _) as [e|h]; [done|]; cbn [map_err];
     eapply safe_bind_ok; [by apply (safe_read_handshake None)|intros [h1 l2] Hp1|done];
     eapply safe_bind_ok; [eapply safe_write_handshake, Hp1; done|intros [h2 l3] Hp2|done];
     eapply safe_bind_ok; [eapply safe_read_handshake, Hp2; done|intros [h3 l4] Hp3|done];
     eapply safe_finish, Hp3; done).
Qed.
End identity.

Section session_theorems.
Context `{Crypto, Bp7, Snow, !SnowLaws} {S T W : Type}.
Context (answer : ∀ X, env_op X → W → X * N * W) (tick : N → S → S).
Local Abbreviation run p := (run (T := T) answer tick p).

(** C8. A session is bound to its key: whatever the network answers, a session
    that [initiate] or [respond] returns carries the PeerId that is the hash of
    the remote static key the handshake proved; when a key was expected (XK) it
    is that key; and neither ever panics. *)
Theorem session_identity identity l rk (s : S) (w : W) :
  match r_final (run (initiate identity l rk) s w) with
  | Returned (Ok ses) => bound_session ses ∧ ∀ k, rk = Some k → s_remote_static_key ses = k
  | Returned (Err _) => True
  | StuckAt why => why = Blocked
  end ∧
  match r_final (run (respond identity l) s w) with
  | Returned (Ok ses) => bound_session ses
  | Returned (Err _) => True
  | StuckAt why => why = Blocked
  end.
Proof.
  split.
  - destruct (run_safe (λ _, True) (λ _, True) answer tick (λ d s H, H) _ _ s w
      (safe_initiate (T := T) _ _ identity l rk) I) as (_ & _ & Hq).
    destruct (r_final _) as [[ses|e]|why]; auto.
  - destruct (run_safe (λ _, True) (λ _, True) answer tick (λ d s H, H) _ _ s w
      (safe_respond (T := T) _ _ identity l) I) as (_ & _ & Hq).
    destruct (r_final _) as [[ses|e]|why]; auto. by apply Hq.
Qed.
End session_theorems.

(** ** Two honest ends *)

Section honest.
Context `{Crypto, Bp7, Snow, !SnowLaws} {LAWS : Bp7Laws} {SIZES : Bp7Sizes}.
Context {S T : Type} (tick : N → S → S).
Local Abbreviation prog := (prog S env_op T).
Local Abbreviation yields p := (yields (T := T) pipe_answer tick p).

(** The layer after a send. *)
Definition bumped (l : BundleLayer) : BundleLayer :=
  {| inner := inner l; seq := u64_wrapping_add (seq l) 1; pending := pending l |}.

Lemma yields_layer_send l bytes w fs :
  sent_frames (p_mtu w) (seq l) bytes = Ok fs →
  yields (layer_send_bytes l bytes) w (Ok tt, bumped l) (push w fs).
Proof.
  intros Hfs s. destruct (run_send_bytes (T := T) tick l bytes s w) as [Hf He].
  rewrite Hfs in Hf, He. by split.
Qed.

Lemma yields_layer_recv l sq bytes mtu fs w rest :
  (Z.of_nat (length bytes) < 2 ^ 64)%Z → sent_frames mtu sq bytes = Ok fs →
  p_in w = fs ++ rest → (length bytes < p_bound w)%nat → pending l !! sq = None →
  yields (layer_recv_bytes l) w (Ok bytes, l) (set_in w rest).
Proof. intros ? ? ? ? ? s. by eapply recv_sent. Qed.

(** Every message fits, in one frame or in fragments. *)
Definition roomy (mtu : nat) : Prop := ∀ sq bytes, ∃ fs, sent_frames mtu sq bytes = Ok fs.

Lemma yields_bind_ok {A B} (p : prog (result A)) (f : A → prog (result B)) w a w' b w'' :
  yields p w (Ok a) w' → yields (f a) w' b w'' → yields (bind_ok p f) w b w''.
Proof. intros Hp Hf. eapply yields_bind; [exact Hp|]. exact Hf. Qed.

(** A pipe after part of a handshake: the entropy and the frames that are left, and what
    was written. *)
Definition crossed (w : pipe) (entropy inbox out : list (list byte)) : pipe :=
  {| p_mtu := p_mtu w; p_eof := p_eof w; p_in := inbox; p_out := p_out w ++ out;
     p_entropy := entropy; p_bound := p_bound w; p_local := p_local w |}.

Lemma yields_write_handshake h l w e es m h' fs :
  p_entropy w = e :: es → hs_write e h [] NOISE_MSG_MAX = inr (m, h') →
  sent_frames (p_mtu w) (seq l) m = Ok fs →
  yields (write_handshake h l) w (Ok (h', bumped l)) (crossed w es (p_in w) fs).
Proof.
  intros He Hw Hfs. eapply yields_bind; [by eapply yields_call|]. rewrite He. simpl.
  rewrite Hw. simpl. eapply yields_bind; [by eapply yields_layer_send|]. apply yields_ret.
Qed.

Lemma yields_read_handshake h l sq w mtu fs rest m h' d :
  p_in w = fs ++ rest → hs_read h m NOISE_MSG_MAX = inr (d, h') →
  sent_frames mtu sq m = Ok fs → (length m < p_bound w)%nat →
  (Z.of_nat (length m) < 2 ^ 64)%Z → pending l !! sq = None →
  yields (read_handshake h l) w (Ok (h', l)) (set_in w rest).
Proof.
  intros Hin Hr Hfs Hb Hlen Hp. eapply yields_bind; [by eapply yields_layer_recv|]. simpl.
  rewrite Hr. apply yields_ret.
Qed.

Lemma yields_finish h l w raw t :
  get_remote_static h = Some raw → into_transport_mode h = inr t →
  ∃ k, array_to_list k = raw ∧
  yields (lift (finish h l)) w
    (Ok {| s_peer_id := peer_id_from_public_key raw; s_remote_static_key := k;
           s_state := t; s_conn := l |}) w.
Proof.
  intros Hg Ht. destruct (try_into_expect_Val 32 raw) as (k & Hk & Hkb).
  { by eapply remote_static_len. }
  exists k. split; [done|]. unfold finish. rewrite Hg, Hk, Ht. simpl. rewrite <-Hkb.
  apply yields_ret.
Qed.

Definition handshake_pipe (eof : PathweaveError) (mtu bound : nat)
    (entropy inbox : list (list byte)) : pipe :=
  {| p_mtu := mtu; p_eof := eof; p_in := inbox; p_out := []; p_entropy := entropy;
     p_bound := bound; p_local := [] |}.

(** After a handshake: everything read, the entropy drawn, [out] written. *)
Definition handshake_done (eof : PathweaveError) (mtu bound : nat) (out : list (list byte)) :
    pipe :=
  {| p_mtu := mtu; p_eof := eof; p_in := []; p_out := out; p_entropy := []; p_bound := bound;
     p_local := [] |}.

(** Two sessions of one handshake, with nothing half-received. *)
Definition linked (a b : Session) : Prop :=
  paired (s_state a) (s_state b) ∧ pending (s_conn a) = ∅ ∧ pending (s_conn b) = ∅.

Definition prefix_of (rk : option PublicKey) : byte :=
  match rk with Some _ => PROTO_XK | None => PROTO_XX end.
Definition pattern_of (rk : option PublicKey) : noise_pattern :=
  match rk with Some _ => Noise_XK | None => Noise_XX end.

Lemma yields_initiate ida l rk w es rest e1 e3 i0 m1 i1 m2 i2 m3 i3 t raw f0 f1 f2 f3 sq2 :
  snow_build (pattern_of rk) Initiator (private_key ida) rk = inr i0 →
  hs_write e1 i0 [] NOISE_MSG_MAX = inr (m1, i1) →
  hs_read i1 m2 NOISE_MSG_MAX = inr ([], i2) →
  hs_write e3 i2 [] NOISE_MSG_MAX = inr (m3, i3) →
  get_remote_static i3 = Some raw → into_transport_mode i3 = inr t →
  sent_frames (p_mtu w) (seq l) [prefix_of rk] = Ok f0 →
  sent_frames (p_mtu w) (seq (bumped l)) m1 = Ok f1 →
  sent_frames (p_mtu w) sq2 m2 = Ok f2 →
  sent_frames (p_mtu w) (seq (bumped (bumped l))) m3 = Ok f3 →
  (length m2 < p_bound w)%nat → (Z.of_nat (length m2) < 2 ^ 64)%Z → pending l = ∅ →
  p_entropy w = e1 :: e3 :: es → p_in w = f2 ++ rest →
  ∃ k, array_to_list k = raw ∧
  yields (initiate ida l rk) w
    (Ok {| s_peer_id := peer_id_from_public_key raw; s_remote_static_key := k; s_state := t;
           s_conn := bumped (bumped (bumped l)) |})
    (crossed w es rest (f0 ++ f1 ++ f3)).
Proof.
  intros Hb Hw1 Hr2 Hw3 Hg Ht Hf0 Hf1 Hf2 Hf3 Hbd Hlen Hp He Hin.
  destruct (yields_finish i3 (bumped (bumped (bumped l)))
    (crossed w es rest (f0 ++ f1 ++ f3)) raw t Hg Ht) as (k & Hk & Hfin).
  exists k. split; [done|]. unfold initiate.
  assert (yields
    (bind_ok ('(r, conn) ← layer_send_bytes l [prefix_of rk]; Ret (result_map (λ _, conn) r)) (λ conn,
     bind_ok (write_handshake i0 conn) (λ '(st, conn),
     bind_ok (read_handshake st conn) (λ '(st, conn),
     bind_ok (write_handshake st conn) (λ '(st, conn), lift (finish st conn)))))) w
    (Ok {| s_peer_id := peer_id_from_public_key raw; s_remote_static_key := k; s_state := t;
           s_conn := bumped (bumped (bumped l)) |})
    (crossed w es rest (f0 ++ f1 ++ f3)))
    as Hbody.
  { eapply yields_bind_ok.
    { eapply yields_bind; [by eapply yields_layer_send|]. apply yields_ret. }
    eapply yields_bind_ok; [by eapply yields_write_handshake|].
    eapply yields_bind_ok; [eapply (yields_read_handshake _ _ sq2 _ (p_mtu w) f2 rest)|].
    { done. } { done. } { done. } { done. } { done. }
    { simpl. by rewrite Hp. }
    eapply yields_bind_ok; [by eapply yields_write_handshake|].
    unfold crossed in *. cbn in *. by rewrite <-!app_assoc. }
  destruct rk as [key|]; simpl in Hb; rewrite Hb; exact Hbody.
Qed.

Lemma yields_respond idb l pfx pattern w es rest e2 r0 m1 r1 m2 r2 m3 r3 t raw f0 f1 f2 f3 sq0 sq1 sq3 :
  (pattern, pfx) ∈ [(Noise_XX, PROTO_XX); (Noise_XK, PROTO_XK)] →
  snow_build pattern Responder (private_key idb) None = inr r0 →
  hs_read r0 m1 NOISE_MSG_MAX = inr ([], r1) →
  hs_write e2 r1 [] NOISE_MSG_MAX = inr (m2, r2) →
  hs_read r2 m3 NOISE_MSG_MAX = inr ([], r3) →
  get_remote_static r3 = Some raw → into_transport_mode r3 = inr t →
  sent_frames (p_mtu w) sq0 [pfx] = Ok f0 →
  sent_frames (p_mtu w) sq1 m1 = Ok f1 →
  sent_frames (p_mtu w) (seq l) m2 = Ok f2 →
  sent_frames (p_mtu w) sq3 m3 = Ok f3 →
  (length m1 < p_bound w)%nat → (length m3 < p_bound w)%nat → (1 < p_bound w)%nat →
  (Z.of_nat (length m1) < 2 ^ 64)%Z → (Z.of_nat (length m3) < 2 ^ 64)%Z → pending l = ∅ →
  p_entropy w = e2 :: es → p_in w = f0 ++ f1 ++ f3 ++ rest →
  ∃ k, array_to_list k = raw ∧
  yields (respond idb l) w
    (Ok {| s_peer_id := peer_id_from_public_key raw; s_remote_static_key := k; s_state := t;
           s_conn := bumped l |})
    (crossed w es rest f2).
Proof.
  intros Hpp Hb Hr1 Hw2 Hr3 Hg Ht Hf0 Hf1 Hf2 Hf3 Hbd1 Hbd3 Hbd Hl1 Hl3 Hp He Hin.
  destruct (yields_finish r3 (bumped l)
    (crossed w es rest f2)
    raw t Hg Ht) as (k & Hk & Hfin).
  exists k. split; [done|]. unfold respond.
  eapply yields_bind; [eapply (yields_layer_recv l sq0 [pfx] (p_mtu w) f0); try done; by rewrite Hp|].
  assert (yields
    (bind_ok (read_handshake r0 l) (λ '(st, conn),
     bind_ok (write_handshake st conn) (λ '(st, conn),
     bind_ok (read_handshake st conn) (λ '(st, conn), lift (finish st conn)))))
    (set_in w (f1 ++ f3 ++ rest))
    (Ok {| s_peer_id := peer_id_from_public_key raw; s_remote_static_key := k; s_state := t;
           s_conn := bumped l |})
    (crossed w es rest f2)) as Hbody.
  { eapply yields_bind_ok.
    { eapply (yields_read_handshake _ _ sq1 _ (p_mtu w) f1 (f3 ++ rest)); try done. by rewrite Hp. }
    eapply yields_bind_ok; [by eapply yields_write_handshake|].
    eapply yields_bind_ok; [eapply (yields_read_handshake _ _ sq3 _ (p_mtu w) f3 rest)|exact Hfin];
      try done. simpl. by rewrite Hp. }
  rewrite !elem_of_cons, elem_of_nil in Hpp.
  destruct Hpp as [[= -> ->]|[[= -> ->]|[]]]; cbn [ok_or head]; cbv zeta.
  - rewrite decide_True by done. rewrite Hb. exact Hbody.
  - rewrite decide_False, decide_True by done. rewrite Hb. exact Hbody.
Qed.

Lemma NOISE_MSG_MAX_Z : Z.of_nat NOISE_MSG_MAX = 65535%Z.
Proof. apply Z2Nat.id. lia. Qed.

Local Opaque NOISE_MSG_MAX.

(** A frame the bundle layer makes of a message the Noise protocol allows. *)
Definition noise_frame (mtu : nat) (f : list byte) : Prop :=
  ∃ sq m fs, (length m ≤ NOISE_MSG_MAX)%nat ∧ sent_frames mtu sq m = Ok fs ∧ f ∈ fs.

Lemma noise_frames mtu sq m fs :
  (length m ≤ NOISE_MSG_MAX)%nat → sent_frames mtu sq m = Ok fs → Forall (noise_frame mtu) fs.
Proof. intros Hm Hfs. apply Forall_forall. intros f Hf. by exists sq, m, fs. Qed.

(** The handshake, with the frames that cross; what comes after them stays unread. *)
Lemma yields_handshake_in (ka kb : array 32) ida idb rk c1 c2 mtu e1 e2 e3 :
  NodeIdentity_from_bytes (array_to_list ka) = Ok ida →
  NodeIdentity_from_bytes (array_to_list kb) = Ok idb →
  rk = None ∨ rk = Some (x25519_public kb) → roomy mtu →
  ∃ outA outB sa sb,
    (∀ w es rest, p_mtu w = mtu → (NOISE_MSG_MAX < p_bound w)%nat →
       p_entropy w = e1 :: e3 :: es → p_in w = outB ++ rest →
       yields (initiate ida (BundleLayer_new c1) rk) w (Ok sa) (crossed w es rest outA)) ∧
    (∀ w es rest, p_mtu w = mtu → (NOISE_MSG_MAX < p_bound w)%nat →
       p_entropy w = e2 :: es → p_in w = outA ++ rest →
       yields (respond idb (BundleLayer_new c2)) w (Ok sb) (crossed w es rest outB)) ∧
    Forall (noise_frame mtu) outA ∧ Forall (noise_frame mtu) outB ∧
    s_peer_id sa = peer_id idb ∧ s_peer_id sb = peer_id ida ∧
    s_remote_static_key sa = x25519_public kb ∧ s_remote_static_key sb = x25519_public ka ∧
    linked sa sb.
Proof.
  intros Ha Hb Hrk Hroom.
  apply from_bytes_Ok in Ha as (ka' & ->%array_eq & ->).
  apply from_bytes_Ok in Hb as (kb' & ->%array_eq & ->).
  destruct (honest_exchange (pattern_of rk) rk ka kb e1 e2 e3) as
    (i0 & r0 & m1 & i1 & r1 & m2 & r2 & i2 & m3 & i3 & r3 & ti & tr & Hi0 & Hr0 & Hw1 & Hr1 &
     Hw2 & Hr2 & Hw3 & Hr3 & Hgi & Hgr & Hti & Htr & Hpair & Hm1 & Hm2 & Hm3).
  { destruct Hrk as [->| ->]; [by left|by right]. }
  set (l1 := BundleLayer_new c1). set (l2 := BundleLayer_new c2).
  destruct (Hroom (seq l1) [prefix_of rk]) as [f0 Hf0].
  destruct (Hroom (seq (bumped l1)) m1) as [f1 Hf1].
  destruct (Hroom (seq l2) m2) as [f2 Hf2].
  destruct (Hroom (seq (bumped (bumped l1))) m3) as [f3 Hf3].
  pose proof NOISE_MSG_MAX_Z as Hmax.
  exists (f0 ++ f1 ++ f3), f2,
    {| s_peer_id := peer_id_from_public_key (key_public kb);
       s_remote_static_key := x25519_public kb; s_state := ti;
       s_conn := bumped (bumped (bumped l1)) |},
    {| s_peer_id := peer_id_from_public_key (key_public ka);
       s_remote_static_key := x25519_public ka; s_state := tr; s_conn := bumped l2 |}.
  split_and!; [| | | |reflexivity..|split; [exact Hpair|split; reflexivity]].
  - intros w es rest <- Hbd He Hin. edestruct (yields_initiate {| private_key := array_to_list ka;
      public_key := key_public ka; peer_id := peer_id_from_public_key (key_public ka) |} l1 rk w es rest
      e1 e3 i0 m1 i1 m2 i2 m3 i3 ti (key_public kb) f0 f1 f2 f3 (seq l2)) as (k & Hk & Hy);
      [exact Hi0|exact Hw1|exact Hr2|exact Hw3|exact Hgi|exact Hti|exact Hf0|exact Hf1|exact Hf2
      |exact Hf3|lia|lia|reflexivity|exact He|exact Hin|].
    apply array_eq in Hk as ->. exact Hy.
  - intros w es rest <- Hbd He Hin. rewrite <-!app_assoc in Hin.
    edestruct (yields_respond {| private_key := array_to_list kb;
      public_key := key_public kb; peer_id := peer_id_from_public_key (key_public kb) |}
      l2 (prefix_of rk) (pattern_of rk) w es rest e2 r0 m1 r1 m2 r2 m3 r3 tr (key_public ka)
      f0 f1 f2 f3 (seq l1) (seq (bumped l1)) (seq (bumped (bumped l1)))) as (k & Hk & Hy);
      [|exact Hr0|exact Hr1|exact Hw2|exact Hr3|exact Hgr|exact Htr|exact Hf0|exact Hf1|exact Hf2
      |exact Hf3|lia|lia|lia|lia|lia|reflexivity|exact He|exact Hin|].
    { destruct rk; simpl; rewrite !elem_of_cons; auto. }
    apply array_eq in Hk as ->. exact Hy.
  - rewrite !Forall_app. split_and!; [|eapply noise_frames; [exact Hm1|exact Hf1]|
      eapply noise_frames; [exact Hm3|exact Hf3]].
    eapply noise_frames; [|exact Hf0]. simpl. lia.
  - eapply noise_frames; [exact Hm2|exact Hf2].
Qed.

(** Alone on the link. *)
Lemma yields_handshake (ka kb : array 32) ida idb rk c1 c2 eofA eofB mtu bound e1 e2 e3 :
  NodeIdentity_from_bytes (array_to_list ka) = Ok ida →
  NodeIdentity_from_bytes (array_to_list kb) = Ok idb →
  rk = None ∨ rk = Some (x25519_public kb) → roomy mtu → (NOISE_MSG_MAX < bound)%nat →
  ∃ outA outB sa sb,
    yields (initiate ida (BundleLayer_new c1) rk)
      (handshake_pipe eofA mtu bound [e1; e3] outB) (Ok sa) (handshake_done eofA mtu bound outA) ∧
    yields (respond idb (BundleLayer_new c2))
      (handshake_pipe eofB mtu bound [e2] outA) (Ok sb) (handshake_done eofB mtu bound outB) ∧
    Forall (noise_frame mtu) outA ∧ Forall (noise_frame mtu) outB ∧
    s_peer_id sa = peer_id idb ∧ s_peer_id sb = peer_id ida ∧ linked sa sb.
Proof.
  intros Ha Hb Hrk Hroom Hbound.
  destruct (yields_handshake_in ka kb ida idb rk c1 c2 mtu e1 e2 e3 Ha Hb Hrk Hroom)
    as (outA & outB & sa & sb & Hya & Hyb & HfA & HfB & Hia & Hib & _ & _ & Hl).
  exists outA, outB, sa, sb. split_and!; [| |exact HfA|exact HfB|exact Hia|exact Hib|exact Hl].
  - apply (Hya (handshake_pipe eofA mtu bound [e1; e3] outB) [] []);
      [reflexivity|exact Hbound|reflexivity|]. by rewrite app_nil_r.
  - apply (Hyb (handshake_pipe eofB mtu bound [e2] outA) [] []);
      [reflexivity|exact Hbound|reflexivity|]. by rewrite app_nil_r.
Qed.

(** Honest handshakes succeed and authenticate both ends: with XX, or with
    XK and the responder's true key, over any link whose mtu leaves room for
    framing, the two sides' outputs, each fed to the other, complete; each ends
    with a session that names the other's PeerId, and the two are linked. *)
Theorem handshake_honest (ka kb : array 32) ida idb rk c1 c2 eof mtu bound e1 e2 e3
    (Ha : NodeIdentity_from_bytes (array_to_list ka) = Ok ida)
    (Hb : NodeIdentity_from_bytes (array_to_list kb) = Ok idb)
    (Hrk : rk = None ∨ rk = Some (x25519_public kb))
    (Hroom : roomy mtu) (Hbound : (NOISE_MSG_MAX < bound)%nat) :
  ∃ outA outB sa sb,
    (∃ wa, yields (initiate ida (BundleLayer_new c1) rk)
             (handshake_pipe eof mtu bound [e1; e3] outB) (Ok sa) wa ∧ p_out wa = outA) ∧
    (∃ wb, yields (respond idb (BundleLayer_new c2))
             (handshake_pipe eof mtu bound [e2] outA) (Ok sb) wb ∧ p_out wb = outB) ∧
    s_peer_id sa = peer_id idb ∧ s_peer_id sb = peer_id ida ∧ linked sa sb.
Proof.
  destruct (yields_handshake ka kb ida idb rk c1 c2 eof eof mtu bound e1 e2 e3
    Ha Hb Hrk Hroom Hbound)
    as (outA & outB & sa & sb & Hya & Hyb & _ & _ & Hids).
  exists outA, outB, sa, sb. split_and!; [eexists; by split..|apply Hids|apply Hids|apply Hids].
Qed.

(** Receiving one message, plainly or under a timer that does not fire first. *)
Lemma yields_session_recv_from raw b sq c st d mtu fs w rest :
  reads (T := T) tick raw →
  (Z.of_nat (length c) < 2 ^ 64)%Z → sent_frames mtu sq c = Ok fs → p_in w = fs ++ rest →
  (length c < p_bound w)%nat → pending (s_conn b) = ∅ →
  ts_read (s_state b) c (length c) = (inr d, st) →
  yields (session_recv_from raw b) w (Some (Ok d), with_state b st (s_conn b)) (set_in w rest).
Proof.
  intros Hraw Hlen Hfs Hin Hb Hp Hr s.
  destruct (layer_recv_sent (T := T) tick raw Hraw (s_conn b) sq c mtu fs s w rest) as [H1' H2'];
    try done. { by rewrite Hp. }
  unfold session_recv_from. rewrite run_bind. cbv zeta in H1', H2'. rewrite H1', H2'. simpl.
  by rewrite Hr.
Qed.

(** One message, with the frames it becomes. *)
Lemma yields_channel_in a b d mtu :
  linked a b → (length d + 16 ≤ NOISE_MSG_MAX)%nat → roomy mtu →
  ∃ fs a' b',
    (∀ w1, p_mtu w1 = mtu → yields (session_send a d) w1 (Ok tt, a') (push w1 fs)) ∧
    (∀ raw w2 rest, reads (T := T) tick raw → p_in w2 = fs ++ rest →
       (NOISE_MSG_MAX < p_bound w2)%nat →
       yields (session_recv_from raw b) w2 (Some (Ok d), b') (set_in w2 rest)) ∧
    Forall (noise_frame mtu) fs ∧ linked a' b' ∧ linked b' a'.
Proof.
  intros Hlinked Hd Hroom.
  destruct Hlinked as (Hpair & Hpa & Hpb). pose proof NOISE_MSG_MAX_Z as Hmax.
  destruct (paired_message _ _ d Hpair Hd) as (c & sta & stb & Hw & Hlen & Hr & Hpair').
  destruct (Hroom (seq (s_conn a)) c) as [fs Hfs].
  exists fs, (with_state a sta (bumped (s_conn a))), (with_state b stb (s_conn b)). split_and!.
  - intros w1 <-. unfold session_send. rewrite Hw.
    eapply yields_bind; [by eapply yields_layer_send|]. apply yields_ret.
  - intros raw w2 rest Hraw Hin Hb. eapply yields_session_recv_from; eauto; lia.
  - eapply noise_frames; [|exact Hfs]. lia.
  - split; [exact Hpair'|]. by split.
  - split; [apply paired_sym; exact Hpair'|]. by split.
Qed.

Lemma yields_channel a b d w1 :
  linked a b → (length d + 16 ≤ NOISE_MSG_MAX)%nat → roomy (p_mtu w1) →
  ∃ fs a' b',
    yields (session_send a d) w1 (Ok tt, a') (push w1 fs) ∧
    (∀ w2 rest, p_in w2 = fs ++ rest → (NOISE_MSG_MAX < p_bound w2)%nat →
       yields (session_recv b) w2 (Ok d, b') (set_in w2 rest)) ∧
    Forall (noise_frame (p_mtu w1)) fs ∧ linked a' b' ∧ linked b' a'.
Proof.
  intros Hl Hd Hroom. destruct (yields_channel_in a b d (p_mtu w1) Hl Hd Hroom)
    as (fs & a' & b' & Hs & Hr & Hf & Hl1 & Hl2).
  exists fs, a', b'. split_and!; [by apply Hs| |exact Hf|exact Hl1|exact Hl2].
  intros w2 rest Hin Hb. eapply yields_bind; [by apply Hr; [apply reads_raw|..]|]. apply yields_ret.
Qed.

(** Linked sessions are a channel: over any link with room for framing, a
    message of at most 65519 bytes sent on one comes out of the other unchanged,
    with exactly its frames consumed, and the two stay linked both ways, so a
    conversation of any length goes through. *)
Theorem session_channel a b d w1
    (Hlinked : linked a b) (Hd : (length d + 16 ≤ NOISE_MSG_MAX)%nat)
    (Hroom : roomy (p_mtu w1)) :
  ∃ fs a' b',
    yields (session_send a d) w1 (Ok tt, a') (push w1 fs) ∧
    (∀ w2 rest, p_in w2 = fs ++ rest → (NOISE_MSG_MAX < p_bound w2)%nat →
       yields (session_recv b) w2 (Ok d, b') (set_in w2 rest)) ∧
    linked a' b' ∧ linked b' a'.
Proof.
  destruct (yields_channel a b d w1 Hlinked Hd Hroom) as (fs & a' & b' & Hs & Hr & _ & Hl).
  by exists fs, a', b'.
Qed.

(** A peer that does not speak the protocol is turned away: a first message
    that is empty or starts with a byte other than the two prefixes is an error,
    and the responder writes nothing and draws no entropy. *)
Theorem respond_rejects idb l m sq mtu fs w rest
    (Hm : head m ≠ Some PROTO_XX ∧ head m ≠ Some PROTO_XK)
    (Hlen : (Z.of_nat (length m) < 2 ^ 64)%Z) (Hfs : sent_frames mtu sq m = Ok fs)
    (Hin : p_in w = fs ++ rest) (Hb : (length m < p_bound w)%nat)
    (Hp : pending l !! sq = None) :
  ∃ msg, yields (respond idb l) w (Err (ESession msg)) (set_in w rest).
Proof.
  destruct Hm as [HXX HXK]. unfold respond.
  destruct (head m) as [b|] eqn:Hh.
  - exists ("unknown protocol prefix: 0x" ++ String.string_of_list_byte (hex_byte b))%string.
    eapply yields_bind; [by eapply yields_layer_recv|]. simpl. rewrite Hh. cbn [ok_or].
    rewrite decide_False by congruence. rewrite decide_False by congruence. apply yields_ret.
  - eexists. eapply yields_bind; [by eapply yields_layer_recv|]. simpl. rewrite Hh.
    apply yields_ret.
Qed.
End honest.

Section sealing.
Context `{Crypto, Snow, !SnowLaws}.

Lemma seal_opens (ka kb : array 32) ida idb entropy d :
  NodeIdentity_from_bytes (array_to_list ka) = Ok ida →
  NodeIdentity_from_bytes (array_to_list kb) = Ok idb →
  (length d + 48 ≤ NOISE_MSG_MAX)%nat →
  ∃ sealed, seal entropy ida (x25519_public kb) d = Ok sealed ∧
    unseal idb (peer_id ida) (x25519_public ka) sealed = Ok d ∧
    (length sealed ≤ length d + 48)%nat.
Proof.
  intros (ka' & ->%array_eq & ->)%from_bytes_Ok (kb' & ->%array_eq & ->)%from_bytes_Ok Hd.
  destruct (honest_seal entropy ka kb d Hd) as (i & i' & r & r' & c & Hi & Hr & Hw & Hu & Hlen).
  exists c. unfold seal, unseal. unfold key_bytes in *. simpl. rewrite Hi, Hr. simpl.
  rewrite Hw, Hu. done.
Qed.
End sealing.
