(* ===== verification/LinkCalls.v ===== *)
(** * What sessions and bundles touch

    The code of a session, down to its bundle layer, uses its connection, entropy and
    nothing else: no lock of the node's state, no task, no transport. So it behaves the
    same over whatever carries its frames, and dials nobody. *)

From S2P Require Import Prelude RustStd Types Effects Env Bundle Session.

(** The calls of a link's user. *)
Definition link_call {X} (e : env_op X) : bool :=
  match e with
  | ConnSend _ _ | ConnRecv _ | ConnClose _ | ConnMtu _ | NoiseEntropy | LoopBound => true
  | _ => false
  end.

(** And a receive that a timer may cut short. *)
Definition timed_link_call {X} (e : env_op X) : bool :=
  match e with ConnRecvBefore _ _ => true | e => link_call e end.

Section only.
Context {S T : Type} (good : ∀ X, env_op X → bool).

Fixpoint only {A} (p : prog S env_op T A) : Prop :=
  match p with
  | Ret _ => True
  | Lock _ _ => False
  | Call e k => good _ e = true ∧ ∀ x, only (k x)
  | Spawn _ _ => False
  | Stuck why => True
  end.

Lemma only_bind {A B} (p : prog S env_op T A) (f : A → prog S env_op T B) :
  only p → (∀ a, only (f a)) → only (bind p f).
Proof.
  intros Hp Hf. induction p as [a|X g k IH|X e k IH|t k IH|why]; simpl in *; auto; try done.
  destruct Hp as [He Hk]. split; auto.
Qed.
End only.

Section programs.
Context `{Crypto, Bp7, Snow} {S T : Type}.
Local Abbreviation prog := (prog S env_op T).
Context (good : ∀ X, env_op X → bool).
Hypothesis Hgood : ∀ X (e : env_op X), link_call e = true → good X e = true.

Lemma only_send_fragments fuel c eid sq k bytes off :
  only good (send_fragments fuel c eid sq k bytes off : prog _).
Proof.
  revert off. induction fuel as [|fuel IH]; intros off; simpl; destruct (_ <? _); try done.
  destruct (slice _ _ _); simpl; [|done]. destruct (build _); simpl; [done|].
  split; [by apply Hgood|]. by intros [[]|e].
Qed.

Lemma only_layer_send l bytes : only good (layer_send_bytes l bytes : prog _).
Proof.
  unfold layer_send_bytes. destruct pw_eid; simpl; [|done]. split; [by apply Hgood|]. intros mtu.
  destruct (build _); simpl; [done|]. destruct (_ || _); [by split; [apply Hgood|]|].
  destruct (fragment_header_overhead _ _ _); [|done]. destruct (_ =? _); [done|].
  by apply only_bind; [apply only_send_fragments|].
Qed.

Lemma only_recv_loop bound raw l :
  (∀ c, only good (raw c)) → only good (recv_loop bound raw l : prog _).
Proof.
  intros Hraw. revert l. induction bound as [|bound IH]; intros l; simpl; [done|].
  apply only_bind; [done|]. intros [[bytes|e]|]; simpl; [|done..].
  destruct (absorb l bytes) as [[res|] l']; simpl; [done|]. apply IH.
Qed.

Lemma only_layer_recv raw l :
  (∀ c, only good (raw c)) → only good (layer_recv raw l : prog _).
Proof. intros Hraw. split; [by apply Hgood|]. intros bound. by apply only_recv_loop. Qed.

Lemma only_raw_recv c : only good (raw_recv c : prog _).
Proof. by split; [apply Hgood|]. Qed.
Hint Resolve only_raw_recv : core.

Lemma only_layer_recv_bytes l : only good (layer_recv_bytes l : prog _).
Proof. apply only_bind; [by apply only_layer_recv|]. by intros [[]]. Qed.

Lemma only_bind_ok {A B} (p : prog (result A)) (f : A → prog (result B)) :
  only good p → (∀ a, only good (f a)) → only good (bind_ok p f).
Proof. intros Hp Hf. apply only_bind; [done|]. by intros []. Qed.

Lemma only_write_handshake h l : only good (write_handshake h l : prog _).
Proof.
  split; [by apply Hgood|]. intros e. simpl. destruct (hs_write _ _ _ _) as [|[]]; simpl; [done|].
  apply only_bind; [apply only_layer_send|by intros []].
Qed.

Lemma only_read_handshake h l : only good (read_handshake h l : prog _).
Proof.
  apply only_bind; [apply only_layer_recv_bytes|]. intros [[m|e] l']; [|done].
  simpl. by destruct (hs_read _ _ _) as [|[]].
Qed.

Lemma only_lift {A} (m : rust A) : only good (lift m : prog A).
Proof. by destruct m. Qed.

Lemma only_initiate id l rk : only good (initiate id l rk : prog _).
Proof.
  unfold initiate. destruct rk as [key|]; destruct (snow_build _ _ _ _); [done| |done|];
    (apply only_bind_ok; [apply only_bind; [apply only_layer_send|by intros []]|];
     intros l1; apply only_bind_ok; [apply only_write_handshake|];
     intros []; apply only_bind_ok; [apply only_read_handshake|];
     intros []; apply only_bind_ok; [apply only_write_handshake|];
     intros []; apply only_lift).
Qed.

Lemma only_respond id l : only good (respond id l : prog _).
Proof.
  apply only_bind; [apply only_layer_recv_bytes|]. intros [[m|e] l']; [|done].
  destruct (head m); cbn [ok_or]; [|done].
  destruct (if decide _ then _ else _) as [pattern|]; [|done].
  destruct (snow_build _ _ _ _); [done|]. cbn [map_err].
  apply only_bind_ok; [apply only_read_handshake|].
  intros []; apply only_bind_ok; [apply only_write_handshake|].
  intros []; apply only_bind_ok; [apply only_read_handshake|].
  intros []; apply only_lift.
Qed.

Lemma only_session_send s bytes : only good (session_send s bytes : prog _).
Proof.
  unfold session_send. destruct (ts_write _ _ _) as [[|] st]; [done|].
  apply only_bind; [apply only_layer_send|by intros []].
Qed.

Lemma only_session_recv_from raw s :
  (∀ c, only good (raw c)) → only good (session_recv_from raw s : prog _).
Proof.
  intros Hraw. apply only_bind; [by apply only_layer_recv|].
  intros [[[c|e]|] l]; try done. simpl. by destruct (ts_read _ _ _).
Qed.

Lemma only_session_recv s : only good (session_recv s : prog _).
Proof. apply only_bind; [by apply only_session_recv_from|]. by intros [[]]. Qed.

Lemma only_session_close s : only good (session_close s : prog _).
Proof. by split; [apply Hgood|]. Qed.
End programs.

Lemma only_session_recv_timeout `{Bp7, Snow} {S T} limit s :
  only (T := T) (@timed_link_call) (session_recv_timeout (S := S) limit s).
Proof.
  apply only_session_recv_from; [by intros X []|]. by intros c.
Qed.

(** ** A session stays on its connection *)

Section same_connection.
Context `{Crypto, Bp7, Snow} {S T : Type}.
Local Abbreviation prog := (prog S env_op T).
Local Abbreviation results p Q := (tells p (λ _ a, Q a)).

Definition on_conn (c : conn) (r : result Session) : Prop :=
  ∀ ses, r = Ok ses → inner (s_conn ses) = c.

Lemma stays_layer_send l bytes :
  results (layer_send_bytes l bytes : prog _) (λ r, inner r.2 = inner l).
Proof.
  unfold layer_send_bytes. destruct pw_eid; [|done]. intros mtu.
  cbn [bind]. destruct (map_err _ _); [|done]. destruct (_ || _); [by intros r|].
  destruct (fragment_header_overhead _ _ _); [|done]. destruct (_ =? 0); [done|].
  eapply (tells_result (λ _, True)); [apply tells_true|]. done.
Qed.

Lemma absorb_inner l raw : inner (absorb l raw).2 = inner l.
Proof.
  unfold absorb, absorb_fragment. destruct (map_err _ _); [|done]. destruct (negb _); [done|].
  destruct (ok_or _ _); [|done]. by destruct (is_complete _).
Qed.

Lemma stays_layer_recv raw l :
  results (layer_recv raw l : prog _) (λ r, inner r.2 = inner l).
Proof.
  intros bound. cbn [bind]. revert l. induction bound as [|bound IH]; intros l; [done|].
  cbn [recv_loop]. eapply (tells_result (λ _, True)); [apply tells_true|].
  intros [[bytes|e]|] _; [|done|done].
  pose proof (absorb_inner l bytes) as Hi. destruct (absorb l bytes) as [[res|] l']; cbn in Hi.
  - done.
  - rewrite <-Hi. apply IH.
Qed.

Lemma stays_layer_recv_bytes l :
  results (layer_recv_bytes l : prog _) (λ r, inner r.2 = inner l).
Proof.
  eapply tells_result; [apply stays_layer_recv|]. by intros [[r|] l'].
Qed.

Lemma stays_session_send ses m :
  results (session_send ses m : prog _) (λ r, inner (s_conn r.2) = inner (s_conn ses)).
Proof.
  unfold session_send. destruct (ts_write _ _ _) as [[|] st]; [done|].
  eapply tells_result; [apply stays_layer_send|]. by intros [].
Qed.

Lemma stays_session_recv_from raw ses :
  results (session_recv_from raw ses : prog _) (λ r, inner (s_conn r.2) = inner (s_conn ses)).
Proof.
  eapply tells_result; [apply stays_layer_recv|]. intros [[[c|e]|] l] Hl; try done.
  cbn. by destruct (ts_read _ _ _).
Qed.

Local Abbreviation stays l r := (∀ x : HandshakeState * BundleLayer, r = Ok x → inner x.2 = inner l).

Lemma stays_bind_ok {A B} (R : A → Prop) (p : prog (result A)) (f : A → prog (result B)) Q :
  results p (λ r, ∀ a, r = Ok a → R a) → (∀ e, Q (Err e)) → (∀ a, R a → results (f a) Q) →
  results (bind_ok p f) Q.
Proof.
  intros Hp He Hf. eapply tells_result; [exact Hp|]. intros [a|e] Ha; [|apply He]. by apply Hf, Ha.
Qed.

Lemma stays_write_handshake h l : results (write_handshake h l : prog _) (λ r, stays l r).
Proof.
  intros e. cbn [bind]. destruct (map_err _ _) as [[msg h']|]; [|done].
  eapply tells_result; [apply stays_layer_send|]. intros [[]] Hl; cbn; [|done].
  by intros ? [= <-].
Qed.

Lemma stays_read_handshake h l : results (read_handshake h l : prog _) (λ r, stays l r).
Proof.
  eapply tells_result; [apply stays_layer_recv_bytes|]. intros [[m|e] l'] Hl; [|done].
  destruct (map_err _ _) as [[]|]; [|done]. by intros ? [= <-].
Qed.

Lemma stays_initiate id l rk :
  results (initiate id l rk : prog _) (on_conn (inner l)).
Proof.
  assert (∀ h prefix, results (bind_ok ('(r, conn) ← layer_send_bytes l [prefix];
      Ret (result_map (λ _, conn) r) : prog _) (λ conn,
    bind_ok (write_handshake h conn) (λ x, let '(state, conn) := x in
    bind_ok (read_handshake state conn) (λ x, let '(state, conn) := x in
    bind_ok (write_handshake state conn) (λ x, let '(state, conn) := x in
    lift (finish state conn)))))) (on_conn (inner l))) as Hrest.
  { intros h prefix. apply (stays_bind_ok (λ l', inner l' = inner l)); [|done|].
    { eapply tells_result; [apply stays_layer_send|]. intros [[]] Hl; cbn; [|done]. by intros ? [= <-]. }
    intros l1 Hl1. eapply (stays_bind_ok (λ x, inner x.2 = inner l1)); [apply stays_write_handshake|done|].
    intros [h2 l2] Hl2. eapply (stays_bind_ok (λ x, inner x.2 = inner l2)); [apply stays_read_handshake|done|].
    intros [h3 l3] Hl3. eapply (stays_bind_ok (λ x, inner x.2 = inner l3)); [apply stays_write_handshake|done|].
    intros [h4 l4] Hl4. cbn in *. unfold finish. destruct (get_remote_static h4); [|done].
    destruct (try_into_expect 32 _); [|done]. cbn. destruct (map_err _ _); [|done].
    intros ses [= <-]. cbn. congruence. }
  unfold initiate. destruct rk as [key|]; destruct (map_err _ _); try done; apply Hrest.
Qed.
End same_connection.
