(* ===== verification/NodeState.v ===== *)
(** * The state a node's tasks share

    [PathweaveNode] and [Router] keep their state in [Arc<Mutex<_>>] cells and
    atomics that every task clones. Here they are the fields of one record; each
    access of the source is one critical section on it. The file also holds the
    broadcast channel of events and the iteration order of hash maps. *)

From S2P Require Import Prelude RustStd Types Effects Env KeyRegistry Dedup Wire.

(** [TransportEntry] of router.rs (the [Arc] is a [tid]; the monitor task's handle
    is only used to abort it), with the [watch] cell its monitor owns. *)
Record TransportEntry := {
  te_transport : tid;
  te_kind : TransportKind;
  te_available : bool;
  te_started : bool
}.

(** A queued payload: identifier, payload, instant of queueing. *)
Definition stored : Type := u64 * list byte * Z.
Abbreviation PendingStore := (gmap PeerId (list stored)).
Abbreviation PeerTable := (gmap PeerId (list PeerAnnouncement)).

Record node_state := NodeState {
  transports : list TransportEntry;
  events : list TransportEvent;      (* everything sent on the event channel *)
  peers : PeerTable;
  known_addrs : gset PeerAddress;
  handler : bool;                    (* whether a handler is registered *)
  delivered : list (PeerId * list byte); (* the calls of [on_message] *)
  dedup : DeduplicationCache;
  key_registry : KeyRegistryState;
  pending_direct : PendingStore;
  pending_routed : PendingStore;
  clock : Z                          (* [Instant::now()] *)
}.

Definition set_transports (f : list TransportEntry → list TransportEntry) (s : node_state) :=
  NodeState (f (transports s)) (events s) (peers s) (known_addrs s) (handler s) (delivered s)
    (dedup s) (key_registry s) (pending_direct s) (pending_routed s) (clock s).
(** [event_tx.send(e)] *)
Definition fire (e : TransportEvent) (s : node_state) :=
  NodeState (transports s) (events s ++ [e]) (peers s) (known_addrs s) (handler s) (delivered s)
    (dedup s) (key_registry s) (pending_direct s) (pending_routed s) (clock s).
Definition set_peers (f : PeerTable → PeerTable) (s : node_state) :=
  NodeState (transports s) (events s) (f (peers s)) (known_addrs s) (handler s) (delivered s)
    (dedup s) (key_registry s) (pending_direct s) (pending_routed s) (clock s).
Definition set_known (f : gset PeerAddress → gset PeerAddress) (s : node_state) :=
  NodeState (transports s) (events s) (peers s) (f (known_addrs s)) (handler s) (delivered s)
    (dedup s) (key_registry s) (pending_direct s) (pending_routed s) (clock s).
Definition set_handler (b : bool) (s : node_state) :=
  NodeState (transports s) (events s) (peers s) (known_addrs s) b (delivered s)
    (dedup s) (key_registry s) (pending_direct s) (pending_routed s) (clock s).
(** [h.on_message(p, data)] when a handler is registered. The handler is the application's
    and is taken to return: a panic in it would end the task and leave the handler's mutex
    poisoned. *)
Definition deliver (p : PeerId) (data : list byte) (s : node_state) :=
  if handler s then
    NodeState (transports s) (events s) (peers s) (known_addrs s) (handler s)
      (delivered s ++ [(p, data)])
      (dedup s) (key_registry s) (pending_direct s) (pending_routed s) (clock s)
  else s.
Definition set_dedup (c : DeduplicationCache) (s : node_state) :=
  NodeState (transports s) (events s) (peers s) (known_addrs s) (handler s) (delivered s)
    c (key_registry s) (pending_direct s) (pending_routed s) (clock s).
Definition set_registry (r : KeyRegistryState) (s : node_state) :=
  NodeState (transports s) (events s) (peers s) (known_addrs s) (handler s) (delivered s)
    (dedup s) r (pending_direct s) (pending_routed s) (clock s).
Definition set_direct (f : PendingStore → PendingStore) (s : node_state) :=
  NodeState (transports s) (events s) (peers s) (known_addrs s) (handler s) (delivered s)
    (dedup s) (key_registry s) (f (pending_direct s)) (pending_routed s) (clock s).
Definition set_routed (f : PendingStore → PendingStore) (s : node_state) :=
  NodeState (transports s) (events s) (peers s) (known_addrs s) (handler s) (delivered s)
    (dedup s) (key_registry s) (pending_direct s) (f (pending_routed s)) (clock s).

(** Time passes. *)
Definition node_tick (d : N) (s : node_state) :=
  NodeState (transports s) (events s) (peers s) (known_addrs s) (handler s) (delivered s)
    (dedup s) (key_registry s) (pending_direct s) (pending_routed s) (clock s + Z.of_N d).

(** ** Iteration of hash maps

    [HashMap::iter] visits every pair once; the order is the environment's. *)
Class HashOrder := {
  hash_iter : ∀ {A : Type}, nat → gmap PeerId A → list (PeerId * A);
  hash_iter_perm : ∀ {A : Type} seed (m : gmap PeerId A), hash_iter seed m ≡ₚ map_to_list m
}.

#[export] Program Instance listed_order : HashOrder := {| hash_iter A _ m := map_to_list m |}.
Next Obligation. done. Qed.

Lemma hash_iter_elem `{HashOrder} {A} seed (m : gmap PeerId A) p x :
  (p, x) ∈ hash_iter seed m ↔ m !! p = Some x.
Proof. by rewrite hash_iter_perm, elem_of_map_to_list. Qed.

(** ** Background tasks, by name *)

Inductive task :=
| THealthMonitor (t : tid) (kind : TransportKind)
| TAcceptLoop (t : tid)
| TPeerStream (t : tid)
| THandleIncoming (c : conn)
| TEventLoop
| TDrain (p : PeerId)
| TSend (anns : list PeerAnnouncement) (body : list byte) (p : PeerId) (msg_id : u64).

#[export] Instance task_eq_dec : EqDecision task.
Proof. solve_decision. Defined.

Abbreviation node_prog := (prog node_state env_op task).

(** ** [router.event_tx().subscribe()]: a reader of the event channel

    The channel keeps the last 64 events; a slower reader skips to the oldest. *)

Definition CHANNEL_CAPACITY : nat := 64.

Inductive recv_event := Event (e : TransportEvent) | Lagged | Closed.

Fixpoint event_recv_loop (bound : nat) (cursor : nat) : node_prog (recv_event * nat) :=
  match bound with
  | O => Stuck Blocked
  | S bound =>
    evs ← read events;
    if cursor + CHANNEL_CAPACITY <? length evs then
      Ret (Lagged, length evs - CHANNEL_CAPACITY)
    else
      match evs !! cursor with
      | Some e => Ret (Event e, S cursor)
      | None =>
        closed ← call WaitEvent;
        if (closed : bool) then Ret (Closed, cursor) else event_recv_loop bound cursor
      end
  end.

Definition event_recv (cursor : nat) : node_prog (recv_event * nat) :=
  bound ← call LoopBound; event_recv_loop bound cursor.

(** [Router::events]: the stream skips over what it was too slow for. *)
Fixpoint events_loop (bound : nat) (cursor : nat) : node_prog (option TransportEvent * nat) :=
  match bound with
  | O => Stuck Blocked
  | S bound =>
    '(r, cursor) ← event_recv cursor;
    match r with
    | Event e => Ret (Some e, cursor)
    | Lagged => events_loop bound cursor
    | Closed => Ret (None, cursor)
    end
  end.

Definition events_next (cursor : nat) : node_prog (option TransportEvent * nat) :=
  bound ← call LoopBound; events_loop bound cursor.

(** ** [started.wait_for(|x| *x == v)] *)

Definition is_started (t : tid) (s : node_state) : bool :=
  existsb (λ e, (te_transport e =? t) && te_started e) (transports s).

Fixpoint wait_loop (bound : nat) (t : tid) (v : bool) : node_prog unit :=
  match bound with
  | O => Stuck Blocked
  | S bound =>
    b ← read (is_started t);
    if Bool.eqb b v then Ret tt
    else
      closed ← call (WaitStarted t);
      if (closed : bool) then Ret tt else wait_loop bound t v
  end.

Definition wait_started (t : tid) (v : bool) : node_prog unit :=
  bound ← call LoopBound; wait_loop bound t v.
