(* ===== verification/Router.v ===== *)
(** * The router ([crates/pathweave-core/src/router.rs])

    Candidate selection, sending with retries, dialling, the health monitor of a
    transport, and discovery. Every function of the source is a program over the
    shared state of [NodeState.v]. *)

From S2P Require Import Prelude RustStd Types Effects Env KeyRegistry Dedup Wire Bundle Session NodeState.

Definition MAX_SEND_ATTEMPTS : nat := 3.
Definition RETRY_BACKOFF : Z := secs 1.
Definition NETWORK_POLL_INTERVAL : Z := secs 3.
Definition ADDR_EXCHANGE_TIMEOUT : Z := secs 2.
Definition ACK_TIMEOUT : Z := secs 5.

(** [getrandom(..).expect("system entropy unavailable")] *)
Definition new_message_id : node_prog u64 :=
  bytes ← call Entropy8;
  match bytes with
  | Some bytes => Ret (message_id_of bytes)
  | None => Stuck Panicked
  end.

(** [transport.connect(peer).await] *)
Definition transport_connect (t : tid) (peer : PeerAnnouncement) : node_prog (result conn) :=
  r ← call (TransportConnect t peer); lift r.

(** ** Choosing transports *)

Definition cost_rank (c : TransportCost) : Z :=
  match c with Free => 0 | Metered => 1 | Unknown => 2 end.

(** [filter_map] of the announcements an entry's transport can dial *)
Definition dialable (anns : list PeerAnnouncement) (e : TransportEntry) :
    list (tid * TransportKind * PeerAnnouncement) :=
  omap (λ ann,
    if decide (PeerAddress_kind (address ann) = te_kind e)
    then Some (te_transport e, te_kind e, ann) else None) anns.

Definition candidates (anns : list PeerAnnouncement) (ts : list TransportEntry) :
    list (tid * TransportKind * PeerAnnouncement) :=
  flat_map (dialable anns) (filter (λ e, te_available e = true) ts).

(** The key each candidate is sorted by: its transport's cost now. *)
Fixpoint with_costs {A} (tid_of : A → tid) (l : list A) : node_prog (list (Z * A)) :=
  match l with
  | [] => Ret []
  | x :: l =>
    c ← call (TransportCostOf (tid_of x));
    rest ← with_costs tid_of l;
    Ret ((cost_rank c, x) :: rest)
  end.

Definition sort_candidates (l : list (tid * TransportKind * PeerAnnouncement)) :
    node_prog (list (tid * TransportKind * PeerAnnouncement)) :=
  costed ← with_costs (λ c, c.1.1) l;
  Ret (snd <$> sort_by_key fst costed).

Definition set_entry (t : tid) (f : TransportEntry → TransportEntry) :
    list TransportEntry → list TransportEntry :=
  map (λ e, if te_transport e =? t then f e else e).

Definition set_available (b : bool) (e : TransportEntry) : TransportEntry :=
  {| te_transport := te_transport e; te_kind := te_kind e;
     te_available := b; te_started := te_started e |}.
Definition set_started (b : bool) (e : TransportEntry) : TransportEntry :=
  {| te_transport := te_transport e; te_kind := te_kind e;
     te_available := te_available e; te_started := b |}.

(** Entries are told apart by their transport (the source compares [Arc]s). *)
Definition next_best_transport (own : tid) : node_prog (option TransportKind) :=
  others ← read (λ s,
    filter (λ e, te_transport e ≠ own ∧ te_available e = true) (transports s));
  costed ← with_costs te_transport others;
  Ret ((λ x, te_kind x.2) <$> min_by_key fst costed).

Section router.
Context `{Crypto, Bp7, Snow} (identity : NodeIdentity).

(** ** Dialling *)

Definition learn_direct (ses : Session) : node_prog (option PublicKey) :=
  is_new_key ← lock (λ s,
    let '(b, r) := insert_direct (key_registry s) (s_peer_id ses) (s_remote_static_key ses) in
    (b, set_registry r s));
  Ret (if (is_new_key : bool) then Some (s_remote_static_key ses) else None).

(** The exchange both [try_connect] and [try_send] make: our addresses out, the
    peer's into the table entry of [owner]. *)
Definition exchange_addresses (t : tid) (owner : PeerId) (ses : Session) : node_prog Session :=
  local ← call (TransportLocalAddresses t);
  '(_, ses) ← session_send ses (encode_addr_exchange local);
  '(o, ses) ← session_recv_timeout ADDR_EXCHANGE_TIMEOUT ses;
  match o with
  | Some (Ok bytes) =>
    parsed ← lift (decode_addr_exchange bytes);
    match parsed with
    | Some addrs => modify (set_peers (λ ps, upsert_peer_addresses ps owner addrs)) ;; Ret ses
    | None => Ret ses
    end
  | _ => Ret ses
  end.

Definition try_connect (t : tid) (peer : PeerAnnouncement) :
    node_prog (result (PeerId * option PublicKey)) :=
  raw ← transport_connect t peer;
  match raw with
  | Err e => Ret (Err e)
  | Ok raw =>
    r ← initiate identity (BundleLayer_new raw) None;
    match r with
    | Err e => Ret (Err e)
    | Ok ses =>
      learned_key ← learn_direct ses;
      ses' ← exchange_addresses t (s_peer_id ses) ses;
      session_close ses' ;;
      Ret (Ok (s_peer_id ses, learned_key))
    end
  end.

Definition try_send (t : tid) (peer : PeerAnnouncement) (payload : list byte)
    (message_id : u64) (target : PeerId) : node_prog (result (option PublicKey)) :=
  remote_key ← read (λ s, registry_get (key_registry s) target);
  raw ← transport_connect t peer;
  match raw with
  | Err e => Ret (Err e)
  | Ok raw =>
    r ← initiate identity (BundleLayer_new raw) remote_key;
    match r with
    | Err e =>
      match remote_key with
      | Some _ => modify (λ s, set_registry (registry_remove (key_registry s) target).2 s)
      | None => Ret tt
      end ;;
      Ret (Err e)
    | Ok ses =>
      learned_key ← learn_direct ses;
      ses ← exchange_addresses t target ses;
      '(r, ses) ← session_send ses (frame_message message_id payload);
      match r with
      | Err e => Ret (Err e)
      | Ok _ =>
        '(o, _) ← session_recv_timeout ACK_TIMEOUT ses;
        match o with
        | Some (Ok _) => Ret (Ok learned_key)
        | Some (Err e) => Ret (Err e)
        | None => Ret (Err (ETransport "delivery ACK timed out"))
        end
      end
    end
  end.

(** ** [Router::send] *)

(** The candidates of one attempt, in order, until one delivers. *)
Fixpoint try_candidates (l : list (tid * TransportKind * PeerAnnouncement))
    (payload : list byte) (message_id : u64) (target : PeerId) : node_prog bool :=
  match l with
  | [] => Ret false
  | (t, kind, ann) :: l =>
    r ← try_send t ann payload message_id target;
    match r with
    | Ok learned_key =>
      modify (fire (MessageDelivered target kind)) ;;
      match learned_key with
      | Some key => modify (fire (KeyLearned target key))
      | None => Ret tt
      end ;;
      Ret true
    | Err _ => try_candidates l payload message_id target
    end
  end.

(** [tries] attempts remain. *)
Fixpoint send_attempts (tries : nat) (anns : list PeerAnnouncement) (payload : list byte)
    (message_id : u64) (target : PeerId) : node_prog (result unit) :=
  match tries with
  | O => Ret (Err DeliveryFailed)
  | S tries =>
    cands ← read (λ s, candidates anns (transports s));
    match cands with
    | [] => Ret (Err NoTransportAvailable)
    | _ =>
      sorted ← sort_candidates cands;
      ok ← try_candidates sorted payload message_id target;
      if (ok : bool) then Ret (Ok tt)
      else
        match tries with O => Ret tt | S _ => call (Sleep RETRY_BACKOFF) end ;;
        send_attempts tries anns payload message_id target
    end
  end.

Definition router_send (anns : list PeerAnnouncement) (payload : list byte) (target : PeerId)
    (message_id : option u64) : node_prog (result unit) :=
  any_available ← read (λ s, existsb te_available (transports s));
  if negb any_available then Ret (Err NoTransportAvailable)
  else
    id ← match message_id with
         | Some id => Ret id
         | None => new_message_id
         end;
    send_attempts MAX_SEND_ATTEMPTS anns payload id target.

(** ** [Router::connect] *)

Fixpoint connect_candidates (l : list (tid * TransportKind * PeerAnnouncement)) :
    node_prog (result PeerId) :=
  match l with
  | [] => Ret (Err NoTransportAvailable)
  | (t, _, ann) :: l =>
    r ← try_connect t ann;
    match r with
    | Ok (p, learned_key) =>
      match learned_key with
      | Some key => modify (fire (KeyLearned p key))
      | None => Ret tt
      end ;;
      Ret (Ok p)
    | Err _ => connect_candidates l
    end
  end.

Definition router_connect (anns : list PeerAnnouncement) : node_prog (result PeerId) :=
  cands ← read (λ s, candidates anns (transports s));
  sorted ← sort_candidates cands;
  connect_candidates sorted.

(** ** [Router::local_addresses] *)

Fixpoint gather_addresses (ts : list TransportEntry) : node_prog (list PeerAddress) :=
  match ts with
  | [] => Ret []
  | e :: ts =>
    l ← call (TransportLocalAddresses (te_transport e));
    rest ← gather_addresses ts;
    Ret (l ++ rest)
  end.

Definition local_addresses : node_prog (list PeerAddress) :=
  ts ← read transports; gather_addresses ts.

(** ** Flooding a key *)

Definition neighbors (keep : PeerId → bool) (seed : nat) `{HashOrder} (s : node_state) :
    list (PeerId * list PeerAnnouncement) :=
  filter (λ x, keep x.1 = true) (hash_iter seed (peers s)).

(** The sends run concurrently; each is a task of its own here. The source awaits
    them together, so here the caller may go on earlier: every interleaving of the
    source is one of the model's. *)
Fixpoint spawn_sends (l : list (PeerId * list PeerAnnouncement)) (body : list byte)
    (msg_id : u64) : node_prog unit :=
  match l with
  | [] => Ret tt
  | (p, anns) :: l => spawn (TSend anns body p msg_id) ;; spawn_sends l body msg_id
  end.

Definition flood_key_announcement `{HashOrder} (learned : PeerId) (key : PublicKey) :
    node_prog unit :=
  msg_id ← new_message_id;
  let body := encode_key_announcement learned key MAX_TTL in
  seed ← call HashSeed;
  ns ← read (neighbors
    (λ p, negb (bool_decide (p = learned)) && negb (bool_decide (p = peer_id identity))) seed);
  spawn_sends ns body msg_id.

(** ** [health_monitor] *)

Definition mark (t : tid) (f : TransportEntry → TransportEntry) : node_prog unit :=
  modify (set_transports (set_entry t f)).

Definition announce_up (t : tid) (kind : TransportKind) : node_prog unit :=
  mark t (set_available true) ;;
  mark t (set_started true) ;;
  modify (fire (TransportChanged None kind)).

Definition is_available (t : tid) (s : node_state) : bool :=
  existsb (λ e, (te_transport e =? t) && te_available e) (transports s).

(** One round of the monitor's loop, from and to its locals
    [(prev_addrs, in_recovery)]. *)
Definition monitor_round (t : tid) (kind : TransportKind)
    (locals : gset (array 4) * bool) : node_prog (gset (array 4) * bool) :=
  let '(prev_addrs, in_recovery) := locals in
  call (Sleep NETWORK_POLL_INTERVAL) ;;
  ifs ← call GetIfAddrs;
  let curr_addrs := current_ipv4_addrs ifs in
  if negb in_recovery && bool_decide (curr_addrs = prev_addrs) then
    Ret (prev_addrs, in_recovery)
  else
    was_available ← read (is_available t);
    mark t (set_available false) ;;
    mark t (set_started false) ;;
    (if (was_available : bool) then
       next ← next_best_transport t;
       match next with
       | Some next_kind => modify (fire (TransportChanged (Some kind) next_kind))
       | None => Ret tt
       end
     else Ret tt) ;;
    call (TransportStop t) ;;
    r ← call (TransportStart t);
    if is_ok r then announce_up t kind ;; Ret (curr_addrs, false)
    else Ret (prev_addrs, true).

Fixpoint monitor_loop (bound : nat) (t : tid) (kind : TransportKind)
    (locals : gset (array 4) * bool) : node_prog unit :=
  match bound with
  | O => Stuck Blocked
  | S bound => locals ← monitor_round t kind locals; monitor_loop bound t kind locals
  end.

Definition health_monitor (t : tid) (kind : TransportKind) : node_prog unit :=
  ifs ← call GetIfAddrs;
  let prev_addrs := current_ipv4_addrs ifs in
  r ← call (TransportStart t);
  in_recovery ← (if is_ok r then announce_up t kind ;; Ret false else Ret true);
  bound ← call LoopBound;
  monitor_loop bound t kind (prev_addrs, in_recovery).

(** [Router::register_transport]: the cells the source allocates first belong to
    the entry here. *)
Definition router_register (t : tid) (kind : TransportKind) : node_prog unit :=
  modify (set_transports (λ ts, ts ++
    [{| te_transport := t; te_kind := kind; te_available := false; te_started := false |}])) ;;
  spawn (THealthMonitor t kind).

(** ** [peer_stream] *)

Definition push_announcement (ann : PeerAnnouncement) (o : option (list PeerAnnouncement)) :
    list PeerAnnouncement := default [] o ++ [ann].

Definition on_arrival (t : tid) (ann : PeerAnnouncement) : node_prog unit :=
  fresh ← lock (λ s,
    (bool_decide (address ann ∉ known_addrs s),
     set_known (λ k, {[ address ann ]} ∪ k) s));
  if negb fresh then Ret tt
  else
    r ← try_connect t ann;
    match r with
    | Ok (p, learned_key) =>
      if decide (p = peer_id identity) then Ret tt
      else
        modify (set_peers (λ ps, <[p := push_announcement ann (ps !! p)]> ps)) ;;
        match learned_key with
        | Some key => modify (fire (KeyLearned p key))
        | None => Ret tt
        end ;;
        modify (fire (PeerConnected p))
    | Err _ => modify (set_known (λ k, k ∖ {[ address ann ]}))
    end.

(** [peers.iter().find_map(..)] *)
Definition owner_of (addr : PeerAddress) (l : list (PeerId * list PeerAnnouncement)) :
    option PeerId :=
  fst <$> head (filter (λ x, has_address addr x.2 = true) l).

Definition on_departure `{HashOrder} (addr : PeerAddress) : node_prog unit :=
  seed ← call HashSeed;
  owner ← read (λ s, owner_of addr (hash_iter seed (peers s)));
  match owner with
  | Some p =>
    modify (set_known (λ k, k ∖ {[ addr ]})) ;;
    modify (fire (PeerDisconnected p))
  | None => Ret tt
  end.

Definition on_peer_event `{HashOrder} (t : tid) (ev : PeerEvent) : node_prog unit :=
  match ev with
  | Arrival ann => on_arrival t ann
  | Departure addr => on_departure addr
  end.

(** [while let Some(event) = combined.next().await] *)
Fixpoint drain_stream `{HashOrder} (bound : nat) (t : tid) : node_prog unit :=
  match bound with
  | O => Stuck Blocked
  | S bound =>
    ev ← call (TransportNextPeerEvent t);
    match ev with
    | Some ev => on_peer_event t ev ;; drain_stream bound t
    | None => Ret tt
    end
  end.

Fixpoint peer_stream_loop `{HashOrder} (bound : nat) (t : tid) : node_prog unit :=
  match bound with
  | O => Stuck Blocked
  | S bound =>
    wait_started t true ;;
    n ← call LoopBound;
    drain_stream n t ;;
    wait_started t false ;;
    peer_stream_loop bound t
  end.

Definition peer_stream `{HashOrder} (t : tid) : node_prog unit :=
  bound ← call LoopBound; peer_stream_loop bound t.
End router.
