(* ===== verification/SendSafety.v ===== *)
(** * Invariants of sending

    What a send does to the shared state, as an interface: an invariant that the
    four critical sections of a send preserve ([SendInv]) is preserved by every
    send, whatever the network does, and a send panics only when a call it makes fails. The node's safety invariant and the frame
    condition of a send are two instances. The file also sets up the automation
    that walks programs. *)

From S2P Require Import Prelude RustStd Types Effects Env KeyRegistry Dedup Wire Bundle Session NodeState.
From S2P Require Import Router.

(** ** Walking programs *)

Section steps.
Context (I : node_state → Prop) (G : task → Prop).
Local Abbreviation ok p := (sturdy (T := task) env_fails I G p (λ _, True)).

Lemma safe_read {A} (f : node_state → A) : ok (read f).
Proof. done. Qed.
Lemma safe_call {X} (e : env_op X) : ok (call e).
Proof. intros x. by left. Qed.
Lemma safe_spawn t : G t → ok (spawn t).
Proof. done. Qed.
Lemma safe_modify f : (∀ s, I s → I (f s)) → ok (modify f).
Proof. intros Hf s Hs. split; [by apply Hf|done]. Qed.
Lemma safe_ret {A} (a : A) : ok (Ret a).
Proof. done. Qed.
Lemma safe_blocked {A} : ok (Stuck Blocked : node_prog A).
Proof. done. Qed.
Lemma safe_then {A B} (p : node_prog A) (f : A → node_prog B) :
  ok p → (∀ a, ok (f a)) → ok (bind p f).
Proof. intros Hp Hf. eapply sturdy_seq; [exact Hp|]. auto. Qed.
(** The two calls that may fail. *)
Lemma safe_new_message_id : ok new_message_id.
Proof. intros [e|]; [by left|by right]. Qed.
Lemma safe_transport_connect t ann : ok (transport_connect t ann).
Proof. intros [r|]; [by left|by right]. Qed.
End steps.

#[export] Hint Resolve safe_read safe_call safe_spawn safe_ret safe_blocked safe_new_message_id
  safe_transport_connect : pw.
#[export] Hint Extern 5 (sturdy _ _ _ (modify _) _) =>
  apply safe_modify; intros; eauto with pw : pw.

(** Walks a program: sequencing, case analysis, known parts from the database. *)
Ltac safe_walk :=
  repeat first
    [ solve [eauto with pw]
    | match goal with
      | |- sturdy _ _ _ (bind _ _) _ => apply safe_then; [|intros ?]
      | |- sturdy _ _ _ (match ?x with _ => _ end) _ => destruct x
      | |- sturdy _ _ _ (if ?x then _ else _) _ => destruct x
      | |- sturdy _ _ _ (let '_ := ?x in _) _ => destruct x
      end ].

(** ** The interface *)

(** Critical sections of one dial ([try_connect], [try_send]). *)
Class DialInv `{Crypto} (I : node_state → Prop) := {
  dial_upsert : ∀ s p addrs, I s → I (set_peers (λ ps, upsert_peer_addresses ps p addrs) s);
  dial_evict : ∀ s p, I s → I (set_registry (registry_remove (key_registry s) p).2 s);
  dial_insert : ∀ s key, I s →
    I (set_registry (insert_direct (key_registry s)
         (peer_id_from_public_key (array_to_list key)) key).2 s)
}.

(** And of [Router::send] as a whole, with the events of a success. *)
Class SendInv `{Crypto} (I : node_state → Prop) := {
  send_dial :: DialInv I;
  send_delivered : ∀ s p kind, I s → I (fire (MessageDelivered p kind) s);
  send_learned : ∀ s p key, I s → I (fire (KeyLearned p key) s)
}.

(** ** Dials and sends *)

Section dials.
Context `{Crypto, Bp7, Snow, !SnowLaws} (identity : NodeIdentity).
Context (I : node_state → Prop) `{!DialInv I} (G : task → Prop).
Local Abbreviation ok p := (sturdy (T := task) env_fails I G p (λ _, True)).

Lemma sinv_upsert s p addrs : I s → I (set_peers (λ ps, upsert_peer_addresses ps p addrs) s).
Proof. apply dial_upsert. Qed.
Lemma sinv_evict s p : I s → I (set_registry (registry_remove (key_registry s) p).2 s).
Proof. apply dial_evict. Qed.
Hint Resolve sinv_upsert sinv_evict : pw.

Lemma safe_with_costs {A} (f : A → tid) l : ok (with_costs f l).
Proof. induction l; cbn [with_costs]; safe_walk. Qed.
Hint Resolve safe_with_costs : pw.

Lemma safe_sort_candidates l : ok (sort_candidates l).
Proof. unfold sort_candidates. safe_walk. Qed.
Lemma safe_next_best t : ok (next_best_transport t).
Proof. unfold next_best_transport. safe_walk. Qed.
Hint Resolve safe_sort_candidates safe_next_best : pw.

Lemma safe_learn_direct ses : bound_session ses → ok (learn_direct ses).
Proof.
  intros Hb. unfold learn_direct. apply safe_then; [|intros; safe_walk].
  intros s Hs. split; [|done]. rewrite Hb. by apply dial_insert.
Qed.

Lemma safe_ses_send ses m : ok (session_send ses m).
Proof. apply sturdy_of_safe, safe_session_send. Qed.
Lemma safe_ses_timeout d ses : ok (session_recv_timeout d ses).
Proof. by apply sturdy_of_safe, safe_session_recv_from. Qed.
Lemma safe_ses_recv ses : ok (session_recv ses).
Proof.
  unfold session_recv. apply safe_then; [by apply sturdy_of_safe, safe_session_recv_from|].
  intros [[r|] ?]; safe_walk.
Qed.
Lemma safe_ses_close ses : ok (session_close ses).
Proof. apply safe_call. Qed.
Lemma safe_decode_addrs m : ok (lift (decode_addr_exchange m)).
Proof. destruct (decode_exchange_reads m) as (r & -> & _). done. Qed.
Hint Resolve safe_ses_send safe_ses_timeout safe_ses_recv safe_ses_close safe_decode_addrs : pw.

Lemma safe_exchange t p ses : ok (exchange_addresses t p ses).
Proof. unfold exchange_addresses. safe_walk. Qed.
Hint Resolve safe_exchange safe_learn_direct : pw.

Lemma safe_try_connect t ann : ok (try_connect identity t ann).
Proof.
  unfold try_connect. apply safe_then; [apply safe_transport_connect|]. intros [raw|e]; [|safe_walk].
  eapply sturdy_seq; [apply sturdy_of_safe, safe_initiate|]. intros [ses|e] Hs; [|safe_walk].
  destruct (Hs ses eq_refl) as [Hb _]. safe_walk.
Qed.

Lemma safe_try_send t ann m id p : ok (try_send identity t ann m id p).
Proof.
  unfold try_send. apply safe_then; [done|]. intros key. apply safe_then; [apply safe_transport_connect|].
  intros [raw|e]; [|safe_walk].
  eapply sturdy_seq; [apply sturdy_of_safe, safe_initiate|]. intros [ses|e] Hs.
  - destruct (Hs ses eq_refl) as [Hb _]. safe_walk.
  - safe_walk.
Qed.
End dials.

#[export] Hint Resolve safe_with_costs safe_sort_candidates safe_next_best safe_ses_send
  safe_ses_timeout safe_ses_recv safe_ses_close safe_decode_addrs safe_exchange safe_learn_direct
  safe_try_connect safe_try_send : pw.

Section sends.
Context `{Crypto, Bp7, Snow, !SnowLaws} (identity : NodeIdentity).
Context (I : node_state → Prop) `{!SendInv I} (G : task → Prop).
Local Abbreviation ok p := (sturdy (T := task) env_fails I G p (λ _, True)).

Lemma sinv_delivered s p kind : I s → I (fire (MessageDelivered p kind) s).
Proof. apply send_delivered. Qed.
Lemma sinv_learned s p key : I s → I (fire (KeyLearned p key) s).
Proof. apply send_learned. Qed.
Lemma sinv_dial : DialInv I.
Proof. apply _. Qed.
Hint Resolve sinv_delivered sinv_learned sinv_dial : pw.

Lemma safe_try_candidates l m id p : ok (try_candidates identity l m id p).
Proof. induction l as [|[[t kind] ann] l IH]; cbn [try_candidates]; safe_walk. Qed.
Hint Resolve safe_try_candidates : pw.

Lemma safe_send_attempts n anns m id p :
  ok (send_attempts identity n anns m id p).
Proof. induction n; cbn [send_attempts]; safe_walk. Qed.
Hint Resolve safe_send_attempts : pw.

Lemma safe_router_send anns m p id : ok (router_send identity anns m p id).
Proof. unfold router_send. safe_walk. Qed.
End sends.

#[export] Hint Resolve safe_try_candidates safe_send_attempts safe_router_send : pw.
