(* ===== verification/Node.v ===== *)
(** * The node ([crates/pathweave-core/src/node.rs])

    The public operations of [PathweaveNode], the store-and-forward queues, the
    accept loop, and the dispatch of received frames: direct, routed, key
    announcement and sealed. *)

From S2P Require Import Prelude RustStd Types Effects Env KeyRegistry Dedup Wire Bundle Session NodeState.
From S2P Require Import Router.

Definition STORE_TTL_DEFAULT : Z := secs 86400.

(** ** Frames *)

(** [[0x00] ++ payload] *)
Definition direct_frame (payload : list byte) : list byte := x00 :: payload.

(** [[flag] ++ dest ++ [ttl] ++ payload], for the flags 0x01 and 0x03 *)
Definition routed_frame (flag : byte) (dest : PeerId) (hop : byte) (payload : list byte) :
    list byte := flag :: array_to_list (PeerId_as_bytes dest) ++ hop :: payload.

(** ** Queues *)

(** [Instant::saturating_duration_since] *)
Definition saturating_duration_since (now t : Z) : Z := Z.max 0 (now - t).

Definition expired (now store_ttl : Z) (x : stored) : bool :=
  (store_ttl <? saturating_duration_since now x.2)%Z.

(** The end of [store_forward]: at the bound the payload is dropped with an event. *)
Definition enqueue (max_queue_depth : option nat) (p : PeerId) (x : stored) (q : PendingStore) :
    bool * PendingStore :=
  let deque := default [] (q !! p) in
  let q := <[p := deque]> q in
  match max_queue_depth with
  | Some max => if max <=? length deque then (false, q) else (true, <[p := deque ++ [x]]> q)
  | None => (true, <[p := deque ++ [x]]> q)
  end.

(** [for entry in failures.into_iter().rev() { queue.push_front(entry) }] *)
Definition requeue (p : PeerId) (failures : list stored) (q : PendingStore) : PendingStore :=
  <[p := foldl (λ deque x, x :: deque) (default [] (q !! p)) (reverse failures)]> q.

(** [entry(p).or_default()], then push unless the address is there *)
Definition add_announcement (p : PeerId) (ann : PeerAnnouncement) (ps : PeerTable) : PeerTable :=
  let addrs := default [] (ps !! p) in
  <[p := if has_address (address ann) addrs then addrs else addrs ++ [ann]]> ps.

Section node.
Context `{Crypto, Bp7, Snow, HashOrder}.
(** The fields of [PathweaveNode] that never change. *)
Context (identity : NodeIdentity) (store_ttl : Z) (max_queue_depth : option nat).

Definition others (p : PeerId) : bool := negb (bool_decide (p = peer_id identity)).

(** Sends to each neighbour in turn; whether one accepted. *)
Fixpoint send_to_all (l : list (PeerId * list PeerAnnouncement)) (body : list byte)
    (msg_id : u64) : node_prog bool :=
  match l with
  | [] => Ret false
  | (p, anns) :: l =>
    r ← router_send identity anns body p (Some msg_id);
    rest ← send_to_all l body msg_id;
    Ret (is_ok r || rest)
  end.

(** ** Sending *)

Definition send (p : PeerId) (payload : list byte) : node_prog (result unit) :=
  announcements ← read (λ s, peers s !! p);
  match announcements with
  | None => Ret (Err NoTransportAvailable)
  | Some anns => router_send identity anns (direct_frame payload) p None
  end.

(** The tail [send_routed] and [send_routed_sealed] share. *)
Definition flood_frame (body : list byte) (msg_id : u64) : node_prog (result unit) :=
  seed ← call HashSeed;
  ns ← read (neighbors others seed);
  match ns with
  | [] => Ret (Err NoTransportAvailable)
  | _ =>
    any_ok ← send_to_all ns body msg_id;
    Ret (if (any_ok : bool) then Ok tt else Err DeliveryFailed)
  end.

Definition send_routed (dest : PeerId) (payload : list byte) : node_prog (result unit) :=
  msg_id ← new_message_id;
  flood_frame (routed_frame x01 dest MAX_TTL payload) msg_id.

Definition send_routed_sealed (dest : PeerId) (payload : list byte) : node_prog (result unit) :=
  key ← read (λ s, registry_get (key_registry s) dest);
  match ok_or key (KeyUnknown dest) with
  | Err e => Ret (Err e)
  | Ok dest_public_key =>
    entropy ← call NoiseEntropy;
    match seal entropy identity dest_public_key payload with
    | Err e => Ret (Err e)
    | Ok sealed =>
      let envelope := array_to_list (PeerId_as_bytes (peer_id identity)) ++ sealed in
      msg_id ← new_message_id;
      flood_frame (routed_frame x03 dest MAX_TTL envelope) msg_id
    end
  end.

(** ** Store and forward *)

Definition enqueue_direct (p : PeerId) (x : stored) : node_prog unit :=
  modify (λ s,
    let '(kept, q) := enqueue max_queue_depth p x (pending_direct s) in
    let s := set_direct (λ _, q) s in
    if kept then s else fire (StoreFailed p) s).

Definition enqueue_routed (p : PeerId) (x : stored) : node_prog unit :=
  modify (λ s,
    let '(kept, q) := enqueue max_queue_depth p x (pending_routed s) in
    let s := set_routed (λ _, q) s in
    if kept then s else fire (StoreFailed p) s).

Definition store_forward (p : PeerId) (payload : list byte) : node_prog unit :=
  msg_id ← new_message_id;
  queued_at ← read clock;
  announcements ← read (λ s, peers s !! p);
  sent ← match announcements with
         | Some ((_ :: _) as anns) =>
           r ← router_send identity anns (direct_frame payload) p (Some msg_id); Ret (is_ok r)
         | _ => Ret false
         end;
  if (sent : bool) then Ret tt else enqueue_direct p (msg_id, payload, queued_at).

Definition store_forward_routed (dest : PeerId) (payload : list byte) : node_prog unit :=
  msg_id ← new_message_id;
  queued_at ← read clock;
  seed ← call HashSeed;
  ns ← read (neighbors others seed);
  sent ← match ns with
         | [] => Ret false
         | _ => send_to_all ns (routed_frame x01 dest MAX_TTL payload) msg_id
         end;
  if (sent : bool) then Ret tt else enqueue_routed dest (msg_id, payload, queued_at).

(** The loop over the entries of one queue: those still undelivered. *)
Fixpoint drain_entries (now : Z) (owner : PeerId) (attempt : u64 → list byte → node_prog bool)
    (l : list stored) : node_prog (list stored) :=
  match l with
  | [] => Ret []
  | (msg_id, app_payload, queued_at) :: l =>
    if expired now store_ttl (msg_id, app_payload, queued_at) then
      modify (fire (StoreFailed owner)) ;; drain_entries now owner attempt l
    else
      ok ← attempt msg_id app_payload;
      failures ← drain_entries now owner attempt l;
      Ret (if (ok : bool) then failures else (msg_id, app_payload, queued_at) :: failures)
  end.

Definition drain_direct_for_peer (p : PeerId) : node_prog unit :=
  taken ← lock (λ s, (pending_direct s !! p, set_direct (delete p) s));
  match taken with
  | None => Ret tt
  | Some entries =>
    now ← read clock;
    announcements ← read (λ s, default [] (peers s !! p));
    failures ← drain_entries now p
      (λ msg_id app_payload,
        match announcements with
        | [] => Ret false
        | _ =>
          r ← router_send identity announcements (direct_frame app_payload) p (Some msg_id);
          Ret (is_ok r)
        end) entries;
    match failures with
    | [] => Ret tt
    | _ => modify (set_direct (requeue p failures))
    end
  end.

Definition drain_routed_one (dest : PeerId) : node_prog unit :=
  taken ← lock (λ s, (pending_routed s !! dest, set_routed (delete dest) s));
  match taken with
  | None => Ret tt
  | Some entries =>
    now ← read clock;
    seed ← call HashSeed;
    ns ← read (neighbors others seed);
    failures ← drain_entries now dest
      (λ msg_id app_payload,
        match ns with
        | [] => Ret false
        | _ => send_to_all ns (routed_frame x01 dest MAX_TTL app_payload) msg_id
        end) entries;
    match failures with
    | [] => Ret tt
    | _ => modify (set_routed (requeue dest failures))
    end
  end.

Fixpoint drain_dests (l : list PeerId) : node_prog unit :=
  match l with
  | [] => Ret tt
  | dest :: l => drain_routed_one dest ;; drain_dests l
  end.

Definition drain_routed_all : node_prog unit :=
  seed ← call HashSeed;
  dest_ids ← read (λ s, (hash_iter seed (pending_routed s)).*1);
  drain_dests dest_ids.

(** ** Peers *)

Definition note_peer (p : PeerId) (ann : PeerAnnouncement) : node_prog unit :=
  modify (set_known (λ k, {[ address ann ]} ∪ k)) ;;
  modify (set_peers (add_announcement p ann)).

Definition connect (ann : PeerAnnouncement) : node_prog (result PeerId) :=
  r ← router_connect identity [ann];
  match r with
  | Err e => Ret (Err e)
  | Ok p =>
    note_peer p ann ;;
    drain_direct_for_peer p ;;
    drain_routed_all ;;
    Ret (Ok p)
  end.

Definition add_peer (p : PeerId) (ann : PeerAnnouncement) : node_prog unit :=
  note_peer p ann ;; spawn (TDrain p).

Definition on_message : node_prog unit := modify (set_handler true).

Definition lookup_key (p : PeerId) : node_prog (option PublicKey) :=
  read (λ s, registry_get (key_registry s) p).

Definition register_transport (t : tid) (kind : TransportKind) : node_prog unit :=
  router_register t kind ;;
  spawn (TAcceptLoop t) ;;
  spawn (TPeerStream t).

(** ** Receiving *)

(** [spawn_relay_to_neighbors] *)
Definition relay_to (sender p : PeerId) : bool :=
  negb (bool_decide (p = sender)) && negb (bool_decide (p = peer_id identity)).

Definition spawn_relay_to_neighbors (body : list byte) (msg_id : u64) (sender : PeerId) :
    node_prog unit :=
  seed ← call HashSeed;
  ns ← read (neighbors (relay_to sender) seed);
  spawn_sends ns body msg_id.

Definition check_direct (sender : PeerId) (msg_id : u64) : node_prog bool :=
  lock (λ s, let '(dup, c) := check_and_insert (dedup s) (clock s) sender msg_id in
             (dup, set_dedup c s)).
Definition check_routed (msg_id : u64) : node_prog bool :=
  lock (λ s, let '(dup, c) := check_and_insert_routed (dedup s) (clock s) msg_id in
             (dup, set_dedup c s)).

(** [session.send(b"")] *)
Definition ack (ses : Session) : node_prog Session :=
  '(_, ses) ← session_send ses []; Ret ses.

(** [ttl - 1] on a [u8] *)
Definition hop_down (hop : byte) : rust byte :=
  if decide (hop = x00) then Panic else Val (byte_pred hop).

Definition parse_header (payload : list byte) : rust (u64 * byte) :=
  let! id := slice payload 0 8 in
  let! route_flag := index payload 8 in
  Val (u64_from_be_bytes id, route_flag).

(** [payload[9..41]], [payload[41].min(MAX_TTL)], [payload[42..]] *)
Definition parse_routed (payload : list byte) : rust (PeerId * byte * list byte) :=
  let! dest_bytes := slice payload 9 41 in
  let! dest := try_into_expect 32 dest_bytes in
  let! hop := index payload 41 in
  let! rest := slice_from payload 42 in
  Val (PeerId_from_bytes dest, byte_min hop MAX_TTL, rest).

(** [envelope[..32]], [envelope[32..]] *)
Definition parse_envelope (envelope : list byte) : rust (PeerId * list byte) :=
  let! sender_bytes := slice envelope 0 32 in
  let! sender := try_into_expect 32 sender_bytes in
  let! message := slice_from envelope 32 in
  Val (PeerId_from_bytes sender, message).

(** Route flag 0x00. *)
Definition dispatch_direct (sender : PeerId) (msg_id : u64) (payload : list byte) :
    node_prog unit :=
  data ← lift (slice_from payload 9);
  is_dup ← check_direct sender msg_id;
  if negb is_dup then modify (deliver sender data) else Ret tt.

(** The relaying branch of the flags 0x01 and 0x03. *)
Definition relay_routed (flag : byte) (sender : PeerId) (msg_id : u64) (dest : PeerId)
    (hop : byte) (rest : list byte) : node_prog unit :=
  is_dup ← check_routed msg_id;
  if negb is_dup then
    new_hop ← lift (hop_down hop);
    spawn_relay_to_neighbors (routed_frame flag dest new_hop rest) msg_id sender
  else Ret tt.

(** Route flag 0x01. *)
Definition dispatch_routed (sender : PeerId) (msg_id : u64) (payload : list byte) :
    node_prog unit :=
  '(dest, hop, app_payload) ← lift (parse_routed payload);
  if decide (dest = peer_id identity) then
    is_dup ← check_routed msg_id;
    if negb is_dup then modify (deliver sender app_payload) else Ret tt
  else if decide (hop = x00) then Ret tt
  else relay_routed x01 sender msg_id dest hop app_payload.

(** Route flag 0x02. *)
Definition dispatch_announcement (sender : PeerId) (msg_id : u64) (payload : list byte) :
    node_prog unit :=
  body ← lift (slice_from payload 9);
  decoded ← lift (decode_key_announcement body);
  match decoded with
  | None => Ret tt
  | Some (announced, key, hop) =>
    if negb (validate_key_announcement announced key) then Ret tt
    else
      is_dup ← check_routed msg_id;
      if (is_dup : bool) then Ret tt
      else
        modify (λ s, set_registry (insert_gossip (key_registry s) announced key) s) ;;
        let hop := byte_min hop MAX_TTL in
        if decide (hop = x00) then Ret tt
        else
          new_hop ← lift (hop_down hop);
          spawn_relay_to_neighbors (encode_key_announcement announced key new_hop) msg_id sender
  end.

(** Route flag 0x03. *)
Definition dispatch_sealed (sender : PeerId) (msg_id : u64) (payload : list byte) :
    node_prog unit :=
  '(dest, hop, envelope) ← lift (parse_routed payload);
  '(sealed_sender, noise_k_message) ← lift (parse_envelope envelope);
  if decide (dest = peer_id identity) then
    is_dup ← check_routed msg_id;
    if (is_dup : bool) then Ret tt
    else
      sender_key ← read (λ s, registry_get (key_registry s) sealed_sender);
      match sender_key with
      | None => Ret tt
      | Some key =>
        match unseal identity sealed_sender key noise_k_message with
        | Ok plaintext => modify (deliver sealed_sender plaintext)
        | Err _ => Ret tt
        end
      end
  else if decide (hop = x00) then Ret tt
  else relay_routed x03 sender msg_id dest hop envelope.

Definition dispatch_payload (sender : PeerId) (payload : list byte) (ses : Session) :
    node_prog Session :=
  if length payload <? 9 then ack ses
  else
    '(msg_id, route_flag) ← lift (parse_header payload);
    if decide (route_flag = x00) then dispatch_direct sender msg_id payload ;; ack ses
    else if decide (route_flag = x01) then
      if length payload <? 9 + 32 + 1 then ack ses
      else dispatch_routed sender msg_id payload ;; ack ses
    else if decide (route_flag = x02) then dispatch_announcement sender msg_id payload ;; ack ses
    else if decide (route_flag = x03) then
      if length payload <? 9 + 32 + 1 + 32 then ack ses
      else dispatch_sealed sender msg_id payload ;; ack ses
    else ack ses.

(** [while let Ok(payload) = session.recv().await] *)
Fixpoint receive_loop (bound : nat) (sender : PeerId) (ses : Session) : node_prog unit :=
  match bound with
  | O => Stuck Blocked
  | S bound =>
    '(r, ses) ← session_recv ses;
    match r with
    | Err _ => Ret tt
    | Ok payload => ses ← dispatch_payload sender payload ses; receive_loop bound sender ses
    end
  end.

(** The address exchange, when the first message is one: the application frame. *)
Definition first_frame (sender : PeerId) (first : list byte) (ses : Session) :
    node_prog (result (list byte) * Session) :=
  is_control ← lift (if 8 <=? length first then
                       let! b := index first 0 in Val (bool_decide (b = x00))
                     else Val false);
  if (is_control : bool) then
    parsed ← lift (decode_addr_exchange first);
    match parsed with
    | Some addrs => modify (set_peers (λ ps, upsert_peer_addresses ps sender addrs))
    | None => Ret tt
    end ;;
    local ← local_addresses;
    '(_, ses) ← session_send ses (encode_addr_exchange local);
    session_recv ses
  else Ret (Ok first, ses).

Definition handle_incoming (c : conn) : node_prog unit :=
  r ← respond identity (BundleLayer_new c);
  match r with
  | Err _ => Ret tt
  | Ok ses =>
    let sender := s_peer_id ses in
    learned_key ← learn_direct ses;
    match learned_key with
    | Some key => modify (fire (KeyLearned sender key))
    | None => Ret tt
    end ;;
    '(first, ses) ← session_recv ses;
    match first with
    | Err _ => Ret tt
    | Ok first =>
      '(app, ses) ← first_frame sender first ses;
      match app with
      | Err _ => Ret tt
      | Ok app_payload =>
        ses ← dispatch_payload sender app_payload ses;
        bound ← call LoopBound;
        receive_loop bound sender ses
      end
    end
  end.

Fixpoint accept_rounds (bound : nat) (t : tid) : node_prog unit :=
  match bound with
  | O => Stuck Blocked
  | S bound =>
    r ← call (TransportAccept t);
    match r with
    | Ok c => spawn (THandleIncoming c)
    | Err _ => call (Sleep (secs 5))
    end ;;
    accept_rounds bound t
  end.

Definition accept_loop (t : tid) : node_prog unit :=
  wait_started t true ;;
  bound ← call LoopBound;
  accept_rounds bound t.

(** ** The event task [PathweaveNode::new] spawns *)

Fixpoint event_rounds (bound : nat) (cursor : nat) : node_prog unit :=
  match bound with
  | O => Stuck Blocked
  | S bound =>
    '(e, cursor) ← event_recv cursor;
    match e with
    | Event (PeerConnected p) =>
      drain_direct_for_peer p ;; drain_routed_all ;; event_rounds bound cursor
    | Event (KeyLearned p key) =>
      flood_key_announcement identity p key ;; event_rounds bound cursor
    | Event _ => event_rounds bound cursor
    | Closed => Ret tt
    | Lagged => event_rounds bound cursor
    end
  end.

Definition event_loop : node_prog unit :=
  bound ← call LoopBound; event_rounds bound 0.

(** The code of every background task. *)
Definition task_body (t : task) : node_prog unit :=
  match t with
  | THealthMonitor t kind => health_monitor t kind
  | TAcceptLoop t => accept_loop t
  | TPeerStream t => peer_stream identity t
  | THandleIncoming c => handle_incoming c
  | TEventLoop => event_loop
  | TDrain p => drain_direct_for_peer p ;; drain_routed_all
  | TSend anns body p msg_id => router_send identity anns body p (Some msg_id) ;; Ret tt
  end.
End node.

(** [PathweaveNode::new]: the state and the task it starts with. *)
Definition node_new (cfg : NodeConfig) (now : Z) : node_state := {|
  transports := []; events := []; peers := ∅; known_addrs := ∅; handler := false;
  delivered := []; dedup := dedup_new;
  key_registry := registry_new (cfg_max_key_registry_size cfg);
  pending_direct := ∅; pending_routed := ∅; clock := now |}.

Definition node_store_ttl (cfg : NodeConfig) : Z := default STORE_TTL_DEFAULT (cfg_store_ttl cfg).
