(* ===== verification/NodeSafety.v ===== *)
(** * Safety of a node under every interleaving

    The invariant of the shared state, each critical section's preservation of
    it, and the theorem that any schedule of any set of calls and background
    tasks, against any network, keeps it and makes no task panic but at a call that fails. *)

From S2P Require Import Prelude RustStd Types Effects Env KeyRegistry Dedup Wire Bundle Session NodeState.
From S2P Require Import Router Node SendSafety.

(** ** The invariant *)

Section invariant.
Context `{Crypto}.

Record node_inv (s : node_state) : Prop := {
  inv_wf : registry_wf (key_registry s);
  inv_bound : registry_bound (key_registry s);
  inv_ttl : ttl (dedup s) = DEDUP_TTL;
  inv_past : ∀ k t, dedup_lookup (dedup s) k = Some t → (t <= clock s)%Z
}.

Lemma node_new_inv cfg now : node_inv (node_new cfg now).
Proof.
  split; simpl; [apply registry_new_wf|apply registry_new_bound|done|].
  intros [p id|id] t; simpl; by rewrite lookup_empty.
Qed.

Lemma node_tick_inv d s : node_inv s → node_inv (node_tick d s).
Proof.
  intros [? ? ? Hp]. split; simpl; try done. intros k t Ht. specialize (Hp k t Ht). lia.
Qed.

Lemma set_transports_inv f s : node_inv s → node_inv (set_transports f s).
Proof. by intros []. Qed.
Lemma fire_inv e s : node_inv s → node_inv (fire e s).
Proof. by intros []. Qed.
Lemma set_peers_inv f s : node_inv s → node_inv (set_peers f s).
Proof. by intros []. Qed.
Lemma set_known_inv f s : node_inv s → node_inv (set_known f s).
Proof. by intros []. Qed.
Lemma set_handler_inv b s : node_inv s → node_inv (set_handler b s).
Proof. by intros []. Qed.
Lemma set_direct_inv f s : node_inv s → node_inv (set_direct f s).
Proof. by intros []. Qed.
Lemma set_routed_inv f s : node_inv s → node_inv (set_routed f s).
Proof. by intros []. Qed.
Lemma deliver_inv p data s : node_inv s → node_inv (deliver p data s).
Proof. intros []. unfold deliver. by destruct (handler s). Qed.

Lemma set_registry_inv r s :
  registry_wf r → registry_bound r → node_inv s → node_inv (set_registry r s).
Proof. by intros ? ? []. Qed.

Lemma dedup_step_inv s k :
  node_inv s → node_inv (set_dedup (dedup_step (dedup s) (clock s) k).2 s).
Proof.
  intros [Hwf Hb Httl Hp]. destruct (dedup_step_spec (dedup s) (clock s) k)
    as (Ht & Hdup & Hnew & Hold & _).
  split; simpl; [done|done|by rewrite Ht|]. intros k' t Hl.
  destruct (decide (k' = k)) as [->|Hne]; [|eauto].
  destruct (dedup_step (dedup s) (clock s) k).1 eqn:Hd.
  - apply (Hp k), Hdup. done.
  - rewrite Hnew in Hl by done. by simplify_eq.
Qed.
End invariant.

#[export] Hint Resolve node_new_inv node_tick_inv set_transports_inv fire_inv set_peers_inv
  set_known_inv set_handler_inv set_direct_inv set_routed_inv deliver_inv set_registry_inv
  dedup_step_inv : pw.

(** ** Programs *)

#[export] Program Instance node_inv_dial `{Crypto} : DialInv node_inv.
Next Obligation. eauto with pw. Qed.
Next Obligation.
  intros ? s p Hs. apply set_registry_inv; [|apply registry_remove_bound, Hs|done].
  apply registry_remove_wf, Hs.
Qed.
Next Obligation.
  intros ? s key Hs. apply set_registry_inv; [|apply insert_direct_bound, Hs|done].
  apply insert_direct_wf, Hs.
Qed.

#[export] Program Instance node_inv_send `{Crypto} : SendInv node_inv.
Next Obligation. eauto with pw. Qed.
Next Obligation. eauto with pw. Qed.

#[export] Hint Resolve node_inv_dial node_inv_send : pw.

(** [node_safe p]: [p] keeps the invariant at each critical section, whatever the
    environment answers, and panics only at an answer that is a failure. *)
Abbreviation node_safe p Q := (sturdy (T := task) env_fails node_inv (λ _, True) p Q) (only parsing).

Section router_safe.
Context `{Crypto, Bp7, Snow, !SnowLaws, HashOrder} (identity : NodeIdentity).

Lemma safe_connect_candidates l : node_safe (connect_candidates identity l) (λ _, True).
Proof. induction l as [|[[t kind] ann] l IH]; cbn [connect_candidates]; safe_walk. Qed.
Hint Resolve safe_connect_candidates : pw.

Lemma safe_router_connect anns : node_safe (router_connect identity anns) (λ _, True).
Proof. unfold router_connect. safe_walk. Qed.

Lemma safe_gather ts : node_safe (gather_addresses ts) (λ _, True).
Proof. induction ts; cbn [gather_addresses]; safe_walk. Qed.
Hint Resolve safe_gather : pw.
Lemma safe_local_addresses : node_safe local_addresses (λ _, True).
Proof. unfold local_addresses. safe_walk. Qed.

Lemma safe_spawn_sends l m id : node_safe (spawn_sends l m id) (λ _, True).
Proof. induction l as [|[p anns] l IH]; cbn [spawn_sends]; safe_walk. Qed.
Hint Resolve safe_spawn_sends : pw.

Lemma safe_flood p key : node_safe (flood_key_announcement identity p key) (λ _, True).
Proof. unfold flood_key_announcement. safe_walk. Qed.

Lemma safe_wait_loop n t v : node_safe (wait_loop n t v) (λ _, True).
Proof. induction n; cbn [wait_loop]; safe_walk. Qed.
Hint Resolve safe_wait_loop : pw.
Lemma safe_wait_started t v : node_safe (wait_started t v) (λ _, True).
Proof. unfold wait_started. safe_walk. Qed.
Lemma safe_event_recv_loop n c : node_safe (event_recv_loop n c) (λ _, True).
Proof. induction n; cbn [event_recv_loop]; safe_walk. Qed.
Hint Resolve safe_event_recv_loop : pw.
Lemma safe_event_recv c : node_safe (event_recv c) (λ _, True).
Proof. unfold event_recv. safe_walk. Qed.
Hint Resolve safe_wait_started : pw.

Lemma safe_mark t f : node_safe (mark t f) (λ _, True).
Proof. unfold mark. safe_walk. Qed.
Hint Resolve safe_mark : pw.
Lemma safe_announce_up t kind : node_safe (announce_up t kind) (λ _, True).
Proof. unfold announce_up. safe_walk. Qed.
Hint Resolve safe_announce_up : pw.
Lemma safe_monitor_round t kind l : node_safe (monitor_round t kind l) (λ _, True).
Proof. unfold monitor_round. safe_walk. Qed.
Hint Resolve safe_monitor_round : pw.
Lemma safe_monitor_loop n t kind l : node_safe (monitor_loop n t kind l) (λ _, True).
Proof. revert l. induction n; intros l; cbn [monitor_loop]; safe_walk. Qed.
Hint Resolve safe_monitor_loop : pw.
Lemma safe_health_monitor t kind : node_safe (health_monitor t kind) (λ _, True).
Proof. unfold health_monitor. safe_walk. Qed.

Lemma safe_on_arrival t ann : node_safe (on_arrival identity t ann) (λ _, True).
Proof.
  unfold on_arrival. apply safe_then; [|intros; safe_walk].
  intros s Hs. split; [by apply set_known_inv|done].
Qed.
Lemma safe_on_departure addr : node_safe (on_departure addr) (λ _, True).
Proof. unfold on_departure. safe_walk. Qed.
Hint Resolve safe_on_arrival safe_on_departure : pw.
Lemma safe_on_peer_event t ev : node_safe (on_peer_event identity t ev) (λ _, True).
Proof. unfold on_peer_event. safe_walk. Qed.
Hint Resolve safe_on_peer_event : pw.
Lemma safe_drain_stream n t : node_safe (drain_stream identity n t) (λ _, True).
Proof. induction n; cbn [drain_stream]; safe_walk. Qed.
Hint Resolve safe_drain_stream : pw.
Lemma safe_peer_stream_loop n t : node_safe (peer_stream_loop identity n t) (λ _, True).
Proof. induction n; cbn [peer_stream_loop]; safe_walk. Qed.
Hint Resolve safe_peer_stream_loop : pw.
Lemma safe_peer_stream t : node_safe (peer_stream identity t) (λ _, True).
Proof. unfold peer_stream. safe_walk. Qed.
End router_safe.

#[export] Hint Resolve safe_router_connect safe_local_addresses safe_spawn_sends safe_flood
  safe_event_recv safe_wait_started safe_health_monitor safe_peer_stream : pw.

(** ** Parsing a received frame *)

Lemma parse_header_Val payload : 9 ≤ length payload →
  ∃ flag, parse_header payload = Val (u64_from_be_bytes (take 8 payload), flag) ∧
          payload !! 8 = Some flag.
Proof.
  intros Hl. unfold parse_header. rewrite slice_Val by lia. simpl.
  destruct (index_Val payload 8) as (flag & -> & Hf); [lia|]. exists flag. by rewrite drop_0.
Qed.

Lemma parse_routed_Val payload : 42 ≤ length payload →
  ∃ dest hop, array_to_list dest = take 32 (drop 9 payload) ∧ payload !! 41 = Some hop ∧
    parse_routed payload = Val (PeerId_from_bytes dest, byte_min hop MAX_TTL, drop 42 payload).
Proof.
  intros Hl. unfold parse_routed. rewrite slice_Val by lia. cbn [rust_bind Nat.sub].
  destruct (try_into_expect_Val 32 (take 32 (drop 9 payload))) as (dest & -> & Hd).
  { rewrite length_take, length_drop. lia. }
  destruct (index_Val payload 41) as (hop & Hi & Hh); [lia|]. cbn [rust_bind].
  rewrite Hi. cbn [rust_bind]. rewrite slice_from_Val by lia. eauto.
Qed.

Lemma parse_envelope_Val envelope : 32 ≤ length envelope →
  ∃ sender, array_to_list sender = take 32 envelope ∧
    parse_envelope envelope = Val (PeerId_from_bytes sender, drop 32 envelope).
Proof.
  intros Hl. unfold parse_envelope. rewrite slice_Val by lia. cbn [rust_bind Nat.sub].
  rewrite drop_0. destruct (try_into_expect_Val 32 (take 32 envelope)) as (sender & -> & Hs).
  { rewrite length_take. lia. }
  cbn [rust_bind]. rewrite slice_from_Val by lia. eauto.
Qed.

Lemma hop_down_Val hop : hop ≠ x00 →
  hop_down hop = Val (byte_pred hop) ∧ byte_to_Z (byte_pred hop) = (byte_to_Z hop - 1)%Z.
Proof.
  intros Hh. unfold hop_down. rewrite decide_False by done. split; [done|].
  apply byte_to_Z_pred. destruct (decide (byte_to_Z hop = 0)%Z) as [H0|].
  - destruct Hh. by apply byte_to_Z_inj.
  - pose proof (byte_to_Z_range hop). lia.
Qed.

Section node_safe.
Context `{Crypto, Bp7, Snow, !SnowLaws, HashOrder} (identity : NodeIdentity).
Context (store_ttl : Z) (max_queue_depth : option nat).

Lemma safe_send_to_all l m id : node_safe (send_to_all identity l m id) (λ _, True).
Proof. induction l as [|[p anns] l IH]; cbn [send_to_all]; safe_walk. Qed.
Hint Resolve safe_send_to_all : pw.
Lemma safe_flood_frame m id : node_safe (flood_frame identity m id) (λ _, True).
Proof. unfold flood_frame. safe_walk. Qed.
Hint Resolve safe_flood_frame : pw.
Lemma safe_enqueue_direct p x : node_safe (enqueue_direct max_queue_depth p x) (λ _, True).
Proof.
  apply safe_modify. intros s Hs. destruct (enqueue _ _ _ _) as [[] q]; eauto with pw.
Qed.
Lemma safe_enqueue_routed p x : node_safe (enqueue_routed max_queue_depth p x) (λ _, True).
Proof.
  apply safe_modify. intros s Hs. destruct (enqueue _ _ _ _) as [[] q]; eauto with pw.
Qed.
Hint Resolve safe_enqueue_direct safe_enqueue_routed : pw.

Lemma safe_drain_entries now p (attempt : u64 → list byte → node_prog bool) l :
  (∀ id m, node_safe (attempt id m) (λ _, True)) →
  node_safe (drain_entries store_ttl now p attempt l) (λ _, True).
Proof. intros Ha. induction l as [|[[id m] q] l IH]; cbn [drain_entries]; safe_walk. Qed.

Lemma safe_drain_direct p : node_safe (drain_direct_for_peer identity store_ttl p) (λ _, True).
Proof.
  unfold drain_direct_for_peer. apply safe_then.
  { intros s Hs. split; [by apply set_direct_inv|done]. }
  intros [es|]; [|safe_walk]. apply safe_then; [done|]. intros now.
  apply safe_then; [done|]. intros anns. apply safe_then; [|intros; safe_walk].
  apply safe_drain_entries. intros. safe_walk.
Qed.

Lemma safe_drain_routed_one p : node_safe (drain_routed_one identity store_ttl p) (λ _, True).
Proof.
  unfold drain_routed_one. apply safe_then.
  { intros s Hs. split; [by apply set_routed_inv|done]. }
  intros [es|]; [|safe_walk]. apply safe_then; [done|]. intros now.
  apply safe_then; [apply safe_call|]. intros seed. apply safe_then; [done|]. intros ns.
  apply safe_then; [|intros; safe_walk]. apply safe_drain_entries. intros. safe_walk.
Qed.
Hint Resolve safe_drain_direct safe_drain_routed_one : pw.
Lemma safe_drain_dests l : node_safe (drain_dests identity store_ttl l) (λ _, True).
Proof. induction l; cbn [drain_dests]; safe_walk. Qed.
Hint Resolve safe_drain_dests : pw.
Lemma safe_drain_all : node_safe (drain_routed_all identity store_ttl) (λ _, True).
Proof. unfold drain_routed_all. safe_walk. Qed.
Lemma safe_note_peer p ann : node_safe (note_peer p ann) (λ _, True).
Proof. unfold note_peer. safe_walk. Qed.
Hint Resolve safe_drain_all safe_note_peer : pw.

Lemma safe_relay m id p : node_safe (spawn_relay_to_neighbors identity m id p) (λ _, True).
Proof. unfold spawn_relay_to_neighbors. safe_walk. Qed.
Lemma safe_check_direct p id : node_safe (check_direct p id) (λ _, True).
Proof.
  intros s Hs. pose proof (dedup_step_inv s (CDirect p id) Hs) as Hi. cbn [dedup_step] in Hi.
  destruct (check_and_insert _ _ _ _). done.
Qed.
Lemma safe_check_routed id : node_safe (check_routed id) (λ _, True).
Proof.
  intros s Hs. pose proof (dedup_step_inv s (CRouted id) Hs) as Hi. cbn [dedup_step] in Hi.
  destruct (check_and_insert_routed _ _ _). done.
Qed.
Lemma safe_ack ses : node_safe (ack ses) (λ _, True).
Proof. unfold ack. safe_walk. Qed.
Hint Resolve safe_relay safe_check_direct safe_check_routed safe_ack : pw.

Lemma safe_relay_routed flag p id dest hop m : hop ≠ x00 →
  node_safe (relay_routed identity flag p id dest hop m) (λ _, True).
Proof.
  intros Hh. unfold relay_routed. destruct (hop_down_Val hop Hh) as [-> _]. safe_walk.
Qed.

Lemma safe_dispatch_direct p id m : 9 ≤ length m →
  node_safe (dispatch_direct p id m) (λ _, True).
Proof. intros Hl. unfold dispatch_direct. rewrite slice_from_Val by done. safe_walk. Qed.

Lemma safe_dispatch_routed p id m : 42 ≤ length m →
  node_safe (dispatch_routed identity p id m) (λ _, True).
Proof.
  intros Hl. unfold dispatch_routed. destruct (parse_routed_Val m Hl) as (d & h & _ & _ & ->).
  cbn [lift bind]. destruct (decide _); [safe_walk|]. destruct (decide _); [safe_walk|].
  by apply safe_relay_routed.
Qed.

Lemma safe_dispatch_announcement p id m : 9 ≤ length m →
  node_safe (dispatch_announcement identity p id m) (λ _, True).
Proof.
  intros Hl. unfold dispatch_announcement. rewrite slice_from_Val by done. cbn [lift bind].
  destruct (decode_key_total (drop 9 m)) as (r & -> & _). cbn [lift bind].
  destruct r as [[[announced key] hop]|]; [|done].
  destruct (negb _) eqn:Hv; [done|]. apply negb_false_iff in Hv.
  apply bool_decide_eq_true in Hv. apply safe_then; [safe_walk|]. intros [].
  { done. }
  apply safe_then.
  - apply safe_modify. intros s Hs. apply set_registry_inv; [| |done].
    + apply insert_gossip_wf, Hs.
    + apply insert_gossip_bound; [done|apply Hs].
  - intros _. destruct (decide _) as [|Hh]; [done|].
    destruct (hop_down_Val _ Hh) as [-> _]. safe_walk.
Qed.

Lemma safe_dispatch_sealed p id m : 74 ≤ length m →
  node_safe (dispatch_sealed identity p id m) (λ _, True).
Proof.
  intros Hl. unfold dispatch_sealed.
  destruct (parse_routed_Val m) as (d & h & _ & _ & ->); [lia|]. cbn [lift bind].
  destruct (parse_envelope_Val (drop 42 m)) as (sd & _ & ->); [rewrite length_drop; lia|].
  cbn [lift bind]. destruct (decide _); [safe_walk|]. destruct (decide _); [safe_walk|].
  by apply safe_relay_routed.
Qed.

Lemma safe_dispatch p m ses : node_safe (dispatch_payload identity p m ses) (λ _, True).
Proof.
  unfold dispatch_payload. destruct (Nat.ltb_spec (length m) 9); [safe_walk|].
  destruct (parse_header_Val m) as (flag & -> & _); [done|]. cbn [lift bind].
  destruct (decide _); [apply safe_then; [by apply safe_dispatch_direct|safe_walk]|].
  destruct (decide _).
  { destruct (Nat.ltb_spec (length m) (9 + 32 + 1)); [safe_walk|].
    apply safe_then; [apply safe_dispatch_routed; lia|safe_walk]. }
  destruct (decide _); [apply safe_then; [by apply safe_dispatch_announcement|safe_walk]|].
  destruct (decide _); [|safe_walk].
  destruct (Nat.ltb_spec (length m) (9 + 32 + 1 + 32)); [safe_walk|].
  apply safe_then; [apply safe_dispatch_sealed; lia|safe_walk].
Qed.
Hint Resolve safe_dispatch : pw.

Lemma safe_receive_loop n p ses : node_safe (receive_loop identity n p ses) (λ _, True).
Proof. revert ses. induction n; intros ses; cbn [receive_loop]; safe_walk. Qed.

Lemma safe_first_frame p m ses : node_safe (first_frame p m ses) (λ _, True).
Proof.
  unfold first_frame. apply safe_then; [|intros; safe_walk].
  destruct (Nat.leb_spec 8 (length m)); [|done].
  destruct (index_Val m 0) as (b & -> & _); [lia|]. done.
Qed.
Hint Resolve safe_receive_loop safe_first_frame safe_learn_direct : pw.

Lemma safe_handle_incoming c : node_safe (handle_incoming identity c) (λ _, True).
Proof.
  unfold handle_incoming. eapply sturdy_seq; [apply sturdy_of_safe, safe_respond|].
  intros [ses|e] Hs; [|done]. destruct (Hs ses eq_refl) as [Hb _]. safe_walk.
Qed.

Lemma safe_accept_rounds n t : node_safe (accept_rounds n t) (λ _, True).
Proof. induction n; cbn [accept_rounds]; safe_walk. Qed.
Hint Resolve safe_accept_rounds safe_handle_incoming : pw.
Lemma safe_accept_loop t : node_safe (accept_loop t) (λ _, True).
Proof. unfold accept_loop. safe_walk. Qed.
Lemma safe_event_rounds n c : node_safe (event_rounds identity store_ttl n c) (λ _, True).
Proof. revert c. induction n; intros c; cbn [event_rounds]; safe_walk. Qed.
Hint Resolve safe_accept_loop safe_event_rounds : pw.

Lemma safe_task_body t : node_safe (task_body identity store_ttl t) (λ _, True).
Proof. destruct t; cbn [task_body]; unfold event_loop; safe_walk. Qed.
End node_safe.

(** ** The whole node *)

(** The public calls of [PathweaveNode]. *)
Inductive api :=
| ASend (p : PeerId) (m : list byte)
| ASendRouted (p : PeerId) (m : list byte)
| ASendRoutedSealed (p : PeerId) (m : list byte)
| AStoreForward (p : PeerId) (m : list byte)
| AStoreForwardRouted (p : PeerId) (m : list byte)
| AConnect (ann : PeerAnnouncement)
| AAddPeer (p : PeerId) (ann : PeerAnnouncement)
| AOnMessage
| ALookupKey (p : PeerId)
| ARegisterTransport (t : tid) (kind : TransportKind).

Section whole.
Context `{Crypto, Bp7, Snow, !SnowLaws, HashOrder} (identity : NodeIdentity) (cfg : NodeConfig).
Local Abbreviation store_ttl := (node_store_ttl cfg).
Local Abbreviation depth := (cfg_max_queue_depth cfg).

Definition api_body (a : api) : node_prog unit :=
  match a with
  | ASend p m => send identity p m ;; Ret tt
  | ASendRouted p m => send_routed identity p m ;; Ret tt
  | ASendRoutedSealed p m => send_routed_sealed identity p m ;; Ret tt
  | AStoreForward p m => store_forward identity depth p m
  | AStoreForwardRouted p m => store_forward_routed identity depth p m
  | AConnect ann => connect identity store_ttl ann ;; Ret tt
  | AAddPeer p ann => add_peer p ann
  | AOnMessage => on_message
  | ALookupKey p => lookup_key p ;; Ret tt
  | ARegisterTransport t kind => register_transport t kind
  end.

Lemma safe_api a : node_safe (api_body a) (λ _, True).
Proof.
  pose proof safe_flood_frame. pose proof safe_enqueue_direct. pose proof safe_enqueue_routed.
  pose proof safe_send_to_all. pose proof safe_note_peer. pose proof safe_drain_direct.
  pose proof safe_drain_all.
  destruct a; cbn [api_body]; unfold send, send_routed, send_routed_sealed, store_forward,
    store_forward_routed, connect, add_peer, on_message, lookup_key, register_transport,
    router_register; safe_walk.
Qed.

(** A node with the given calls issued by its application, at the start. *)
Definition node_start {W} (calls : list api) (now : Z) (w : W) :=
  Config (event_loop identity store_ttl :: (api_body <$> calls)) (node_new cfg now) w.

(** C1. A node is safe under every interleaving: for any calls of its application, any
    schedule of them, of the background tasks they spawn and of time, and any behaviour of
    transports and peers, the key registry stays well-formed and self-certifying (each
    stored key hashes to the PeerId it is stored under) and the deduplication cache stays
    within its clock. A task panics only at a call that fails: at [new_message_id] when the
    system has no entropy, or at [connect] of a transport that panics. (The other methods of
    a transport, and the application's handler, are taken to return.) *)
Theorem node_safety {W} (answer : ∀ X, env_op X → W → X * N * W) calls now (w : W) sched :
  let run_to sched :=
    exec answer node_tick (task_body identity store_ttl) sched (node_start calls now w) in
  node_inv (c_shared (run_to sched)) ∧
  ∀ i, c_pool (run_to sched) !! i = Some (Stuck Panicked) →
    ∃ n X (e : env_op X) k, sched !! n = Some (Step i) ∧
      c_pool (run_to (take n sched)) !! i = Some (Call e k) ∧
      env_fails X e (answer X e (c_env (run_to (take n sched)))).1.1 = true.
Proof.
  intros run_to.
  destruct (exec_sturdy env_fails node_inv (λ _, True) answer node_tick node_tick_inv
    (task_body identity store_ttl) (λ t _, safe_task_body identity store_ttl t) sched
    (node_start calls now w)) as [Hinv Hpool].
  - apply node_new_inv.
  - constructor; [apply (safe_task_body identity store_ttl TEventLoop)|].
    apply Forall_fmap, Forall_true. intros a. apply safe_api.
  - split; [exact Hinv|]. intros i Hi. destruct (Hpool i _ Hi) as [Hs|(_ & n & ch & Hn & -> & X & e & k & Hk)].
    + done.
    + by exists n, X, e, k.
Qed.
End whole.
