(* ===== verification/Ownership.v ===== *)
(** * Who keeps the router alive ([Drop for Router])

    Dropping a router aborts the monitors of its transports. A router is shared by
    reference count between the node and the tasks that captured an [Arc] of it; the event
    channel closes when the last sender of it is gone, of which the router has one and some
    tasks have another. Here the pool of tasks of [Effects.v] is run with these owners: a
    task that has ended has dropped what it captured, the application may drop the node,
    the router is dropped with its last owner, and a wait for an event finds the channel
    closed exactly when no sender is left. *)

From S2P Require Import Prelude RustStd Types Effects Env KeyRegistry Dedup Wire Bundle Session NodeState Router SendSafety Node NodeSafety.

(** ** Owners *)

(** A task of the pool: spawned by the node, or a call of the application, which borrows
    the node. *)
Inductive owner := Spawned (t : task) | Caller.

(** Tasks that capture an [Arc<Router>]. *)
Definition owns_router (t : task) : bool :=
  match t with
  | THealthMonitor _ _ | TPeerStream _ => false
  | TAcceptLoop _ | THandleIncoming _ | TEventLoop | TDrain _ | TSend _ _ _ _ => true
  end.

(** Tasks that capture a sender of the event channel. *)
Definition owns_sender (t : task) : bool :=
  match t with
  | THealthMonitor _ _ | TPeerStream _ | TEventLoop | TDrain _ => true
  | TAcceptLoop _ | THandleIncoming _ | TSend _ _ _ _ => false
  end.

Definition running (p : node_prog unit) : bool :=
  match p with Ret _ | Stuck Panicked => false | _ => true end.

(** The monitors of the registered transports. *)
Definition monitors (s : node_state) : list task :=
  (λ e, THealthMonitor (te_transport e) (te_kind e)) <$> transports s.

(** [Drop for Router]: the monitors are aborted. *)
Definition router_drop (s : node_state) (pool : list (owner * node_prog unit)) :
    list (owner * node_prog unit) :=
  (λ '(o, p), (o, match o with
                  | Spawned t => if bool_decide (t ∈ monitors s) then Ret tt else p
                  | Caller => p
                  end)) <$> pool.

Section lifetime.
Context `{Crypto, Bp7, Snow, !SnowLaws, HashOrder} (identity : NodeIdentity) (cfg : NodeConfig).
Local Abbreviation store_ttl := (node_store_ttl cfg).
Context {W : Type} (answer : ∀ X, env_op X → W → X * N * W).

Record living := Living {
  v_pool : list (owner * node_prog unit);
  v_node : bool;      (* the application has not dropped the node *)
  v_router : bool;    (* the router has not been dropped *)
  v_shared : node_state;
  v_env : W
}.

(** Some task that still runs owns one. *)
Definition some_owner (owns : task → bool) (pool : list (owner * node_prog unit)) : bool :=
  existsb (λ '(o, p), running p && match o with Spawned t => owns t | Caller => false end) pool.

Definition router_owned (c : living) : bool := v_node c || some_owner owns_router (v_pool c).
Definition channel_open (c : living) : bool := v_router c || some_owner owns_sender (v_pool c).

(** The environment, with the event channel of the node. *)
Definition with_channel (is_open : bool) (X : Type) (e : env_op X) (w : W) : X * N * W :=
  match e in env_op X return X * N * W → X * N * W with
  | WaitEvent => λ '(_, d, w'), (negb is_open, d, w')
  | _ => λ a, a
  end (answer X e w).

(** The last owner of the router drops it. *)
Definition settle (c : living) : living :=
  if v_router c && negb (router_owned c) then
    Living (router_drop (v_shared c) (v_pool c)) (v_node c) false (v_shared c) (v_env c)
  else c.

(** Step task [i], let time pass, or drop the node, which no call may be borrowing. *)
Inductive event := Runs (i : nat) | Passes (d : N) | DropsNode.

Definition calling (pool : list (owner * node_prog unit)) : bool :=
  existsb (λ '(o, p), running p && match o with Caller => true | Spawned _ => false end) pool.

Definition live_step (ev : event) (c : living) : living :=
  match ev with
  | Runs i =>
    match v_pool c !! i with
    | Some (o, p) =>
      let '(p', s', w', ts) :=
        step_prog (with_channel (channel_open c)) node_tick p (v_shared c) (v_env c) in
      settle (Living (<[i := (o, p')]> (v_pool c) ++
                      ((λ t, (Spawned t, task_body identity store_ttl t)) <$> ts))
                (v_node c) (v_router c) s' w')
    | None => c
    end
  | Passes d => Living (v_pool c) (v_node c) (v_router c) (node_tick d (v_shared c)) (v_env c)
  | DropsNode =>
    if calling (v_pool c) then c
    else settle (Living (v_pool c) false (v_router c) (v_shared c) (v_env c))
  end.

Definition live (evs : list event) (c : living) : living := foldl (λ c ev, live_step ev c) c evs.

(** [PathweaveNode::new], and the calls the application will make. *)
Definition born (calls : list api) (now : Z) (w : W) : living :=
  Living ((Spawned TEventLoop, event_loop identity store_ttl) ::
          ((λ a, (Caller, api_body identity cfg a)) <$> calls)) true true (node_new cfg now) w.

(** ** Tasks that do not end by themselves *)

(** No call fails, and the channel is open. *)
Definition still_open (X : Type) (e : env_op X) (x : X) : Prop :=
  env_fails X e x = false ∧
  match e in env_op X return X → Prop with
  | WaitEvent => λ closed, closed = false
  | _ => λ _, True
  end x.

Local Abbreviation open_safe p Q := (safe_under still_open node_inv (λ _, True) p Q).

Lemma open_of {A} (p : node_prog A) (Q : A → Prop) :
  sturdy env_fails node_inv (λ _, True) p Q → open_safe p Q.
Proof. apply sturdy_under. by intros X e x []. Qed.

Lemma open_seq {A B} (p : node_prog A) (f : A → node_prog B) Q :
  sturdy env_fails node_inv (λ _, True) p (λ _, True) → (∀ a, open_safe (f a) Q) →
  open_safe (bind p f) Q.
Proof.
  intros Hp Hf. apply safe_under_bind. eapply safe_under_mono; [|by apply open_of]. auto.
Qed.

Lemma open_event_recv cursor : open_safe (event_recv cursor) (λ r, r.1 ≠ Closed).
Proof.
  intros bound _. induction bound as [|bound IH]; [done|]. intros s Hs. split; [done|].
  cbn [bind fst]. destruct (_ <? _); [done|]. destruct (events s !! cursor); [done|].
  intros closed [_ ->]. exact IH.
Qed.

Lemma open_event_rounds bound cursor :
  open_safe (event_rounds identity store_ttl bound cursor) (λ _, False).
Proof.
  revert cursor. induction bound as [|bound IH]; intros cursor; [done|].
  apply safe_under_bind. eapply safe_under_mono; [|apply open_event_recv].
  intros [[e| |] cursor'] Hr; cbn in Hr; [|apply IH|done]. destruct e; try apply IH.
  - apply open_seq; [apply safe_drain_direct|]. intros _.
    apply open_seq; [apply safe_drain_all|]. intros _. apply IH.
  - apply open_seq; [apply safe_flood|]. intros _. apply IH.
Qed.

Lemma open_event_loop : open_safe (event_loop identity store_ttl) (λ _, False).
Proof. intros bound _. apply open_event_rounds. Qed.

Lemma open_health_monitor t kind : open_safe (health_monitor t kind) (λ _, False).
Proof.
  unfold health_monitor. apply open_seq; [apply safe_call|]. intros ifs.
  apply open_seq; [apply safe_call|]. intros r.
  apply open_seq; [destruct (is_ok r); pose proof safe_announce_up; safe_walk|]. intros rec.
  intros bound _. cbn [bind]. generalize (current_ipv4_addrs ifs, rec).
  induction bound as [|bound IH]; intros locals; [done|].
  apply open_seq; [apply safe_monitor_round|]. exact IH.
Qed.

(** Whether a task may return. *)
Definition returns (o : owner) : Prop :=
  match o with Spawned TEventLoop | Spawned (THealthMonitor _ _) => False | _ => True end.

Lemma open_task_body t :
  open_safe (task_body identity store_ttl t) (λ _, returns (Spawned t)).
Proof.
  destruct t; try (eapply safe_under_mono; [|apply open_of, safe_task_body]; done).
  - apply open_health_monitor.
  - apply open_event_loop.
Qed.

(** ** The node outlives its owner *)

Record kept (c : living) : Prop := {
  kept_inv : node_inv (v_shared c);
  kept_router : v_router c = true;
  kept_task : ∃ p, v_pool c !! 0 = Some (Spawned TEventLoop, p);
  kept_pool : ∀ i o p, v_pool c !! i = Some (o, p) → open_safe p (λ _, returns o)
}.

Lemma kept_running c : kept c →
  some_owner owns_router (v_pool c) = true ∧ some_owner owns_sender (v_pool c) = true.
Proof.
  intros [_ _ [p Hp] Hpool]. specialize (Hpool _ _ _ Hp).
  assert (running p = true) as Hrun by (destruct p as [| | | |[]]; done).
  split; apply existsb_exists; exists (Spawned TEventLoop, p);
    (split; [by eapply list_elem_of_In, list_elem_of_lookup_2|by rewrite Hrun]).
Qed.

Lemma kept_settle c : kept c → kept (settle c).
Proof.
  intros Hc. unfold settle, router_owned. destruct (kept_running c Hc) as [-> _].
  by rewrite orb_true_r, andb_false_r.
Qed.

Hypothesis calls_return : ∀ X (e : env_op X) w, env_fails X e (answer X e w).1.1 = false.

Lemma with_channel_open X (e : env_op X) w : still_open X e (with_channel true X e w).1.1.
Proof.
  unfold still_open, with_channel. pose proof (calls_return X e w) as Hc.
  destruct e; cbn in *; try done. by destruct (answer bool WaitEvent w) as [[]].
Qed.

Lemma kept_step ev c : kept c → kept (live_step ev c).
Proof.
  intros Hc. pose proof Hc as [HI Hr [p0 Hp0] Hpool]. destruct ev as [i|d|]; cbn [live_step].
  - destruct (v_pool c !! i) as [[o p]|] eqn:Hi; [|done].
    assert (channel_open c = true) as Hopen.
    { unfold channel_open. destruct (kept_running c Hc) as [_ ->]. by rewrite orb_true_r. }
    destruct (step_prog _ _ _ _ _) as [[[p' s'] w'] ts] eqn:Hst. rewrite Hopen in Hst.
    destruct (step_under still_open node_inv (λ _, True) _ _ with_channel_open node_tick_inv
      _ _ _ _ _ _ _ _ Hst (Hpool i o p Hi) HI) as (HI' & Hp' & _).
    apply kept_settle. pose proof (lookup_lt_Some _ _ _ Hi) as Hlt. split; cbn; [done|done| |].
    + destruct (decide (i = 0)) as [->|Hne].
      * exists p'. rewrite Hi in Hp0. injection Hp0 as -> _.
        rewrite lookup_app_l by (by rewrite length_insert). by rewrite list_lookup_insert_eq.
      * exists p0. apply lookup_app_l_Some. by rewrite list_lookup_insert_ne.
    + intros j o' q [Hj|[_ Hj]]%lookup_app_Some.
      * apply list_lookup_insert_Some in Hj as [(_ & [= <- <-] & _)|[_ Hj]]; [done|eauto].
      * apply list_lookup_fmap_Some in Hj as (t & [= -> ->] & _). apply open_task_body.
  - split; cbn; [by apply node_tick_inv|done|by exists p0|done].
  - destruct (calling _); [done|]. apply kept_settle. split; cbn; eauto.
Qed.

Lemma kept_born calls now w : kept (born calls now w).
Proof.
  split; cbn; [apply node_new_inv|done|by eexists|]. intros [|i] o p; cbn.
  - intros [= <- <-]. apply open_event_loop.
  - intros (a & [= -> ->] & _)%list_lookup_fmap_Some.
    eapply safe_under_mono; [|apply open_of, safe_api]. done.
Qed.

(** C12. A node is never given up: the task [PathweaveNode::new] spawns captures a sender of
    the channel it waits on and an [Arc] of the router, and as long as no call it makes
    panics it does not end, whatever the schedule, also after the application has dropped
    the node. So the channel never closes, the router is never dropped, and the monitors of
    the transports, which end only when it is, run for ever. *)
Theorem event_task_never_ends calls now w evs :
  let c := live evs (born calls now w) in
  v_router c = true ∧ channel_open c = true ∧
  (∃ p, v_pool c !! 0 = Some (Spawned TEventLoop, p) ∧ running p = true) ∧
  ∀ i t kind p, v_pool c !! i = Some (Spawned (THealthMonitor t kind), p) → running p = true.
Proof.
  intros c. assert (kept c) as Hc.
  { unfold c, live. induction evs as [|ev evs IH] using rev_ind; [apply kept_born|].
    rewrite foldl_snoc. by apply kept_step. }
  assert (∀ p, open_safe p (λ _, False) → running p = true) as Hrun
    by (intros [| | | |[]]; done).
  destruct (kept_running c Hc) as [_ Hsender]. destruct Hc as [_ Hr [p Hp] Hpool].
  split_and!; [done| | |].
  - unfold channel_open. by rewrite Hr.
  - exists p. split; [done|]. apply Hrun, (Hpool _ _ _ Hp).
  - intros i t kind q Hq. apply Hrun, (Hpool _ _ _ Hq).
Qed.
End lifetime.
