(* ===== verification/Kinds.v ===== *)
(** * Addresses and transports are of one kind

    An address can be dialled by transports of its kind only ([PeerAddress::kind],
    [Transport::kind]). The router matches the two when it chooses candidates; the
    discovery task hands an announcement to the transport that made it. Here: whatever the
    node does, a transport is asked to connect to addresses of its own kind only, as long
    as transports announce addresses of their own kind. That they do, and that they turn
    away the others, is shown of each transport in [TransportKinds.v]. *)

From S2P Require Import Prelude RustStd Types Effects Env KeyRegistry Dedup Wire Bundle Session LinkCalls NodeState.
From S2P Require Import Router SendSafety Node NodeSafety.

Section kinds.
(** [t.kind()], which never changes. *)
Context (kind_of : tid → TransportKind).

Definition of_kind (t : tid) (ann : PeerAnnouncement) : Prop :=
  PeerAddress_kind (address ann) = kind_of t.

(** Every entry is registered under its transport's kind. *)
Definition kinds_ok (s : node_state) : Prop :=
  Forall (λ e, te_kind e = kind_of (te_transport e)) (transports s).

Definition right_call {X} (e : env_op X) : Prop :=
  match e with TransportConnect t ann => of_kind t ann | _ => True end.

(** Transports announce addresses of their own kind. *)
Definition right_answer (X : Type) (e : env_op X) : X → Prop :=
  match e in env_op X return X → Prop with
  | TransportNextPeerEvent t => λ ev,
    match ev with Some (Arrival ann) => of_kind t ann | _ => True end
  | _ => λ _, True
  end.

(** Every dial a program makes is of the right kind, whatever it is answered and whatever
    state it finds, and it registers transports under their kind. *)
Fixpoint typed {A} (p : node_prog A) (Q : A → Prop) : Prop :=
  match p with
  | Ret a => Q a
  | Lock f k => ∀ s, kinds_ok s → kinds_ok (f s).2 ∧ typed (k (f s).1) Q
  | Call e k => right_call e ∧ ∀ x, right_answer _ e x → typed (k x) Q
  | Spawn t k => typed k Q
  | Stuck _ => True
  end.

Lemma typed_bind {A B} (p : node_prog A) (f : A → node_prog B) (Q : B → Prop) :
  typed p (λ a, typed (f a) Q) → typed (bind p f) Q.
Proof.
  induction p as [a|X g k IH|X e k IH|t k IH|why]; simpl; [done| | |auto|done].
  - intros Hp s Hs. destruct (Hp s Hs). auto.
  - intros [He Hk]. split; auto.
Qed.

Lemma typed_mono {A} (p : node_prog A) (Q Q' : A → Prop) :
  (∀ a, Q a → Q' a) → typed p Q → typed p Q'.
Proof.
  intros HQ. induction p as [a|X g k IH|X e k IH|t k IH|why]; simpl; [auto| | |auto|done].
  - intros Hp s Hs. destruct (Hp s Hs). auto.
  - intros [He Hk]. split; auto.
Qed.

Lemma typed_seq {A B} (R : A → Prop) (p : node_prog A) (f : A → node_prog B) (Q : B → Prop) :
  typed p R → (∀ a, R a → typed (f a) Q) → typed (bind p f) Q.
Proof. intros Hp Hf. apply typed_bind. eapply typed_mono; [exact Hf|exact Hp]. Qed.

Lemma typed_then {A B} (p : node_prog A) (f : A → node_prog B) :
  typed p (λ _, True) → (∀ a, typed (f a) (λ _, True)) → typed (bind p f) (λ _, True).
Proof. intros Hp Hf. eapply typed_seq; [exact Hp|auto]. Qed.

Lemma typed_lock {X} (f : node_state → X * node_state) :
  (∀ s, transports (f s).2 = transports s) → typed (lock f) (λ _, True).
Proof. intros Hf s Hs. split; [|done]. unfold kinds_ok. by rewrite Hf. Qed.

Lemma typed_modify f : (∀ s, transports (f s) = transports s) → typed (modify f) (λ _, True).
Proof. intros Hf. by apply typed_lock. Qed.

Lemma typed_lift {A} (m : rust A) : typed (lift m) (λ _, True).
Proof. by destruct m. Qed.

(** Sessions dial nobody. *)
Lemma typed_link {A} (p : node_prog A) : only (@timed_link_call) p → typed p (λ _, True).
Proof.
  induction p as [a|X g k IH|X e k IH|t k IH|why]; simpl; [done|done| |done|done].
  intros [He Hk]. split; [by destruct e|auto].
Qed.

(** ** Under every interleaving *)

Section exec.
Context {W : Type} (answer : ∀ X, env_op X → W → X * N * W) (body : task → node_prog unit).
Hypothesis answers : ∀ X (e : env_op X) w, right_answer X e (answer X e w).1.1.
Hypothesis body_typed : ∀ t, typed (body t) (λ _, True).

Definition pool_typed (c : config (W := W)) : Prop :=
  kinds_ok (c_shared c) ∧ Forall (λ p, typed p (λ _, True)) (c_pool c).

Lemma step_typed p s w p' s' w' ts :
  step_prog answer node_tick p s w = (p', s', w', ts) →
  typed p (λ _, True) → kinds_ok s → kinds_ok s' ∧ typed p' (λ _, True).
Proof.
  destruct p as [a|X f k|X e k|t k|why]; simpl.
  - by intros [= <- <- <- <-].
  - intros [= <- <- <- <-] Hp Hs. destruct (Hp s Hs). auto.
  - pose proof (answers X e w) as Ha. destruct (answer X e w) as [[x d] w''].
    intros [= <- <- <- <-] [_ Hk] Hs. auto.
  - by intros [= <- <- <- <-].
  - by intros [= <- <- <- <-].
Qed.

Lemma exec_typed sched c : pool_typed c → pool_typed (exec answer node_tick body sched c).
Proof.
  revert c. induction sched as [|ch sched IH]; intros c Hc; simpl; [done|]. apply IH.
  destruct Hc as [Hs Hp]. destruct ch as [i|d]; simpl; [|by split].
  destruct (c_pool c !! i) as [p|] eqn:Hi; [|done].
  destruct (step_prog answer node_tick p (c_shared c) (c_env c)) as [[[p' s'] w'] ts] eqn:Hst.
  destruct (step_typed _ _ _ _ _ _ _ Hst) as [Hs' Hp'];
    [by eapply Forall_lookup_1 in Hp|done|].
  split; simpl; [done|]. apply Forall_app. split; [by apply Forall_insert|].
  apply Forall_fmap, Forall_true. apply body_typed.
Qed.
End exec.
End kinds.

(** ** The programs of a node *)

Create HintDb kinds.
#[export] Hint Resolve typed_lift : kinds.
#[export] Hint Extern 1 (typed _ (Ret _) _) => exact Logic.I : kinds.
#[export] Hint Extern 1 (typed _ (Stuck _) _) => exact Logic.I : kinds.
#[export] Hint Extern 1 (typed _ (read _) _) => by intros ? ? : kinds.
#[export] Hint Extern 1 (typed _ (call _) _) => by split : kinds.
#[export] Hint Extern 1 (typed _ (spawn _) _) => exact Logic.I : kinds.
#[export] Hint Extern 5 (typed _ (modify _) _) => apply typed_modify; by intros [] : kinds.

(** Walks a program: sequencing, case analysis, known parts from the database. *)
Ltac kind_walk :=
  repeat first
    [ solve [eauto with kinds]
    | match goal with
      | |- ∀ _, _ => intros ?
      | |- typed _ (bind _ _) _ => apply typed_then; [|intros ?]
      | |- typed _ (match ?x with _ => _ end) _ => destruct x
      | |- typed _ (if ?x then _ else _) _ => destruct x
      | |- typed _ (let '_ := ?x in _) _ => destruct x
      end ].

Section programs.
Context `{Crypto, Bp7, Snow, HashOrder} (identity : NodeIdentity) (kind_of : tid → TransportKind).
Local Abbreviation ok p := (typed kind_of p (λ _, True)).
Local Abbreviation right := (λ c : tid * TransportKind * PeerAnnouncement, of_kind kind_of c.1.1 c.2).

Lemma link_timed {X} (e : env_op X) : link_call e = true → timed_link_call e = true.
Proof. by destruct e. Qed.

Lemma typed_ses_send ses m : ok (session_send ses m).
Proof. apply typed_link, only_session_send. apply @link_timed. Qed.
Lemma typed_ses_timeout d ses : ok (session_recv_timeout d ses).
Proof. apply typed_link, only_session_recv_timeout. Qed.
Lemma typed_ses_recv ses : ok (session_recv ses).
Proof. apply typed_link, only_session_recv. apply @link_timed. Qed.
Lemma typed_ses_close ses : ok (session_close ses).
Proof. apply typed_link, only_session_close. apply @link_timed. Qed.
Lemma typed_initiate id l rk : ok (initiate id l rk).
Proof. apply typed_link, only_initiate. apply @link_timed. Qed.
Lemma typed_respond id l : ok (respond id l).
Proof. apply typed_link, only_respond. apply @link_timed. Qed.
Hint Resolve typed_ses_send typed_ses_timeout typed_ses_recv typed_ses_close typed_initiate
  typed_respond : kinds.

Lemma typed_learn ses : ok (learn_direct ses).
Proof.
  unfold learn_direct. apply typed_then; [|kind_walk]. apply typed_lock. intros s.
  by destruct (insert_direct _ _ _).
Qed.
Hint Resolve typed_learn : kinds.
Lemma typed_exchange t p ses : ok (exchange_addresses t p ses).
Proof. unfold exchange_addresses. kind_walk. Qed.
Hint Resolve typed_exchange : kinds.

Lemma typed_dial t ann : of_kind kind_of t ann → ok (transport_connect t ann).
Proof. intros Hk. split; [done|]. intros r _. apply typed_lift. Qed.
Lemma typed_new_message_id : ok new_message_id.
Proof. split; [done|]. by intros []. Qed.
Hint Resolve typed_dial typed_new_message_id : kinds.

Lemma typed_try_connect t ann : of_kind kind_of t ann → ok (try_connect identity t ann).
Proof. intros Hk. unfold try_connect. kind_walk. Qed.
Lemma typed_try_send t ann m id p :
  of_kind kind_of t ann → ok (try_send identity t ann m id p).
Proof. intros Hk. unfold try_send. kind_walk. Qed.
Hint Resolve typed_try_connect typed_try_send : kinds.

(** The candidates a reading of the table gives are of the right kind, and sorting them
    by cost keeps them so. *)
Lemma candidates_right anns s : kinds_ok kind_of s → Forall right (candidates anns (transports s)).
Proof.
  intros Hs. apply Forall_forall. intros [[t kind] ann] Hc. unfold candidates in Hc.
  apply list_elem_of_In, in_flat_map in Hc as (e & He%list_elem_of_In & Hd%list_elem_of_In).
  apply list_elem_of_filter in He as [_ He]. unfold dialable in Hd.
  apply list_elem_of_omap in Hd as (ann' & _ & Hd). case_decide as Hk; simplify_eq.
  unfold kinds_ok in Hs. rewrite Forall_forall in Hs. cbn. unfold of_kind. by rewrite Hk, Hs.
Qed.

Lemma typed_with_costs {A} (f : A → tid) l :
  typed kind_of (with_costs f l) (λ r, r.*2 = l).
Proof.
  induction l as [|x l IH]; cbn [with_costs]; [done|]. split; [done|]. intros c _. cbn [bind].
  eapply typed_seq; [exact IH|]. intros r Hr. cbn in *. by rewrite Hr.
Qed.

Lemma typed_sort l : Forall right l → typed kind_of (sort_candidates l) (Forall right).
Proof.
  intros Hl. unfold sort_candidates. eapply typed_seq; [apply typed_with_costs|].
  intros r <-. cbn. apply Forall_forall. intros x Hx. rewrite Forall_forall in Hl. apply Hl.
  by rewrite (sort_by_key_perm fst r) in Hx.
Qed.

Lemma typed_try_candidates l m id p : Forall right l → ok (try_candidates identity l m id p).
Proof. induction 1 as [|[[t kind] ann] l Hk _ IH]; cbn [try_candidates]; kind_walk. Qed.

Lemma typed_read_candidates anns {A} (f : _ → node_prog A) :
  (∀ l, Forall right l → ok (f l)) → ok (bind (read (λ s, candidates anns (transports s))) f).
Proof. intros Hf s Hs. split; [done|]. cbn. by apply Hf, candidates_right. Qed.

Lemma typed_send_attempts n anns m id p : ok (send_attempts identity n anns m id p).
Proof.
  induction n as [|n IH]; cbn [send_attempts]; [kind_walk|].
  apply typed_read_candidates. intros [|c l] Hl; [kind_walk|].
  eapply typed_seq; [by apply typed_sort|]. intros sorted Hs.
  apply typed_then; [by apply typed_try_candidates|]. kind_walk.
Qed.
Hint Resolve typed_send_attempts : kinds.
Lemma typed_router_send anns m p id : ok (router_send identity anns m p id).
Proof. unfold router_send. kind_walk. Qed.

Lemma typed_connect_candidates l : Forall right l → ok (connect_candidates identity l).
Proof. induction 1 as [|[[t kind] ann] l Hk _ IH]; cbn [connect_candidates]; kind_walk. Qed.
Lemma typed_router_connect anns : ok (router_connect identity anns).
Proof.
  apply typed_read_candidates. intros l Hl. eapply typed_seq; [by apply typed_sort|].
  apply typed_connect_candidates.
Qed.
Hint Resolve typed_router_send typed_router_connect : kinds.

Lemma typed_gather ts : ok (gather_addresses ts).
Proof. induction ts; cbn [gather_addresses]; kind_walk. Qed.
Hint Resolve typed_gather : kinds.
Lemma typed_local_addresses : ok local_addresses.
Proof. unfold local_addresses. kind_walk. Qed.
Lemma typed_spawn_sends l m id : ok (spawn_sends l m id).
Proof. induction l as [|[p anns] l IH]; cbn [spawn_sends]; kind_walk. Qed.
Hint Resolve typed_local_addresses typed_spawn_sends : kinds.
Lemma typed_flood p key : ok (flood_key_announcement identity p key).
Proof. unfold flood_key_announcement. kind_walk. Qed.
Lemma typed_wait_loop n t v : ok (wait_loop n t v).
Proof. induction n; cbn [wait_loop]; kind_walk. Qed.
Hint Resolve typed_flood typed_wait_loop : kinds.
Lemma typed_wait_started t v : ok (wait_started t v).
Proof. unfold wait_started. kind_walk. Qed.
Lemma typed_event_recv_loop n c : ok (event_recv_loop n c).
Proof. induction n; cbn [event_recv_loop]; kind_walk. Qed.
Hint Resolve typed_wait_started typed_event_recv_loop : kinds.
Lemma typed_event_recv c : ok (event_recv c).
Proof. unfold event_recv. kind_walk. Qed.
Hint Resolve typed_event_recv : kinds.

(** The monitor changes flags of entries, never their kind. *)
Lemma kinds_ok_set t f s :
  (∀ e, te_kind (f e) = te_kind e ∧ te_transport (f e) = te_transport e) →
  kinds_ok kind_of s → kinds_ok kind_of (set_transports (set_entry t f) s).
Proof.
  intros Hf Hs. unfold kinds_ok in *. cbn. unfold set_entry. apply Forall_map.
  eapply Forall_impl; [exact Hs|]. intros e He. cbn.
  destruct (_ =? _); [|done]. destruct (Hf e) as [-> ->]. done.
Qed.
Lemma typed_mark_available t b : ok (mark t (set_available b)).
Proof. intros s Hs. split; [by apply kinds_ok_set|done]. Qed.
Lemma typed_mark_started t b : ok (mark t (set_started b)).
Proof. intros s Hs. split; [by apply kinds_ok_set|done]. Qed.
Hint Resolve typed_mark_available typed_mark_started : kinds.
Lemma typed_announce_up t kind : ok (announce_up t kind).
Proof. unfold announce_up. kind_walk. Qed.
Lemma typed_next_best t : ok (next_best_transport t).
Proof.
  unfold next_best_transport. apply typed_then; [kind_walk|]. intros l.
  eapply typed_seq; [apply typed_with_costs|]. kind_walk.
Qed.
Hint Resolve typed_announce_up typed_next_best : kinds.
Lemma typed_monitor_round t kind l : ok (monitor_round t kind l).
Proof. unfold monitor_round. kind_walk. Qed.
Hint Resolve typed_monitor_round : kinds.
Lemma typed_monitor_loop n t kind l : ok (monitor_loop n t kind l).
Proof. revert l. induction n; intros l; cbn [monitor_loop]; kind_walk. Qed.
Hint Resolve typed_monitor_loop : kinds.
Lemma typed_health_monitor t kind : ok (health_monitor t kind).
Proof. unfold health_monitor. kind_walk. Qed.

Lemma typed_register t : ok (register_transport t (kind_of t)).
Proof.
  unfold register_transport, router_register. kind_walk. intros s Hs. split; [|done].
  unfold kinds_ok in *. cbn. apply Forall_app. split; [done|]. by apply Forall_singleton.
Qed.

Lemma typed_on_arrival t ann : of_kind kind_of t ann → ok (on_arrival identity t ann).
Proof.
  intros Hk. unfold on_arrival. apply typed_then; [by apply typed_lock|]. kind_walk.
Qed.
Lemma typed_on_departure addr : ok (on_departure addr).
Proof. unfold on_departure. kind_walk. Qed.
Hint Resolve typed_on_arrival typed_on_departure : kinds.
Lemma typed_drain_stream n t : ok (drain_stream identity n t).
Proof.
  induction n as [|n IH]; cbn [drain_stream]; [kind_walk|]. split; [done|].
  intros [[ann|addr]|] Hev; cbn in Hev; cbn [bind]; [| |done];
    (apply typed_then; [cbn [on_peer_event]; kind_walk|done]).
Qed.
Hint Resolve typed_drain_stream : kinds.
Lemma typed_peer_stream_loop n t : ok (peer_stream_loop identity n t).
Proof. induction n; cbn [peer_stream_loop]; kind_walk. Qed.
Hint Resolve typed_peer_stream_loop : kinds.
Lemma typed_peer_stream t : ok (peer_stream identity t).
Proof. unfold peer_stream. kind_walk. Qed.
Hint Resolve typed_health_monitor typed_peer_stream : kinds.

Context (store_ttl : Z) (max_queue_depth : option nat).

Lemma typed_send_to_all l m id : ok (send_to_all identity l m id).
Proof. induction l as [|[p anns] l IH]; cbn [send_to_all]; kind_walk. Qed.
Hint Resolve typed_send_to_all : kinds.
Lemma typed_flood_frame m id : ok (flood_frame identity m id).
Proof. unfold flood_frame. kind_walk. Qed.
Lemma typed_enqueue_direct p x : ok (enqueue_direct max_queue_depth p x).
Proof. apply typed_modify. intros s. by destruct (enqueue _ _ _ _) as [[] q]. Qed.
Lemma typed_enqueue_routed p x : ok (enqueue_routed max_queue_depth p x).
Proof. apply typed_modify. intros s. by destruct (enqueue _ _ _ _) as [[] q]. Qed.
Hint Resolve typed_flood_frame typed_enqueue_direct typed_enqueue_routed : kinds.

Lemma typed_drain_entries now p (attempt : u64 → list byte → node_prog bool) l :
  (∀ id m, ok (attempt id m)) → ok (drain_entries store_ttl now p attempt l).
Proof. intros Ha. induction l as [|[[id m] q] l IH]; cbn [drain_entries]; kind_walk. Qed.

Lemma typed_drain_direct p : ok (drain_direct_for_peer identity store_ttl p).
Proof.
  unfold drain_direct_for_peer. apply typed_then; [by apply typed_lock|]. intros [es|]; [|kind_walk].
  do 2 (apply typed_then; [kind_walk|intros ?]). apply typed_then; [|kind_walk].
  apply typed_drain_entries. kind_walk.
Qed.

Lemma typed_drain_routed_one p : ok (drain_routed_one identity store_ttl p).
Proof.
  unfold drain_routed_one. apply typed_then; [by apply typed_lock|]. intros [es|]; [|kind_walk].
  do 3 (apply typed_then; [kind_walk|intros ?]). apply typed_then; [|kind_walk].
  apply typed_drain_entries. kind_walk.
Qed.
Hint Resolve typed_drain_direct typed_drain_routed_one : kinds.
Lemma typed_drain_dests l : ok (drain_dests identity store_ttl l).
Proof. induction l; cbn [drain_dests]; kind_walk. Qed.
Hint Resolve typed_drain_dests : kinds.
Lemma typed_drain_all : ok (drain_routed_all identity store_ttl).
Proof. unfold drain_routed_all. kind_walk. Qed.
Lemma typed_note_peer p ann : ok (note_peer p ann).
Proof. unfold note_peer. kind_walk. Qed.
Lemma typed_relay m id p : ok (spawn_relay_to_neighbors identity m id p).
Proof. unfold spawn_relay_to_neighbors. kind_walk. Qed.
Lemma typed_check_direct p id : ok (check_direct p id).
Proof. apply typed_lock. intros s. by destruct (check_and_insert _ _ _ _). Qed.
Lemma typed_check_routed id : ok (check_routed id).
Proof. apply typed_lock. intros s. by destruct (check_and_insert_routed _ _ _). Qed.
Lemma typed_deliver p m : ok (modify (deliver p m)).
Proof. apply typed_modify. intros s. unfold deliver. by destruct (handler s). Qed.
Lemma typed_ack ses : ok (ack ses).
Proof. unfold ack. kind_walk. Qed.
Hint Resolve typed_drain_all typed_note_peer typed_relay typed_check_direct typed_check_routed
  typed_deliver typed_ack : kinds.

Lemma typed_relay_routed flag p id dest hop m : ok (relay_routed identity flag p id dest hop m).
Proof. unfold relay_routed. kind_walk. Qed.
Hint Resolve typed_relay_routed : kinds.
Lemma typed_dispatch p m ses : ok (dispatch_payload identity p m ses).
Proof.
  unfold dispatch_payload, dispatch_direct, dispatch_routed, dispatch_announcement, dispatch_sealed.
  kind_walk.
Qed.
Hint Resolve typed_dispatch : kinds.
Lemma typed_receive_loop n p ses : ok (receive_loop identity n p ses).
Proof. revert ses. induction n; intros ses; cbn [receive_loop]; kind_walk. Qed.
Lemma typed_first_frame p m ses : ok (first_frame p m ses).
Proof. unfold first_frame. kind_walk. Qed.
Hint Resolve typed_receive_loop typed_first_frame : kinds.
Lemma typed_handle_incoming c : ok (handle_incoming identity c).
Proof. unfold handle_incoming. kind_walk. Qed.
Lemma typed_accept_rounds n t : ok (accept_rounds n t).
Proof. induction n; cbn [accept_rounds]; kind_walk. Qed.
Hint Resolve typed_handle_incoming typed_accept_rounds : kinds.
Lemma typed_accept_loop t : ok (accept_loop t).
Proof. unfold accept_loop. kind_walk. Qed.
Lemma typed_event_rounds n c : ok (event_rounds identity store_ttl n c).
Proof. revert c. induction n; intros c; cbn [event_rounds]; kind_walk. Qed.
Hint Resolve typed_accept_loop typed_event_rounds : kinds.
Lemma typed_task_body t : ok (task_body identity store_ttl t).
Proof. destruct t; cbn [task_body]; unfold event_loop; kind_walk. Qed.
End programs.

Section whole.
Context `{Crypto, Bp7, Snow, HashOrder} (identity : NodeIdentity) (cfg : NodeConfig).
Context (kind_of : tid → TransportKind).
Local Abbreviation store_ttl := (node_store_ttl cfg).

(** Calls of the application that register a transport under its own kind. *)
Definition api_kind (a : api) : Prop :=
  match a with ARegisterTransport t kind => kind = kind_of t | _ => True end.

Lemma typed_api a : api_kind a → typed kind_of (api_body identity cfg a) (λ _, True).
Proof.
  pose proof typed_flood_frame. pose proof typed_enqueue_direct. pose proof typed_enqueue_routed.
  pose proof typed_note_peer. pose proof typed_drain_direct. pose proof typed_drain_all.
  pose proof typed_router_send. pose proof typed_router_connect. pose proof typed_send_to_all.
  pose proof typed_new_message_id.
  destruct a; cbn [api_kind api_body]; intros Ha; try subst kind;
    try (apply typed_register);
    unfold send, send_routed, send_routed_sealed, store_forward, store_forward_routed, connect,
      add_peer, on_message, lookup_key; kind_walk.
Qed.

(** C11. Dials are well-typed: under every schedule of any calls of the application and of
    the node's tasks, as long as transports announce addresses of their own kind, each
    transport is only ever asked to connect to an address of its kind; and the table of
    transports keeps each under its kind. *)
Theorem dials_well_typed {W} (answer : ∀ X, env_op X → W → X * N * W) calls now (w : W) sched
    (Hanswers : ∀ X (e : env_op X) w, right_answer kind_of X e (answer X e w).1.1)
    (Hcalls : Forall api_kind calls) :
  let c := exec answer node_tick (task_body identity store_ttl) sched
             (node_start identity cfg calls now w) in
  kinds_ok kind_of (c_shared c) ∧
  ∀ i t ann k, c_pool c !! i = Some (Call (TransportConnect t ann) k) →
    PeerAddress_kind (address ann) = kind_of t.
Proof.
  cbv zeta. edestruct (exec_typed kind_of answer (task_body identity store_ttl) Hanswers
    (typed_task_body identity kind_of store_ttl) sched (node_start identity cfg calls now w))
    as [Hs Hp].
  - split; [by apply Forall_nil|]. cbn. apply Forall_cons. split.
    + apply (typed_task_body identity kind_of store_ttl TEventLoop).
    + apply Forall_fmap. eapply Forall_impl; [exact Hcalls|]. intros a. apply typed_api.
  - split; [exact Hs|]. intros i t ann k Hi.
    rewrite Forall_lookup in Hp. apply (Hp i _ Hi).
Qed.
End whole.
