(* ===== verification/Dispatch.v ===== *)
(** * What a received frame does

    The effect of [dispatch_payload] on the node, per route flag and branch: the
    new shared state and the tasks spawned, for any environment. Time is held
    still, so that the state before and after can be compared. *)

From S2P Require Import Prelude RustStd Types Effects Env KeyRegistry Dedup Wire Bundle Session NodeState.
From S2P Require Import Router Node NodeSafety.

Definition notick (_ : N) (s : node_state) : node_state := s.

Section dispatch.
Context `{Crypto, Bp7, Snow, HashOrder} (me : NodeIdentity).
Context {W : Type} (answer : ∀ X, env_op X → W → X * N * W).
Local Abbreviation run p := (run answer notick p).

(** Nothing was asked of the environment but, at most, the order of a hash map. *)
Definition at_most_seed (w w' : W) : Prop := w' = w ∨ w' = (answer nat HashSeed w).2.

(** [p] returns, leaves the state [s'], and spawns [ts]; it sends nothing. *)
Definition does (p : node_prog unit) (s : node_state) (w : W) (s' : node_state)
    (ts : list task) : Prop :=
  ∃ w', at_most_seed w w' ∧ run p s w = Ran (Returned tt) s' w' ts.

(** A frame has been handled and acknowledged: the state becomes [s'], [ts] are spawned,
    then the empty message is sent on the session the frame came from, once, and the
    session as that leaves it is returned. *)
Definition acknowledges (p : node_prog Session) (ses : Session) (s : node_state) (w : W)
    (s' : node_state) (ts : list task) : Prop :=
  ∃ w1 r ses' w2, at_most_seed w w1 ∧
    run (session_send (T := task) ses []) s' w1 = Ran (Returned (r, ses')) s' w2 [] ∧
    run p s w = Ran (Returned ses') s' w2 ts.

Lemma run_session_send ses m s w :
  ∃ r ses' w', run (session_send (T := task) ses m) s w = Ran (Returned (r, ses')) s w' [].
Proof.
  destruct (run_total (T := task) answer notick (session_send ses m) s w) as [[r ses'] Hr];
    [apply total_session_send|].
  destruct (run_safe (λ x, x = s) (λ _ : task, False) answer notick (λ _ _ H, H) (session_send ses m)
    (λ _, True) s w) as (Hs & Hts & _); [apply safe_session_send|done|].
  exists r, ses', (r_env (run (session_send (T := task) ses m) s w)).
  destruct (run (session_send (T := task) ses m) s w) as [f s' w' ts]; cbn in *. subst.
  destruct ts as [|t ts]; [done|]. by inversion Hts.
Qed.

Lemma acknowledges_leaves p ses s w s' ts :
  acknowledges p ses s w s' ts → r_shared (run p s w) = s' ∧ r_spawned (run p s w) = ts.
Proof. by intros (w1 & r & ses' & w2 & _ & _ & ->). Qed.

Lemma acknowledges_ack ses s w : acknowledges (ack ses) ses s w s [].
Proof.
  destruct (run_session_send ses [] s w) as (r & ses' & w' & Hr).
  exists w, r, ses', w'. split; [by left|]. split; [done|]. unfold ack. by rewrite run_bind, Hr.
Qed.

Lemma does_acked (p : node_prog unit) ses s w s' ts :
  does p s w s' ts → acknowledges (p ;; ack ses) ses s w s' ts.
Proof.
  intros (w1 & Hw & Hp). destruct (run_session_send ses [] s' w1) as (r & ses' & w' & Hr).
  exists w1, r, ses', w'. split; [done|]. split; [done|]. unfold ack.
  rewrite run_bind, Hp. cbn [r_final r_shared r_env r_spawned]. rewrite run_bind, Hr.
  unfold add_spawned. cbn. by rewrite app_nil_r.
Qed.

Lemma does_nothing s w : does (Ret tt) s w s [].
Proof. exists w. split; [by left|done]. Qed.

(** ** Relaying *)

Definition send_task (body : list byte) (msg_id : u64)
    (x : PeerId * list PeerAnnouncement) : task := TSend x.2 body x.1 msg_id.

Lemma run_spawn_sends {W'} (answer' : ∀ X, env_op X → W' → X * N * W') tick l body id s w :
  Effects.run answer' tick (spawn_sends l body id) s w = Ran (Returned tt) s w (send_task body id <$> l).
Proof.
  induction l as [|[p anns] l IH]; cbn [spawn_sends]; [done|].
  rewrite run_bind. simpl. by rewrite IH.
Qed.

(** One send of [body] to every peer of the table that is neither the sender nor this
    node, to all its addresses. *)
Definition relay_tasks (s : node_state) (sender : PeerId) (body : list byte) (id : u64)
    (ts : list task) : Prop :=
  ts ≡ₚ (λ '(p, anns), TSend anns body p id) <$>
    filter (λ x, x.1 ≠ sender ∧ x.1 ≠ peer_id me) (map_to_list (peers s)).

Lemma relay_to_spec sender p : relay_to me sender p = true ↔ p ≠ sender ∧ p ≠ peer_id me.
Proof. unfold relay_to. rewrite andb_true_iff, !negb_true_iff, !bool_decide_eq_false. done. Qed.

Lemma does_relay body id sender s w :
  ∃ ts, relay_tasks s sender body id ts ∧
        does (spawn_relay_to_neighbors me body id sender) s w s ts.
Proof.
  unfold spawn_relay_to_neighbors, does, at_most_seed. cbn [bind call]. cbn [Effects.run].
  destruct (answer nat HashSeed w) as [[seed d] w']. cbn [notick bind read lock Effects.run fst snd].
  exists (send_task body id <$> neighbors (relay_to me sender) seed s). split.
  - unfold relay_tasks, neighbors. rewrite hash_iter_perm. unfold send_task.
    rewrite (list_filter_iff _ (λ x, x.1 ≠ sender ∧ x.1 ≠ peer_id me))
      by (intros; apply relay_to_spec).
    apply reflexive_eq. apply list_fmap_ext. by intros ? [].
  - exists w'. rewrite run_spawn_sends. auto.
Qed.

Lemma relay_tasks_spec s sender body id ts t :
  relay_tasks s sender body id ts →
  t ∈ ts ↔ ∃ p anns, t = TSend anns body p id ∧ peers s !! p = Some anns ∧
                     p ≠ sender ∧ p ≠ peer_id me.
Proof.
  intros ->. rewrite list_elem_of_fmap. split.
  - intros ([p anns] & -> & [[? ?] Hx%elem_of_map_to_list]%list_elem_of_filter). eauto 10.
  - intros (p & anns & -> & Hp & ? & ?). exists (p, anns). split; [done|].
    apply list_elem_of_filter. by rewrite elem_of_map_to_list.
Qed.

(** ** Parsing what a sender framed *)

Lemma length_id_bytes id : length (u64_to_be_bytes id) = 8.
Proof. apply length_to_be. Qed.

Lemma parse_header_frame id flag rest :
  parse_header (frame_message id (flag :: rest)) = Val (id, flag).
Proof.
  destruct (parse_header_Val (frame_message id (flag :: rest))) as (f & -> & Hf).
  { unfold frame_message. rewrite length_app, length_id_bytes. simpl. lia. }
  unfold frame_message in *.
  rewrite lookup_app_r in Hf by (rewrite length_id_bytes; lia).
  rewrite length_id_bytes in Hf. injection Hf as ->.
  rewrite take_app_length' by (by rewrite length_id_bytes). by rewrite u64_from_to_be.
Qed.

Lemma length_frame id flag rest : length (frame_message id (flag :: rest)) = 9 + length rest.
Proof. unfold frame_message. rewrite length_app, length_id_bytes. done. Qed.

Lemma drop_frame n id flag rest :
  drop (9 + n) (frame_message id (flag :: rest)) = drop n rest.
Proof.
  unfold frame_message. rewrite drop_app_ge by (rewrite length_id_bytes; lia).
  rewrite length_id_bytes. by replace (9 + n - 8) with (S n) by lia.
Qed.

Lemma lookup_frame n id flag rest :
  frame_message id (flag :: rest) !! (9 + n) = rest !! n.
Proof.
  unfold frame_message. rewrite lookup_app_r by (rewrite length_id_bytes; lia).
  rewrite length_id_bytes. by replace (9 + n - 8) with (S n) by lia.
Qed.

Lemma parse_routed_frame id flag dest hop rest :
  parse_routed (frame_message id (routed_frame flag dest hop rest)) =
  Val (dest, byte_min hop MAX_TTL, rest).
Proof.
  unfold routed_frame. set (tail := array_to_list (PeerId_as_bytes dest) ++ hop :: rest).
  assert (length (array_to_list (PeerId_as_bytes dest)) = 32) as H32 by apply array_length.
  destruct (parse_routed_Val (frame_message id (flag :: tail))) as (d & h & Hd & Hh & ->).
  { rewrite length_frame. unfold tail. rewrite length_app. simpl. lia. }
  change 9 with (9 + 0) in Hd. rewrite drop_frame in Hd. change 41 with (9 + 32) in Hh.
  rewrite lookup_frame in Hh. change 42 with (9 + 33). rewrite drop_frame.
  unfold tail in *. rewrite drop_0, take_app_length' in Hd by done.
  apply array_eq in Hd as ->. rewrite lookup_app_r, H32 in Hh by lia. injection Hh as ->.
  rewrite drop_app_ge by lia. rewrite H32. by destruct dest.
Qed.

(** ** The branches *)

(** A frame long enough to carry a route flag goes to that flag's code. *)
Lemma dispatch_flag sender id flag rest ses :
  dispatch_payload me sender (frame_message id (flag :: rest)) ses =
  if decide (flag = x00) then
    dispatch_direct sender id (frame_message id (flag :: rest)) ;; ack ses
  else if decide (flag = x01) then
    if length rest <? 33 then ack ses
    else dispatch_routed me sender id (frame_message id (flag :: rest)) ;; ack ses
  else if decide (flag = x02) then
    dispatch_announcement me sender id (frame_message id (flag :: rest)) ;; ack ses
  else if decide (flag = x03) then
    if length rest <? 65 then ack ses
    else dispatch_sealed me sender id (frame_message id (flag :: rest)) ;; ack ses
  else ack ses.
Proof.
  unfold dispatch_payload. rewrite length_frame, parse_header_frame. done.
Qed.

Lemma length_routed_frame flag dest hop rest :
  routed_frame flag dest hop rest =
    flag :: array_to_list (PeerId_as_bytes dest) ++ hop :: rest ∧
  length (array_to_list (PeerId_as_bytes dest) ++ hop :: rest) = 33 + length rest.
Proof. split; [done|]. rewrite length_app, array_length. simpl. lia. Qed.

Lemma dispatch_flag_routed sender id dest hop rest ses :
  dispatch_payload me sender (frame_message id (routed_frame x01 dest hop rest)) ses =
  (dispatch_routed me sender id (frame_message id (routed_frame x01 dest hop rest)) ;; ack ses).
Proof.
  destruct (length_routed_frame x01 dest hop rest) as [-> Hl].
  rewrite dispatch_flag, Hl. rewrite decide_False, decide_True by done.
  by rewrite (proj2 (Nat.ltb_ge _ _)) by lia.
Qed.

Lemma dispatch_flag_sealed sender id dest hop rest ses : 32 ≤ length rest →
  dispatch_payload me sender (frame_message id (routed_frame x03 dest hop rest)) ses =
  (dispatch_sealed me sender id (frame_message id (routed_frame x03 dest hop rest)) ;; ack ses).
Proof.
  intros Hr. destruct (length_routed_frame x03 dest hop rest) as [-> Hl].
  rewrite dispatch_flag, Hl. rewrite !decide_False, decide_True by done.
  by rewrite (proj2 (Nat.ltb_ge _ _)) by lia.
Qed.

(** After the routed check. *)
Definition checked (s : node_state) (id : u64) : bool * node_state :=
  let '(dup, c) := check_and_insert_routed (dedup s) (clock s) id in (dup, set_dedup c s).

Lemma run_check_routed {A} (f : bool → node_prog A) s w id :
  run (bind (check_routed id) f) s w = run (f (checked s id).1) (checked s id).2 w.
Proof.
  unfold check_routed, checked. cbn [bind lock Effects.run].
  by destruct (check_and_insert_routed _ _ _).
Qed.

Lemma peers_checked s id : peers (checked s id).2 = peers s.
Proof. unfold checked. by destruct (check_and_insert_routed _ _ _). Qed.

Lemma relay_tasks_checked s sender body id ts :
  relay_tasks (checked s id).2 sender body id ts ↔ relay_tasks s sender body id ts.
Proof. unfold relay_tasks, neighbors. by rewrite peers_checked. Qed.

(** The relaying branch: once per identifier, one hop less. *)
Lemma does_relay_routed flag sender id dest hop rest s w : hop ≠ x00 →
  ∃ ts, does (relay_routed me flag sender id dest hop rest) s w (checked s id).2 ts ∧
    if (checked s id).1 then ts = []
    else relay_tasks s sender (routed_frame flag dest (byte_pred hop) rest) id ts.
Proof.
  intros Hh. unfold relay_routed, does. setoid_rewrite run_check_routed.
  destruct (checked s id).1; cbn [negb].
  - exists []. split; [apply does_nothing|done].
  - destruct (hop_down_Val hop Hh) as [-> _]. cbn [lift bind].
    destruct (does_relay (routed_frame flag dest (byte_pred hop) rest) id sender
      (checked s id).2 w) as (ts & Hts & Hd).
    exists ts. split; [exact Hd|]. by apply relay_tasks_checked.
Qed.

Lemma does_direct sender id data ses s w :
  let '(dup, c) := check_and_insert (dedup s) (clock s) sender id in
  acknowledges (dispatch_payload me sender (frame_message id (direct_frame data)) ses) ses s w
    (if dup then set_dedup c s else deliver sender data (set_dedup c s)) [].
Proof.
  destruct (check_and_insert (dedup s) (clock s) sender id) as [dup c] eqn:Hc.
  unfold direct_frame. rewrite dispatch_flag, decide_True by done. apply does_acked.
  unfold dispatch_direct. rewrite slice_from_Val by (rewrite length_frame; lia).
  rewrite (drop_frame 0), drop_0. unfold does, check_direct. cbn [lift bind lock Effects.run].
  rewrite Hc. exists w. split; [by left|]. by destruct dup.
Qed.

(** What the handler is given. *)
Lemma delivered_deliver p data s :
  delivered (deliver p data s) = delivered s ++ if handler s then [(p, data)] else [].
Proof. unfold deliver. destruct (handler s); [done|]. by rewrite app_nil_r. Qed.

(** C18. A direct frame: whatever the network does, [dispatch_payload] returns; the message
    goes to the handler, if there is one, exactly when its (sender, identifier) pair was
    not seen within the deduplication window; the pair is recorded, nothing is relayed, and
    the frame is acknowledged, also when it is a repetition: the empty message is sent on
    the session, and nothing else. *)
Theorem dispatch_direct_spec sender id data ses s w :
  let '(dup, c) := check_and_insert (dedup s) (clock s) sender id in
  let s' := if dup then set_dedup c s else deliver sender data (set_dedup c s) in
  acknowledges (dispatch_payload me sender (frame_message id (direct_frame data)) ses) ses s w s' [] ∧
  delivered s' = delivered s ++ if negb dup && handler s then [(sender, data)] else [].
Proof.
  pose proof (does_direct sender id data ses s w) as Hd.
  destruct (check_and_insert _ _ _ _) as [[] c]; (split; [exact Hd|]).
  - by rewrite app_nil_r.
  - by rewrite delivered_deliver.
Qed.

Lemma does_routed sender id dest hop rest ses s w :
  let p := dispatch_payload me sender (frame_message id (routed_frame x01 dest hop rest)) ses in
  let hop' := byte_min hop MAX_TTL in
  let '(dup, s') := checked s id in
  if decide (dest = peer_id me) then
    acknowledges p ses s w (if dup then s' else deliver sender rest s') []
  else if decide (hop' = x00) then acknowledges p ses s w s []
  else ∃ ts, acknowledges p ses s w s' ts ∧
    if dup then ts = []
    else relay_tasks s sender (routed_frame x01 dest (byte_pred hop') rest) id ts.
Proof.
  cbv zeta. rewrite dispatch_flag_routed. unfold dispatch_routed. rewrite parse_routed_frame.
  cbn [lift bind]. pose proof (does_relay_routed x01 sender id dest (byte_min hop MAX_TTL)
    rest s w) as Hrelay.
  destruct (checked s id) as [dup s'] eqn:Hck. destruct (decide _) as [_|_].
  - apply does_acked. exists w. split; [by left|]. rewrite run_check_routed, Hck. by destruct dup.
  - destruct (decide _) as [_|Hh].
    + apply does_acked, does_nothing.
    + destruct (Hrelay Hh) as (ts & Hd & Hts). exists ts. split; [by apply does_acked|done].
Qed.

(** C19. A routed frame: at its destination it is delivered once per identifier;
    elsewhere it is dropped when its TTL is spent, and otherwise, once per
    identifier, handed on unchanged but for a TTL of one less (first cut to 7),
    to every known peer except the sender and this node. In every case it is acknowledged
    with the empty message, once. *)
Theorem dispatch_routed_spec sender id dest hop rest ses s w :
  let p := dispatch_payload me sender (frame_message id (routed_frame x01 dest hop rest)) ses in
  let hop' := byte_min hop MAX_TTL in
  let '(dup, s') := checked s id in
  if decide (dest = peer_id me) then
    acknowledges p ses s w (if dup then s' else deliver sender rest s') []
  else if decide (hop' = x00) then acknowledges p ses s w s []
  else ∃ ts, acknowledges p ses s w s' ts ∧
    if dup then ts = []
    else relay_tasks s sender (routed_frame x01 dest (byte_pred hop') rest) id ts.
Proof. exact (does_routed sender id dest hop rest ses s w). Qed.

Lemma relay_tasks_registry s sender body id ts r :
  relay_tasks (set_registry r s) sender body id ts ↔ relay_tasks s sender body id ts.
Proof. done. Qed.

Lemma decode_key_frame p key hop id :
  slice_from (frame_message id (encode_key_announcement p key hop)) 9 =
    Val (array_to_list (PeerId_as_bytes p) ++ array_to_list key ++ [hop]) ∧
  decode_key_announcement (array_to_list (PeerId_as_bytes p) ++ array_to_list key ++ [hop]) =
    Val (Some (p, key, hop)).
Proof.
  unfold encode_key_announcement. split.
  - rewrite slice_from_Val by (rewrite length_frame; lia). by rewrite (drop_frame 0), drop_0.
  - destruct (decode_key_total (array_to_list (PeerId_as_bytes p) ++ array_to_list key ++ [hop]))
      as (r & -> & Hr). f_equal. by apply Hr.
Qed.

Lemma dispatch_flag_announcement sender id p key hop ses :
  dispatch_payload me sender (frame_message id (encode_key_announcement p key hop)) ses =
  (dispatch_announcement me sender id (frame_message id (encode_key_announcement p key hop)) ;;
   ack ses).
Proof.
  unfold encode_key_announcement. rewrite dispatch_flag.
  rewrite decide_False by done. rewrite decide_False by done. by rewrite decide_True.
Qed.

Lemma does_announcement sender id p key hop ses s w :
  let prog := dispatch_payload me sender (frame_message id (encode_key_announcement p key hop)) ses in
  let hop' := byte_min hop MAX_TTL in
  let '(dup, s') := checked s id in
  if decide (peer_id_from_public_key (array_to_list key) ≠ p) then acknowledges prog ses s w s []
  else if dup then acknowledges prog ses s w s' []
  else ∃ ts, acknowledges prog ses s w (set_registry (insert_gossip (key_registry s) p key) s') ts ∧
    if decide (hop' = x00) then ts = []
    else relay_tasks s sender (encode_key_announcement p key (byte_pred hop')) id ts.
Proof.
  cbv zeta. rewrite dispatch_flag_announcement. unfold dispatch_announcement. destruct (decode_key_frame p key hop id) as [-> Hd].
  cbn [lift bind]. rewrite Hd. cbn [lift bind].
  assert (key_registry (checked s id).2 = key_registry s) as Hreg
    by (unfold checked; by destruct (check_and_insert_routed _ _ _)).
  pose proof (λ body, does_relay body id sender
    (set_registry (insert_gossip (key_registry s) p key) (checked s id).2) w) as Hrelay.
  pose proof (λ body ts, relay_tasks_checked s sender body id ts) as Hpeers.
  destruct (checked s id) as [dup s'] eqn:Hck. simpl in Hreg, Hrelay, Hpeers.
  unfold validate_key_announcement. destruct (decide (_ ≠ p)) as [Hne|Heq].
  { rewrite bool_decide_eq_false_2 by done. apply does_acked, does_nothing. }
  rewrite bool_decide_eq_true_2 by (by apply dec_stable). cbn [negb].
  destruct dup.
  { apply does_acked. exists w. split; [by left|]. by rewrite run_check_routed, Hck. }
  destruct (decide _) as [_|Hh].
  - exists []. split; [|done]. apply does_acked. exists w. split; [by left|].
    rewrite run_check_routed, Hck. simpl. by rewrite Hreg.
  - destruct (hop_down_Val _ Hh) as [-> _]. cbn [lift bind].
    destruct (Hrelay (encode_key_announcement p key (byte_pred (byte_min hop MAX_TTL))))
      as (ts & Hts & Hdoes).
    exists ts. split; [|by apply Hpeers]. apply does_acked. unfold does.
    setoid_rewrite run_check_routed. rewrite Hck. cbn [fst snd]. unfold modify, lock.
    cbn [bind Effects.run fst snd]. rewrite Hreg. exact Hdoes.
Qed.

(** C20. A key announcement: a pair whose key does not hash to its PeerId changes
    nothing and goes no further; a valid one is stored as gossip once per
    identifier, and handed on with a TTL of one less (first cut to 7) while any
    is left, to every known peer except the sender and this node. In every case the
    frame is acknowledged. *)
Theorem dispatch_announcement_spec sender id p key hop ses s w :
  let prog := dispatch_payload me sender (frame_message id (encode_key_announcement p key hop)) ses in
  let hop' := byte_min hop MAX_TTL in
  let '(dup, s') := checked s id in
  if decide (peer_id_from_public_key (array_to_list key) ≠ p) then acknowledges prog ses s w s []
  else if dup then acknowledges prog ses s w s' []
  else ∃ ts, acknowledges prog ses s w (set_registry (insert_gossip (key_registry s) p key) s') ts ∧
    if decide (hop' = x00) then ts = []
    else relay_tasks s sender (encode_key_announcement p key (byte_pred hop')) id ts.
Proof. exact (does_announcement sender id p key hop ses s w). Qed.

Lemma parse_envelope_app sd msg :
  parse_envelope (array_to_list (PeerId_as_bytes sd) ++ msg) = Val (sd, msg).
Proof.
  assert (length (array_to_list (PeerId_as_bytes sd)) = 32) as H32 by apply array_length.
  destruct (parse_envelope_Val (array_to_list (PeerId_as_bytes sd) ++ msg)) as (a & Ha & ->).
  { rewrite length_app. lia. }
  rewrite take_app_length' in Ha by done. rewrite drop_app_length' by done.
  apply array_eq in Ha as ->. by destruct sd.
Qed.

(** The handler's share of a sealed message: the opened plaintext, under the name
    in the envelope, when that name's key is known and opens it. *)
Definition open_sealed (s : node_state) (sd : PeerId) (msg : list byte) (s' : node_state) :
    node_state :=
  match registry_get (key_registry s) sd with
  | Some key =>
    match unseal me sd key msg with Ok plaintext => deliver sd plaintext s' | Err _ => s' end
  | None => s'
  end.

Lemma does_sealed sender id dest hop sd msg ses s w :
  let envelope := array_to_list (PeerId_as_bytes sd) ++ msg in
  let p := dispatch_payload me sender (frame_message id (routed_frame x03 dest hop envelope)) ses in
  let hop' := byte_min hop MAX_TTL in
  let '(dup, s') := checked s id in
  if decide (dest = peer_id me) then
    acknowledges p ses s w (if dup then s' else open_sealed s sd msg s') []
  else if decide (hop' = x00) then acknowledges p ses s w s []
  else ∃ ts, acknowledges p ses s w s' ts ∧
    if dup then ts = []
    else relay_tasks s sender (routed_frame x03 dest (byte_pred hop') envelope) id ts.
Proof.
  cbv zeta. rewrite dispatch_flag_sealed by (rewrite length_app, array_length; lia).
  unfold dispatch_sealed. rewrite parse_routed_frame. cbn [lift bind].
  rewrite parse_envelope_app. cbn [lift bind].
  assert (key_registry (checked s id).2 = key_registry s) as Hreg
    by (unfold checked; by destruct (check_and_insert_routed _ _ _)).
  pose proof (does_relay_routed x03 sender id dest (byte_min hop MAX_TTL)
    (array_to_list (PeerId_as_bytes sd) ++ msg) s w) as Hrelay.
  destruct (checked s id) as [dup s'] eqn:Hck. simpl in Hreg. destruct (decide _) as [_|_].
  - apply does_acked. exists w. split; [by left|]. rewrite run_check_routed, Hck. simpl.
    unfold open_sealed. rewrite <-Hreg. destruct dup; simpl; [done|].
    destruct (registry_get _ _); simpl; [|done]. by destruct (unseal _ _ _ _).
  - destruct (decide _) as [_|Hh].
    + apply does_acked, does_nothing.
    + destruct (Hrelay Hh) as (ts & Hd & Hts). exists ts. split; [by apply does_acked|done].
Qed.

(** C21. A sealed frame: its destination opens it once per identifier, delivering
    the plaintext under the sealing sender's name only if it holds that sender's
    key and the message opens under it; any other node hands the envelope on
    byte for byte, with a TTL of one less (first cut to 7), or drops it when the
    TTL is spent. In every case the frame is acknowledged. *)
Theorem dispatch_sealed_spec sender id dest hop sd msg ses s w :
  let envelope := array_to_list (PeerId_as_bytes sd) ++ msg in
  let p := dispatch_payload me sender (frame_message id (routed_frame x03 dest hop envelope)) ses in
  let hop' := byte_min hop MAX_TTL in
  let '(dup, s') := checked s id in
  if decide (dest = peer_id me) then
    acknowledges p ses s w (if dup then s' else open_sealed s sd msg s') []
  else if decide (hop' = x00) then acknowledges p ses s w s []
  else ∃ ts, acknowledges p ses s w s' ts ∧
    if dup then ts = []
    else relay_tasks s sender (routed_frame x03 dest (byte_pred hop') envelope) id ts.
Proof. exact (does_sealed sender id dest hop sd msg ses s w). Qed.
End dispatch.

(** ** Every frame is answered *)

Section answered.
Context `{Crypto, Bp7, Snow, HashOrder} (me : NodeIdentity).

Lemma total_ack ses : total (ack ses).
Proof. unfold ack. apply total_bind; [apply total_session_send|]. by intros []. Qed.

Lemma total_spawn_sends l body id : total (spawn_sends l body id).
Proof. induction l as [|[p anns] l IH]; cbn [spawn_sends]; [done|]. exact IH. Qed.

Lemma total_relay body id sender : total (spawn_relay_to_neighbors me body id sender).
Proof. unfold spawn_relay_to_neighbors. simpl. intros seed s. apply total_spawn_sends. Qed.

Lemma total_relay_routed flag sender id dest hop rest : hop ≠ x00 →
  total (relay_routed me flag sender id dest hop rest).
Proof.
  intros Hh. unfold relay_routed. apply total_bind; [done|]. intros []; simpl; [done|].
  destruct (hop_down_Val hop Hh) as [-> _]. apply total_relay.
Qed.

Lemma total_dispatch_routed sender id m : 42 ≤ length m →
  total (dispatch_routed me sender id m).
Proof.
  intros Hl. unfold dispatch_routed. destruct (parse_routed_Val m Hl) as (d & h & _ & _ & ->).
  cbn [lift bind]. destruct (decide _).
  - apply total_bind; [done|]. by intros [].
  - destruct (decide _); [done|]. by apply total_relay_routed.
Qed.

Lemma total_dispatch_announcement sender id m : 9 ≤ length m →
  total (dispatch_announcement me sender id m).
Proof.
  intros Hl. unfold dispatch_announcement. rewrite slice_from_Val by done. cbn [lift bind].
  destruct (decode_key_total (drop 9 m)) as (r & -> & _). cbn [lift bind].
  destruct r as [[[p key] hop]|]; [|done]. destruct (negb _); [done|].
  apply total_bind; [done|]. intros []; [done|]. apply total_bind; [done|]. intros _.
  destruct (decide _) as [|Hh]; [done|]. destruct (hop_down_Val _ Hh) as [-> _].
  apply total_relay.
Qed.

Lemma total_dispatch_sealed sender id m : 74 ≤ length m →
  total (dispatch_sealed me sender id m).
Proof.
  intros Hl. unfold dispatch_sealed.
  destruct (parse_routed_Val m) as (d & h & _ & _ & ->); [lia|]. cbn [lift bind].
  destruct (parse_envelope_Val (drop 42 m)) as (sd & _ & ->); [rewrite length_drop; lia|].
  cbn [lift bind]. destruct (decide _).
  - apply total_bind; [done|]. intros []; [done|]. apply total_bind; [done|].
    intros [key|]; [|done]. by destruct (unseal _ _ _ _).
  - destruct (decide _); [done|]. by apply total_relay_routed.
Qed.

Lemma total_dispatch sender m ses : total (dispatch_payload me sender m ses).
Proof.
  unfold dispatch_payload. pose proof (total_ack ses).
  destruct (Nat.ltb_spec (length m) 9); [done|].
  destruct (parse_header_Val m) as (flag & -> & _); [done|]. cbn [lift bind].
  destruct (decide _).
  { apply total_bind; [|done]. unfold dispatch_direct. rewrite slice_from_Val by done.
    apply total_bind; [done|]. intros data. apply total_bind; [done|]. by intros []. }
  destruct (decide _).
  { destruct (Nat.ltb_spec (length m) (9 + 32 + 1)); [done|].
    apply total_bind; [apply total_dispatch_routed; lia|done]. }
  destruct (decide _); [by apply total_bind; [apply total_dispatch_announcement|]|].
  destruct (decide _); [|done].
  destruct (Nat.ltb_spec (length m) (9 + 32 + 1 + 32)); [done|].
  apply total_bind; [apply total_dispatch_sealed; lia|done].
Qed.

(** Every frame is answered: on any bytes whatever, with any environment,
    [dispatch_payload] returns (it neither panics nor waits for more than the
    calls it makes), so the receive loop goes on to the next frame. *)
Theorem dispatch_total {W} (answer : ∀ X, env_op X → W → X * N * W) tick sender m ses s (w : W) :
  ∃ ses', r_final (run answer tick (dispatch_payload me sender m ses) s w) = Returned ses'.
Proof. apply run_total, total_dispatch. Qed.
End answered.

(** ** Sealed delivery, end to end *)

Section sealed.
Context `{Crypto, Bp7, Snow, !SnowLaws, HashOrder}.

(** End-to-end sealing: what [send_routed_sealed] seals for a destination is,
    when its frame reaches that destination, over whatever relays and with
    whatever TTL left, handed to the handler as the original payload under the
    original sender's PeerId, provided the destination knows the sender's key
    and has not seen the identifier. *)
Theorem sealed_end_to_end (ka kb : array 32) ida idb entropy d
    {W} (answer : ∀ X, env_op X → W → X * N * W) relay hop id ses s (w : W)
    (Ha : NodeIdentity_from_bytes (array_to_list ka) = Ok ida)
    (Hb : NodeIdentity_from_bytes (array_to_list kb) = Ok idb)
    (Hd : (length d + 48 ≤ NOISE_MSG_MAX)%nat)
    (Hkey : registry_get (key_registry s) (peer_id ida) = Some (x25519_public ka))
    (Hhandler : handler s = true) (Hfresh : (checked s id).1 = false) :
  ∃ sealed, seal entropy ida (x25519_public kb) d = Ok sealed ∧
    let envelope := array_to_list (PeerId_as_bytes (peer_id ida)) ++ sealed in
    let r := run answer notick (dispatch_payload idb relay
               (frame_message id (routed_frame x03 (peer_id idb) hop envelope)) ses) s w in
    delivered (r_shared r) = delivered s ++ [(peer_id ida, d)] ∧ r_spawned r = [].
Proof.
  destruct (seal_opens ka kb ida idb entropy d Ha Hb Hd) as (sealed & Hs & Hu & _).
  exists sealed. split; [done|].
  pose proof (does_sealed idb answer relay id (peer_id idb) hop (peer_id ida) sealed
    ses s w) as Hspec. cbv zeta in *.
  assert (handler (checked s id).2 = handler s ∧ delivered (checked s id).2 = delivered s)
    as [Hh Hdel] by (unfold checked; by destruct (check_and_insert_routed _ _ _)).
  destruct (checked s id) as [dup s'] eqn:Hck. simpl in Hfresh, Hh, Hdel. subst dup.
  rewrite decide_True in Hspec by done. destruct (acknowledges_leaves _ _ _ _ _ _ _ Hspec) as [-> ->].
  split; [|done]. unfold open_sealed. rewrite Hkey, Hu. unfold deliver.
  rewrite Hh, Hhandler. simpl. by rewrite Hdel.
Qed.
End sealed.

(** ** The reach of a flood *)

Section reach.
Context `{Crypto, Bp7, Snow, HashOrder}.

(** Some node, in some state, on receiving a frame with this body, spawns a send
    of that body. *)
Definition relayed (body body' : list byte) : Prop :=
  ∃ me W (answer : ∀ X, env_op X → W → X * N * W) sender id ses s (w : W) anns p,
    TSend anns body' p id ∈
      r_spawned (run answer notick (dispatch_payload me sender (frame_message id body) ses) s w).

(** The TTL byte of a routed, announcement or sealed body. *)
Definition body_hop (body : list byte) : option byte :=
  match body with
  | flag :: rest => if decide (flag = x02) then rest !! 64 else rest !! 32
  | [] => None
  end.

Lemma body_hop_routed flag dest hop rest : flag ≠ x02 →
  body_hop (routed_frame flag dest hop rest) = Some hop.
Proof.
  intros Hf. unfold body_hop, routed_frame. rewrite decide_False by done.
  rewrite lookup_app_r by (rewrite array_length; lia). by rewrite array_length.
Qed.

Lemma body_hop_announcement p key hop :
  body_hop (encode_key_announcement p key hop) = Some hop.
Proof.
  unfold body_hop, encode_key_announcement. rewrite decide_True by done.
  rewrite app_assoc, lookup_app_r by (rewrite length_app, !array_length; lia).
  by rewrite length_app, !array_length.
Qed.

Lemma routed_form flag rest : 33 ≤ length rest →
  ∃ dest hop app, flag :: rest = routed_frame flag dest hop app ∧ length rest = 33 + length app.
Proof.
  intros Hl. destruct (try_into_is_Some 32 (take 32 rest)) as (d & _ & Hd).
  { rewrite length_take. lia. }
  destruct (lookup_lt_is_Some_2 rest 32) as [hop Hh]; [lia|].
  exists (PeerId_from_bytes d), hop, (drop 33 rest). unfold routed_frame. simpl. rewrite Hd.
  rewrite <-(drop_S _ _ _ Hh), take_drop, length_drop. split; [done|lia].
Qed.

(** What a relay does to the TTL. *)
Definition hop_step (hop hop' : byte) : Prop :=
  (byte_to_Z hop' + 1 = Z.min (byte_to_Z hop) 7)%Z.

Lemma hop_step_pred hop : byte_min hop MAX_TTL ≠ x00 →
  hop_step hop (byte_pred (byte_min hop MAX_TTL)).
Proof.
  intros Hh. unfold hop_step. destruct (hop_down_Val _ Hh) as [_ ->].
  rewrite byte_to_Z_min. change (byte_to_Z MAX_TTL) with 7%Z. lia.
Qed.

Lemma relay_tasks_body me s sender body id ts anns body' p :
  relay_tasks me s sender body id ts → TSend anns body' p id ∈ ts → body' = body.
Proof.
  intros Hts Hin. apply (relay_tasks_spec me s sender body id ts _ Hts) in Hin
    as (? & ? & [= -> -> ->] & _). done.
Qed.

Lemma relayed_routed sender me id dest hop app ses s {W}
    (answer : ∀ X, env_op X → W → X * N * W) (w : W) anns body' p :
  TSend anns body' p id ∈ r_spawned (run answer notick
    (dispatch_payload me sender (frame_message id (routed_frame x01 dest hop app)) ses) s w) →
  ∃ hop', body_hop body' = Some hop' ∧ hop_step hop hop'.
Proof.
  pose proof (does_routed me answer sender id dest hop app ses s w) as Hspec.
  cbv zeta in Hspec. destruct (checked s id) as [dup s'].
  destruct (decide _) as [_|_]; [by destruct (acknowledges_leaves _ _ _ _ _ _ _ Hspec) as [_ ->]; intros ?%elem_of_nil|].
  destruct (decide _) as [_|Hh]; [by destruct (acknowledges_leaves _ _ _ _ _ _ _ Hspec) as [_ ->]; intros ?%elem_of_nil|].
  destruct Hspec as (ts & [_ ->]%acknowledges_leaves & Hts).
  destruct dup; [by rewrite Hts; intros ?%elem_of_nil|].
  intros Hin. eapply relay_tasks_body in Hin; [|exact Hts]. subst body'.
  eexists. split; [by apply body_hop_routed|by apply hop_step_pred].
Qed.

Lemma relayed_sealed sender me id dest hop sd msg ses s {W}
    (answer : ∀ X, env_op X → W → X * N * W) (w : W) anns body' p :
  TSend anns body' p id ∈ r_spawned (run answer notick
    (dispatch_payload me sender (frame_message id
      (routed_frame x03 dest hop (array_to_list (PeerId_as_bytes sd) ++ msg))) ses) s w) →
  ∃ hop', body_hop body' = Some hop' ∧ hop_step hop hop'.
Proof.
  pose proof (does_sealed me answer sender id dest hop sd msg ses s w) as Hspec.
  cbv zeta in Hspec. destruct (checked s id) as [dup s'].
  destruct (decide _) as [_|_]; [by destruct (acknowledges_leaves _ _ _ _ _ _ _ Hspec) as [_ ->]; intros ?%elem_of_nil|].
  destruct (decide _) as [_|Hh]; [by destruct (acknowledges_leaves _ _ _ _ _ _ _ Hspec) as [_ ->]; intros ?%elem_of_nil|].
  destruct Hspec as (ts & [_ ->]%acknowledges_leaves & Hts).
  destruct dup; [by rewrite Hts; intros ?%elem_of_nil|].
  intros Hin. eapply relay_tasks_body in Hin; [|exact Hts]. subst body'.
  eexists. split; [by apply body_hop_routed|by apply hop_step_pred].
Qed.

Lemma relayed_announcement sender me id q key hop ses s {W}
    (answer : ∀ X, env_op X → W → X * N * W) (w : W) anns body' p :
  TSend anns body' p id ∈ r_spawned (run answer notick
    (dispatch_payload me sender (frame_message id (encode_key_announcement q key hop)) ses) s w) →
  ∃ hop', body_hop body' = Some hop' ∧ hop_step hop hop'.
Proof.
  pose proof (does_announcement me answer sender id q key hop ses s w) as Hspec.
  cbv zeta in Hspec. destruct (checked s id) as [dup s'].
  destruct (decide (_ ≠ q)); [by destruct (acknowledges_leaves _ _ _ _ _ _ _ Hspec) as [_ ->]; intros ?%elem_of_nil|].
  destruct dup; [by destruct (acknowledges_leaves _ _ _ _ _ _ _ Hspec) as [_ ->]; intros ?%elem_of_nil|].
  destruct Hspec as (ts & [_ ->]%acknowledges_leaves & Hts).
  destruct (decide _) as [_|Hh]; [by rewrite Hts; intros ?%elem_of_nil|].
  intros Hin. eapply relay_tasks_body in Hin; [|exact Hts]. subst body'.
  eexists. split; [apply body_hop_announcement|by apply hop_step_pred].
Qed.

Lemma relayed_hop body body' : relayed body body' →
  ∃ hop hop', body_hop body = Some hop ∧ body_hop body' = Some hop' ∧ hop_step hop hop'.
Proof.
  intros (me & W & answer & sender & id & ses & s & w & anns & p & Hin).
  destruct (acknowledges_leaves _ _ _ _ _ _ _ (acknowledges_ack answer ses s w)) as [_ Hack].
  destruct body as [|flag rest].
  { unfold dispatch_payload, frame_message in Hin. rewrite app_nil_r, length_id_bytes in Hin.
    simpl in Hin. rewrite Hack in Hin. by apply elem_of_nil in Hin. }
  destruct (decide (flag = x00)) as [->|H00].
  { pose proof (does_direct me answer sender id rest ses s w) as Hd.
    destruct (check_and_insert _ _ _ _) as [dup c]. apply acknowledges_leaves in Hd as [_ Hd].
    unfold direct_frame in Hd. rewrite Hd in Hin. by apply elem_of_nil in Hin. }
  rewrite dispatch_flag in Hin. rewrite decide_False in Hin by done.
  destruct (decide (flag = x01)) as [->|H01].
  { destruct (Nat.ltb_spec (length rest) 33) as [|Hl].
    { rewrite Hack in Hin. by apply elem_of_nil in Hin. }
    destruct (routed_form x01 rest Hl) as (dest & hop & app & Heq & _).
    rewrite Heq, <-(dispatch_flag_routed me) in Hin.
    apply relayed_routed in Hin as (hop' & ? & ?). exists hop, hop'.
    rewrite Heq. split; [by apply body_hop_routed|done]. }
  destruct (decide (flag = x02)) as [->|H02].
  { destruct (decode_key_total rest) as (r & Hr & Hiff). destruct r as [[[q key] hop]|].
    - pose proof (proj1 (Hiff q key hop) eq_refl) as Heq.
      rewrite Heq, <-(dispatch_flag_announcement me) in Hin.
      apply relayed_announcement in Hin as (hop' & ? & ?). exists hop, hop'.
      rewrite Heq. split; [apply body_hop_announcement|done].
    - exfalso. unfold dispatch_announcement in Hin.
      rewrite slice_from_Val in Hin by (rewrite length_frame; lia).
      rewrite (drop_frame 0), drop_0 in Hin. cbn [lift bind] in Hin. rewrite Hr in Hin.
      cbn [lift bind] in Hin. rewrite Hack in Hin. by apply elem_of_nil in Hin. }
  destruct (decide (flag = x03)) as [->|H03].
  { destruct (Nat.ltb_spec (length rest) 65) as [|Hl].
    { rewrite Hack in Hin. by apply elem_of_nil in Hin. }
    destruct (routed_form x03 rest) as (dest & hop & app & Heq & Happ); [lia|].
    destruct (try_into_is_Some 32 (take 32 app)) as (sd & _ & Hsd).
    { rewrite length_take. lia. }
    rewrite Heq, <-(dispatch_flag_sealed me) in Hin by lia.
    assert (app = array_to_list (PeerId_as_bytes (PeerId_from_bytes sd)) ++ drop 32 app) as Henv
      by (simpl; by rewrite Hsd, take_drop).
    rewrite Henv in Hin. apply relayed_sealed in Hin as (hop' & ? & ?). exists hop, hop'.
    rewrite Heq. split; [by apply body_hop_routed|done]. }
  rewrite Hack in Hin. by apply elem_of_nil in Hin.
Qed.

(** C22. A flood dies out: however nodes are connected and whatever a malicious
    node put in the TTL byte, a frame is relayed at most seven times in a row,
    and each relay leaves a TTL at least one smaller, below seven. *)
Theorem flood_hop_bound body body' n (Hn : nsteps relayed n body body') :
  n ≤ 7 ∧ (0 < n → ∃ hop, body_hop body' = Some hop ∧ (byte_to_Z hop + Z.of_nat n <= 7)%Z).
Proof.
  assert (n = 0 ∨ ∃ hop, body_hop body' = Some hop ∧ (byte_to_Z hop + Z.of_nat n <= 7)%Z) as Hinv.
  { clear -Hn. revert body' Hn. induction n as [|n IH]; intros body' Hn; [by left|].
    right. apply nsteps_inv_r in Hn as (mid & Hmid & Hstep).
    apply relayed_hop in Hstep as (hop & hop' & Hm & Hb & Hst). unfold hop_step in Hst.
    exists hop'. split; [done|]. destruct (IH mid Hmid) as [->|(h & Hh & Hle)]; [lia|].
    simplify_eq. lia. }
  destruct Hinv as [->|(hop & Hh & Hle)]; [split; lia|].
  pose proof (byte_to_Z_range hop). split; [lia|]. eauto.
Qed.
End reach.
