(* ===== verification/Sending.v ===== *)
(** * What a send does

    The outcome of [Router::send] on the shared state, the order in which
    candidates are tried, and the refusals that happen before anything is sent. *)

From S2P Require Import Prelude RustStd Types Effects Env KeyRegistry Dedup Wire Bundle Session LinkCalls NodeState.
From S2P Require Import Router SendSafety Node.

(** ** Frame conditions *)

(** What neither a dial nor a send ever touches. *)
Definition rest_of (s : node_state) :=
  (transports s, known_addrs s, handler s, delivered s, dedup s, pending_direct s, pending_routed s).

Definition dial_frame (s0 s : node_state) : Prop :=
  rest_of s = rest_of s0 ∧ events s = events s0.

Definition rest_frame (s0 s : node_state) : Prop := rest_of s = rest_of s0.

#[export] Instance dial_frame_dial `{Crypto} s0 : DialInv (dial_frame s0).
Proof. split; intros ? ? **; assumption. Qed.

#[export] Instance rest_frame_dial `{Crypto} s0 : DialInv (rest_frame s0).
Proof. split; intros ? ? **; assumption. Qed.

#[export] Program Instance rest_frame_send `{Crypto} s0 : SendInv (rest_frame s0).
Next Obligation. done. Qed.
Next Obligation. done. Qed.

(** The events of a delivery. *)
Definition delivery_events (p : PeerId) (kind : TransportKind) (learned : option PublicKey) :
    list TransportEvent :=
  MessageDelivered p kind :: match learned with Some key => [KeyLearned p key] | None => [] end.

Section sending.
Context `{Crypto, Bp7, Snow, !SnowLaws} (me : NodeIdentity).
Context {W : Type} (answer : ∀ X, env_op X → W → X * N * W).
Local Abbreviation run p := (run answer node_tick p).

(** How a program may stop short of returning. *)
Definition stops (why : stuck) : Prop := why = Panicked → may_fail env_fails answer.

Lemma run_framed {A} (I : node_state → Prop) (p : node_prog A) s w :
  (∀ d s, I s → I (node_tick d s)) → sturdy env_fails I (λ _, False) p (λ _, True) → I s →
  I (r_shared (run p s w)) ∧ r_spawned (run p s w) = [] ∧
  match r_final (run p s w) with Returned _ => True | StuckAt why => stops why end.
Proof.
  intros Htick Hp Hs.
  destruct (run_sturdy env_fails I (λ _, False) answer node_tick Htick p _ s w Hp Hs)
    as (Hi & Hts & Hf). split_and!; [done| |done].
  destruct (r_spawned _) as [|t ts]; [done|]. by inversion Hts.
Qed.

Lemma run_dial {A} (p : node_prog A) s w :
  sturdy env_fails (dial_frame s) (λ _, False) p (λ _, True) →
  dial_frame s (r_shared (run p s w)) ∧ r_spawned (run p s w) = [] ∧
  match r_final (run p s w) with Returned _ => True | StuckAt why => stops why end.
Proof. intros Hp. by apply run_framed. Qed.

(** ** One attempt *)

(** A message has been acknowledged when the environment is [w']: on a session over a
    connection that transport [t] opened to [ann] the framed message was sent without
    error, and the next thing that happened is that the session gave a message within the
    time allowed for acknowledgements. *)
Definition acknowledged (t : tid) (ann : PeerAnnouncement) (m : list byte) (id : u64)
    (w' : W) : Prop :=
  ∃ w0 c ses1 s1 w1 ses2 plaintext ses3,
    (answer _ (TransportConnect t ann) w0).1.1 = Val (Ok c) ∧ inner (s_conn ses1) = c ∧
    let sent := run (session_send ses1 (frame_message id m) : node_prog _) s1 w1 in
    r_final sent = Returned (Ok tt, ses2) ∧
    let got := run (session_recv_timeout ACK_TIMEOUT ses2 : node_prog _)
                 (r_shared sent) (r_env sent) in
    r_final got = Returned (Some (Ok plaintext), ses3) ∧ r_env got = w'.

Lemma run_connect_ok t ann s w c :
  r_final (run (transport_connect t ann) s w) = Returned (Ok c) →
  (answer _ (TransportConnect t ann) w).1.1 = Val (Ok c).
Proof.
  cbn. destruct (answer _ (TransportConnect t ann) w) as [[[r|] d] w']; cbn; [|done].
  by intros [= ->].
Qed.

Lemma stays_exchange t owner ses :
  tells (exchange_addresses t owner ses) (λ _ ses', inner (s_conn ses') = inner (s_conn ses)).
Proof.
  intros local. cbn [bind]. eapply tells_result; [apply stays_session_send|].
  intros [r1 ses1] H4. eapply tells_result; [apply stays_session_recv_from|].
  intros [o ses2] H5. assert (inner (s_conn ses2) = inner (s_conn ses)) as H6 by (cbn in *; congruence).
  destruct o as [[bytes|e]|]; [|done|done].
  destruct (decode_addr_exchange bytes) as [[addrs|]|]; cbn; auto.
Qed.

Lemma try_send_acknowledged t ann m id p s w learned :
  r_final (run (try_send me t ann m id p) s w) = Returned (Ok learned) →
  acknowledged t ann m id (r_env (run (try_send me t ann m id p) s w)).
Proof.
  unfold try_send. cbn [bind read lock Effects.run fst snd].
  intros Hf. apply run_bind_returned in Hf as (raw & Hraw & Hf & ->).
  destruct raw as [c|e]; [|done]. apply run_connect_ok in Hraw.
  apply run_bind_returned in Hf as (r & Hr & Hf & ->).
  pose proof (run_result _ _ _ _ _ _ _ (stays_initiate me (BundleLayer_new c) _) Hr) as Hc.
  destruct r as [ses|e].
  2:{ apply run_bind_returned in Hf as (? & _ & Hf & _). done. }
  specialize (Hc ses eq_refl). apply run_bind_returned in Hf as (lk & _ & Hf & ->).
  apply run_bind_returned in Hf as (ses1 & He & Hf & ->).
  pose proof (run_result _ _ _ _ _ _ _ (stays_exchange t p ses) He) as Hc1.
  apply run_bind_returned in Hf as ([r2 ses2] & Hsend & Hf & ->). destruct r2 as [[]|]; [|done].
  apply run_bind_returned in Hf as ([o ses3] & Hgot & Hf & ->).
  destruct o as [[plaintext|]|]; [|done|done].
  eexists w, c, ses1, _, _, ses2, plaintext, ses3. split; [exact Hraw|]. split; [by rewrite Hc1|].
  split; [exact Hsend|]. split; [exact Hgot|done].
Qed.

(** The outcome of trying candidates: one of them had the message acknowledged, last, and
    the events of that delivery; or no event at all. *)
Definition attempt_outcome (l : list (tid * TransportKind * PeerAnnouncement)) (m : list byte)
    (id : u64) (p : PeerId) (s : node_state) (r : ran (T := task) (W := W) bool) : Prop :=
  rest_of (r_shared r) = rest_of s ∧ r_spawned r = [] ∧
  match r_final r with
  | Returned true =>
    ∃ t kind ann learned, (t, kind, ann) ∈ l ∧ acknowledged t ann m id (r_env r) ∧
      events (r_shared r) = events s ++ delivery_events p kind learned
  | Returned false => events (r_shared r) = events s
  | StuckAt why => stops why
  end.

Lemma run_try_candidates l m id p s w :
  attempt_outcome l m id p s (run (try_candidates me l m id p) s w).
Proof.
  revert s w. induction l as [|[[t kind] ann] l IH]; intros s w; cbn [try_candidates]; [done|].
  unfold attempt_outcome. rewrite run_bind.
  destruct (run_dial (try_send me t ann m id p) s w) as ((Hrest & Hev) & Hts & Hf).
  { apply safe_try_send. apply _. }
  pose proof (λ learned, try_send_acknowledged t ann m id p s w learned) as Hack.
  destruct (run (try_send me t ann m id p) s w) as [f1 s1 w1 ts1]; simpl in *. subst ts1.
  destruct f1 as [[learned|e]|why]; [| |done].
  - assert ((t, kind, ann) ∈ (t, kind, ann) :: l) as Hin by (apply elem_of_cons; auto).
    specialize (Hack learned eq_refl).
    destruct learned as [key|]; simpl; split_and!; try done;
      [exists t, kind, ann, (Some key)|exists t, kind, ann, None];
      rewrite Hev; [by rewrite <-app_assoc|done].
  - specialize (IH s1 w1). destruct (run (try_candidates me l m id p) s1 w1) as [f s' w' ts].
    unfold attempt_outcome in IH. simpl in *. rewrite Hrest, Hev in IH.
    destruct IH as (? & -> & IH). split_and!; [done..|].
    destruct f as [[]|]; [|done|done]. destruct IH as (t' & k' & a' & lk & Hin & He).
    exists t', k', a', lk. split; [apply elem_of_cons; auto|done].
Qed.

Lemma elem_of_candidates anns ts t kind ann :
  (t, kind, ann) ∈ candidates anns ts ↔
  ∃ e, e ∈ ts ∧ te_available e = true ∧ te_transport e = t ∧ te_kind e = kind ∧
       ann ∈ anns ∧ PeerAddress_kind (address ann) = kind.
Proof.
  unfold candidates. rewrite list_elem_of_In, in_flat_map. split.
  - intros (e & He & Hin). apply list_elem_of_In, list_elem_of_filter in He as [Ha He].
    apply list_elem_of_In in Hin. unfold dialable in Hin. apply list_elem_of_omap in Hin
      as (ann' & Hann & Hd). case_decide; simplify_eq. eauto 10.
  - intros (e & He & Ha & <- & <- & Hann & Hk). exists e. split.
    + apply list_elem_of_In, list_elem_of_filter. done.
    + apply list_elem_of_In, list_elem_of_omap. exists ann. by rewrite decide_True.
Qed.

(** ** All attempts *)

(** An available transport of the kind of one of the addresses. *)
Definition reaches (s : node_state) (anns : list PeerAnnouncement) (e : TransportEntry)
    (ann : PeerAnnouncement) : Prop :=
  e ∈ transports s ∧ te_available e = true ∧ ann ∈ anns ∧
  PeerAddress_kind (address ann) = te_kind e.

(** A delivery is by an available transport of the right kind, to one of the given
    addresses, and has been acknowledged; a failure leaves no event behind, and its error
    says whether there was anything to try. *)
Definition send_outcome (anns : list PeerAnnouncement) (m : list byte) (id : u64) (p : PeerId)
    (s : node_state) (r : ran (T := task) (W := W) (result unit)) : Prop :=
  rest_of (r_shared r) = rest_of s ∧ r_spawned r = [] ∧
  match r_final r with
  | Returned (Ok _) =>
    ∃ e ann learned, reaches s anns e ann ∧ acknowledged (te_transport e) ann m id (r_env r) ∧
      events (r_shared r) = events s ++ delivery_events p (te_kind e) learned
  | Returned (Err e) =>
    events (r_shared r) = events s ∧
    (e = NoTransportAvailable ∧ (∀ en ann, ¬ reaches s anns en ann) ∨
     e = DeliveryFailed ∧ ∃ en ann, reaches s anns en ann)
  | StuckAt why => stops why
  end.

Lemma reaches_candidates s anns e ann :
  reaches s anns e ann → (te_transport e, te_kind e, ann) ∈ candidates anns (transports s).
Proof. intros (? & ? & ? & ?). apply elem_of_candidates. eauto 10. Qed.

Lemma candidates_reach s anns t kind ann :
  (t, kind, ann) ∈ candidates anns (transports s) →
  ∃ e, reaches s anns e ann ∧ te_transport e = t ∧ te_kind e = kind.
Proof.
  intros (e & ? & ? & ? & ? & ? & ?)%elem_of_candidates. exists e. unfold reaches.
  split_and!; congruence.
Qed.

Lemma rest_of_transports s s' : rest_of s' = rest_of s → transports s' = transports s.
Proof. intros [=]. done. Qed.

(** Parts that only read the environment leave the state but for the clock. *)
Lemma run_sort l s w :
  dial_frame s (r_shared (run (sort_candidates l) s w)) ∧
  r_spawned (run (sort_candidates l) s w) = [] ∧
  (∃ l', r_final (run (sort_candidates l) s w) = Returned l' ∧ l' ≡ₚ l).
Proof.
  destruct (run_dial (sort_candidates l) s w) as (Hfr & Hts & _); [apply safe_sort_candidates|].
  split_and!; [done..|]. unfold sort_candidates. rewrite run_bind.
  assert (∃ ks, r_final (run (with_costs (λ c, c.1.1) l) s w) = Returned ks ∧ ks.*2 = l)
    as (ks & -> & Hks).
  { clear. revert s w. induction l as [|x l IH]; intros s w; [by exists []|].
    cbn [with_costs bind call Effects.run].
    destruct (answer _ (TransportCostOf x.1.1) w) as [[c d] w']. rewrite run_bind.
    destruct (IH (node_tick d s) w') as (ks & -> & Hks).
    exists ((cost_rank c, x) :: ks). split; [done|]. by rewrite fmap_cons, Hks. }
  simpl. eexists. split; [done|]. etrans; [apply fmap_Permutation, sort_by_key_perm|by rewrite Hks].
Qed.

(** Where there is something to try; [send_outcome] at the end of the attempts. *)
Lemma send_attempts_step n anns m id p s w :
  (∀ s' w', (∃ en ann, reaches s' anns en ann) →
     send_outcome anns m id p s' (run (send_attempts me n anns m id p) s' w')) →
  send_outcome anns m id p s (run (send_attempts me (S n) anns m id p) s w).
Proof.
  intros IH. cbn [send_attempts bind read lock Effects.run fst snd].
  destruct (candidates anns (transports s)) as [|[[t0 k0] a0] cs] eqn:Hc.
  { split_and!; [done..|]. split; [done|]. left. split; [done|].
    intros en ann Hr%reaches_candidates. rewrite Hc in Hr. by apply elem_of_nil in Hr. }
  assert (∃ en ann, reaches s anns en ann) as Hsome.
  { destruct (candidates_reach s anns t0 k0 a0) as (e & He & _); [|by eauto].
    rewrite Hc. apply elem_of_cons. by left. }
  rewrite <-Hc. clear Hc t0 k0 a0 cs. rewrite run_bind. unfold send_outcome.
  destruct (run_sort (candidates anns (transports s)) s w) as ((Hr1 & He1) & Ht1 & l' & Hf1 & Hp).
  destruct (run (sort_candidates _) s w) as [f1 s1 w1 ts1]; simpl in *. subst f1 ts1.
  rewrite run_bind.
  pose proof (run_try_candidates l' m id p s1 w1) as (Hr2 & Ht2 & Ho).
  destruct (run (try_candidates _ _ _ _ _) s1 w1) as [f2 s2 w2 ts2]; simpl in *. subst ts2.
  destruct f2 as [[]|why]; simpl.
  - destruct Ho as (t & kind & ann & learned & Hin & Hack & He). rewrite Hp in Hin.
    apply candidates_reach in Hin as (e & Hreach & <- & <-).
    split_and!; [congruence|done|]. exists e, ann, learned. rewrite He, He1. done.
  - rewrite run_bind.
    assert (∃ s3 w3, run (match n with 0 => Ret tt | S _ => call (Sleep RETRY_BACKOFF) end) s2 w2 =
      Ran (Returned tt) s3 w3 [] ∧ dial_frame s2 s3) as (s3 & w3 & -> & Hr3 & He3).
    { destruct n; simpl; [by exists s2, w2|].
      destruct (answer unit (Sleep RETRY_BACKOFF) w2) as [[[] d] w3]. by eexists _, _. }
    simpl. assert (transports s3 = transports s) as Hts by (apply rest_of_transports; congruence).
    assert (∀ en ann, reaches s3 anns en ann ↔ reaches s anns en ann) as Hsame
      by (intros; unfold reaches; by rewrite Hts).
    specialize (IH s3 w3). destruct IH as (IHr & IHt & IH).
    { destruct Hsome as (en & ann & ?). exists en, ann. by apply Hsame. }
    destruct (run (send_attempts me n anns m id p) s3 w3) as [f4 s4 w4 ts4].
    simpl in *. subst ts4. rewrite He3, Ho, He1 in IH. split_and!; [congruence|done|].
    destruct f4 as [[[]|e]|why]; [| |done].
    + destruct IH as (en & ann & learned & Hreach & IH). exists en, ann, learned.
      split; [by apply Hsame|done].
    + by setoid_rewrite Hsame in IH.
  - split_and!; [congruence|done|done].
Qed.

Lemma run_send_attempts n anns m id p s w :
  (n ≠ 0 ∨ ∃ en ann, reaches s anns en ann) →
  send_outcome anns m id p s (run (send_attempts me n anns m id p) s w).
Proof.
  revert s w. induction n as [|n IH]; intros s w Hn.
  - destruct Hn as [|Hr]; [done|]. split_and!; [done..|]. split; [done|]. by right.
  - apply send_attempts_step. auto.
Qed.

(** The identifier a send uses: the given one, or one made of the entropy it gets. *)
Definition chosen_id (mid : option u64) (w : W) : u64 :=
  match mid with
  | Some id => id
  | None => from_option message_id_of (u64_of_Z 0) (answer _ Entropy8 w).1.1
  end.

Lemma run_router_send anns m p mid s w :
  send_outcome anns m (chosen_id mid w) p s (run (router_send me anns m p mid) s w).
Proof.
  unfold router_send. cbn [bind read lock Effects.run fst snd].
  destruct (existsb te_available (transports s)) eqn:Hany; cbn [negb].
  2:{ split_and!; [done..|]. split; [done|]. left. split; [done|]. intros en ann (Hen & Hav & _).
      apply not_true_iff_false in Hany. apply Hany, existsb_exists. exists en.
      by rewrite <-list_elem_of_In. }
  destruct mid as [id|]; [by apply run_send_attempts; left|]. unfold chosen_id, new_message_id.
  cbn [bind call Effects.run].
  destruct (answer (option (array 8)) Entropy8 w) as [[[e|] d] w'] eqn:He; cbn [bind Effects.run fst snd from_option].
  - apply (run_send_attempts MAX_SEND_ATTEMPTS anns m (message_id_of e) p (node_tick d s) w').
    by left.
  - split_and!; [done..|]. cbn. intros _. exists _, Entropy8, w. by rewrite He.
Qed.

(** C23. The outcome of a send, against any network: it reports success only after an
    available transport of the kind of one of the peer's addresses opened a connection to
    that address, the framed message was sent on a session over it, and the session gave a
    message within the time allowed for acknowledgements; then exactly that delivery's
    events are fired. It fails with [NoTransportAvailable] exactly when no available
    transport is of the kind of an address, and otherwise with [DeliveryFailed], firing no
    event. Queues, caches, the handler and the transports are never touched; it panics
    only if a call fails. *)
Theorem router_send_outcome anns m p mid s w :
  send_outcome anns m (chosen_id mid w) p s (run (router_send me anns m p mid) s w).
Proof. apply run_router_send. Qed.

(** Sealed sends never fall back to plaintext: when the destination's key is
    not in the registry, [send_routed_sealed] fails with [KeyUnknown] at once,
    with no call to any transport and no change to the node. *)
Theorem sealed_needs_key `{HashOrder} dest payload s w
    (Hkey : registry_get (key_registry s) dest = None) :
  run (send_routed_sealed me dest payload) s w =
  Ran (Returned (Err (KeyUnknown dest))) s w [].
Proof. unfold send_routed_sealed. cbn [bind read lock Effects.run fst snd]. by rewrite Hkey. Qed.
End sending.

(** ** The order of candidates *)

Section order.
Context {W : Type} (answer : ∀ X, env_op X → W → X * N * W) (cost : tid → TransportCost).
Hypothesis cost_now : ∀ t w, (answer _ (TransportCostOf t) w).1.1 = cost t.
Local Abbreviation run p := (run answer node_tick p).

Lemma run_with_costs {A} (f : A → tid) l s w :
  r_final (run (with_costs f l) s w) =
  Returned ((λ x, (cost_rank (cost (f x)), x)) <$> l).
Proof.
  revert s w. induction l as [|x l IH]; intros s w; [done|].
  cbn [with_costs bind call Effects.run]. pose proof (cost_now (f x) w) as Hc.
  destruct (answer _ (TransportCostOf (f x)) w) as [[c d] w']. simpl in Hc. subst c.
  rewrite run_bind, IH. done.
Qed.

Lemma sort_by_key_fmap {A} (k : A → Z) (l : list A) :
  (sort_by_key fst ((λ x, (k x, x)) <$> l)).*2 = sort_by_key k l.
Proof.
  assert (∀ x (l : list A), (sort_insert fst (k x, x) ((λ y, (k y, y)) <$> l)) =
    (λ y, (k y, y)) <$> sort_insert k x l) as Hins.
  { intros x l'. induction l' as [|y l' IH]; simpl; [done|].
    destruct (k x <=? k y)%Z; [done|]. rewrite fmap_cons. f_equal. exact IH. }
  assert (sort_by_key fst ((λ x, (k x, x)) <$> l) = (λ x, (k x, x)) <$> sort_by_key k l) as ->.
  { induction l as [|x l IH]; [done|]. rewrite fmap_cons. unfold sort_by_key in *.
    cbn [foldr]. rewrite IH. apply Hins. }
  rewrite <-list_fmap_compose. apply list_fmap_id.
Qed.

(** Cheapest first: while transport costs hold still, a send's candidates are
    tried in non-decreasing order of cost, each candidate exactly once, equal
    costs in the order of registration and of the peer's addresses. *)
Theorem candidates_cheapest_first l s w :
  let key := λ c : tid * TransportKind * PeerAnnouncement, cost_rank (cost c.1.1) in
  ∃ l', r_final (run (sort_candidates l) s w) = Returned l' ∧ l' ≡ₚ l ∧
    StronglySorted (key_le key) l' ∧
    ∀ k, filter (λ c, key c = k) l' = filter (λ c, key c = k) l.
Proof.
  intros key. exists (sort_by_key key l). split_and!.
  - unfold sort_candidates. rewrite run_bind, run_with_costs.
    cbn [Effects.run r_final add_spawned]. f_equal. apply (sort_by_key_fmap key l).
  - apply sort_by_key_perm.
  - apply sort_by_key_sorted.
  - intros k. apply sort_by_key_stable.
Qed.
End order.
