(* ===== verification/Queues.v ===== *)
(** * Store and forward

    The queues of [store_forward] and the drains of [drain_direct_for_peer] and
    [drain_routed_all]: order, conservation of payloads, and the bound. *)

From S2P Require Import Prelude RustStd Types Effects Env KeyRegistry Dedup Wire Bundle Session NodeState.
From S2P Require Import Router SendSafety Node Sending.

(** ** Queue operations *)

Lemma requeue_spec p failures q :
  requeue p failures q !! p = Some (failures ++ default [] (q !! p)) ∧
  ∀ p', p' ≠ p → requeue p failures q !! p' = q !! p'.
Proof.
  unfold requeue. split; [|by intros; rewrite lookup_insert_ne].
  rewrite lookup_insert_eq. f_equal.
  assert (∀ l d : list stored, foldl (λ deque x, x :: deque) d l = reverse l ++ d) as Hf.
  { induction l as [|x l IH]; intros d; simpl; [done|]. rewrite IH.
    by rewrite reverse_cons, <-app_assoc. }
  by rewrite Hf, reverse_involutive.
Qed.

Lemma enqueue_spec max p x q :
  let old := default [] (q !! p) in
  let room := match max with Some m => length old <? m | None => true end in
  (enqueue max p x q).1 = room ∧
  (enqueue max p x q).2 !! p = Some (if room then old ++ [x] else old) ∧
  ∀ p', p' ≠ p → (enqueue max p x q).2 !! p' = q !! p'.
Proof.
  cbv zeta. unfold enqueue. destruct max as [m|]; simpl.
  - rewrite (Nat.ltb_antisym m (length _)). destruct (m <=? _); simpl.
    + split_and!; [done|by rewrite lookup_insert_eq|]. intros. by rewrite lookup_insert_ne.
    + split_and!; [done|by rewrite lookup_insert_eq|]. intros. by rewrite !lookup_insert_ne.
  - split_and!; [done|by rewrite lookup_insert_eq|]. intros. by rewrite !lookup_insert_ne.
Qed.

(** Queue order and bound, at each critical section: [store_forward] appends
    at the back exactly when the queue is below its bound (so it never takes a
    queue past it) and otherwise leaves it as it is; a drain's failures go back to
    the front in their old order, before whatever was queued meanwhile; neither
    touches another peer's queue. *)
Theorem queue_order max p x failures q :
  let old := default [] (q !! p) in
  (enqueue max p x q).2 !! p =
    Some (if match max with Some m => length old <? m | None => true end
          then old ++ [x] else old) ∧
  (∀ m, max = Some m → length old ≤ m →
     length (default [] ((enqueue max p x q).2 !! p)) ≤ m) ∧
  requeue p failures q !! p = Some (failures ++ old) ∧
  ∀ p', p' ≠ p → (enqueue max p x q).2 !! p' = q !! p' ∧ requeue p failures q !! p' = q !! p'.
Proof.
  cbv zeta. destruct (enqueue_spec max p x q) as (_ & He & Hne). cbv zeta in He.
  destruct (requeue_spec p failures q) as [Hr Hrne]. split_and!; [done| |done|auto].
  intros m -> Hm. rewrite He. simpl. destruct (Nat.ltb_spec (length (default [] (q !! p))) m).
  - rewrite length_app. simpl. lia.
  - done.
Qed.

(** ** Drains *)

(** The fate of the entries of a drained queue: [undelivered l fs] when [fs] are
    the entries of [l] that were neither expired nor accepted, in their order. *)
Inductive undelivered (dead : stored → bool) (accepted : stored → Prop) :
    list stored → list stored → Prop :=
| u_nil : undelivered dead accepted [] []
| u_expired x l fs : dead x = true → undelivered dead accepted l fs →
    undelivered dead accepted (x :: l) fs
| u_accepted x l fs : dead x = false → accepted x → undelivered dead accepted l fs →
    undelivered dead accepted (x :: l) fs
| u_failed x l fs : dead x = false → undelivered dead accepted l fs →
    undelivered dead accepted (x :: l) (x :: fs).

Lemma undelivered_sublist dead accepted l fs :
  undelivered dead accepted l fs → sublist fs l.
Proof. induction 1; by constructor. Qed.

Lemma undelivered_live dead accepted l fs x :
  undelivered dead accepted l fs → x ∈ l → dead x = true ∨ accepted x ∨ x ∈ fs.
Proof.
  induction 1; [by intros ?%elem_of_nil|..]; intros [->|Hin]%elem_of_cons; auto;
    rewrite ?elem_of_cons; naive_solver.
Qed.

(** The events of expiry, among those of a log. *)
Definition is_store_failed (e : TransportEvent) : bool :=
  match e with StoreFailed _ => true | _ => false end.

Definition expiries (evs : list TransportEvent) : list TransportEvent :=
  filter (λ e, is_store_failed e = true) evs.

Lemma expiries_delivery evs p kind learned :
  expiries (evs ++ delivery_events p kind learned) = expiries evs.
Proof.
  unfold expiries. rewrite filter_app. destruct learned; simpl; by rewrite app_nil_r.
Qed.

Section drains.
Context `{Crypto, Bp7, Snow, !SnowLaws, HashOrder} (me : NodeIdentity) (store_ttl : Z).
Context {W : Type} (answer : ∀ X, env_op X → W → X * N * W).
Local Abbreviation run p := (run answer node_tick p).

(** An attempt leaves queues alone and fires no expiry. *)
Definition quiet (p : node_prog bool) : Prop :=
  ∀ s w, ∃ b, r_final (run p s w) = Returned b ∧ r_spawned (run p s w) = [] ∧
    rest_of (r_shared (run p s w)) = rest_of s ∧
    expiries (events (r_shared (run p s w))) = expiries (events s).

(** Sends that return (the network does not leave one waiting for ever). *)
Definition sends_return : Prop :=
  ∀ anns m p id s w, ∃ r, r_final (run (router_send me anns m p (Some id)) s w) = Returned r.

Lemma quiet_ret b : quiet (Ret b).
Proof. intros s w. by exists b. Qed.

Lemma quiet_send anns m p id : sends_return →
  quiet (r ← router_send me anns m p (Some id); Ret (is_ok r)).
Proof.
  intros Hret s w. rewrite run_bind. destruct (Hret anns m p id s w) as [r Hr].
  destruct (run_router_send me answer anns m p (Some id) s w) as (Hrest & Hts & Ho).
  destruct (run (router_send me anns m p (Some id)) s w) as [f1 s1 w1 ts1]; simpl in *.
  subst f1 ts1. simpl. exists (is_ok r). split_and!; [done..|].
  destruct r as [[]|e].
  - destruct Ho as (? & ? & ? & _ & _ & ->). apply expiries_delivery.
  - by destruct Ho as [-> _].
Qed.

Lemma quiet_bind (p : node_prog bool) f : quiet p → (∀ b, quiet (f b)) → quiet (bind p f).
Proof.
  intros Hp Hf s w. rewrite run_bind. destruct (Hp s w) as (b & -> & -> & Hr & He).
  destruct (Hf b (r_shared (run p s w)) (r_env (run p s w))) as (b' & Hb' & Hts & Hr' & He').
  exists b'. destruct (run (f b) _ _); simpl in *. split_and!; congruence.
Qed.

Lemma quiet_send_to_all l m id : sends_return → quiet (send_to_all me l m id).
Proof.
  intros Hret. induction l as [|[p anns] l IH]; cbn [send_to_all]; [apply quiet_ret|].
  assert (quiet (b ← (r ← router_send me anns m p (Some id); Ret (is_ok r));
    rest ← send_to_all me l m id; Ret (b || rest))) as Hq.
  { apply quiet_bind; [by apply quiet_send|]. intros b. apply quiet_bind; [done|].
    intros b'. apply quiet_ret. }
  intros s w. destruct (Hq s w) as (b & Hb). rewrite !run_bind in Hb. rewrite !run_bind.
  destruct (run (router_send me anns m p (Some id)) s w) as [[r|why] s1 w1 ts1]; simpl in *;
    [|by destruct Hb].
  rewrite app_nil_r in Hb. by exists b.
Qed.

(** The loop of a drain. *)
Lemma run_drain_entries now owner attempt l s w :
  (∀ id m, quiet (attempt id m)) →
  let r := run (drain_entries store_ttl now owner attempt l) s w in
  ∃ fs, r_final r = Returned fs ∧ r_spawned r = [] ∧ rest_of (r_shared r) = rest_of s ∧
    undelivered (expired now store_ttl)
      (λ x, ∃ s w, r_final (run (attempt x.1.1 x.1.2) s w) = Returned true) l fs ∧
    expiries (events (r_shared r)) = expiries (events s) ++
      replicate (length (filter (λ x, expired now store_ttl x = true) l)) (StoreFailed owner).
Proof.
  intros Hq. revert s w. induction l as [|[[id m] t] l IH]; intros s w; cbn [drain_entries].
  { exists []. split_and!; [done..|constructor|by rewrite app_nil_r]. }
  rewrite filter_cons. destruct (expired now store_ttl (id, m, t)) eqn:Hx.
  - rewrite run_bind. cbn [bind modify lock Effects.run r_final r_shared r_env r_spawned fst snd].
    destruct (IH (fire (StoreFailed owner) s) w) as (fs & Hf & Hts & Hr & Hu & He).
    exists fs. destruct (run (drain_entries _ _ _ _ _) _ _); simpl in *.
    split_and!; [done..|by constructor|].
    rewrite He. unfold expiries. rewrite filter_app. simpl. by rewrite <-app_assoc.
  - rewrite run_bind. destruct (Hq id m s w) as (b & Hb & Hts1 & Hr1 & He1).
    assert (∃ s w, r_final (run (attempt id m) s w) = Returned b) as Hacc by eauto.
    destruct (run (attempt id m) s w) as [f1 s1 w1 ts1]; simpl in *. subst f1 ts1.
    rewrite run_bind. destruct (IH s1 w1) as (fs & Hf & Hts & Hr & Hu & He).
    destruct (run (drain_entries _ _ _ _ _) s1 w1) as [f2 s2 w2 ts2]; simpl in *. subst f2 ts2.
    simpl. eexists. split_and!; [done|done|congruence| |congruence].
    destruct b.
    + by apply u_accepted.
    + by apply u_failed.
Qed.

(** What a drain of one queue leaves: the undelivered entries, back in the queue
    in their order; one expiry event per expired entry. *)
Definition drained (queues : node_state → PendingStore) (owner : PeerId) (s s' : node_state)
    (accepted : stored → Prop) (l : list stored) : Prop :=
  ∃ fs, undelivered (expired (clock s) store_ttl) accepted l fs ∧
    queues s' !! owner = match fs with [] => None | _ => Some fs end ∧
    (∀ p, p ≠ owner → queues s' !! p = queues s !! p) ∧
    expiries (events s') = expiries (events s) ++
      replicate (length (filter (λ x, expired (clock s) store_ttl x = true) l))
        (StoreFailed owner).

Lemma undelivered_mono dead (acc acc' : stored → Prop) l fs :
  (∀ x, acc x → acc' x) → undelivered dead acc l fs → undelivered dead acc' l fs.
Proof. intros Hacc. induction 1; by constructor; auto. Qed.

(** The loop and the requeueing, for either store. *)
Section one_store.
Context (queues other : node_state → PendingStore).
Context (setq : (PendingStore → PendingStore) → node_state → node_state).
Hypothesis queues_setq : ∀ f s, queues (setq f s) = f (queues s).
Hypothesis other_setq : ∀ f s, other (setq f s) = other s.
Hypothesis events_setq : ∀ f s, events (setq f s) = events s.
Hypothesis queues_rest : ∀ s s', rest_of s = rest_of s' → queues s = queues s'.
Hypothesis other_rest : ∀ s s', rest_of s = rest_of s' → other s = other s'.

Lemma run_drain_store owner attempt l s0 s w :
  (∀ id m, quiet (attempt id m)) → queues s = delete owner (queues s0) →
  other s = other s0 → events s = events s0 →
  let r := run (failures ← drain_entries store_ttl (clock s0) owner attempt l;
                match failures with
                | [] => Ret tt
                | _ => modify (setq (requeue owner failures))
                end) s w in
  r_final r = Returned tt ∧
  drained queues owner s0 (r_shared r)
    (λ x, ∃ s w, r_final (run (attempt x.1.1 x.1.2) s w) = Returned true) l ∧
  other (r_shared r) = other s0.
Proof.
  intros Hq Hqs Hos Hes r. subst r. rewrite run_bind.
  destruct (run_drain_entries (clock s0) owner attempt l s w Hq)
    as (fs & Hf & Hts & Hr & Hu & He). cbv zeta in *.
  destruct (run (drain_entries _ _ _ _ _) _ w) as [f1 s1 w1 ts1]; simpl in *. subst f1 ts1.
  pose proof (queues_rest _ _ Hr) as Hq1. rewrite Hqs in Hq1.
  pose proof (other_rest _ _ Hr) as Ho1. rewrite Hos in Ho1. rewrite Hes in He.
  destruct fs as [|x fs]; simpl.
  - split_and!; [done| |done]. exists []. split_and!; [done|by rewrite Hq1, lookup_delete_eq| |done].
    intros p Hp. by rewrite Hq1, lookup_delete_ne.
  - split_and!; [done| |by rewrite other_setq]. exists (x :: fs).
    destruct (requeue_spec owner (x :: fs) (delete owner (queues s0))) as [Hrq Hne].
    rewrite lookup_delete_eq in Hrq. simpl in Hrq. rewrite app_nil_r in Hrq.
    split_and!; [done|by rewrite queues_setq, Hq1| |by rewrite events_setq].
    intros p Hp. rewrite queues_setq, Hq1, Hne, lookup_delete_ne by done. done.
Qed.
End one_store.

Lemma drained_mono queues owner s s' acc acc' l :
  (∀ x, acc x → acc' x) → drained queues owner s s' acc l → drained queues owner s s' acc' l.
Proof.
  intros Hacc (fs & Hu & Hrest). exists fs. split; [by eapply undelivered_mono|done].
Qed.

(** C24. A drain loses nothing: run alone, with sends that return, it ends, and
    each queued payload has then been acknowledged (under the identifier it was
    queued with), or has outlived the store's TTL and been reported by one
    [StoreFailed] event, or is back in the queue; what is back is in the order it
    was queued in, and no other queue changes. *)
Theorem drain_direct_conserves p l s w (Hret : sends_return)
    (Hq : pending_direct s !! p = Some l) :
  let r := run (drain_direct_for_peer me store_ttl p) s w in
  r_final r = Returned tt ∧
  drained pending_direct p s (r_shared r)
    (λ x, ∃ s' w', r_final (run (router_send me (default [] (peers s !! p))
            (direct_frame x.1.2) p (Some x.1.1)) s' w') = Returned (Ok tt)) l ∧
  pending_routed (r_shared r) = pending_routed s.
Proof.
  unfold drain_direct_for_peer. cbn [bind lock read Effects.run fst snd]. rewrite Hq.
  cbn [bind lock read Effects.run fst snd].
  change (peers (set_direct (delete p) s)) with (peers s).
  change (clock (set_direct (delete p) s)) with (clock s).
  set (anns := default [] (peers s !! p)).
  set (attempt := λ (id : u64) (m : list byte), match anns with
    | [] => Ret false
    | _ => r ← router_send me anns (direct_frame m) p (Some id); Ret (is_ok r) end).
  destruct (run_drain_store pending_direct pending_routed set_direct) with
    (owner := p) (attempt := attempt) (l := l) (s0 := s) (s := set_direct (delete p) s) (w := w)
    as (Hf & Hd & Ho); try done.
  { intros ? ? [=]. done. } { intros ? ? [=]. done. }
  { intros id m. unfold attempt. destruct anns; [apply quiet_ret|by apply quiet_send]. }
  cbv zeta. split_and!; [exact Hf| |exact Ho].
  eapply drained_mono; [|exact Hd]. intros [[id m] t] (s' & w' & Hrun).
  exists s', w'. unfold attempt in Hrun. cbn [fst snd] in Hrun |- *.
  destruct anns; [done|]. rewrite run_bind in Hrun.
  destruct (r_final (run (router_send _ _ _ _ _) s' w')) as [[[]|]|]; done.
Qed.

(** A routed drain loses nothing: the same for one destination of
    [drain_routed_all], where a payload counts as delivered when some neighbour
    acknowledged its flood. *)
Theorem drain_routed_conserves dest l s w (Hret : sends_return)
    (Hq : pending_routed s !! dest = Some l) :
  let r := run (drain_routed_one me store_ttl dest) s w in
  r_final r = Returned tt ∧
  drained pending_routed dest s (r_shared r)
    (λ x, ∃ ns s' w', r_final (run (send_to_all me ns
            (routed_frame x01 dest MAX_TTL x.1.2) x.1.1) s' w') = Returned true) l ∧
  pending_direct (r_shared r) = pending_direct s.
Proof.
  unfold drain_routed_one. cbn [bind lock read Effects.run fst snd]. rewrite Hq.
  cbn [bind lock read call Effects.run fst snd].
  destruct (answer nat HashSeed w) as [[seed d] w1]. cbn [Effects.run fst snd].
  set (s1 := node_tick d (set_routed (delete dest) s)). set (ns := neighbors _ _ s1).
  set (attempt := λ (id : u64) (m : list byte), match ns with
    | [] => Ret false
    | _ => send_to_all me ns (routed_frame x01 dest MAX_TTL m) id end).
  change (clock (set_routed (delete dest) s)) with (clock s).
  destruct (run_drain_store pending_routed pending_direct set_routed) with
    (owner := dest) (attempt := attempt) (l := l) (s0 := s) (s := s1) (w := w1)
    as (Hf & Hd & Ho); try done.
  { intros ? ? [=]. done. } { intros ? ? [=]. done. }
  { intros id m. unfold attempt. destruct ns; [apply quiet_ret|by apply quiet_send_to_all]. }
  cbv zeta. split_and!; [exact Hf| |exact Ho].
  eapply drained_mono; [|exact Hd]. intros [[id m] t] (s' & w' & Hrun).
  exists ns, s', w'. unfold attempt in Hrun. cbn [fst snd] in Hrun |- *.
  destruct ns; [done|exact Hrun].
Qed.

(** ** [store_forward] *)

(** The three ways a stored payload is dealt with. *)
Definition stored_outcome (max : option nat) (p : PeerId) (m : list byte) (s s' : node_state) :
    Prop :=
  let old := default [] (pending_direct s !! p) in
  (∃ kind learned, events s' = events s ++ delivery_events p kind learned ∧
     pending_direct s' = pending_direct s) ∨
  (∃ id t, pending_direct s' !! p = Some (old ++ [(id, m, t)]) ∧ events s' = events s ∧
     ∀ n, max = Some n → length old < n) ∨
  (events s' = events s ++ [StoreFailed p] ∧ pending_direct s' !! p = Some old ∧
     ∃ n, max = Some n ∧ n ≤ length old).

Lemma run_enqueue_direct max p x s w :
  let old := default [] (pending_direct s !! p) in
  let s' := r_shared (run (enqueue_direct max p x) s w) in
  r_final (run (enqueue_direct max p x) s w) = Returned tt ∧
  ((pending_direct s' !! p = Some (old ++ [x]) ∧ events s' = events s ∧
    ∀ n, max = Some n → length old < n) ∨
   (events s' = events s ++ [StoreFailed p] ∧ pending_direct s' !! p = Some old ∧
    ∃ n, max = Some n ∧ n ≤ length old)).
Proof.
  cbv zeta. destruct (enqueue_spec max p x (pending_direct s)) as (Hk & Hq & _). cbv zeta in *.
  unfold enqueue_direct, modify. cbn [lock Effects.run fst snd].
  destruct (enqueue max p x (pending_direct s)) as [kept q]. cbn [fst snd] in *. subst kept.
  split; [done|]. destruct max as [n|]; simpl in *.
  - destruct (Nat.ltb_spec (length (default [] (pending_direct s !! p))) n); simpl.
    + left. split_and!; [done..|]. intros ? [= <-]. done.
    + right. eauto.
  - left. by split_and!.
Qed.

(** C25. Nothing handed to [store_forward] disappears silently: with sends that
    return, it returns, and the payload has been acknowledged by the peer
    (reported by an event), or stands at the back of the peer's queue under a
    fresh identifier, or was refused because the queue is at its bound, which a
    [StoreFailed] event reports. (Without entropy for an identifier the call panics before
    it has done anything.) *)
Theorem store_forward_outcome max p m s w (Hret : sends_return) :
  let r := run (store_forward me max p m) s w in
  match (answer _ Entropy8 w).1.1 with
  | Some _ => r_final r = Returned tt ∧ stored_outcome max p m s (r_shared r)
  | None => r_final r = StuckAt Panicked ∧ rest_of (r_shared r) = rest_of s ∧
            events (r_shared r) = events s
  end.
Proof.
  unfold store_forward, new_message_id. cbn [bind call lock read Effects.run fst snd].
  destruct (answer (option (array 8)) Entropy8 w) as [[[e|] d] w1]; cbn [bind read lock Effects.run fst snd];
    [|done].
  set (s1 := node_tick d s). rewrite run_bind.
  assert (∃ b s2 w2, run (match peers s1 !! p with
    | Some ((_ :: _) as anns) =>
      r ← router_send me anns (direct_frame m) p (Some (message_id_of e)); Ret (is_ok r)
    | _ => Ret false end) s1 w1 = Ran (Returned b) s2 w2 [] ∧
    pending_direct s2 = pending_direct s ∧
    if b then ∃ kind learned, events s2 = events s ++ delivery_events p kind learned
    else events s2 = events s) as (b & s2 & w2 & Hrun & Hq & He).
  { destruct (peers s1 !! p) as [[|a anns]|]; [by eexists _, _, _| |by eexists _, _, _].
    rewrite run_bind. destruct (Hret (a :: anns) (direct_frame m) p (message_id_of e) s1 w1) as [r Hr].
    destruct (run_router_send me answer (a :: anns) (direct_frame m) p (Some (message_id_of e)) s1 w1)
      as (Hrest & Hts & Ho).
    destruct (run (router_send _ _ _ _ _) s1 w1) as [f2 s2 w2 ts2].
    cbn [r_final r_shared r_env r_spawned] in *. subst f2 ts2.
    exists (is_ok r), s2, w2. split_and!; [done|by injection Hrest|].
    destruct r as [[]|err]; simpl.
    - destruct Ho as (en & ? & learned & _ & _ & He). eauto.
    - by destruct Ho as [-> _]. }
  rewrite Hrun. cbn [r_final r_shared r_env r_spawned]. destruct b.
  - split; [done|]. left. destruct He as (kind & learned & He). by exists kind, learned.
  - destruct (run_enqueue_direct max p (message_id_of e, m, clock s1) s2 w2) as [Hf Ho].
    cbv zeta in Ho. rewrite Hq, He in Ho.
    destruct (run (enqueue_direct _ _ _) s2 w2) as [f3 s3 w3 ts3]; simpl in *.
    split; [done|]. unfold stored_outcome. destruct Ho as [(? & ? & ?)|?]; right; [left|by right].
    eauto.
Qed.
End drains.

(** ** A network on which sends return *)

(** Nothing can be dialled. *)
Definition dead_answer (X : Type) (e : env_op X) (w : unit) : X * N * unit :=
  match e in env_op X return X * N * unit with
  | TransportConnect _ _ => (Val (Err (ETransport "unreachable")), 0%N, tt)
  | TransportStart _ => (Ok tt, 0%N, tt)
  | TransportStop _ => (Ok tt, 0%N, tt)
  | TransportAccept _ => (Err (ETransport "no inbound"), 0%N, tt)
  | TransportLocalAddresses _ => ([], 0%N, tt)
  | TransportCostOf _ => (Free, 0%N, tt)
  | TransportNextPeerEvent _ => (None, 0%N, tt)
  | WaitStarted _ => (true, 0%N, tt)
  | ConnSend _ _ => (Err (ETransport "closed"), 0%N, tt)
  | ConnRecv _ => (Err (ETransport "closed"), 0%N, tt)
  | ConnRecvBefore _ _ => (None, 0%N, tt)
  | ConnClose _ => (Ok tt, 0%N, tt)
  | ConnMtu _ => (0, 0%N, tt)
  | Entropy8 => (Some (array_of_byte 8 x00), 0%N, tt)
  | NoiseEntropy => ([], 0%N, tt)
  | GetIfAddrs => (None, 0%N, tt)
  | Sleep d => (tt, Z.to_N d, tt)
  | WaitEvent => (true, 0%N, tt)
  | HashSeed => (0, 0%N, tt)
  | LoopBound => (1, 0%N, tt)
  end.

Lemma dead_sends_return `{Crypto, Bp7, Snow, !SnowLaws} me : sends_return me dead_answer.
Proof.
  assert (∀ l m id p s w, ∃ b, r_final (run dead_answer node_tick (try_candidates me l m id p) s w) =
    Returned b) as Hcand.
  { induction l as [|[[t kind] ann] l IH]; intros m id p s w; [by exists false|].
    cbn [try_candidates]. rewrite run_bind. unfold try_send.
    cbn [bind read lock call transport_connect lift Effects.run dead_answer r_final r_shared r_env fst snd].
    destruct (IH m id p (node_tick 0 s) tt) as [b Hb]. exists b.
    by destruct (run _ _ (try_candidates _ _ _ _ _) _ _). }
  assert (∀ n anns m id p s w, ∃ r, r_final (run dead_answer node_tick
    (send_attempts me n anns m id p) s w) = Returned r) as Hatt.
  { induction n as [|n IH]; intros anns m id p s w; [by eexists|].
    cbn [send_attempts bind read lock Effects.run fst snd].
    destruct (candidates anns (transports s)) as [|c cs]; [by eexists|]. rewrite run_bind.
    destruct (run_sort dead_answer (c :: cs) s w) as (_ & _ & l' & -> & _). cbn [r_final].
    set (s1 := r_shared _). set (w1 := r_env _). rewrite run_bind.
    destruct (Hcand l' m id p s1 w1) as [b ->]. destruct b; [by eexists|].
    set (s2 := r_shared _). set (w2 := r_env _). rewrite run_bind.
    destruct n; cbn [Effects.run call dead_answer r_final r_shared r_env].
    - destruct (IH anns m id p s2 w2) as [r Hr]. exists r.
      by destruct (run _ _ (send_attempts _ _ _ _ _ _) s2 w2).
    - destruct (IH anns m id p (node_tick (Z.to_N RETRY_BACKOFF) s2) tt) as [r Hr]. exists r.
      by destruct (run _ _ (send_attempts _ _ _ _ _ _) _ tt). }
  intros anns m p id s w. unfold router_send. cbn [bind read lock Effects.run fst snd].
  destruct (negb _); [by eexists|]. apply Hatt.
Qed.
