(* ===== verification/Lifecycle.v ===== *)
(** * Transports and discovery over time

    One round of a transport's health monitor, the choice of a fallback, the
    arrival of a discovered peer, and the reader of the event channel. *)

From S2P Require Import Prelude RustStd Types Effects Env KeyRegistry Dedup Wire Bundle Session NodeState.
From S2P Require Import Router SendSafety Node Sending.

(** ** Flags of a transport *)

(** Transport [t] is registered, and both its flags say [up]. *)
Definition flags_are (t : tid) (up : bool) (ts : list TransportEntry) : Prop :=
  (∃ e, e ∈ ts ∧ te_transport e = t) ∧
  ∀ e, e ∈ ts → te_transport e = t → te_available e = up ∧ te_started e = up.

(** What is not [t]'s. *)
Definition others_of (t : tid) (ts : list TransportEntry) : list TransportEntry :=
  filter (λ e, te_transport e ≠ t) ts.

Lemma elem_of_set_entry t f ts e' :
  e' ∈ set_entry t f ts ↔ ∃ e, e ∈ ts ∧ e' = if te_transport e =? t then f e else e.
Proof. unfold set_entry. rewrite list_elem_of_In, in_map_iff. setoid_rewrite list_elem_of_In. naive_solver. Qed.

Definition set_flags (t : tid) (b : bool) (ts : list TransportEntry) : list TransportEntry :=
  set_entry t (set_started b) (set_entry t (set_available b) ts).

Lemma set_flags_are t b ts :
  (∃ e, e ∈ ts ∧ te_transport e = t) → flags_are t b (set_flags t b ts).
Proof.
  intros (e & He & <-). split.
  - eexists. split; [|]. 
    + apply elem_of_set_entry. eexists. split; [|done]. apply elem_of_set_entry. by exists e.
    + rewrite Nat.eqb_refl. simpl. rewrite Nat.eqb_refl. done.
  - intros e' (e1 & (e2 & He2 & ->)%elem_of_set_entry & ->)%elem_of_set_entry.
    destruct (te_transport e2 =? te_transport e) eqn:Heq; simpl; rewrite Heq; simpl; [done|].
    intros Ht. apply Nat.eqb_neq in Heq. done.
Qed.

Lemma set_entry_others t f ts : (∀ e, te_transport (f e) = te_transport e) →
  others_of t (set_entry t f ts) = others_of t ts.
Proof.
  intros Hf. unfold others_of, set_entry. induction ts as [|e ts IH]; [done|]. cbn [map].
  rewrite !filter_cons. destruct (Nat.eqb_spec (te_transport e) t) as [Heq|Hne].
  - rewrite !decide_False by (rewrite ?Hf; auto). exact IH.
  - rewrite !decide_True by done. by rewrite IH.
Qed.

Lemma set_flags_others t b ts : others_of t (set_flags t b ts) = others_of t ts.
Proof. unfold set_flags. by rewrite !set_entry_others. Qed.

Lemma set_flags_registered t b ts :
  (∃ e, e ∈ ts ∧ te_transport e = t) → ∃ e, e ∈ set_flags t b ts ∧ te_transport e = t.
Proof. intros He. apply (set_flags_are t b ts He). Qed.

Lemma is_available_flags t up s : flags_are t up (transports s) → is_available t s = up.
Proof.
  intros [(e & He & Ht) Hall]. unfold is_available. destruct up.
  - apply existsb_exists. exists e. split; [by apply list_elem_of_In|].
    destruct (Hall e He Ht) as [-> _]. by rewrite Ht, Nat.eqb_refl.
  - apply not_true_iff_false. intros (e' & He' & Hav)%existsb_exists.
    apply andb_true_iff in Hav as [Ht' Hav]. apply Nat.eqb_eq in Ht'.
    apply list_elem_of_In in He'. destruct (Hall e' He' Ht') as [Hf _]. congruence.
Qed.

Section lifecycle.
Context `{Crypto, Bp7, Snow, !SnowLaws, HashOrder} (me : NodeIdentity).
Context {W : Type} (answer : ∀ X, env_op X → W → X * N * W).
Local Abbreviation run p := (run answer node_tick p).

Local Abbreviation run_logged_in p := (Effects.run (logged answer) node_tick p).

(** The costs that were asked for, each with its entry. *)
Definition costs_asked (costs : list (TransportEntry * TransportCost)) : list (asked env_op) :=
  (λ ec, Asked (TransportCostOf (te_transport ec.1)) ec.2) <$> costs.

Lemma run_costs ts s w log :
  ∃ costs s' w',
    run_logged_in (with_costs te_transport ts) s (w, log) =
      Ran (Returned ((λ ec, (cost_rank ec.2, ec.1)) <$> costs)) s' (w', log ++ costs_asked costs) [] ∧
    costs.*1 = ts ∧ dial_frame s s'.
Proof.
  revert s w log. induction ts as [|e ts IH]; intros s w log.
  { exists [], s, w. cbn. by rewrite app_nil_r. }
  cbn [with_costs bind call Effects.run]. unfold logged at 1. cbn [fst snd].
  destruct (answer _ (TransportCostOf (te_transport e)) w) as [[c d] w1]. rewrite run_bind.
  destruct (IH (node_tick d s) w1 (log ++ [Asked (TransportCostOf (te_transport e)) c]))
    as (costs & s' & w' & -> & Hts & Hfr).
  exists ((e, c) :: costs), s', w'. cbn. by rewrite Hts, <-app_assoc.
Qed.

(** The announcement of a switch away from a transport of this kind: to the kind of a
    cheapest one of those whose costs were asked for; none when there are none. *)
Definition switched (kind : TransportKind) (costs : list (TransportEntry * TransportCost))
    (away : list TransportEvent) : Prop :=
  costs = [] ∧ away = [] ∨
  ∃ e c, (e, c) ∈ costs ∧ (∀ e' c', (e', c') ∈ costs → (cost_rank c <= cost_rank c')%Z) ∧
    away = [TransportChanged (Some kind) (te_kind e)].

(** The other transports that are up. *)
Definition fallbacks (t : tid) (ts : list TransportEntry) : list TransportEntry :=
  filter (λ e, te_transport e ≠ t ∧ te_available e = true) ts.

Lemma fallbacks_set_flags t b ts : fallbacks t (set_flags t b ts) = fallbacks t ts.
Proof.
  assert (∀ l, fallbacks t l = filter (λ e, te_available e = true) (others_of t l)) as Hf.
  { intros l. unfold fallbacks, others_of. rewrite list_filter_filter.
    apply list_filter_iff. intros e. tauto. }
  by rewrite !Hf, set_flags_others.
Qed.

(** Leaving a transport: the switch is announced if it was up. *)
Lemma run_switch_away t kind (recovering : bool) s w log :
  ∃ s' w' costs away,
    run_logged_in (if negb recovering then next ← next_best_transport t;
         match next with
         | Some k => modify (fire (TransportChanged (Some kind) k))
         | None => Ret tt end else Ret tt) s (w, log) =
      Ran (Returned tt) s' (w', log ++ costs_asked costs) [] ∧
    costs.*1 = (if recovering then [] else fallbacks t (transports s)) ∧
    switched kind costs away ∧ transports s' = transports s ∧ events s' = events s ++ away.
Proof.
  destruct recovering; cbn [negb].
  { exists s, w, [], []. cbn. rewrite !app_nil_r. split_and!; [done..|by left|done|done]. }
  rewrite run_bind. unfold next_best_transport. cbn [bind read lock Effects.run fst snd].
  rewrite run_bind. destruct (run_costs (fallbacks t (transports s)) s w log)
    as (costs & s' & w' & Hrun & Hts & (Hr' & He')).
  unfold fallbacks in Hrun. rewrite Hrun. apply rest_of_transports in Hr'.
  cbn [Effects.run r_final r_shared r_env r_spawned add_spawned app].
  destruct (min_by_key fst _) as [[r e]|] eqn:Hmin;
    cbn [fmap option_fmap option_map modify lock Effects.run fst snd add_spawned app
         r_final r_shared r_env r_spawned].
  - apply min_by_key_Some in Hmin as [Hin Hle].
    apply list_elem_of_fmap in Hin as ([e0 c] & [= -> ->] & Hin).
    exists (fire (TransportChanged (Some kind) (te_kind e0)) s'), w', costs,
      [TransportChanged (Some kind) (te_kind e0)].
    split_and!; [done|done| |done|by cbn; rewrite He'].
    right. exists e0, c. split_and!; [done| |done]. intros e' c' Hin'.
    apply (Hle (cost_rank c', e')). apply list_elem_of_fmap. by exists (e', c').
  - apply min_by_key_None, fmap_nil_inv in Hmin as ->.
    exists s', w', [], []. split_and!; [done|done|by left|done|by rewrite app_nil_r].
Qed.

(** The tail of a restarting round: stop, start, announce. *)
Lemma run_restart t kind (curr prev : gset (array 4)) s w log :
  (∃ e, e ∈ transports s ∧ te_transport e = t) → flags_are t false (transports s) →
  ∃ s' w' stopped started,
    run_logged_in (call (TransportStop t) ;;
         r ← call (TransportStart t);
         if is_ok r then announce_up t kind ;; Ret (curr, false) else Ret (prev, true)) s (w, log) =
      Ran (Returned (if is_ok started then (curr, false) else (prev, true))) s'
        (w', log ++ [Asked (TransportStop t) stopped; Asked (TransportStart t) started]) [] ∧
    flags_are t (is_ok started) (transports s') ∧
    others_of t (transports s') = others_of t (transports s) ∧
    events s' = events s ++ if is_ok started then [TransportChanged None kind] else [].
Proof.
  intros Hreg Hdown. cbn [bind call Effects.run]. unfold logged at 1. cbn [fst snd].
  destruct (answer _ (TransportStop t) w) as [[stopped d0] w0]. cbn [Effects.run].
  unfold logged at 1. cbn [fst snd].
  destruct (answer _ (TransportStart t) w0) as [[started d1] w1].
  destruct started as [u|e]; cbn [is_ok].
  - unfold announce_up, mark, modify. cbn [bind lock Effects.run fst snd].
    do 2 eexists. exists stopped, (Ok u). cbn [is_ok]. rewrite <-app_assoc. split; [done|].
    split_and!; [|by apply set_flags_others|done]. by apply set_flags_are.
  - do 2 eexists. exists stopped, (Err e). cbn [is_ok]. rewrite <-app_assoc.
    split_and!; [done..|by rewrite app_nil_r].
Qed.

(** C26. A round of the health monitor, in full: it sleeps, reads the interfaces, and, in
    normal mode with an unchanged address set, does nothing else. Otherwise it takes the
    transport down, announces the switch to a cheapest transport that is up, if there is
    one and this one was up, stops it and starts it. If the start succeeded, both flags say
    up, the mode is normal, the new address set is remembered, and coming up is announced;
    if it failed, both flags say down, the mode is recovery, the old address set is kept,
    and nothing more is announced. No other transport's entry changes, and the round always
    completes. *)
Theorem monitor_round_spec t kind prev recovering s w
    (Hflags : flags_are t (negb recovering) (transports s)) :
  let r := run_logged_in (monitor_round t kind (prev, recovering)) s (w, []) in
  let s' := r_shared r in
  r_spawned r = [] ∧ others_of t (transports s') = others_of t (transports s) ∧
  ∃ ifs rest,
    (r_env r).2 = [Asked (Sleep NETWORK_POLL_INTERVAL) tt; Asked GetIfAddrs ifs] ++ rest ∧
    let curr := current_ipv4_addrs ifs in
    if decide (recovering = false ∧ curr = prev) then
      rest = [] ∧ r_final r = Returned (prev, false) ∧
      transports s' = transports s ∧ events s' = events s
    else ∃ costs stopped started away,
      rest = costs_asked costs ++ [Asked (TransportStop t) stopped; Asked (TransportStart t) started] ∧
      costs.*1 = (if recovering then [] else fallbacks t (transports s)) ∧
      switched kind costs away ∧
      match started with
      | Ok _ => r_final r = Returned (curr, false) ∧ flags_are t true (transports s') ∧
                events s' = events s ++ away ++ [TransportChanged None kind]
      | Err _ => r_final r = Returned (prev, true) ∧ flags_are t false (transports s') ∧
                 events s' = events s ++ away
      end.
Proof.
  cbv zeta. unfold monitor_round. rewrite run_call_logged.
  destruct (answer _ (Sleep _) w) as [[[] d0] w0]. rewrite run_call_logged.
  destruct (answer _ GetIfAddrs w0) as [[ifs d1] w1]. cbn [app].
  set (s1 := node_tick d1 (node_tick d0 s)). set (curr := current_ipv4_addrs ifs).
  destruct (decide (recovering = false ∧ curr = prev)) as [[-> Heq]|Hgo].
  { rewrite bool_decide_eq_true_2 by done. cbn. split_and!; [done..|]. exists ifs, [].
    split; [done|]. by rewrite decide_True. }
  replace (negb recovering && bool_decide (curr = prev)) with false
    by (symmetry; apply andb_false_iff; destruct recovering; [by left|right];
        apply bool_decide_eq_false_2; naive_solver).
  set (s2 := set_transports (set_entry t (set_started false))
               (set_transports (set_entry t (set_available false)) s1)).
  assert (transports s2 = set_flags t false (transports s) ∧ events s2 = events s) as [Hts2 Hev2]
    by done.
  set (log := [Asked _ _; _]).
  destruct (run_switch_away t kind recovering s2 w1 log)
    as (s3 & w3 & costs & away & Hrun & Hcosts & Haway & Hts3 & Hev3).
  rewrite Hts2, fallbacks_set_flags in Hcosts. pose proof Hflags as [Hreg _].
  destruct (run_restart t kind curr prev s3 w3 (log ++ costs_asked costs)) as
    (s4 & w4 & stopped & started & Hr4 & Hf4 & Ho4 & He4).
  { rewrite Hts3, Hts2. by apply set_flags_registered. }
  { rewrite Hts3, Hts2. by apply set_flags_are. }
  match goal with |- context [Effects.run _ _ ?q s1 (w1, log)] =>
    assert (run_logged_in q s1 (w1, log) = Ran
      (Returned (if is_ok started then (curr, false) else (prev, true))) s4
      (w4, (log ++ costs_asked costs) ++
         [Asked (TransportStop t) stopped; Asked (TransportStart t) started]) []) as -> end.
  { unfold mark, modify at 1 2. cbn [bind read lock Effects.run fst snd].
    rewrite (is_available_flags t (negb recovering) s1 Hflags). fold s2.
    rewrite run_bind, Hrun. cbn [r_final r_shared r_env r_spawned].
    etrans; [apply (f_equal (add_spawned [])), Hr4|done]. }
  cbn [r_final r_shared r_env r_spawned fst snd]. split_and!; [done|by rewrite Ho4, Hts3, Hts2, set_flags_others|].
  eexists ifs, _. split; [unfold log; cbn; rewrite <-?app_assoc; reflexivity|]. rewrite decide_False by done.
  exists costs, stopped, started, away. split_and!; [done..|].
  rewrite He4, Hev3, Hev2. destruct started; cbn [is_ok] in *; rewrite <-?app_assoc, ?app_nil_r; done.
Qed.

End lifecycle.
