(* ===== verification/LinkRuns.v ===== *)
(** * The two halves of a delivery

    [Router::send] on one node and [handle_incoming] on another, at the two ends of one
    link: handshake, address exchange, the framed message and its acknowledgement. Each half is
    run on the frames of the other; [frame_exchange] puts them together. *)

From S2P Require Import Prelude RustStd Types Effects Env KeyRegistry Dedup Wire Bundle Session LinkCalls.
From S2P Require Import NodeState Router SendSafety Node NodeSafety Dispatch Sending.

Local Opaque NOISE_MSG_MAX.

(** ** Running a node over a pipe *)

Local Abbreviation run_node p := (run pipe_answer node_tick p).

Lemma node_tick_0 s : node_tick 0%N s = s.
Proof. destruct s. unfold node_tick. cbn. by rewrite Z.add_0_r. Qed.

Lemma run_then {A B} (p : node_prog A) (f : A → node_prog B) s w a s' w' :
  run_node p s w = Ran (Returned a) s' w' [] → run_node (bind p f) s w = run_node (f a) s' w'.
Proof. intros Hp. rewrite run_bind, Hp. simpl. by destruct (run_node (f a) s' w'). Qed.

Lemma run_spawning {A B} (p : node_prog A) (f : A → node_prog B) s w a s' w' ts :
  run_node p s w = Ran (Returned a) s' w' ts →
  run_node (bind p f) s w = add_spawned ts (run_node (f a) s' w').
Proof. intros Hp. by rewrite run_bind, Hp. Qed.

Lemma bind_ret_r {A} (p : node_prog A) s w : run_node (bind p Ret) s w = run_node p s w.
Proof. rewrite run_bind. destruct (run_node p s w) as [[] ? ? ?]; cbn; [|done]. unfold add_spawned. cbn. by rewrite app_nil_r. Qed.

Lemma run_read {A X} (g : node_state → X) (f : X → node_prog A) s w :
  run_node (bind (read g) f) s w = run_node (f (g s)) s w.
Proof. done. Qed.

Lemma run_modify {A} (g : node_state → node_state) (f : unit → node_prog A) s w :
  run_node (bind (modify g) f) s w = run_node (f tt) (g s) w.
Proof. done. Qed.

(** The pipe answers at once. *)
Lemma pipe_instant X (e : env_op X) w : (pipe_answer X e w).1.2 = 0%N.
Proof. destruct e; cbn; try done; by destruct (p_in w). Qed.

Lemma run_call_pipe {A X} (e : env_op X) (f : X → node_prog A) s w :
  run_node (bind (call e) f) s w =
  run_node (f (pipe_answer X e w).1.1) s (pipe_answer X e w).2.
Proof.
  cbn [bind call Effects.run]. pose proof (pipe_instant X e w) as Hd.
  destruct (pipe_answer X e w) as [[x d] w']. cbn in Hd. subst d. by rewrite node_tick_0.
Qed.

(** A program that only uses the link leaves the node alone. *)
Lemma run_link {A} good (p : node_prog A) s w a w' :
  only good p → yields pipe_answer node_tick p w a w' →
  run_node p s w = Ran (Returned a) s w' [].
Proof.
  intros Ho Hy. destruct (Hy s) as [Hf He].
  assert (r_shared (run_node p s w) = s ∧ r_spawned (run_node p s w) = []) as [Hs Hts].
  { clear Hy Hf He a w'. revert w.
    induction p as [a|X f k IH|X e k IH|t k IH|why]; intros w; cbn; try done.
    destruct Ho as [_ Hk]. pose proof (pipe_instant X e w) as Hd.
    destruct (pipe_answer X e w) as [[x d] w']. cbn in Hd. subst d. rewrite node_tick_0. auto. }
  destruct (run_node p s w) as [f s' w'' ts]. cbn in *. by subst.
Qed.

(** What the receiver of an address exchange makes of it. *)
Definition learned_addresses (p : PeerId) (addrs : list PeerAddress)
    (ps : gmap PeerId (list PeerAnnouncement)) : gmap PeerId (list PeerAnnouncement) :=
  match mapM wire_form (take 255 addrs) with
  | Some l => upsert_peer_addresses ps p l
  | None => ps
  end.

Section halves.
Context `{Crypto, Bp7, Snow, !SnowLaws, HashOrder} {LAWS : Bp7Laws} {SIZES : Bp7Sizes}.
Context (mtu : nat).

(** What a session does on a link of this mtu: a message that leaves as [fs], and one that
    is read off [fs], however long the receiver would have waited. *)
Definition leaves (a : Session) (d : list byte) (fs : list (list byte)) (a' : Session) : Prop :=
  ∀ w, p_mtu w = mtu →
    yields (T := task) pipe_answer node_tick (session_send a d) w (Ok tt, a') (push w fs).

Definition arrives (b : Session) (d : list byte) (fs : list (list byte)) (b' : Session) : Prop :=
  ∀ raw w rest, reads (T := task) node_tick raw → p_in w = fs ++ rest →
    (NOISE_MSG_MAX < p_bound w)%nat →
    yields pipe_answer node_tick (session_recv_from raw b) w (Some (Ok d), b') (set_in w rest).

Lemma run_leaves {A} a d fs a' (f : result unit * Session → node_prog A) s w :
  leaves a d fs a' → p_mtu w = mtu →
  run_node (bind (session_send a d) f) s w = run_node (f (Ok tt, a')) s (push w fs).
Proof.
  intros Hl Hm. apply run_then. eapply (run_link (@link_call));
    [by apply only_session_send|by apply Hl].
Qed.

Lemma run_arrives_before {A} limit b d fs b' (f : _ → node_prog A) s w rest :
  arrives b d fs b' → p_in w = fs ++ rest → (NOISE_MSG_MAX < p_bound w)%nat →
  run_node (bind (session_recv_timeout limit b) f) s w =
  run_node (f (Some (Ok d), b')) s (set_in w rest).
Proof.
  intros Ha Hin Hb. apply run_then. eapply (run_link (@timed_link_call));
    [apply only_session_recv_timeout|by apply Ha; [apply reads_before|..]].
Qed.

Lemma run_arrives {A} b d fs b' (f : _ → node_prog A) s w rest :
  arrives b d fs b' → p_in w = fs ++ rest → (NOISE_MSG_MAX < p_bound w)%nat →
  run_node (bind (session_recv b) f) s w = run_node (f (Ok d, b')) s (set_in w rest).
Proof.
  intros Ha Hin Hb. apply run_then. eapply (run_link (@link_call)); [by apply only_session_recv|].
  eapply yields_bind; [by apply Ha; [apply reads_raw|..]|]. apply yields_ret.
Qed.

(** Linked sessions talk both ways. *)
Lemma linked_message a b d :
  linked a b → (length d + 16 ≤ NOISE_MSG_MAX)%nat → roomy mtu →
  ∃ fs a' b', leaves a d fs a' ∧ arrives b d fs b' ∧ Forall (noise_frame mtu) fs ∧ linked b' a'.
Proof.
  intros Hl Hd Hroom.
  destruct (yields_channel_in (T := task) node_tick a b d mtu Hl Hd Hroom)
    as (fs & a' & b' & Hs & Hr & Hf & _ & Hl').
  by exists fs, a', b'.
Qed.

(** ** The address exchange *)

Definition exchanged (p : PeerId) (addrs : list PeerAddress) (s : node_state) : node_state :=
  set_peers (learned_addresses p addrs) s.

Lemma run_exchange {A} t owner a a1 a2 fA fB theirs rest (f : Session → node_prog A) s w :
  leaves a (encode_addr_exchange (p_local w)) fA a1 →
  arrives a1 (encode_addr_exchange theirs) fB a2 →
  p_mtu w = mtu → p_in w = fB ++ rest → (NOISE_MSG_MAX < p_bound w)%nat →
  run_node (bind (exchange_addresses t owner a) f) s w =
  run_node (f a2) (exchanged owner theirs s) (set_in (push w fA) rest).
Proof.
  intros Hl Ha Hm Hin Hb. apply run_then. unfold exchange_addresses. rewrite run_call_pipe. cbn [fst snd pipe_answer].
  rewrite (run_leaves _ _ _ _ _ _ _ Hl Hm).
  rewrite (run_arrives_before _ _ _ _ _ _ _ _ rest Ha) by done. cbn [bind].
  pose proof (decode_exchange_encoded theirs []) as Hd. rewrite app_nil_r in Hd. rewrite Hd.
  cbn [lift bind]. unfold exchanged, learned_addresses. destruct (mapM _ _); cbn; [done|].
  by destruct s.
Qed.

(** ** Keys *)

(** The node after a handshake with [p], whose key it may have learned. *)
Definition keyed (p : PeerId) (key : PublicKey) (s : node_state) : node_state :=
  set_registry (insert_direct (key_registry s) p key).2 s.

Definition new_key (p : PeerId) (key : PublicKey) (s : node_state) : option PublicKey :=
  if (insert_direct (key_registry s) p key).1 then Some key else None.

Lemma run_learn {A} ses (f : option PublicKey → node_prog A) s w :
  run_node (bind (learn_direct ses) f) s w =
  run_node (f (new_key (s_peer_id ses) (s_remote_static_key ses) s))
    (keyed (s_peer_id ses) (s_remote_static_key ses) s) w.
Proof.
  apply run_then. unfold learn_direct, keyed, new_key. cbn -[insert_direct].
  by destruct (insert_direct (key_registry s) (s_peer_id ses) (s_remote_static_key ses)).
Qed.

(** A key learned from an incoming connection is announced. *)
Definition announced_key (p : PeerId) (o : option PublicKey) (s : node_state) : node_state :=
  match o with Some key => fire (KeyLearned p key) s | None => s end.

(** The receiver after the handshake and the address exchange with [p]. *)
Definition met (p : PeerId) (key : PublicKey) (theirs : list PeerAddress) (s : node_state) :
    node_state := exchanged p theirs (announced_key p (new_key p key s) (keyed p key s)).

Lemma met_spec p key theirs s :
  let s' := met p key theirs s in
  transports s' = transports s ∧ known_addrs s' = known_addrs s ∧ handler s' = handler s ∧
  delivered s' = delivered s ∧ dedup s' = dedup s ∧ clock s' = clock s ∧
  key_registry s' = (insert_direct (key_registry s) p key).2 ∧
  peers s' = learned_addresses p theirs (peers s).
Proof. cbv zeta. unfold met. by destruct (new_key p key s). Qed.

(** Meeting one peer changes nothing about the others. *)
Lemma learned_addresses_other p q addrs ps :
  p ≠ q → learned_addresses p addrs ps !! q = ps !! q.
Proof.
  intros Hne. unfold learned_addresses. destruct (mapM _ _); [|done].
  unfold upsert_peer_addresses. by rewrite lookup_insert_ne.
Qed.

Lemma insert_direct_other r p q key :
  p ≠ q → registry_get (insert_direct r p key).2 q = registry_get r q.
Proof. intros Hne. unfold registry_get, insert_direct. cbn. by rewrite lookup_insert_ne. Qed.

Lemma checked_met p key theirs s id :
  (checked (met p key theirs s) id).1 = (checked s id).1.
Proof.
  destruct (met_spec p key theirs s) as (_ & _ & _ & _ & Hd & Hc & _).
  unfold checked. rewrite Hd, Hc. by destruct (check_and_insert_routed _ _ _).
Qed.

(** ** The sender *)

Section sender.
Context (ida : NodeIdentity) (rk : option PublicKey).
Context (a0 a1 a2 a3 a4 : Session) (hsA fA1 fB1 fA2 fB2 : list (list byte)).
Context (es : list (list byte)).
Context (theirs : list PeerAddress) (id : u64) (body : list byte) (w : pipe).
Hypothesis Hmtu : p_mtu w = mtu.
Hypothesis Hbound : (NOISE_MSG_MAX < p_bound w)%nat.
Hypothesis Hshake : yields (T := task) pipe_answer node_tick (initiate ida (BundleLayer_new 0) rk) w (Ok a0)
  (crossed w es (fB1 ++ fB2) hsA).
Hypothesis Hexch_out : leaves a0 (encode_addr_exchange (p_local w)) fA1 a1.
Hypothesis Hexch_in : arrives a1 (encode_addr_exchange theirs) fB1 a2.
Hypothesis Hmsg : leaves a2 (frame_message id body) fA2 a3.
Hypothesis Hack : arrives a3 [] fB2 a4.

(** The sender's node and its pipe when it is done. *)
Definition sender_done (target : PeerId) (s : node_state) : node_state :=
  exchanged target theirs (keyed (s_peer_id a0) (s_remote_static_key a0) s).

Definition sender_pipe : pipe := crossed w es [] (hsA ++ fA1 ++ fA2).

Lemma run_try_send t ann target s :
  registry_get (key_registry s) target = rk →
  run_node (try_send ida t ann body id target) s w =
  Ran (Returned (Ok (new_key (s_peer_id a0) (s_remote_static_key a0) s)))
    (sender_done target s) sender_pipe [].
Proof.
  intros Hrk. unfold try_send. rewrite run_read, Hrk.
  rewrite (run_then _ _ s w (Ok 0) s w) by (unfold transport_connect; by rewrite run_call_pipe).
  cbv iota.
  rewrite (run_then _ _ s w (Ok a0) s (crossed w es (fB1 ++ fB2) hsA))
    by (eapply (run_link (@link_call)); [by apply only_initiate|exact Hshake]).
  cbv iota. rewrite run_learn.
  rewrite (run_exchange t target a0 a1 a2 fA1 fB1 theirs fB2 _ _ (crossed w es (fB1 ++ fB2) hsA))
    by done.
  rewrite (run_leaves _ _ _ _ _ _ _ Hmsg) by done.
  rewrite (run_arrives_before _ _ _ _ _ _ _ _ [] Hack) by (done || by rewrite app_nil_r).
  cbn. unfold sender_pipe, crossed, set_in, push. cbn. by rewrite !app_assoc.
Qed.

(** Over the pipe every transport costs the same: candidates keep their order. *)
Lemma sort_same_cost {A} (l : list A) (k : Z) : sort_by_key fst (pair k <$> l) = pair k <$> l.
Proof.
  induction l as [|x l IH]; [done|]. rewrite fmap_cons. change (sort_by_key fst ?l) with (foldr (sort_insert fst) [] l) in *.
  cbn [foldr]. rewrite IH. destruct l; [done|]. cbn. by rewrite Z.leb_refl.
Qed.

Lemma run_sort_pipe {A} l (f : _ → node_prog A) s u :
  run_node (bind (sort_candidates l) f) s u = run_node (f l) s u.
Proof.
  apply run_then. unfold sort_candidates.
  rewrite (run_then _ _ s u (pair 0%Z <$> l) s u).
  - rewrite sort_same_cost. cbn. by rewrite <-list_fmap_compose, list_fmap_id.
  - induction l as [|x l IH]; [done|]. cbn [with_costs]. rewrite run_call_pipe.
    cbn [fst snd pipe_answer]. by rewrite (run_then _ _ _ _ _ _ _ IH).
Qed.

(** The identifier of a message, given or made with the pipe's entropy. *)
Definition pipe_message_id : u64 := message_id_of (array_of_byte 8 x00).

Lemma run_new_message_id {A} (f : u64 → node_prog A) s u :
  run_node (bind new_message_id f) s u = run_node (f pipe_message_id) s u.
Proof. apply run_then. unfold new_message_id. by rewrite run_call_pipe. Qed.

Definition identified (mid : option u64) : Prop :=
  match mid with Some i => i = id | None => id = pipe_message_id end.

Lemma run_router_send_pipe mid t kind ann others anns target s :
  identified mid → registry_get (key_registry s) target = rk →
  candidates anns (transports s) = (t, kind, ann) :: others →
  ∃ s', run_node (router_send ida anns body target mid) s w =
        Ran (Returned (Ok tt)) s' sender_pipe [] ∧
    events s' = events s ++
      delivery_events target kind (new_key (s_peer_id a0) (s_remote_static_key a0) s) ∧
    peers s' = learned_addresses target theirs (peers s) ∧
    key_registry s' = (insert_direct (key_registry s) (s_peer_id a0) (s_remote_static_key a0)).2 ∧
    pending_direct s' = pending_direct s ∧ pending_routed s' = pending_routed s.
Proof.
  intros Hid Hrk Hc. unfold router_send. rewrite run_read.
  assert (existsb te_available (transports s) = true) as ->.
  { assert ((t, kind, ann) ∈ candidates anns (transports s)) as Hin by (rewrite Hc; apply elem_of_cons; auto).
    apply elem_of_candidates in Hin as (e & He & Hav & _).
    apply existsb_exists. exists e. by rewrite <-list_elem_of_In. }
  cbn [negb]. rewrite (run_then _ _ s w id s w)
    by (destruct mid; cbn in Hid; subst id; [done|unfold new_message_id; by rewrite run_call_pipe]).
  unfold MAX_SEND_ATTEMPTS. cbn [send_attempts]. rewrite run_read, Hc, run_sort_pipe.
  cbn [try_candidates]. rewrite run_bind, (run_then _ _ _ _ _ _ _ (run_try_send t ann target s Hrk)).
  cbv iota. rewrite run_modify. unfold new_key.
  destruct (insert_direct (key_registry s) (s_peer_id a0) (s_remote_static_key a0)).1;
    cbn -[insert_direct]; eexists; (split; [reflexivity|]); split_and!; try done.
  cbn. by rewrite <-app_assoc.
Qed.
End sender.

(** ** The receiver *)

(** Over the pipe no time passes. *)
Lemma run_notick {A} (p : node_prog A) s w : run_node p s w = run pipe_answer notick p s w.
Proof.
  revert s w. induction p as [a|X f k IH|X e k IH|t k IH|why]; intros s w; cbn; try done.
  - pose proof (pipe_instant X e w) as Hd. destruct (pipe_answer X e w) as [[x d] w'].
    cbn in Hd. subst d. rewrite node_tick_0. apply IH.
  - by rewrite IH.
Qed.

Lemma run_dispatch me sender payload b b' fs s w s' ts :
  leaves b [] fs b' → p_mtu w = mtu →
  acknowledges pipe_answer (dispatch_payload me sender payload b) b s w s' ts →
  run_node (dispatch_payload me sender payload b) s w = Ran (Returned b') s' (push w fs) ts.
Proof.
  intros Hl Hm (w1 & r & ses' & w2 & Hw & Hsend & Hrun).
  assert (w1 = w) as -> by (by destruct Hw). rewrite <-run_notick in Hsend. rewrite <-run_notick in Hrun.
  pose proof (run_leaves _ _ _ _ Ret s' w Hl Hm) as Hack. rewrite bind_ret_r, Hsend in Hack.
  rewrite Hrun. cbn in Hack. by injection Hack as -> -> ->.
Qed.

Lemma run_gather ts s w :
  run_node (gather_addresses ts) s w = Ran (Returned (ts ≫= λ _, p_local w)) s w [].
Proof.
  induction ts as [|e ts IH]; [done|]. cbn [gather_addresses]. rewrite run_call_pipe.
  cbn [fst snd pipe_answer]. by rewrite (run_then _ _ _ _ _ _ _ IH).
Qed.

(** The first message of a peer is its address exchange, answered with ours. *)
Lemma run_first_frame {A} sender theirs b1 b2 b3 d fB fA rest (f : _ → node_prog A) s w :
  leaves b1 (encode_addr_exchange (transports s ≫= λ _, p_local w)) fB b2 →
  arrives b2 d fA b3 → p_mtu w = mtu → p_in w = fA ++ rest → (NOISE_MSG_MAX < p_bound w)%nat →
  run_node (bind (first_frame sender (encode_addr_exchange theirs) b1) f) s w =
  run_node (f (Ok d, b3)) (exchanged sender theirs s) (set_in (push w fB) rest).
Proof.
  intros Hl Ha Hm Hin Hb. apply run_then. unfold first_frame.
  rewrite (run_then _ _ s w true s w) by done. cbv iota.
  pose proof (decode_exchange_encoded theirs []) as Hd. rewrite app_nil_r in Hd. rewrite Hd.
  rewrite (run_then _ _ s w (mapM wire_form (take 255 theirs)) s w) by done.
  rewrite (run_then _ _ s w tt (exchanged sender theirs s) w).
  2:{ unfold exchanged, learned_addresses. destruct (mapM _ _); [done|]. by destruct s. }
  rewrite (run_then _ _ (exchanged sender theirs s) w (transports s ≫= λ _, p_local w)
    (exchanged sender theirs s) w) by apply run_gather.
  rewrite (run_leaves _ _ _ _ _ _ _ Hl Hm). cbv beta iota.
  pose proof (run_arrives b2 d fA b3 Ret (exchanged sender theirs s) (push w fB) rest Ha Hin Hb) as Hr.
  rewrite bind_ret_r in Hr. exact Hr.
Qed.

(** Nothing more arrives: the connection is closed. *)
Lemma run_recv_closed {A} b (f : _ → node_prog A) s w :
  p_in w = [] → (0 < p_bound w)%nat →
  run_node (bind (session_recv b) f) s w = run_node (f (Err (p_eof w), b)) s w.
Proof.
  intros Hin Hb. apply run_then. destruct (p_bound w) as [|n] eqn:Hn; [lia|].
  cbn. rewrite Hn. cbn. rewrite Hin. cbn. rewrite !node_tick_0. by destruct b.
Qed.

Section receiver.
Context (idb : NodeIdentity) (c : conn).
Context (b0 b1 b2 b3 b4 : Session) (hsB fA1 fB1 fA2 fB2 : list (list byte)).
Context (es : list (list byte)) (theirs : list PeerAddress) (payload : list byte) (w : pipe).
Hypothesis Hmtu : p_mtu w = mtu.
Hypothesis Hbound : (NOISE_MSG_MAX < p_bound w)%nat.
Hypothesis Hshake : yields (T := task) pipe_answer node_tick (respond idb (BundleLayer_new c)) w (Ok b0)
  (crossed w es (fA1 ++ fA2) hsB).
Hypothesis Hexch_in : arrives b0 (encode_addr_exchange theirs) fA1 b1.
Hypothesis Hmsg : arrives b2 payload fA2 b3.
Hypothesis Hack : leaves b3 [] fB2 b4.

Lemma run_handle_incoming s s' (spawns : list task → Prop) :
  leaves b1 (encode_addr_exchange (transports s ≫= λ _, p_local w)) fB1 b2 →
  (∀ u, ∃ ts, acknowledges pipe_answer (dispatch_payload idb (s_peer_id b0) payload b3) b3
     (met (s_peer_id b0) (s_remote_static_key b0) theirs s) u s' ts ∧ spawns ts) →
  ∃ ts, run_node (handle_incoming idb c) s w =
    Ran (Returned tt) s' (crossed w es [] (hsB ++ fB1 ++ fB2)) ts ∧ spawns ts.
Proof.
  intros Hexch_out Hdisp.
  destruct (Hdisp (set_in (push (set_in (crossed w es (fA1 ++ fA2) hsB) fA2) fB1) []))
    as (ts & Hd & Hts). exists ts. split; [|exact Hts]. clear Hdisp Hts. unfold handle_incoming.
  rewrite (run_then _ _ s w (Ok b0) s (crossed w es (fA1 ++ fA2) hsB))
    by (eapply (run_link (@link_call)); [by apply only_respond|exact Hshake]).
  cbv beta iota zeta. rewrite run_learn. unfold met in Hd.
  set (p := s_peer_id b0) in *. set (key := s_remote_static_key b0) in *.
  rewrite (run_then _ _ (keyed p key s) _ tt (announced_key p (new_key p key s) (keyed p key s))
    (crossed w es (fA1 ++ fA2) hsB)) by (by destruct (new_key p key s)).
  rewrite (run_arrives _ _ _ _ _ _ _ fA2 Hexch_in) by done. cbv beta iota.
  rewrite (run_first_frame p theirs b1 b2 b3 payload fB1 fA2 []);
    [|by destruct (new_key p key s)|exact Hmsg|done|by rewrite app_nil_r|done].
  cbv beta iota. rewrite (run_spawning _ _ _ _ _ _ _ _ (run_dispatch idb p payload b3 b4 fB2 _
    (set_in (push (set_in (crossed w es (fA1 ++ fA2) hsB) fA2) fB1) []) s' ts Hack Hmtu Hd)).
  rewrite run_call_pipe. cbn [fst snd pipe_answer p_bound set_in push crossed].
  destruct (p_bound w) as [|n] eqn:Hn; [lia|]. cbn [receive_loop].
  rewrite run_recv_closed by (done || cbn; lia). cbn.
  unfold crossed, set_in, push, add_spawned. cbn. by rewrite Hn, !app_assoc, app_nil_r.
Qed.
End receiver.
End halves.

(** ** Both ends *)

(** A link between a node that dials and one that accepts: its mtu, the loop bound, how a
    read fails once the peer has closed, the entropy of the two handshakes, the addresses the two
    transports report, and the accepted connection. *)
Record hop := {
  h_mtu : nat;
  h_bound : nat;
  h_dial_eof : PathweaveError;
  h_answer_eof : PathweaveError;
  h_dial_entropy : list byte * list byte;
  h_answer_entropy : list byte;
  h_dial_local : list PeerAddress;
  h_answer_local : list PeerAddress;
  h_conn : conn
}.

(** The two ends, on which nothing has been sent, with what will arrive. *)
Definition dial_end (h : hop) (inbox : list (list byte)) : pipe :=
  {| p_mtu := h_mtu h; p_eof := h_dial_eof h; p_in := inbox; p_out := [];
     p_entropy := [(h_dial_entropy h).1; (h_dial_entropy h).2]; p_bound := h_bound h;
     p_local := h_dial_local h |}.

Definition answer_end (h : hop) (inbox : list (list byte)) : pipe :=
  {| p_mtu := h_mtu h; p_eof := h_answer_eof h; p_in := inbox; p_out := [];
     p_entropy := [h_answer_entropy h]; p_bound := h_bound h; p_local := h_answer_local h |}.

(** An end when its node is done: all read, [out] written. *)
Definition done_with (w : pipe) (out : list (list byte)) : pipe := crossed w [] [] out.

(** What the accepting node [s] answers the address exchange with. *)
Definition answered_addresses (h : hop) (s : node_state) : list PeerAddress :=
  transports s ≫= λ _, h_answer_local h.

Section exchange.
Context `{Crypto, Bp7, Snow, !SnowLaws, HashOrder} {LAWS : Bp7Laws} {SIZES : Bp7Sizes}.

(** Room for the framing, and for both address exchanges; the loops go round often enough. *)
Definition hop_ok (h : hop) (s : node_state) : Prop :=
  roomy (h_mtu h) ∧ (NOISE_MSG_MAX < h_bound h)%nat ∧
  (length (encode_addr_exchange (h_dial_local h)) + 16 ≤ NOISE_MSG_MAX)%nat ∧
  (length (encode_addr_exchange (answered_addresses h s)) + 16 ≤ NOISE_MSG_MAX)%nat.

(** The node has no key for the peer, or the right one. *)
Definition no_wrong_key (s : node_state) (p : PeerId) (k : array 32) : Prop :=
  registry_get (key_registry s) p = None ∨ registry_get (key_registry s) p = Some (x25519_public k).

Context (ka kb : array 32) (ida idb : NodeIdentity).
Hypothesis Ha : NodeIdentity_from_bytes (array_to_list ka) = Ok ida.
Hypothesis Hb : NodeIdentity_from_bytes (array_to_list kb) = Ok idb.
Local Abbreviation pA := (peer_id ida).
Local Abbreviation pB := (peer_id idb).
Context (h : hop) (sA sB : node_state).
Hypothesis Hhop : hop_ok h sB.
Hypothesis Hkey : no_wrong_key sA pB kb.

(** One frame from A to B: what A's router writes and reads, B reads and writes; A reports
    the delivery, and B ends in the state that dispatching the frame leads to. *)
Lemma frame_exchange id mid body anns t kind ann others s' (spawns : list task → Prop) :
  identified id mid → candidates anns (transports sA) = (t, kind, ann) :: others →
  (length (frame_message id body) + 16 ≤ NOISE_MSG_MAX)%nat →
  (∀ ses u, ∃ ts, acknowledges pipe_answer (dispatch_payload idb pA (frame_message id body) ses) ses
     (met pA (x25519_public ka) (h_dial_local h) sB) u s' ts ∧ spawns ts) →
  ∃ outA outB sA' ts,
    run_node (router_send ida anns body pB mid) sA (dial_end h outB) =
      Ran (Returned (Ok tt)) sA' (done_with (dial_end h outB) outA) [] ∧
    run_node (handle_incoming idb (h_conn h)) sB (answer_end h outA) =
      Ran (Returned tt) s' (done_with (answer_end h outA) outB) ts ∧
    spawns ts ∧
    events sA' = events sA ++ delivery_events pB kind (new_key pB (x25519_public kb) sA) ∧
    peers sA' = learned_addresses pB (answered_addresses h sB) (peers sA) ∧
    key_registry sA' = (insert_direct (key_registry sA) pB (x25519_public kb)).2 ∧
    pending_direct sA' = pending_direct sA ∧ pending_routed sA' = pending_routed sA ∧
    Forall (noise_frame (h_mtu h)) outA ∧ Forall (noise_frame (h_mtu h)) outB.
Proof.
  intros Hid Hcand Hm Hdisp. destruct Hhop as (Hroom & Hbound & HlA & HlB).
  set (rk := registry_get (key_registry sA) pB) in *.
  destruct (yields_handshake_in (T := task) node_tick ka kb ida idb rk 0 (h_conn h) (h_mtu h)
    (h_dial_entropy h).1 (h_answer_entropy h) (h_dial_entropy h).2 Ha Hb Hkey Hroom)
    as (hsA & hsB & a0 & b0 & Hya & Hyb & HnA & HnB & Hia & Hib & Hka & Hkb & Hl0).
  destruct (linked_message (h_mtu h) a0 b0 _ Hl0 HlA Hroom) as (fA1 & a1 & b1 & Ho1 & Hi1 & Hn1 & Hl1).
  destruct (linked_message (h_mtu h) b1 a1 _ Hl1 HlB Hroom) as (fB1 & b2 & a2 & Ho2 & Hi2 & Hn2 & Hl2).
  destruct (linked_message (h_mtu h) a2 b2 _ Hl2 Hm Hroom) as (fA2 & a3 & b3 & Ho3 & Hi3 & Hn3 & Hl3).
  destruct (linked_message (h_mtu h) b3 a3 [] Hl3) as (fB2 & b4 & a4 & Ho4 & Hi4 & Hn4 & _);
    [simpl; lia|exact Hroom|].
  set (outA := hsA ++ fA1 ++ fA2). set (outB := hsB ++ fB1 ++ fB2).
  destruct (run_router_send_pipe (h_mtu h) ida rk a0 a1 a2 a3 a4 hsA fA1 fB1 fA2 fB2 []
    (answered_addresses h sB) id body (dial_end h outB)
    eq_refl Hbound (Hya (dial_end h outB) [] _ eq_refl Hbound eq_refl eq_refl) Ho1 Hi2 Ho3 Hi4
    mid t kind ann others anns pB sA Hid eq_refl Hcand) as (sA' & HrA & HeA & HpA & HkA & Hpend).
  rewrite Hia, Hka in HeA, HkA. rewrite <-Hib, <-Hkb in Hdisp.
  destruct (run_handle_incoming (h_mtu h) idb (h_conn h) b0 b1 b2 b3 b4 hsB fA1 fB1 fA2 fB2 []
    (h_dial_local h) (frame_message id body) (answer_end h outA) eq_refl Hbound
    (Hyb (answer_end h outA) [] _ eq_refl Hbound eq_refl eq_refl)
    Hi1 Hi3 Ho4 sB s' spawns Ho2 (Hdisp b3)) as (ts & HrB & Hts).
  destruct Hpend. exists outA, outB, sA', ts. unfold outA, outB. rewrite !Forall_app. by split_and!.
Qed.
End exchange.
