(* ===== verification/EndToEnd.v ===== *)
(** * Messages from node to node

    A message sent to a neighbour, and a sealed message that reaches its destination through
    a relay: every node runs its own code, on the frames the others write. *)

From S2P Require Import Prelude RustStd Types Effects Env KeyRegistry Dedup Wire Bundle Session LinkCalls.
From S2P Require Import NodeState Router SendSafety Node NodeSafety Dispatch Sending LinkRuns.

Local Opaque NOISE_MSG_MAX.

Section end_to_end.
Context `{Crypto, Bp7, Snow, !SnowLaws, HashOrder} {LAWS : Bp7Laws} {SIZES : Bp7Sizes}.

(** A direct message over one link: [frame_exchange] with what the receiver makes of it. *)
Lemma direct_exchange (ka kb : array 32) ida idb (h : hop) sA sB id mid m anns t kind ann others :
  NodeIdentity_from_bytes (array_to_list ka) = Ok ida →
  NodeIdentity_from_bytes (array_to_list kb) = Ok idb →
  hop_ok h sB → no_wrong_key sA (peer_id idb) kb → identified id mid →
  candidates anns (transports sA) = (t, kind, ann) :: others →
  (length m + 25 ≤ NOISE_MSG_MAX)%nat →
  ∃ outA outB sA' sB',
    run pipe_answer node_tick (router_send ida anns (direct_frame m) (peer_id idb) mid) sA
      (dial_end h outB) = Ran (Returned (Ok tt)) sA' (done_with (dial_end h outB) outA) [] ∧
    run pipe_answer node_tick (handle_incoming idb (h_conn h)) sB (answer_end h outA) =
      Ran (Returned tt) sB' (done_with (answer_end h outA) outB) [] ∧
    (events sA' = events sA ++ delivery_events (peer_id idb) kind (new_key (peer_id idb) (x25519_public kb) sA) ∧
     peers sA' = learned_addresses (peer_id idb) (answered_addresses h sB) (peers sA) ∧
     key_registry sA' = (insert_direct (key_registry sA) (peer_id idb) (x25519_public kb)).2 ∧
     pending_direct sA' = pending_direct sA ∧ pending_routed sA' = pending_routed sA ∧
     Forall (noise_frame (h_mtu h)) outA ∧ Forall (noise_frame (h_mtu h)) outB) ∧
    delivered sB' =
      delivered sB ++
        (if (check_and_insert (dedup sB) (clock sB) (peer_id ida) id).1 || negb (handler sB)
         then [] else [(peer_id ida, m)]) ∧
    key_registry sB' = (insert_direct (key_registry sB) (peer_id ida) (x25519_public ka)).2 ∧
    peers sB' = learned_addresses (peer_id ida) (h_dial_local h) (peers sB).
Proof.
  intros Ha Hb Hhop Hkey Hid Hcand Hm. set (pA := peer_id ida).
  pose proof (does_direct idb pipe_answer pA id m) as Hdirect.
  destruct (met_spec pA (x25519_public ka) (h_dial_local h) sB) as (_ & _ & Hh & Hd & Hc & Hk & Hr & Hp).
  set (s1 := met pA (x25519_public ka) (h_dial_local h) sB) in *.
  destruct (check_and_insert (dedup s1) (clock s1) pA id) as [dup cache] eqn:Hdup.
  destruct (frame_exchange ka kb ida idb Ha Hb h sA sB Hhop Hkey id mid
    (direct_frame m) anns t kind ann others
    (if dup then set_dedup cache s1 else deliver pA m (set_dedup cache s1)) (λ ts, ts = []))
    as (outA & outB & sA' & ? & HA & HB & -> & Hsent); [done|exact Hcand| | |].
  { unfold direct_frame. rewrite length_frame. lia. }
  { intros ses u. specialize (Hdirect ses s1 u). rewrite Hdup in Hdirect. eauto. }
  do 4 eexists. split_and!; [exact HA|exact HB|apply Hsent..| | |].
  - rewrite <-Hc, <-Hk, <-Hh, <-Hd, Hdup. cbn [fst].
    destruct dup; cbn [orb]; [by rewrite app_nil_r|]. unfold deliver. cbn [handler set_dedup].
    destruct (handler s1); cbn; [done|by rewrite app_nil_r].
  - rewrite <-Hr. destruct dup; [done|]. unfold deliver. by destruct (handler _).
  - rewrite <-Hp. destruct dup; [done|]. unfold deliver. by destruct (handler _).
Qed.

(** C2. A message is delivered: between two honest nodes with a link between them, the frames
    that [send] on one writes are exactly those that [handle_incoming] on the other reads,
    and the frames that one answers with are those the first reads. [send] succeeds and
    reports the delivery; the receiver's handler is given the message under the sender's
    identity, unless the same identifier was delivered within the window before; each
    node has the other's key and addresses. The sender may know the receiver's key (XK)
    or not (XX). *)
Theorem message_end_to_end (ka kb : array 32) ida idb (h : hop) sA sB t kind ann others anns m
    (Ha : NodeIdentity_from_bytes (array_to_list ka) = Ok ida)
    (Hb : NodeIdentity_from_bytes (array_to_list kb) = Ok idb)
    (Hhop : hop_ok h sB) (Hkey : no_wrong_key sA (peer_id idb) kb)
    (Hpeer : peers sA !! peer_id idb = Some anns)
    (Hcand : candidates anns (transports sA) = (t, kind, ann) :: others)
    (Hm : (length m + 25 ≤ NOISE_MSG_MAX)%nat) :
  let pA := peer_id ida in
  let pB := peer_id idb in
  ∃ outA outB sA' sB',
    run pipe_answer node_tick (send ida pB m) sA (dial_end h outB) =
      Ran (Returned (Ok tt)) sA' (done_with (dial_end h outB) outA) [] ∧
    run pipe_answer node_tick (handle_incoming idb (h_conn h)) sB (answer_end h outA) =
      Ran (Returned tt) sB' (done_with (answer_end h outA) outB) [] ∧
    events sA' = events sA ++ delivery_events pB kind (new_key pB (x25519_public kb) sA) ∧
    delivered sB' =
      delivered sB ++
        (if (check_and_insert (dedup sB) (clock sB) pA pipe_message_id).1 || negb (handler sB)
         then [] else [(pA, m)]) ∧
    key_registry sA' = (insert_direct (key_registry sA) pB (x25519_public kb)).2 ∧
    key_registry sB' = (insert_direct (key_registry sB) pA (x25519_public ka)).2 ∧
    peers sA' = learned_addresses pB (answered_addresses h sB) (peers sA) ∧
    peers sB' = learned_addresses pA (h_dial_local h) (peers sB).
Proof.
  intros pA pB.
  destruct (direct_exchange ka kb ida idb h sA sB pipe_message_id None m anns t kind ann others)
    as (outA & outB & sA' & sB' & HA & HB & (HeA & HpA & HkA & _) & HdB & HkB & HpB); [done..|].
  exists outA, outB, sA', sB'. split_and!; try done.
  unfold send. rewrite run_read. fold pB in Hpeer. by rewrite Hpeer.
Qed.
(** ** Stored messages *)

(** The peer's queue holds one message, which has not expired, and nothing waits for other
    destinations: draining it sends that message. *)
Lemma run_drain_one ida store_ttl p anns id m queued s w s' w' :
  pending_direct s !! p = Some [((id, m, queued) : stored)] →
  expired (clock s) store_ttl (id, m, queued) = false → peers s !! p = Some anns → anns ≠ [] →
  run pipe_answer node_tick (router_send ida anns (direct_frame m) p (Some id))
    (set_direct (delete p) s) w = Ran (Returned (Ok tt)) s' w' [] →
  pending_routed s' = ∅ →
  run pipe_answer node_tick (task_body ida store_ttl (TDrain p)) s w = Ran (Returned tt) s' w' [].
Proof.
  intros Hq Hexp Hp Hne Hrun Hr'. cbn [task_body].
  rewrite (run_then _ _ s w tt s' w').
  - unfold drain_routed_all. rewrite run_call_pipe, run_read. cbn [fst snd pipe_answer].
    assert (hash_iter 0 (pending_routed s') = []) as ->; [|done].
    apply Permutation_nil_r. rewrite (hash_iter_perm 0 (pending_routed s')), Hr'. by rewrite map_to_list_empty.
  - unfold drain_direct_for_peer. cbn [bind lock Effects.run fst snd]. rewrite Hq. cbv iota.
    rewrite run_read, run_read. cbn [clock peers set_direct]. rewrite Hp.
    change (default [] (Some ?x)) with x. destruct anns as [|ann anns]; [done|].
    cbn [drain_entries]. rewrite Hexp. rewrite (run_then _ _ _ _ [] s' w'); [done|].
    rewrite (run_then _ _ _ _ true s' w'); [done|]. by rewrite (run_then _ _ _ _ _ _ _ Hrun).
Qed.

Lemma enqueue_first max p x q :
  max ≠ Some 0 → q !! p = None → (enqueue max p x q).1 = true ∧ (enqueue max p x q).2 = <[p := [x]]> q.
Proof.
  intros Hmax Hq. unfold enqueue. rewrite Hq. cbn. destruct max as [[|n]|]; [done| |];
    cbn; by rewrite insert_insert_eq.
Qed.

(** A message for a peer that is not known is queued. *)
Lemma run_store_unknown ida max p m s w :
  peers s !! p = None → pending_direct s !! p = None → max ≠ Some 0 →
  run pipe_answer node_tick (store_forward ida max p m) s w =
  Ran (Returned tt) (set_direct (insert p [(pipe_message_id, m, clock s)]) s) w [].
Proof.
  intros Hp Hq Hmax. unfold store_forward. rewrite run_new_message_id.
  rewrite run_read, run_read, Hp. cbn -[enqueue].
  destruct (enqueue_first max p (pipe_message_id, m, clock s) (pending_direct s) Hmax Hq) as [H5 H6].
  unfold pipe_message_id in *. destruct (enqueue _ _ _ _) as [kept q]. cbn in *. by subst.
Qed.

(** C6. A stored message is delivered later: [store_forward] to a peer the node has no address
    for queues the message; [add_peer] records an address and spawns the drain of the queue;
    when that task runs, at any time within [store_ttl], it dials the peer and sends the
    message, the peer's handler is given it under the sender's identity unless it was
    delivered already, and the queue is empty. *)
Theorem stored_message_delivered (ka kb : array 32) ida idb (h : hop) sA sB max store_ttl elapsed
    t kind others ann m w
    (Ha : NodeIdentity_from_bytes (array_to_list ka) = Ok ida)
    (Hb : NodeIdentity_from_bytes (array_to_list kb) = Ok idb)
    (Hhop : hop_ok h sB) (Hkey : no_wrong_key sA (peer_id idb) kb)
    (Hnew : peers sA !! peer_id idb = None ∧ pending_direct sA !! peer_id idb = None ∧
            pending_routed sA = ∅)
    (Hmax : max ≠ Some 0) (Httl : (Z.of_N elapsed <= store_ttl)%Z)
    (Hcand : candidates [ann] (transports sA) = (t, kind, ann) :: others)
    (Hm : (length m + 25 ≤ NOISE_MSG_MAX)%nat) :
  let pA := peer_id ida in
  let pB := peer_id idb in
  ∃ s1 s2 outA outB s3 sB',
    run pipe_answer node_tick (store_forward ida max pB m) sA w = Ran (Returned tt) s1 w [] ∧
    run pipe_answer node_tick (add_peer pB ann) s1 w = Ran (Returned tt) s2 w [TDrain pB] ∧
    run pipe_answer node_tick (task_body ida store_ttl (TDrain pB)) (node_tick elapsed s2)
      (dial_end h outB) = Ran (Returned tt) s3 (done_with (dial_end h outB) outA) [] ∧
    run pipe_answer node_tick (handle_incoming idb (h_conn h)) sB (answer_end h outA) =
      Ran (Returned tt) sB' (done_with (answer_end h outA) outB) [] ∧
    delivered sB' =
      delivered sB ++
        (if (check_and_insert (dedup sB) (clock sB) pA pipe_message_id).1 || negb (handler sB)
         then [] else [(pA, m)]) ∧
    pending_direct s3 = pending_direct sA ∧
    events s3 = events sA ++ delivery_events pB kind (new_key pB (x25519_public kb) sA).
Proof.
  destruct Hnew as (Hp & Hq & Hr). intros pA pB.
  set (s1 := set_direct (insert pB [(pipe_message_id, m, clock sA)]) sA).
  set (s2 := set_peers (add_announcement pB ann) (set_known (λ k, {[ address ann ]} ∪ k) s1)).
  set (s2' := set_direct (delete pB) (node_tick elapsed s2)).
  destruct (direct_exchange ka kb ida idb h s2' sB pipe_message_id (Some pipe_message_id) m [ann]
    t kind ann others) as (outA & outB & s3 & sB' & HA & HB & (HeA & _ & _ & Hpd & Hpr & _) & HdB & _); [done..|].
  exists s1, s2, outA, outB, s3, sB'. split_and!; [|done| |exact HB|exact HdB| |exact HeA].
  - by apply run_store_unknown.
  - eapply run_drain_one; [| | | |exact HA|by rewrite Hpr]; cbn.
    + apply lookup_insert_eq.
    + unfold expired, saturating_duration_since. cbn. apply Z.ltb_ge. lia.
    + unfold add_announcement. fold pB in Hp. rewrite Hp. cbn. apply lookup_insert_eq.
    + done.
  - rewrite Hpd. cbn. by rewrite delete_insert_id.
Qed.

(** ** Keys *)

(** A registry without a bound keeps every announced key. *)
Lemma gossip_kept r p key :
  max_size r = None → registry_get (insert_gossip r p key) p = Some key.
Proof.
  intros Hmax. unfold registry_get. destruct (entries r !! p) as [old|] eqn:Hp.
  - rewrite insert_gossip_known by eauto. cbn. by rewrite lookup_insert_eq.
  - rewrite insert_gossip_room; [cbn; by rewrite lookup_insert_eq|done|].
    intros (n & Hn & _). congruence.
Qed.

Lemma neighbors_elem keep seed s p anns :
  (p, anns) ∈ neighbors keep seed s ↔ keep p = true ∧ peers s !! p = Some anns.
Proof. unfold neighbors. by rewrite list_elem_of_filter, hash_iter_elem. Qed.

(** C7. Keys spread: a node that has learned a peer's key floods an announcement of it, with
    one send to each of its other neighbours; when such a send runs, in any later state, a
    neighbour that has not seen the announcement stores the key, delivers nothing, and
    hands the announcement on with one hop less to each of its own neighbours but the one it
    came from. So the neighbour can seal messages to a peer it never met. *)
Theorem key_reaches_neighbour (ka kc : array 32) ida idc (h : hop) sA sA2 sC anns cand p key w
    (Ha : NodeIdentity_from_bytes (array_to_list ka) = Ok ida)
    (Hc : NodeIdentity_from_bytes (array_to_list kc) = Ok idc)
    (Hhop : hop_ok h sC) (Hp : peer_id_from_public_key (array_to_list key) = p)
    (HA : peers sA !! peer_id idc = Some anns ∧ peer_id idc ∉ [p; peer_id ida])
    (HA2 : head (candidates anns (transports sA2)) = Some cand ∧ no_wrong_key sA2 (peer_id idc) kc)
    (HC : (checked sC pipe_message_id).1 = false ∧ max_size (key_registry sC) = None) :
  let announcement hops := encode_key_announcement p key hops in
  ∃ ts outA outC sA2' sC' ts',
    run pipe_answer node_tick (flood_key_announcement ida p key) sA w = Ran (Returned tt) sA w ts ∧
    TSend anns (announcement MAX_TTL) (peer_id idc) pipe_message_id ∈ ts ∧
    run pipe_answer node_tick
      (router_send ida anns (announcement MAX_TTL) (peer_id idc) (Some pipe_message_id)) sA2
      (dial_end h outC) = Ran (Returned (Ok tt)) sA2' (done_with (dial_end h outC) outA) [] ∧
    run pipe_answer node_tick (handle_incoming idc (h_conn h)) sC (answer_end h outA) =
      Ran (Returned tt) sC' (done_with (answer_end h outA) outC) ts' ∧
    registry_get (key_registry sC') p = Some key ∧ delivered sC' = delivered sC ∧
    ∀ q anns', peers sC !! q = Some anns' → q ∉ [peer_id ida; peer_id idc] →
      TSend anns' (announcement x06) q pipe_message_id ∈ ts'.
Proof.
  destruct HA as [Hpeer Hne]. destruct HA2 as [Hcand Hkey]. destruct HC as [Hfresh Hmax]. intros announcement.
  destruct (candidates anns (transports sA2)) as [|[[t kind] ann] others] eqn:Hcands; [done|].
  destruct (met_spec (peer_id ida) (x25519_public ka) (h_dial_local h) sC)
    as (_ & _ & _ & Hd & _ & _ & Hr & Hps).
  set (s1 := met (peer_id ida) (x25519_public ka) (h_dial_local h) sC) in *.
  destruct (frame_exchange ka kc ida idc Ha Hc h sA2 sC Hhop Hkey pipe_message_id (Some pipe_message_id)
    (announcement MAX_TTL) anns t kind ann others
    (set_registry (insert_gossip (key_registry s1) p key) (checked s1 pipe_message_id).2)
    (λ ts', ∀ q anns', peers sC !! q = Some anns' → q ∉ [peer_id ida; peer_id idc] →
      TSend anns' (announcement x06) q pipe_message_id ∈ ts'))
    as (outA & outC & sA2' & ts' & HrA & HrC & Hts & _); [done|exact Hcands| | |].
  { unfold announcement. unfold encode_key_announcement. rewrite length_frame, !length_app, !array_length.
    cbn. pose proof NOISE_MSG_MAX_Z. lia. }
  { intros ses u. pose proof (does_announcement idc pipe_answer (peer_id ida) pipe_message_id p key MAX_TTL
      ses s1 u) as Hdoes. cbv zeta in Hdoes.
    pose proof (checked_met (peer_id ida) (x25519_public ka) (h_dial_local h) sC pipe_message_id) as Hck.
    fold s1 in Hck. rewrite Hfresh in Hck. destruct (checked s1 pipe_message_id) as [dup s'].
    cbn in Hck. subst dup. rewrite decide_False in Hdoes by tauto.
    destruct Hdoes as (ts & Hdoes & Hrelay). rewrite decide_False in Hrelay by done.
    exists ts. split; [exact Hdoes|]. intros q anns' Hq Hnq.
    eapply relay_tasks_spec; [exact Hrelay|]. exists q, anns'. split; [done|].
    rewrite Hps, learned_addresses_other; set_solver. }
  eexists _, outA, outC, sA2', _, ts'. split_and!; [| |exact HrA|exact HrC| | |exact Hts].
  - unfold flood_key_announcement. rewrite run_new_message_id, run_call_pipe, run_read. apply run_spawn_sends.
  - apply list_elem_of_fmap. exists (peer_id idc, anns). split; [done|]. apply neighbors_elem.
    split; [|done]. rewrite !bool_decide_eq_false_2; set_solver.
  - cbn [key_registry set_registry]. apply gossip_kept. by rewrite Hr.
  - rewrite <-Hd. unfold checked. by destruct (check_and_insert_routed _ _ _).
Qed.
End end_to_end.
