(* ===== verification/Routes.v ===== *)
(** * Sealed messages along a route

    A sealed message flooded by its sender reaches the destination through a chain of relays,
    each of which runs its own code on the frames the one before it writes. The chain may be
    as long as the hop count allows. *)

From S2P Require Import Prelude RustStd Types Effects Env KeyRegistry Dedup Wire Bundle Session LinkCalls.
From S2P Require Import NodeState Router SendSafety Node NodeSafety Dispatch Sending LinkRuns.

Local Opaque NOISE_MSG_MAX.

Section routes.
Context `{Crypto, Bp7, Snow, !SnowLaws, HashOrder} {LAWS : Bp7Laws} {SIZES : Bp7Sizes}.

(** ** One relay *)

Lemma neighbors_singleton keep seed s p anns :
  peers s = {[ p := anns ]} → keep p = true → neighbors keep seed s = [(p, anns)].
Proof.
  intros Hp Hk. unfold neighbors.
  pose proof (hash_iter_perm seed (peers s)) as Hperm. rewrite Hp, map_to_list_singleton in Hperm.
  rewrite Hp. apply Permutation_singleton_r in Hperm. rewrite Hperm.
  by rewrite filter_cons_True.
Qed.

(** Flooding to the only neighbour. *)
Lemma run_flood_one me body id p anns s w s' w' :
  peers s = {[ p := anns ]} → p ≠ peer_id me →
  run pipe_answer node_tick (router_send me anns body p (Some id)) s w =
    Ran (Returned (Ok tt)) s' w' [] →
  run pipe_answer node_tick (flood_frame me body id) s w = Ran (Returned (Ok tt)) s' w' [].
Proof.
  intros Hp Hne Hrun. unfold flood_frame. rewrite run_call_pipe. cbn [fst snd pipe_answer].
  rewrite run_read, (neighbors_singleton _ _ s p anns Hp)
    by (unfold others; by rewrite bool_decide_eq_false_2).
  cbn [send_to_all]. by rewrite (run_then _ _ s w true s' w') by (by rewrite (run_then _ _ _ _ _ _ _ Hrun)).
Qed.

(** An end of a link with more entropy to draw from first. *)
Definition primed (es : list (list byte)) (w : pipe) : pipe :=
  {| p_mtu := p_mtu w; p_eof := p_eof w; p_in := p_in w; p_out := p_out w;
     p_entropy := es ++ p_entropy w; p_bound := p_bound w; p_local := p_local w |}.

(** The sealed message as it travels: [hops] are left. *)
Definition sealed_body (sender dest : PeerId) (hops : byte) (sealed : list byte) : list byte :=
  routed_frame x03 dest hops (array_to_list (PeerId_as_bytes sender) ++ sealed).

Lemma length_sealed_body id sender dest hops sealed :
  length (frame_message id (sealed_body sender dest hops sealed)) = 74 + length sealed.
Proof.
  unfold sealed_body, routed_frame. rewrite length_frame, length_app, array_length. cbn.
  rewrite length_app, array_length. lia.
Qed.

(** A relay that has not seen the message hands it on to every neighbour but the one it came
    from, with one hop less. *)
Lemma relay_hands_on idr prev pA dest next id hops sealed s anns ses u :
  dest ≠ peer_id idr → next ∉ [prev; peer_id idr] → (0 < byte_to_Z hops <= 7)%Z →
  (checked s id).1 = false → peers s !! next = Some anns →
  ∃ ts, acknowledges pipe_answer (dispatch_payload idr prev
          (frame_message id (sealed_body pA dest hops sealed)) ses) ses s u (checked s id).2 ts ∧
        TSend anns (sealed_body pA dest (byte_pred hops) sealed) next id ∈ ts.
Proof.
  intros Hdest Hnext Hhops Hfresh Hpeer.
  assert (byte_min hops MAX_TTL = hops) as Hmin.
  { unfold byte_min. change (byte_to_Z MAX_TTL) with 7%Z. by rewrite (proj2 (Z.leb_le _ _)) by lia. }
  pose proof (does_sealed idr pipe_answer prev id dest hops pA sealed ses s u) as Hd. cbv zeta in Hd.
  rewrite Hmin in Hd. destruct (checked s id) as [dup s'] eqn:Hck. cbn in Hfresh. subst dup.
  rewrite decide_False in Hd by done. rewrite decide_False in Hd by (intros ->; change (byte_to_Z x00) with 0%Z in Hhops; lia). destruct Hd as (ts & Hd & Hts).
  exists ts. split; [exact Hd|]. eapply relay_tasks_spec; [exact Hts|].
  exists next, anns. set_solver.
Qed.

(** The destination opens it, if it has the sender's key and has not seen the message. *)
Lemma destination_opens ka idb pA relay id d sealed s hops ses u :
  registry_get (key_registry s) pA = Some (x25519_public ka) →
  unseal idb pA (x25519_public ka) sealed = Ok d → (checked s id).1 = false →
  ∃ ts, acknowledges pipe_answer (dispatch_payload idb relay
          (frame_message id (sealed_body pA (peer_id idb) hops sealed)) ses) ses s u
          (deliver pA d (checked s id).2) ts ∧ ts = [].
Proof.
  intros Hkey Hopen Hfresh.
  pose proof (does_sealed idb pipe_answer relay id (peer_id idb) hops pA sealed ses s u) as Hd.
  cbv zeta in Hd. destruct (checked s id) as [dup s'] eqn:Hck. cbn in Hfresh. subst dup.
  rewrite decide_True in Hd by done. unfold open_sealed in Hd. rewrite Hkey, Hopen in Hd. eauto.
Qed.

(** A node that has the key of [dest] and one neighbour seals the payload and floods it. *)
Lemma run_send_sealed ida dest key entropy d sealed p anns s w s' w' :
  registry_get (key_registry s) dest = Some key → seal entropy ida key d = Ok sealed →
  peers s = {[ p := anns ]} → p ≠ peer_id ida →
  run pipe_answer node_tick (router_send ida anns (sealed_body (peer_id ida) dest MAX_TTL sealed) p
    (Some pipe_message_id)) s w = Ran (Returned (Ok tt)) s' w' [] →
  run pipe_answer node_tick (send_routed_sealed ida dest d) s (primed [entropy] w) =
    Ran (Returned (Ok tt)) s' w' [].
Proof.
  intros Hkey Hseal Hp Hne Hrun. unfold send_routed_sealed. rewrite run_read, Hkey. cbn [ok_or].
  rewrite run_call_pipe. cbn [fst snd pipe_answer primed p_entropy app head tail].
  change (default [] (Some ?e)) with e. rewrite Hseal.
  rewrite run_new_message_id. destruct w. by eapply run_flood_one.
Qed.

(** ** The route *)

(** A node that dials, running [prog], and the node [me] that answers, at the two ends of [h]: each
    reads what the other writes, both return, and the one that answers is left in [s']
    having spawned [ts]. *)
Definition over_link (h : hop) (prog : node_prog (result unit)) (es : list (list byte))
    (s : node_state) (me : NodeIdentity) (s0 s' : node_state) (ts : list task) : Prop :=
  ∃ out_dial out_answer s_dial,
    run pipe_answer node_tick prog s (primed es (dial_end h out_answer)) =
      Ran (Returned (Ok tt)) s_dial (done_with (dial_end h out_answer) out_dial) [] ∧
    run pipe_answer node_tick (handle_incoming me (h_conn h)) s0 (answer_end h out_dial) =
      Ran (Returned tt) s' (done_with (answer_end h out_dial) out_answer) ts.

(** A relay: its key, the link the message arrives on, its state then and when the send it
    spawned runs, and what it knew of the next stop. *)
Record relay := {
  rl_key : array 32;
  rl_id : NodeIdentity;
  rl_link : hop;
  rl_arrival : node_state;
  rl_departure : node_state;
  rl_next : list PeerAnnouncement
}.

Section route.
Context (ka kb : array 32) (ida idb : NodeIdentity) (link : hop) (sB : node_state).
Context (id : u64) (d sealed : list byte).
Local Abbreviation pA := (peer_id ida).
Local Abbreviation pB := (peer_id idb).

Definition next_stop (rs : list relay) : PeerId :=
  match rs with [] => pB | r :: _ => peer_id (rl_id r) end.

(** A node in state [s] can dial [p], whose key is [k], at one of [anns]. *)
Definition can_dial (s : node_state) (anns : list PeerAnnouncement) (p : PeerId) (k : array 32) : Prop :=
  candidates anns (transports s) ≠ [] ∧ no_wrong_key s p k.

(** A relay is neither end, has not seen the message, and knows the next stop, which is
    not where the message came from. *)
Definition relay_ok (prev : PeerId) (r : relay) (rs : list relay) : Prop :=
  NodeIdentity_from_bytes (array_to_list (rl_key r)) = Ok (rl_id r) ∧
  hop_ok (rl_link r) (rl_arrival r) ∧ (peer_id (rl_id r) ∉ [pA; pB]) ∧
  (next_stop rs ∉ [prev; peer_id (rl_id r)]) ∧ (checked (rl_arrival r) id).1 = false ∧
  peers (rl_arrival r) !! next_stop rs = Some (rl_next r).

(** From node [prev], in state [s], along [rs] to the destination. *)
Fixpoint route_ok (prev : PeerId) (s : node_state) (anns : list PeerAnnouncement)
    (rs : list relay) : Prop :=
  match rs with
  | [] => can_dial s anns pB kb
  | r :: rs =>
    can_dial s anns (peer_id (rl_id r)) (rl_key r) ∧ relay_ok prev r rs ∧
    route_ok (peer_id (rl_id r)) (rl_departure r) (rl_next r) rs
  end.

(** The message, on its way with [hops] left when [prog] sends it: the destination's handler
    is given it; a relay delivers nothing, spawns a send of it to the next stop with one hop
    less, and that send carries it on. *)
Inductive carried : node_prog (result unit) → list (list byte) → node_state → byte → list relay → Prop :=
| carried_home prog es s hops sB' :
    over_link link prog es s idb sB sB' [] → delivered sB' = delivered sB ++ [(pA, d)] →
    carried prog es s hops []
| carried_on prog es s hops r rs s' ts :
    let body := sealed_body pA pB (byte_pred hops) sealed in
    over_link (rl_link r) prog es s (rl_id r) (rl_arrival r) s' ts →
    delivered s' = delivered (rl_arrival r) → TSend (rl_next r) body (next_stop rs) id ∈ ts →
    carried (router_send (rl_id r) (rl_next r) body (next_stop rs) (Some id)) [] (rl_departure r)
      (byte_pred hops) rs →
    carried prog es s hops (r :: rs).

Lemma carried_first p q es s hops rs :
  (∀ h me s0 s' ts, over_link h p [] s me s0 s' ts → over_link h q es s me s0 s' ts) →
  carried p [] s hops rs → carried q es s hops rs.
Proof. intros Hpq Hc. inversion Hc; subst; econstructor; eauto. Qed.

Hypothesis Ha : NodeIdentity_from_bytes (array_to_list ka) = Ok ida.
Hypothesis Hb : NodeIdentity_from_bytes (array_to_list kb) = Ok idb.
Hypothesis Hlink : hop_ok link sB.
Hypothesis Hkey : registry_get (key_registry sB) pA = Some (x25519_public ka).
Hypothesis Hfresh : (checked sB id).1 = false.
Hypothesis Hhandler : handler sB = true.
Hypothesis Hopen : unseal idb pA (x25519_public ka) sealed = Ok d.
Hypothesis Hlen : (length sealed + 90 ≤ NOISE_MSG_MAX)%nat.

(** One link: from any node, to a node that dispatches the frame from [met] to [s']. *)
Lemma over_link_frame kp kn idp idn h s s0 s' anns hops (spawns : list task → Prop) :
  NodeIdentity_from_bytes (array_to_list kp) = Ok idp →
  NodeIdentity_from_bytes (array_to_list kn) = Ok idn →
  hop_ok h s0 → can_dial s anns (peer_id idn) kn →
  (∀ ses u, ∃ ts, acknowledges pipe_answer (dispatch_payload idn (peer_id idp)
     (frame_message id (sealed_body pA pB hops sealed)) ses) ses
     (met (peer_id idp) (x25519_public kp) (h_dial_local h) s0) u s' ts ∧ spawns ts) →
  ∃ ts, over_link h (router_send idp anns (sealed_body pA pB hops sealed) (peer_id idn) (Some id)) []
    s idn s0 s' ts ∧ spawns ts.
Proof.
  intros Hp Hn Hh [Hc Hk] Hdisp.
  destruct (candidates anns (transports s)) as [|[[t kind] ann] others] eqn:Hcand; [done|].
  destruct (frame_exchange kp kn idp idn Hp Hn h s s0 Hh Hk id (Some id)
    (sealed_body pA pB hops sealed) anns t kind ann others s' spawns)
    as (outA & outB & sA' & ts & HrA & HrB & Hts & _); [done|done| |exact Hdisp|].
  { rewrite length_sealed_body. lia. }
  exists ts. split; [|exact Hts]. by exists outA, outB, sA'.
Qed.

(** The last link. *)
Lemma over_last_link kp idp s anns hops :
  NodeIdentity_from_bytes (array_to_list kp) = Ok idp → (peer_id idp = pA → kp = ka) →
  can_dial s anns pB kb →
  ∃ sB', over_link link (router_send idp anns (sealed_body pA pB hops sealed) pB (Some id)) [] s
    idb sB sB' [] ∧ delivered sB' = delivered sB ++ [(pA, d)].
Proof.
  intros Hp Hsame Hdial.
  destruct (met_spec (peer_id idp) (x25519_public kp) (h_dial_local link) sB)
    as (_ & _ & Hh & Hd & _ & _ & Hr & _).
  set (s1 := met (peer_id idp) (x25519_public kp) (h_dial_local link) sB) in *.
  destruct (over_link_frame kp kb idp idb link s sB (deliver pA d (checked s1 id).2) anns hops
    (λ ts, ts = [])) as (ts & Hrun & ->); [done..| |].
  { intros ses u. eapply (destination_opens ka); [|exact Hopen|].
    - rewrite Hr. destruct (decide (peer_id idp = pA)) as [Heq|]; [|by rewrite insert_direct_other].
      rewrite Heq, (Hsame Heq). unfold registry_get, insert_direct. cbn. by rewrite lookup_insert_eq.
    - unfold s1. by rewrite checked_met. }
  exists (deliver pA d (checked s1 id).2). split; [exact Hrun|].
  rewrite <-Hd. unfold checked. destruct (check_and_insert_routed _ _ _). unfold deliver.
  cbn [handler set_dedup snd]. by rewrite Hh, Hhandler.
Qed.

(** A link to a relay. *)
Lemma over_relay_link (kp : array 32) idp s anns hops r rs :
  NodeIdentity_from_bytes (array_to_list kp) = Ok idp →
  can_dial s anns (peer_id (rl_id r)) (rl_key r) → relay_ok (peer_id idp) r rs →
  (0 < byte_to_Z hops <= 7)%Z →
  ∃ s' ts, over_link (rl_link r) (router_send idp anns (sealed_body pA pB hops sealed)
      (peer_id (rl_id r)) (Some id)) [] s (rl_id r) (rl_arrival r) s' ts ∧
    delivered s' = delivered (rl_arrival r) ∧
    TSend (rl_next r) (sealed_body pA pB (byte_pred hops) sealed) (next_stop rs) id ∈ ts.
Proof.
  intros Hp Hdial (Hid & Hh & Hends & Hnext & Hseen & Hpeer) Hhops.
  destruct (met_spec (peer_id idp) (x25519_public kp) (h_dial_local (rl_link r)) (rl_arrival r))
    as (_ & _ & _ & Hd & _ & _ & _ & Hps).
  set (s1 := met (peer_id idp) (x25519_public kp) (h_dial_local (rl_link r)) (rl_arrival r)) in *.
  destruct (over_link_frame kp (rl_key r) idp (rl_id r) (rl_link r) s (rl_arrival r) (checked s1 id).2
    anns hops (λ ts, TSend (rl_next r) (sealed_body pA pB (byte_pred hops) sealed) (next_stop rs) id ∈ ts))
    as (ts & Hrun & Hts); [done..| |].
  { intros ses u. apply relay_hands_on; [set_solver|set_solver|done| |].
    - unfold s1. by rewrite checked_met.
    - rewrite Hps, learned_addresses_other; [done|set_solver]. }
  exists (checked s1 id).2, ts. split; [exact Hrun|]. split; [|exact Hts].
  rewrite <-Hd. unfold checked. by destruct (check_and_insert_routed _ _ _).
Qed.

Lemma carried_along rs (kp : array 32) idp s anns hops :
  NodeIdentity_from_bytes (array_to_list kp) = Ok idp → (peer_id idp = pA → kp = ka) →
  route_ok (peer_id idp) s anns rs → (Z.of_nat (length rs) <= byte_to_Z hops <= 7)%Z →
  carried (router_send idp anns (sealed_body pA pB hops sealed) (next_stop rs) (Some id)) [] s hops rs.
Proof.
  revert kp idp s anns hops. induction rs as [|r rs IH]; intros kp idp s anns hops Hp Hsame Hroute Hhops.
  - destruct (over_last_link kp idp s anns hops) as (sB' & Hrun & Hd); [done..|].
    by eapply carried_home.
  - destruct Hroute as (Hdial & Hrelay & Hroute). cbn [length] in Hhops.
    destruct (over_relay_link kp idp s anns hops r rs) as (s' & ts & Hrun & Hd & Hts); [done..|lia|].
    eapply carried_on; [exact Hrun|exact Hd|exact Hts|].
    destruct Hrelay as (Hid & _ & Hends & _). apply (IH (rl_key r)); [done| |done|].
    + intros Heq. exfalso. apply Hends. rewrite Heq. apply elem_of_cons. by left.
    + rewrite byte_to_Z_pred; lia.
Qed.
End route.

(** C3. A sealed message reaches its destination along a route of up to seven relays: a node
    that has the destination's key and one neighbour floods it; each relay, which has not
    seen it, delivers nothing and spawns a send of it to the next stop with one hop less;
    when that send runs, in whatever state the relay is by then, it carries the message
    on; and the destination's handler is given the payload under the first node's
    identity. On each link the frames one node writes are those the other reads, and every
    call returns. *)
Theorem sealed_along_route (ka kb : array 32) ida idb entropy d sA anns (rs : list relay) link sB
    (Ha : NodeIdentity_from_bytes (array_to_list ka) = Ok ida)
    (Hb : NodeIdentity_from_bytes (array_to_list kb) = Ok idb)
    (HA : peers sA = {[ next_stop idb rs := anns ]} ∧ next_stop idb rs ≠ peer_id ida ∧
          registry_get (key_registry sA) (peer_id idb) = Some (x25519_public kb))
    (HB : hop_ok link sB ∧ handler sB = true ∧ (checked sB pipe_message_id).1 = false ∧
          registry_get (key_registry sB) (peer_id ida) = Some (x25519_public ka))
    (Hroute : route_ok kb ida idb pipe_message_id (peer_id ida) sA anns rs)
    (Hrelays : length rs ≤ 7) (Hlen : (length d + 138 ≤ NOISE_MSG_MAX)%nat) :
  ∃ sealed, carried ida idb link sB pipe_message_id d sealed
    (send_routed_sealed ida (peer_id idb) d) [entropy] sA MAX_TTL rs.
Proof.
  destruct HA as (Hpeers & Hne & HkB). destruct HB as (Hlink & Hhandler & Hfresh & HkA).
  destruct (seal_opens ka kb ida idb entropy d Ha Hb) as (sealed & Hseal & Hopen & Hsl); [lia|].
  exists sealed. apply (carried_first _ _ _ _ _ _ _ (router_send ida anns
    (sealed_body (peer_id ida) (peer_id idb) MAX_TTL sealed) (next_stop idb rs) (Some pipe_message_id))).
  - intros h me s0 s' ts (outA & outB & sA' & HrA & HrB). exists outA, outB, sA'.
    split; [|exact HrB]. by eapply run_send_sealed.
  - apply (carried_along ka kb ida idb link sB pipe_message_id d sealed Ha Hb Hlink HkA Hfresh
      Hhandler Hopen) with ka; [lia|done|done|done|].
    change (byte_to_Z MAX_TTL) with 7%Z. lia.
Qed.
End routes.
