(* ===== verification/Models.v ===== *)
(** * Concrete instances

    The theorems quantify over the cryptographic primitives and the Noise
    implementation. This file gives functions that satisfy what is assumed of them
    (with no secrecy whatsoever), so that the theorems can be applied to concrete
    nodes, and the concrete nodes and messages they are applied to. *)

From S2P Require Import Prelude RustStd Types Effects Env KeyRegistry Dedup Wire Bundle Bp7Cbor Session.
From S2P Require Import NodeState Router SendSafety Node.

Definition fit_32 (l : list byte) : list byte := take 32 (l ++ replicate 32 x00).

Lemma fit_32_len l : (length (fit_32 l) =? 32) = true.
Proof.
  unfold fit_32. rewrite length_take, length_app, length_replicate. apply Nat.eqb_eq. lia.
Qed.

(** A key is its own public key and, padded or cut to 32 bytes, its own hash. *)
#[export] Instance plain_crypto : Crypto := {|
  blake3_hash l := Array (n := 32) (fit_32 l) (fit_32_len l);
  x25519_public k := k
|}.

(** ** Noise without encryption *)

Record plain_handshake := {
  ph_pattern : noise_pattern;
  ph_self : list byte;
  ph_remote : option (array 32);
  ph_step : nat
}.

(** Whether message number [n] of a pattern carries its sender's static key. *)
Definition carries (p : noise_pattern) (n : nat) : bool :=
  match p with Noise_XX => 1 <=? n | Noise_XK => 2 <=? n | Noise_K => true end.

Definition bump (h : plain_handshake) (remote : option (array 32)) : plain_handshake :=
  {| ph_pattern := ph_pattern h; ph_self := ph_self h; ph_remote := remote;
     ph_step := S (ph_step h) |}.

Definition plain_write (e : list byte) (h : plain_handshake) (d : list byte) (cap : nat) :
    string + list byte * plain_handshake :=
  let m := (if carries (ph_pattern h) (ph_step h) then ph_self h else []) ++ d in
  if length m <=? cap then inr (m, bump h (ph_remote h)) else inl "input"%string.

Definition plain_read (h : plain_handshake) (m : list byte) (cap : nat) :
    string + list byte * plain_handshake :=
  if carries (ph_pattern h) (ph_step h) then
    match try_into 32 (take 32 m) with
    | None => inl "input"%string
    | Some key =>
      match ph_remote h with
      | Some k => if decide (k = key) then inr (drop 32 m, bump h (Some k)) else inl "decrypt"%string
      | None => inr (drop 32 m, bump h (Some key))
      end
    end
  else inr (m, bump h (ph_remote h)).

Definition plain_tag : list byte := replicate 16 x00.

#[export] Instance plain_snow : Snow := {|
  HandshakeState := plain_handshake;
  TransportState := unit;
  snow_build p _ priv rk := inr {| ph_pattern := p; ph_self := priv; ph_remote := rk; ph_step := 0 |};
  hs_write := plain_write;
  hs_read := plain_read;
  get_remote_static h := array_to_list <$> ph_remote h;
  into_transport_mode _ := inr tt;
  ts_write _ d cap :=
    (if length d + 16 <=? cap then inr (d ++ plain_tag) else inl "input"%string, tt);
  ts_read _ c _ :=
    (if 16 <=? length c then inr (take (length c - 16) c) else inl "decrypt"%string, tt);
  to_base58 p := String.string_of_list_byte (concat (hex_byte <$> array_to_list (PeerId_as_bytes p)))
|}.

Lemma plain_write_ok e h d cap :
  length ((if carries (ph_pattern h) (ph_step h) then ph_self h else []) ++ d) ≤ cap →
  plain_write e h d cap =
  inr ((if carries (ph_pattern h) (ph_step h) then ph_self h else []) ++ d, bump h (ph_remote h)).
Proof. intros Hl. unfold plain_write. by rewrite (proj2 (Nat.leb_le _ _) Hl). Qed.

Lemma plain_read_key h (k : array 32) d cap :
  carries (ph_pattern h) (ph_step h) = true → (ph_remote h = None ∨ ph_remote h = Some k) →
  plain_read h (array_to_list k ++ d) cap = inr (d, bump h (Some k)).
Proof.
  intros Hc Hr. unfold plain_read. rewrite Hc.
  rewrite take_app_length' by (by rewrite array_length). rewrite try_into_array.
  rewrite drop_app_length' by (by rewrite array_length).
  destruct Hr as [-> | ->]; [done|]. by rewrite decide_True.
Qed.

Local Opaque NOISE_MSG_MAX.

#[export] Program Instance plain_laws : SnowLaws := {| paired _ _ := True |}.
Next Obligation.
  intros h raw Hraw. apply fmap_Some in Hraw as (k & _ & ->). apply array_length.
Qed.
Next Obligation. intros priv key h [= <-]. done. Qed.
Next Obligation.
  intros e h d n m h' raw Hw Hg. simpl in *. unfold plain_write in Hw.
  destruct (_ <=? _); simplify_eq. done.
Qed.
Next Obligation.
  intros h m n d h' raw Hr Hg. simpl in *. unfold plain_read in Hr.
  destruct (carries _ _); [|by simplify_eq]. destruct (try_into _ _); [|done].
  apply fmap_Some in Hg as (k & Hk & ->). rewrite Hk in Hr. case_decide; simplify_eq. done.
Qed.
Next Obligation. done. Qed.
Next Obligation.
  intros a b d _ Hd. exists (d ++ plain_tag), tt, tt.
  assert (length (d ++ plain_tag) = length d + 16) as Hl by (by rewrite length_app).
  cbn [ts_write ts_read plain_snow]. rewrite Nat.leb_refl, Hl.
  rewrite (proj2 (Nat.leb_le 16 (length d + 16))) by lia. split_and!; try done.
  by rewrite Nat.add_sub, take_app_length.
Qed.
Next Obligation.
  intros p rk ka kb e1 e2 e3 Hu. pose proof NOISE_MSG_MAX_Z as Hmax.
  assert (length (array_to_list ka) = 32 ∧ length (array_to_list kb) = 32) as [Hla Hlb]
    by (split; apply array_length).
  destruct Hu as [[-> ->]|[-> ->]].
  - do 13 eexists. simpl. unfold key_bytes, key_public.
    split; [done|]. split; [done|].
    split; [apply plain_write_ok; simpl; lia|]. simpl.
    split; [done|].
    split; [apply plain_write_ok; simpl; rewrite app_nil_r; lia|]. simpl.
    split; [apply plain_read_key; simpl; auto|].
    split; [apply plain_write_ok; simpl; rewrite app_nil_r; lia|]. simpl.
    split; [apply plain_read_key; simpl; auto|].
    rewrite !app_nil_r. do 4 (split; [reflexivity|]). split; [exact I|].
    simpl length. rewrite ?Hla, ?Hlb. clear -Hmax. split; [lia|split; lia].
  - do 13 eexists. simpl. unfold key_bytes, key_public.
    split; [done|]. split; [done|].
    split; [apply plain_write_ok; simpl; lia|]. simpl.
    split; [done|].
    split; [apply plain_write_ok; simpl; lia|]. simpl.
    split; [done|].
    split; [apply plain_write_ok; simpl; rewrite app_nil_r; lia|]. simpl.
    split; [apply plain_read_key; simpl; auto|].
    rewrite !app_nil_r. do 4 (split; [reflexivity|]). split; [exact I|].
    simpl length. rewrite ?Hla, ?Hlb. clear -Hmax. split; [lia|split; lia].
Qed.
Next Obligation.
  intros e ka kb d Hd. pose proof (array_length ka) as Hl. do 5 eexists. simpl. unfold key_bytes.
  split; [done|]. split; [done|].
  split; [apply plain_write_ok; simpl; rewrite length_app; lia|]. simpl.
  split; [apply plain_read_key; simpl; auto|]. rewrite length_app. lia.
Qed.

(** ** Concrete peers *)

Definition key_of (b : byte) : array 32 := array_of_byte 32 b.
Definition identity_of (b : byte) : NodeIdentity :=
  NodeIdentity_generate (array_to_list (key_of b), array_to_list (key_of b)).
Definition peer_of (b : byte) : PeerId := peer_id (identity_of b).

Lemma identity_of_bytes b :
  NodeIdentity_from_bytes (array_to_list (key_of b)) = Ok (identity_of b).
Proof. unfold NodeIdentity_from_bytes. by rewrite try_into_array. Qed.

(** A QUIC address, a session, a node's state. *)
Definition addr_of (b : byte) : PeerAddress :=
  Quic (V4 (array_of_byte 4 b) (u16_of_Z 4433)).
Definition ann_of (b : byte) : PeerAnnouncement := {| address := addr_of b; short_id := None |}.

Definition session_with (b : byte) : Session := {|
  s_peer_id := peer_of b; s_remote_static_key := key_of b; s_state := tt;
  s_conn := BundleLayer_new 0 |}.

Definition quic_up : TransportEntry :=
  {| te_transport := 0; te_kind := KQuic; te_available := true; te_started := true |}.

(** A node with peer [b] in its table, a QUIC transport up and a handler. *)
Definition node_knowing (b : byte) : node_state := {|
  transports := [quic_up]; events := []; peers := {[ peer_of b := [ann_of b] ]};
  known_addrs := ∅; handler := true; delivered := []; dedup := dedup_new;
  key_registry := registry_new None; pending_direct := ∅; pending_routed := ∅; clock := 0%Z |}.

(** A pipe without an mtu, on which no frame needs fragments. *)
Definition wide_pipe (inbox : list (list byte)) : pipe :=
  {| p_mtu := 0; p_eof := ETransport "channel closed"; p_in := inbox; p_out := []; p_local := []; p_entropy := [];
     p_bound := Z.to_nat 70000 |}.

Lemma roomy_wide : roomy 0.
Proof. intros sq bytes. by eexists. Qed.
