(* ===== verification/Witnesses.v ===== *)
(** * The theorems at concrete inputs

    Each theorem that has hypotheses, or is stated over an interface, is applied
    here to concrete peers, messages and networks, on the instances of
    [Models.v] and [Bp7Cbor.v]. *)

From S2P Require Import Prelude RustStd Types Effects Env KeyRegistry Dedup Wire Bundle Bp7Cbor Session.
From S2P Require Import NodeState Router SendSafety Node NodeSafety Ownership Kinds Dispatch Sending Queues Lifecycle LinkRuns EndToEnd Routes Models.
Local Open Scope Z_scope.

(** ** Registry and cache *)

Lemma direct_survives_gossip_witness :
  is_direct (insert_gossips (insert_direct (registry_new (Some 1%nat)) (peer_of x01) (key_of x01)).2
    [(peer_of x02, key_of x02)]) (peer_of x01).
Proof.
  apply (direct_survives_gossip (registry_new (Some 1%nat)) (peer_of x01) (key_of x01)
    [(peer_of x02, key_of x02)]). apply registry_new_wf.
Defined.

Lemma gossip_respects_bound_witness :
  (size (entries (insert_gossips (registry_new (Some 1%nat))
    [(peer_of x01, key_of x01); (peer_of x02, key_of x02)])) ≤ 0 `max` 1)%nat.
Proof.
  apply (gossip_respects_bound (registry_new (Some 1%nat))
    [(peer_of x01, key_of x01); (peer_of x02, key_of x02)] 1%nat).
  - apply registry_new_wf.
  - reflexivity.
Defined.

Lemma gossip_evicts_oldest_witness :
  let r := insert_gossip (registry_new (Some 1%nat)) (peer_of x01) (key_of x01) in
  registry_get (insert_gossip r (peer_of x02) (key_of x02)) (peer_of x01) = None.
Proof.
  apply (gossip_evicts_oldest
    (insert_gossip (registry_new (Some 1%nat)) (peer_of x01) (key_of x01))
    (peer_of x02) (key_of x02) (peer_of x01) []).
  - apply insert_gossip_wf, registry_new_wf.
  - vm_compute. reflexivity.
  - unfold at_capacity. exists 1%nat. split; [reflexivity|]. vm_compute. constructor.
  - vm_compute. reflexivity.
Defined.

Definition two_calls : list (dedup_call * Z) :=
  [(CRouted (u64_of_Z 7), 0); (CRouted (u64_of_Z 7), secs 61)].

Lemma dedup_refines_history_witness :
  dedup_run dedup_new two_calls = spec_run DEDUP_TTL ∅ two_calls.
Proof. apply (dedup_refines_history 0). vm_compute. intuition discriminate. Defined.

Lemma dedup_at_most_once_witness : DEDUP_TTL <= secs 61 - 0.
Proof.
  apply (dedup_at_most_once 0 two_calls 0%nat 1%nat (CRouted (u64_of_Z 7))).
  - vm_compute. intuition discriminate.
  - lia.
  - reflexivity.
  - reflexivity.
  - vm_compute. reflexivity.
  - vm_compute. reflexivity.
Defined.

Lemma dedup_evicts_expired_witness : 0 - 0 < ttl dedup_new.
Proof.
  apply (dedup_evicts_expired dedup_new 0 (CRouted (u64_of_Z 7)) (CRouted (u64_of_Z 7)) 0).
  - intros [p id|id] t Hl; simpl in Hl; by rewrite lookup_empty in Hl.
  - reflexivity.
  - vm_compute. reflexivity.
Defined.

(** ** Bundles *)

Definition abc : list byte := [x61; x62; x63].

(** The second piece first, twice, then the first. *)
Lemma reassembly_any_order_witness :
  let trace := [inl (2%nat, [x63]); inl (2%nat, [x63])] in
  (absorb (absorb_all (BundleLayer_new 0) (arrival_frame (u64_of_Z 0) abc <$> trace))
     (frame (u64_of_Z 0) 3 (0%nat, [x61; x62]))).1 = Some (Ok abc).
Proof.
  apply (reassembly_any_order (BundleLayer_new 0) (u64_of_Z 0) abc 2
    [inl (2%nat, [x63]); inl (2%nat, [x63])] (0%nat, [x61; x62]) (0%nat, [x61; x62])).
  - lia.
  - reflexivity.
  - reflexivity.
  - repeat constructor; apply (bool_decide_unpack _); vm_compute; exact Logic.I.
  - apply (bool_decide_unpack _). vm_compute. exact Logic.I.
  - apply (bool_decide_unpack _). vm_compute. exact Logic.I.
  - apply (bool_decide_unpack _). vm_compute. exact Logic.I.
Defined.

(** A message of 200 bytes over a link with an mtu of 120. *)
Definition long : list byte := replicate 200 x7a.
Definition narrow_pipe (inbox : list (list byte)) : pipe :=
  {| p_mtu := 120; p_eof := ETransport "channel closed"; p_in := inbox; p_out := []; p_local := []; p_entropy := [];
     p_bound := 1000 |}.

Definition unit_tick (_ : N) (u : unit) : unit := u.

Definition long_wire : list (list byte) :=
  p_out (r_env (run (T := unit) pipe_answer unit_tick
    (layer_send_bytes (BundleLayer_new 0) long) tt (narrow_pipe []))).

Lemma bundle_roundtrip_witness :
  (4 <= length long_wire)%nat ∧
  ∃ l', r_final (run (T := unit) pipe_answer unit_tick
          (layer_send_bytes (BundleLayer_new 0) long) tt (narrow_pipe [])) = Returned (Ok tt, l') ∧
    r_final (run (T := unit) pipe_answer unit_tick (layer_recv_bytes (BundleLayer_new 1)) tt
      (narrow_pipe long_wire)) = Returned (Ok long, BundleLayer_new 1).
Proof.
  split; [apply Nat.leb_le; vm_compute; reflexivity|].
  destruct (bundle_roundtrip (T := unit) unit_tick (BundleLayer_new 0) (BundleLayer_new 1) long
    (narrow_pipe []) (narrow_pipe long_wire) [] tt tt) as [(l' & H1 & H2 & _)|(l' & e & _ & H & _)].
  - reflexivity.
  - reflexivity.
  - unfold long_wire. by rewrite app_nil_r.
  - apply Nat.ltb_lt. vm_compute. reflexivity.
  - reflexivity.
  - exists l'. split; [exact H1|exact H2].
  - exfalso. assert (length long_wire = 0%nat) as Hl by (change long_wire with (p_in (narrow_pipe long_wire)); by rewrite H).
    vm_compute in Hl. discriminate.
Defined.

Lemma fragment_size_bound_witness :
  ∃ fs f, sent_frames 120 (u64_of_Z 0) long = Ok fs ∧ f ∈ fs ∧ (length f ≤ 120 + 8)%nat.
Proof.
  set (r := sent_frames 120 (u64_of_Z 0) long).
  destruct r as [[|f fs]|e] eqn:Hr; try (exfalso; vm_compute in Hr; discriminate).
  exists (f :: fs), f. split; [reflexivity|]. split; [apply elem_of_cons; auto|].
  destruct (fragment_size_bound 120 (u64_of_Z 0) long (f :: fs) f) as (off & chunk & _ & _ & H & _).
  - reflexivity.
  - vm_compute. reflexivity.
  - exact Hr.
  - apply elem_of_cons; auto.
  - exact H.
Defined.

(** A lone fragment that declares less than it carries. *)
Lemma reassembly_allocation_witness :
  1 <= Z.of_nat (length abc).
Proof.
  apply (reassembly_allocation (BundleLayer_new 0) (frame (u64_of_Z 0) 1 (0%nat, abc))
    {| primary := fragment_primary local_eid (u64_of_Z 0) 0 1; payload := Some abc |}
    (BundleLayer_new 0) abc).
  - vm_compute. reflexivity.
  - reflexivity.
  - vm_compute. reflexivity.
Defined.

(** ** Sessions *)

Definition big_bound : nat := Z.to_nat 70000.

Lemma big_bound_enough : (NOISE_MSG_MAX < big_bound)%nat.
Proof. unfold NOISE_MSG_MAX, big_bound. apply Z2Nat.inj_lt; lia. Qed.

(** A peer that closes at once, met without an expected key. *)
Lemma session_identity_witness :
  match r_final (run (T := unit) pipe_answer unit_tick
          (initiate (identity_of x01) (BundleLayer_new 0) None) tt (wide_pipe [])) with
  | Returned (Ok ses) => bound_session ses
  | Returned (Err _) => True
  | StuckAt why => why = Blocked
  end.
Proof.
  pose proof (session_identity (T := unit) pipe_answer unit_tick (identity_of x01)
    (BundleLayer_new 0) None tt (wide_pipe [])) as [H _].
  destruct (r_final _) as [[ses|e]|why]; [apply H|exact Logic.I|exact H].
Defined.

(** XK between peers 1 and 2. *)
Lemma handshake_honest_witness :
  ∃ outA outB sa sb,
    (∃ wa, yields (T := unit) pipe_answer unit_tick
       (initiate (identity_of x01) (BundleLayer_new 0) (Some (key_of x02)))
       (handshake_pipe DeliveryFailed 0 big_bound [[]; []] outB) (Ok sa) wa ∧ p_out wa = outA) ∧
    (∃ wb, yields (T := unit) pipe_answer unit_tick
       (respond (identity_of x02) (BundleLayer_new 1))
       (handshake_pipe DeliveryFailed 0 big_bound [[]] outA) (Ok sb) wb ∧ p_out wb = outB) ∧
    s_peer_id sa = peer_of x02 ∧ s_peer_id sb = peer_of x01 ∧ linked sa sb.
Proof.
  apply (handshake_honest (T := unit) unit_tick (key_of x01) (key_of x02)
    (identity_of x01) (identity_of x02) (Some (key_of x02)) 0 1 DeliveryFailed 0 big_bound [] [] []).
  - apply identity_of_bytes.
  - apply identity_of_bytes.
  - right. reflexivity.
  - apply roomy_wide.
  - apply big_bound_enough.
Defined.

Lemma session_channel_witness :
  ∃ fs a', yields (T := unit) pipe_answer unit_tick (session_send (session_with x02) abc)
    (wide_pipe []) (Ok tt, a') (push (wide_pipe []) fs).
Proof.
  destruct (session_channel (T := unit) unit_tick (session_with x02) (session_with x01) abc
    (wide_pipe [])) as (fs & a' & b' & H & _).
  - split; [exact Logic.I|]. split; reflexivity.
  - unfold NOISE_MSG_MAX. apply Nat2Z.inj_le. rewrite Z2Nat.id by lia. vm_compute. discriminate.
  - apply roomy_wide.
  - exists fs, a'. exact H.
Defined.

(** A first message of an unknown protocol. *)
Lemma respond_rejects_witness :
  ∃ msg, yields (T := unit) pipe_answer unit_tick
    (respond (identity_of x01) (BundleLayer_new 0))
    (wide_pipe [to_cbor (whole_primary local_eid (u64_of_Z 0)) [x47]]) (Err (ESession msg))
    (wide_pipe []).
Proof.
  apply (respond_rejects (T := unit) unit_tick (identity_of x01) (BundleLayer_new 0) [x47]
    (u64_of_Z 0) 0 [to_cbor (whole_primary local_eid (u64_of_Z 0)) [x47]]
    (wide_pipe [to_cbor (whole_primary local_eid (u64_of_Z 0)) [x47]]) []).
  - split; discriminate.
  - reflexivity.
  - reflexivity.
  - reflexivity.
  - change (1 < big_bound)%nat. unfold big_bound. apply Nat2Z.inj_lt. rewrite Z2Nat.id; lia.
  - reflexivity.
Defined.

(** ** Nodes *)

(** A machine without entropy. *)
Definition no_entropy (X : Type) (e : env_op X) (w : unit) : X * N * unit :=
  match e in env_op X return X * N * unit → X * N * unit with
  | Entropy8 => λ _, (None, 0%N, tt)
  | _ => λ a, a
  end (dead_answer X e w).

(** On it a routed send panics, at the call that failed, and the node is as sound as before. *)
Lemma node_safety_witness :
  let run_to sched := exec no_entropy node_tick (task_body (identity_of x01) STORE_TTL_DEFAULT) sched
    (node_start (identity_of x01) NodeConfig_default
      [ASendRouted (peer_of x02) abc; ARegisterTransport 0%nat KQuic] 0 tt) in
  let sched := [Step 0%nat; Step 1%nat; Idle 5%N; Step 2%nat] in
  node_inv (c_shared (run_to sched)) ∧
  c_pool (run_to sched) !! 1%nat = Some (Stuck Panicked) ∧
  ∃ n, sched !! n = Some (Step 1%nat).
Proof.
  intros run_to sched.
  destruct (node_safety (identity_of x01) NodeConfig_default no_entropy
    [ASendRouted (peer_of x02) abc; ARegisterTransport 0%nat KQuic] 0 tt sched) as [Hinv Hpanic].
  split; [exact Hinv|]. split; [reflexivity|].
  destruct (Hpanic 1%nat eq_refl) as (n & _ & _ & _ & Hn & _). exists n. exact Hn.
Defined.

(** The application registers a transport, drops the node, and the network brings nothing:
    the event task and the monitor are still there, and the router with them. *)
Lemma event_task_never_ends_witness :
  let c := live (identity_of x01) NodeConfig_default dead_answer
    [Runs 1%nat; Runs 1%nat; Runs 1%nat; Runs 1%nat; DropsNode; Runs 0%nat; Runs 0%nat;
     Passes 5%N; Runs 2%nat]
    (born (identity_of x01) NodeConfig_default [ARegisterTransport 0%nat KQuic] 0 tt) in
  v_node c = false ∧ v_router c = true ∧
  ∃ p, v_pool c !! 0%nat = Some (Spawned TEventLoop, p) ∧ running p = true.
Proof.
  intros c. destruct (event_task_never_ends (identity_of x01) NodeConfig_default dead_answer)
    with (calls := [ARegisterTransport 0%nat KQuic]) (now := 0%Z) (w := tt)
      (evs := [Runs 1%nat; Runs 1%nat; Runs 1%nat; Runs 1%nat; DropsNode; Runs 0%nat; Runs 0%nat;
               Passes 5%N; Runs 2%nat]) as (Hr & _ & Hp & _).
  - intros X e []. by destruct e.
  - split; [reflexivity|]. split; [exact Hr|exact Hp].
Defined.

(** A network whose transports keep announcing one QUIC peer. *)
Definition quic_peer : PeerAnnouncement :=
  {| address := Quic (V4 (array_of_byte 4 x7f) (u16_of_Z 4433)); short_id := None |}.

Definition lan_answer (X : Type) (e : env_op X) (w : unit) : X * N * unit :=
  match e in env_op X return X * N * unit → X * N * unit with
  | TransportNextPeerEvent _ => λ _, (Some (Arrival quic_peer), 0%N, tt)
  | LoopBound => λ _, (10%nat, 0%N, tt)
  | _ => λ a, a
  end (dead_answer X e w).

(** The addresses tasks are about to dial. *)
Definition dialling (pool : list (node_prog unit)) : list PeerAnnouncement :=
  omap (λ p, match p with Call (TransportConnect _ ann) _ => Some ann | _ => None end) pool.

(** The discovery task of a registered QUIC transport is about to dial the peer. *)
Lemma dials_well_typed_witness :
  let c := exec lan_answer node_tick (task_body (identity_of x01) STORE_TTL_DEFAULT)
    (replicate 9 (Step 1%nat) ++ replicate 9 (Step 2%nat) ++ replicate 6 (Step 4%nat))
    (node_start (identity_of x01) NodeConfig_default [ARegisterTransport 0%nat KQuic] 0 tt) in
  dialling (c_pool c) = [quic_peer] ∧ kinds_ok (λ _, KQuic) (c_shared c) ∧
  ∀ i t ann k, c_pool c !! i = Some (Call (TransportConnect t ann) k) →
    PeerAddress_kind (address ann) = KQuic.
Proof.
  pose proof (dials_well_typed (identity_of x01) NodeConfig_default (λ _, KQuic) lan_answer
    [ARegisterTransport 0%nat KQuic] 0 tt
    (replicate 9 (Step 1%nat) ++ replicate 9 (Step 2%nat) ++ replicate 6 (Step 4%nat))) as Hd.
  split; [vm_compute; reflexivity|]. apply Hd.
  - intros X e w. destruct e; try exact Logic.I; reflexivity.
  - apply Forall_singleton. reflexivity.
Defined.

(** Node 2, which knows the key of node 1. *)
Definition node2 : node_state :=
  set_registry (insert_direct (registry_new None) (peer_of x01) (key_of x01)).2 (node_knowing x03).

Lemma sealed_end_to_end_witness :
  ∃ sealed, seal [] (identity_of x01) (key_of x02) abc = Ok sealed ∧
    delivered (r_shared (run pipe_answer notick (dispatch_payload (identity_of x02) (peer_of x03)
      (frame_message (u64_of_Z 9) (routed_frame x03 (peer_of x02) x03
        (array_to_list (PeerId_as_bytes (peer_of x01)) ++ sealed))) (session_with x03))
      node2 (wide_pipe []))) = [(peer_of x01, abc)].
Proof.
  destruct (sealed_end_to_end (key_of x01) (key_of x02) (identity_of x01) (identity_of x02) [] abc
    pipe_answer (peer_of x03) x03 (u64_of_Z 9) (session_with x03) node2 (wide_pipe []))
    as (sealed & Hs & Hd & _).
  - apply identity_of_bytes.
  - apply identity_of_bytes.
  - unfold NOISE_MSG_MAX. apply Nat2Z.inj_le. rewrite Z2Nat.id by lia. vm_compute. discriminate.
  - vm_compute. reflexivity.
  - reflexivity.
  - vm_compute. reflexivity.
  - exists sealed. split; [exact Hs|exact Hd].
Defined.

(** One relay, by node 2, of a routed frame from node 1 to node 9. *)
Lemma one_relay :
  relayed (routed_frame x01 (peer_of x09) x07 abc) (routed_frame x01 (peer_of x09) x06 abc).
Proof.
  exists (identity_of x02), pipe, pipe_answer, (peer_of x01), (u64_of_Z 9), (session_with x01),
    node2, (wide_pipe []), [ann_of x03], (peer_of x03).
  apply (bool_decide_unpack _). vm_compute. exact Logic.I.
Qed.

Lemma flood_hop_bound_witness : (1 ≤ 7)%nat.
Proof.
  apply (flood_hop_bound (routed_frame x01 (peer_of x09) x07 abc)
    (routed_frame x01 (peer_of x09) x06 abc) 1).
  apply nsteps_once, one_relay.
Defined.

Lemma router_send_outcome_witness :
  send_outcome dead_answer [ann_of x02] abc (chosen_id dead_answer None tt) (peer_of x02) (node_knowing x02)
    (run dead_answer node_tick
      (router_send (identity_of x01) [ann_of x02] abc (peer_of x02) None) (node_knowing x02) tt).
Proof.
  apply (router_send_outcome (identity_of x01) dead_answer [ann_of x02] abc (peer_of x02) None
    (node_knowing x02) tt).
Defined.

(** A link between nodes [a] and [b]. *)
Definition hop_between (a b : byte) : hop := {|
  h_mtu := 0; h_bound := big_bound; h_dial_eof := DeliveryFailed; h_answer_eof := DeliveryFailed; h_dial_entropy := ([], []);
  h_answer_entropy := []; h_dial_local := [addr_of a]; h_answer_local := [addr_of b]; h_conn := 0 |}.

Lemma hop_between_ok a b p r : hop_ok (hop_between a b) (set_registry r (node_knowing p)).
Proof.
  split; [apply roomy_wide|]. split; [apply big_bound_enough|]. unfold NOISE_MSG_MAX.
  split; apply Nat2Z.inj_le; rewrite Z2Nat.id by lia; vm_compute; discriminate.
Qed.

(** Node 1 sends to node 2, whose key it does not have yet. *)
Lemma message_end_to_end_witness :
  ∃ outA outB sA' sB',
    r_final (run pipe_answer node_tick (send (identity_of x01) (peer_of x02) abc) (node_knowing x02)
      (dial_end (hop_between x01 x02) outB)) = Returned (Ok tt) ∧
    r_shared (run pipe_answer node_tick (handle_incoming (identity_of x02) 0) (node_knowing x01)
      (answer_end (hop_between x01 x02) outA)) = sB' ∧
    delivered sB' = [(peer_of x01, abc)] ∧
    events sA' = [MessageDelivered (peer_of x02) KQuic; KeyLearned (peer_of x02) (key_of x02)] ∧
    peers sA' = learned_addresses (peer_of x02) [addr_of x02] {[ peer_of x02 := [ann_of x02] ]}.
Proof.
  destruct (message_end_to_end (key_of x01) (key_of x02) (identity_of x01) (identity_of x02)
    (hop_between x01 x02) (node_knowing x02) (node_knowing x01) 0 KQuic (ann_of x02) [] [ann_of x02] abc)
    as (outA & outB & sA' & sB' & HA & HB & HeA & HdB & _ & _ & HpA & _).
  - apply identity_of_bytes.
  - apply identity_of_bytes.
  - apply (hop_between_ok x01 x02 x01 (registry_new None)).
  - left. vm_compute. reflexivity.
  - vm_compute. reflexivity.
  - vm_compute. reflexivity.
  - unfold NOISE_MSG_MAX. apply Nat2Z.inj_le. rewrite Z2Nat.id by lia. vm_compute. discriminate.
  - exists outA, outB, sA', sB'. split; [exact (f_equal r_final HA)|].
    split; [exact (f_equal r_shared HB)|].
    split; [rewrite HdB; vm_compute; reflexivity|]. split; [rewrite HeA; vm_compute; reflexivity|].
    exact HpA.
Defined.

(** Node 1 has a transport but knows nobody; an hour later it is told where node 2 is. *)
Definition node_alone : node_state := set_peers (λ _, ∅) (node_knowing x02).

Lemma stored_message_delivered_witness :
  ∃ s1 s2 outA outB s3 sB',
    r_shared (run pipe_answer node_tick (store_forward (identity_of x01) (Some 1%nat) (peer_of x02) abc)
      node_alone (wide_pipe [])) = s1 ∧ pending_direct s1 !! peer_of x02 ≠ None ∧
    r_shared (run pipe_answer node_tick (add_peer (peer_of x02) (ann_of x02)) s1 (wide_pipe [])) = s2 ∧
    r_final (run pipe_answer node_tick (task_body (identity_of x01) STORE_TTL_DEFAULT (TDrain (peer_of x02)))
      (node_tick (Z.to_N (secs 3600)) s2) (dial_end (hop_between x01 x02) outB)) = Returned tt ∧
    r_shared (run pipe_answer node_tick (handle_incoming (identity_of x02) 0) (node_knowing x01)
      (answer_end (hop_between x01 x02) outA)) = sB' ∧
    delivered sB' = [(peer_of x01, abc)] ∧ pending_direct s3 = ∅.
Proof.
  destruct (stored_message_delivered (key_of x01) (key_of x02) (identity_of x01) (identity_of x02)
    (hop_between x01 x02) node_alone (node_knowing x01) (Some 1%nat) STORE_TTL_DEFAULT
    (Z.to_N (secs 3600)) 0 KQuic [] (ann_of x02) abc (wide_pipe []))
    as (s1 & s2 & outA & outB & s3 & sB' & H1 & H2 & H3 & HB & HdB & Hq & _).
  - apply identity_of_bytes.
  - apply identity_of_bytes.
  - apply (hop_between_ok x01 x02 x01 (registry_new None)).
  - left. vm_compute. reflexivity.
  - split; [|split]; vm_compute; reflexivity.
  - discriminate.
  - vm_compute. discriminate.
  - vm_compute. reflexivity.
  - unfold NOISE_MSG_MAX. apply Nat2Z.inj_le. rewrite Z2Nat.id by lia. vm_compute. discriminate.
  - exists s1, s2, outA, outB, s3, sB'. split; [exact (f_equal r_shared H1)|].
    split; [intros Hnone; pose proof (f_equal r_shared H1) as Hs; cbn [r_shared] in Hs;
      rewrite <-Hs in Hnone; vm_compute in Hnone; discriminate|].
    split; [exact (f_equal r_shared H2)|]. split; [exact (f_equal r_final H3)|].
    split; [exact (f_equal r_shared HB)|].
    split; [rewrite HdB; vm_compute; reflexivity|]. rewrite Hq. vm_compute. reflexivity.
Defined.

(** Node 1 tells node 3 the key of node 2; node 3 tells node 4. *)
Lemma key_reaches_neighbour_witness :
  ∃ outA sC' ts',
    r_shared (run pipe_answer node_tick (handle_incoming (identity_of x03) 0) (node_knowing x04)
      (answer_end (hop_between x01 x03) outA)) = sC' ∧
    r_spawned (run pipe_answer node_tick (handle_incoming (identity_of x03) 0) (node_knowing x04)
      (answer_end (hop_between x01 x03) outA)) = ts' ∧
    registry_get (key_registry sC') (peer_of x02) = Some (key_of x02) ∧
    TSend [ann_of x04] (encode_key_announcement (peer_of x02) (key_of x02) x06) (peer_of x04)
      pipe_message_id ∈ ts'.
Proof.
  destruct (key_reaches_neighbour (key_of x01) (key_of x03) (identity_of x01) (identity_of x03)
    (hop_between x01 x03) (node_knowing x03) (node_knowing x03) (node_knowing x04) [ann_of x03]
    (0%nat, KQuic, ann_of x03) (peer_of x02) (key_of x02) (wide_pipe []))
    as (ts & outA & outC & sA2' & sC' & ts' & _ & _ & _ & HC & Hk & _ & Hts).
  - apply identity_of_bytes.
  - apply identity_of_bytes.
  - apply (hop_between_ok x01 x03 x04 (registry_new None)).
  - reflexivity.
  - split; [vm_compute; reflexivity|]. apply (bool_decide_unpack _). vm_compute. exact Logic.I.
  - split; [vm_compute; reflexivity|left; vm_compute; reflexivity].
  - split; vm_compute; reflexivity.
  - exists outA, sC', ts'. split; [exact (f_equal r_shared HC)|].
    split; [exact (f_equal r_spawned HC)|]. split; [exact Hk|]. apply Hts; [vm_compute; reflexivity|].
    apply (bool_decide_unpack _). vm_compute. exact Logic.I.
Defined.

(** Node 1 knows only node 3, which knows node 4, which knows node 2. *)
Definition node1 : node_state :=
  set_registry (insert_direct (registry_new None) (peer_of x02) (key_of x02)).2 (node_knowing x03).

Definition relay_of (b next : byte) : relay := {|
  rl_key := key_of b; rl_id := identity_of b; rl_link := hop_between x01 b;
  rl_arrival := node_knowing next; rl_departure := node_knowing next; rl_next := [ann_of next] |}.

Lemma can_dial_known b r :
  registry_get r (peer_of b) = None →
  can_dial (set_registry r (node_knowing b)) [ann_of b] (peer_of b) (key_of b).
Proof. intros Hr. split; [done|]. by left. Qed.

Lemma relay_of_ok prev b next rs :
  peer_of b ∉ [peer_of x01; peer_of x02] → next_stop (identity_of x02) rs = peer_of next →
  peer_of next ∉ [prev; peer_of b] →
  relay_ok (identity_of x01) (identity_of x02) pipe_message_id prev (relay_of b next) rs.
Proof.
  intros Hb Hn Hnext. split; [apply identity_of_bytes|].
  split; [apply (hop_between_ok _ _ _ (registry_new None))|]. rewrite Hn. split; [exact Hb|].
  split; [exact Hnext|]. split; [reflexivity|]. apply lookup_singleton_eq.
Qed.

Lemma sealed_along_route_witness :
  ∃ sealed, carried (identity_of x01) (identity_of x02) (hop_between x04 x02) node2 pipe_message_id
    abc sealed (send_routed_sealed (identity_of x01) (peer_of x02) abc) [[]] node1 MAX_TTL
    [relay_of x03 x04; relay_of x04 x02].
Proof.
  apply (sealed_along_route (key_of x01) (key_of x02) (identity_of x01) (identity_of x02) [] abc
    node1 [ann_of x03] [relay_of x03 x04; relay_of x04 x02] (hop_between x04 x02) node2).
  - apply identity_of_bytes.
  - apply identity_of_bytes.
  - split; [reflexivity|]. split; [by vm_compute|vm_compute; reflexivity].
  - split; [apply hop_between_ok|]. split; [reflexivity|]. split; vm_compute; reflexivity.
  - split; [by apply can_dial_known|]. split; [|split; [by apply can_dial_known|split]].
    + by apply relay_of_ok; apply (bool_decide_unpack _); vm_compute.
    + by apply relay_of_ok; apply (bool_decide_unpack _); vm_compute.
    + by apply can_dial_known.
  - cbn. lia.
  - unfold NOISE_MSG_MAX. apply Nat2Z.inj_le. rewrite Z2Nat.id by lia. vm_compute. discriminate.
Defined.

Lemma sealed_needs_key_witness :
  run dead_answer node_tick (send_routed_sealed (identity_of x01) (peer_of x02) abc)
    (node_knowing x02) tt = Ran (Returned (Err (KeyUnknown (peer_of x02)))) (node_knowing x02) tt [].
Proof.
  apply (sealed_needs_key (identity_of x01) dead_answer (peer_of x02) abc (node_knowing x02) tt).
  vm_compute. reflexivity.
Defined.

Lemma candidates_cheapest_first_witness :
  ∃ l', r_final (run dead_answer node_tick
    (sort_candidates [(0%nat, KQuic, ann_of x01); (1%nat, KQuic, ann_of x02)]) (node_knowing x02) tt) =
    Returned l' ∧ l' ≡ₚ [(0%nat, KQuic, ann_of x01); (1%nat, KQuic, ann_of x02)].
Proof.
  destruct (candidates_cheapest_first dead_answer (λ _, Free)) with
    (l := [(0%nat, KQuic, ann_of x01); (1%nat, KQuic, ann_of x02)])
    (s := node_knowing x02) (w := tt) as (l' & H1 & H2 & _).
  - reflexivity.
  - exists l'. split; [exact H1|exact H2].
Defined.

(** ** Queues *)

Definition queued : list stored := [(u64_of_Z 1, abc, 0); (u64_of_Z 2, abc, 0)].
Definition node_queueing : node_state :=
  set_routed (λ _, {[ peer_of x02 := queued ]})
    (set_direct (λ _, {[ peer_of x02 := queued ]}) (node_knowing x02)).

Lemma drain_direct_conserves_witness :
  r_final (run dead_answer node_tick
    (drain_direct_for_peer (identity_of x01) STORE_TTL_DEFAULT (peer_of x02)) node_queueing tt) =
    Returned tt.
Proof.
  apply (drain_direct_conserves (identity_of x01) STORE_TTL_DEFAULT dead_answer (peer_of x02) queued
    node_queueing tt).
  - apply dead_sends_return.
  - vm_compute. reflexivity.
Defined.

Lemma drain_routed_conserves_witness :
  r_final (run dead_answer node_tick
    (drain_routed_one (identity_of x01) STORE_TTL_DEFAULT (peer_of x02)) node_queueing tt) =
    Returned tt.
Proof.
  apply (drain_routed_conserves (identity_of x01) STORE_TTL_DEFAULT dead_answer (peer_of x02) queued
    node_queueing tt).
  - apply dead_sends_return.
  - vm_compute. reflexivity.
Defined.

Lemma store_forward_outcome_witness :
  stored_outcome (Some 2%nat) (peer_of x02) abc node_queueing
    (r_shared (run dead_answer node_tick
      (store_forward (identity_of x01) (Some 2%nat) (peer_of x02) abc) node_queueing tt)).
Proof.
  apply (store_forward_outcome (identity_of x01) dead_answer (Some 2%nat) (peer_of x02) abc
    node_queueing tt). apply dead_sends_return.
Defined.

(** ** Lifecycle *)

(** The answers a round of the monitor depends on. *)
Definition interfaces_in (log : list (asked env_op)) : list (option (list Interface)) :=
  omap (λ a, match a with @Asked _ X e x =>
    match e in env_op X return X → option (option (list Interface)) with
    | GetIfAddrs => Some | _ => λ _, None end x end) log.
Definition starts_in (log : list (asked env_op)) : list (result unit) :=
  omap (λ a, match a with @Asked _ X e x =>
    match e in env_op X return X → option (result unit) with
    | TransportStart _ => Some | _ => λ _, None end x end) log.

(** Transport 0 is up and was last seen with an address that is gone: it is restarted. *)
Lemma monitor_round_spec_witness :
  let r := run (logged dead_answer) node_tick (monitor_round 0 KQuic ({[ array_of_byte 4 x01 ]}, false))
             (node_knowing x02) (tt, []) in
  flags_are 0%nat true (transports (r_shared r)) ∧
  events (r_shared r) = [TransportChanged None KQuic].
Proof.
  intros r.
  destruct (monitor_round_spec dead_answer 0 KQuic {[ array_of_byte 4 x01 ]} false (node_knowing x02) tt)
    as (_ & _ & ifs & rest & Hlog & Hrest).
  - split.
    + exists quic_up. split; [apply elem_of_cons; left; reflexivity|reflexivity].
    + intros e He _. apply elem_of_cons in He as [->|He]; [split; reflexivity|].
      by apply elem_of_nil in He.
  - pose proof (f_equal (λ l, hd_error (interfaces_in l)) Hlog) as Hifs. vm_compute in Hifs.
    injection Hifs as <-. cbv zeta in Hrest.
    rewrite decide_False in Hrest by (apply (bool_decide_unpack _); vm_compute; exact Logic.I).
    destruct Hrest as (costs & stopped & started & away & Hrest & Hcosts & Haway & Hst).
    destruct costs as [|[e c] costs]; [|discriminate Hcosts].
    destruct Haway as [[_ ->]|(e & c & Hin & _)]; [|by apply elem_of_nil in Hin].
    rewrite Hrest in Hlog. pose proof (f_equal (λ l, hd_error (starts_in l)) Hlog) as Hs.
    vm_compute in Hs. injection Hs as <-. destruct Hst as (_ & Hf & He). split; [exact Hf|exact He].
Defined.

