(* ===== verification/Limits.v ===== *)
(** * Limits of the promises

    Concrete runs, evaluated, in which the program does less than its
    documentation says: each lemma is an execution of the modelled code. *)

From S2P Require Import Prelude RustStd Types Effects Env KeyRegistry Dedup Wire Bundle Bp7Cbor Session.
From S2P Require Import NodeState Router SendSafety Node Models.

(** ** A send to a peer whose key is not known

    Node 1 sends to node 2 at an address where node 3 answers. The handshake is XX
    and proves node 3's key, but [try_send] does not compare the session's PeerId
    with the one it sends to. *)

Definition from_peer (sq : Z) (m : list byte) : list byte :=
  to_cbor (whole_primary local_eid (u64_of_Z sq)) m.

(** Node 3's side: handshake message 2, an empty address list, an acknowledgement. *)
Definition impostor_wire : list (list byte) :=
  [ from_peer 0 (array_to_list (key_of x03));
    from_peer 1 (encode_addr_exchange [] ++ plain_tag);
    from_peer 2 plain_tag ].

Definition send_run :=
  run pipe_answer node_tick
    (router_send (identity_of x01) [ann_of x02] (direct_frame [x68; x69]) (peer_of x02) None)
    (node_knowing x02) (wide_pipe impostor_wire).

Lemma send_to_impostor :
  r_final send_run = Returned (Ok tt) ∧
  events (r_shared send_run) =
    [MessageDelivered (peer_of x02) KQuic; KeyLearned (peer_of x02) (key_of x03)] ∧
  peer_id_from_public_key (array_to_list (key_of x03)) ≠ peer_of x02.
Proof.
  split; [vm_compute; reflexivity|].
  split; apply (bool_decide_unpack _); vm_compute; exact Logic.I.
Qed.

(** ** A queue past its bound

    While a drain holds the only queued payload of a peer, [store_forward] finds
    the queue empty and adds another; the drain then puts its own back. *)

Definition first_stored : stored := (u64_of_Z 1, [x61], 0%Z).

Definition queue_start : config (T := task) (W := unit) :=
  Config
    [ drain_direct_for_peer (identity_of x01) STORE_TTL_DEFAULT (peer_of x02);
      store_forward (identity_of x01) (Some 1) (peer_of x02) [x62] ]
    (set_transports (λ _, []) (set_direct (λ _, {[ peer_of x02 := [first_stored] ]})
      (node_knowing x02)))
    tt.

Definition no_net (X : Type) (e : env_op X) (w : unit) : X * N * unit :=
  let '(x, d, _) := pipe_answer X e (wide_pipe []) in (x, d, tt).

(** The drain takes the queue; the store runs to its end; then the drain does. *)
Definition queue_schedule : list choice := Step 0 :: replicate 20 (Step 1) ++ replicate 20 (Step 0).

Lemma queue_past_bound :
  let c := exec no_net node_tick (task_body (identity_of x01) STORE_TTL_DEFAULT) queue_schedule
             queue_start in
  (λ q, length q) <$> pending_direct (c_shared c) !! peer_of x02 = Some 2.
Proof. vm_compute. reflexivity. Qed.

(** ** Addresses that do not survive the wire

    An identifier longer than 255 bytes is cut at a byte, which may split a
    character; the receiver then rejects the whole address list. *)

Fixpoint repeat_bytes (n : nat) (l : list byte) : list byte :=
  match n with O => [] | S n => l ++ repeat_bytes n l end.

(** 128 two-byte characters. *)
Definition long_id : option rstring := from_utf8 (repeat_bytes 128 [xc3; xa9]).

Lemma long_id_poisons_exchange :
  match long_id with
  | Some id => decode_addr_exchange (encode_addr_exchange [addr_of x01; Ble id]) = Val None
  | None => False
  end.
Proof. vm_compute. reflexivity. Qed.

(** ** Direct handshakes are not bounded

    [max_key_registry_size] bounds what gossip can add, not what handshakes add. *)
Lemma direct_inserts_unbounded :
  let r := (insert_direct (insert_direct (registry_new (Some 1)) (peer_of x01) (key_of x01)).2
              (peer_of x02) (key_of x02)).2 in
  max_size r = Some 1 ∧ size (entries r) = 2.
Proof. split; vm_compute; reflexivity. Qed.
