(* ===== verification/Utf8.v ===== *)
(** * Text ([char], [String], [String::from_utf8_lossy])

    What a program that edits and displays text uses of the standard library: a [char] is
    a Unicode scalar value, a [String] the UTF-8 bytes of its characters, and bytes from
    outside are shown with U+FFFD in place of every ill-formed sequence. *)

From S2P Require Import Prelude RustStd.

(** A Unicode scalar value: a code point that is no surrogate. *)
Definition is_scalar (c : Z) : bool :=
  ((0 <=? c) && (c <? 0xD800) || (0xE000 <=? c) && (c <? 0x110000))%Z.

Record char := Char { code : Z; scalar : is_scalar code = true }.

(** [char::encode_utf8] *)
Definition encode_code (c : Z) : list byte :=
  byte_of_Z <$>
  (if c <? 0x80 then [c]
   else if c <? 0x800 then [0xC0 + c / 64; 0x80 + c mod 64]
   else if c <? 0x10000 then [0xE0 + c / 4096; 0x80 + c / 64 mod 64; 0x80 + c mod 64]
   else [0xF0 + c / 262144; 0x80 + c / 4096 mod 64; 0x80 + c / 64 mod 64; 0x80 + c mod 64])%Z.

(** The bytes of a [String], given as its characters. *)
Definition encode_chars (cs : list char) : list byte := concat ((λ c, encode_code (code c)) <$> cs).

(** One step of [Utf8Chunks]: how many bytes are looked at, and whether they are a
    character. *)
Definition utf8_step (l : list byte) : nat * bool :=
  match l with
  | [] => (0, true)
  | b0 :: l1 =>
    if byte_in 0 127 b0 then (1, true) else
    match l1 with
    | [] => (1, false)
    | b1 :: l2 =>
      if byte_in 194 223 b0 then (if utf8_cont b1 then (2, true) else (1, false))
      else if byte_in 224 239 b0 then
        if (if byte_in 224 224 b0 then byte_in 160 191 b1
            else if byte_in 237 237 b0 then byte_in 128 159 b1
            else utf8_cont b1)
        then match l2 with
             | b2 :: _ => if utf8_cont b2 then (3, true) else (2, false)
             | [] => (2, false)
             end
        else (1, false)
      else if byte_in 240 244 b0 then
        if (if byte_in 240 240 b0 then byte_in 144 191 b1
            else if byte_in 244 244 b0 then byte_in 128 143 b1
            else utf8_cont b1)
        then match l2 with
             | b2 :: l3 =>
               if utf8_cont b2
               then match l3 with
                    | b3 :: _ => if utf8_cont b3 then (4, true) else (3, false)
                    | [] => (3, false)
                    end
               else (2, false)
             | [] => (2, false)
             end
        else (1, false)
      else (1, false)
    end
  end.

(** U+FFFD *)
Definition REPLACEMENT : list byte := [xef; xbf; xbd].

Fixpoint lossy (fuel : nat) (l : list byte) : list byte :=
  match fuel, l with
  | S fuel, _ :: _ =>
    let '(n, ok) := utf8_step l in
    (if ok : bool then take n l else REPLACEMENT) ++ lossy fuel (drop n l)
  | _, _ => []
  end.

Definition from_utf8_lossy (l : list byte) : list byte := lossy (length l) l.

(** ** Facts *)

Lemma utf8_valid_step b l :
  utf8_valid (b :: l) =
  (utf8_step (b :: l)).2 && utf8_valid (drop (utf8_step (b :: l)).1 (b :: l)).
Proof.
  cbn [utf8_valid utf8_step]. destruct (byte_in 0 127 b); [done|].
  destruct l as [|b1 [|b2 [|b3 l]]]; [done|..];
    destruct (byte_in 194 223 b), (byte_in 224 239 b), (byte_in 240 244 b), (byte_in 224 224 b),
      (byte_in 237 237 b), (byte_in 240 240 b), (byte_in 244 244 b);
    repeat match goal with
    | |- context [utf8_cont ?b] => destruct (utf8_cont b)
    | |- context [byte_in ?x ?y b1] => destruct (byte_in x y b1)
    end; reflexivity.
Qed.

Lemma utf8_step_pos b l : 1 ≤ (utf8_step (b :: l)).1 ≤ length (b :: l).
Proof.
  cbn [utf8_step]. destruct l as [|b1 [|b2 [|b3 l]]]; repeat case_match; cbn; lia.
Qed.

(** A character is read the same whatever follows it. *)
Lemma utf8_step_app b l r :
  (utf8_step (b :: l)).2 = true → utf8_step ((b :: l) ++ r) = utf8_step (b :: l).
Proof.
  cbn [utf8_step app]. destruct l as [|b1 [|b2 [|b3 l]]]; cbn [app]; repeat case_match; done.
Qed.

(** Induction on the steps of a text. *)
Lemma utf8_ind (P : list byte → Prop) :
  P [] → (∀ b l, P (drop (utf8_step (b :: l)).1 (b :: l)) → P (b :: l)) → ∀ l, P l.
Proof.
  intros H0 Hs l. remember (length l) as n eqn:Hn. revert l Hn.
  induction (lt_wf n) as [n _ IH]. intros [|b l] ->; [done|]. apply Hs.
  eapply IH; [|reflexivity]. pose proof (utf8_step_pos b l). rewrite length_drop. lia.
Qed.

Lemma utf8_valid_app l1 l2 :
  utf8_valid l1 = true → utf8_valid l2 = true → utf8_valid (l1 ++ l2) = true.
Proof.
  intros H1 H2. induction l1 as [|b l IH] using utf8_ind; [done|].
  rewrite utf8_valid_step in H1. apply andb_true_iff in H1 as [Hok Hv].
  rewrite <-app_comm_cons, utf8_valid_step, app_comm_cons, utf8_step_app, Hok by done.
  rewrite drop_app_le by apply utf8_step_pos. by apply IH.
Qed.

Lemma lossy_enough fuel l : length l ≤ fuel → lossy fuel l = from_utf8_lossy l.
Proof.
  unfold from_utf8_lossy. intros Hf. remember (length l) as n eqn:Hn. revert fuel l Hf Hn.
  induction (lt_wf n) as [n _ IH]. intros fuel [|b l] Hf ->; [by destruct fuel|].
  destruct fuel as [|fuel]; cbn [length] in Hf; [lia|].
  change (length (b :: l)) with (S (length l)). cbn [lossy].
  pose proof (utf8_step_pos b l) as Hp. destruct (utf8_step (b :: l)) as [k ok]. cbn [fst] in Hp.
  f_equal. assert (length (drop k (b :: l)) ≤ length l) as Hd.
  { rewrite length_drop. cbn [length] in *. lia. }
  rewrite (IH (length (drop k (b :: l)))) with (fuel := fuel); [|cbn; lia|lia|done].
  by rewrite (IH (length (drop k (b :: l)))) with (fuel := length l); [|cbn; lia|lia|].
Qed.

Lemma from_utf8_lossy_step b l :
  from_utf8_lossy (b :: l) =
  (if (utf8_step (b :: l)).2 then take (utf8_step (b :: l)).1 (b :: l) else REPLACEMENT) ++
  from_utf8_lossy (drop (utf8_step (b :: l)).1 (b :: l)).
Proof.
  rewrite <-(lossy_enough (length l) (drop _ _)).
  - unfold from_utf8_lossy. cbn [length lossy]. by destruct (utf8_step (b :: l)).
  - pose proof (utf8_step_pos b l). rewrite length_drop. cbn [length] in *. lia.
Qed.

(** Well-formed text is shown as it is. *)
Lemma from_utf8_lossy_valid l : utf8_valid l = true → from_utf8_lossy l = l.
Proof.
  induction l as [|b l IH] using utf8_ind; [done|]. intros Hv.
  rewrite utf8_valid_step in Hv. apply andb_true_iff in Hv as [Hok Hv].
  rewrite from_utf8_lossy_step, Hok, IH by done. apply take_drop.
Qed.

Lemma utf8_valid_take_step b l :
  (utf8_step (b :: l)).2 = true → utf8_valid (take (utf8_step (b :: l)).1 (b :: l)) = true.
Proof.
  cbn [utf8_step]. destruct l as [|b1 [|b2 [|b3 l]]];
    repeat case_match; cbn [fst snd take]; try done; intros _; cbn [utf8_valid];
    repeat match goal with H : _ = true |- _ => rewrite H | H : _ = false |- _ => rewrite H end; done.
Qed.

(** Whatever the bytes, what is shown is well-formed. *)
Lemma from_utf8_lossy_utf8 l : utf8_valid (from_utf8_lossy l) = true.
Proof.
  induction l as [|b l IH] using utf8_ind; [done|]. rewrite from_utf8_lossy_step.
  apply utf8_valid_app; [|exact IH]. destruct (utf8_step (b :: l)).2 eqn:Hok; [|done].
  by apply utf8_valid_take_step.
Qed.

Lemma byte_in_of_Z lo hi z :
  (0 ≤ z < 256)%Z → byte_in lo hi (byte_of_Z z) = ((lo <=? z) && (z <=? hi))%Z.
Proof. intros Hz. unfold byte_in. by rewrite byte_to_of_Z, Z.mod_small. Qed.

Lemma encode_code_utf8 c : is_scalar c = true → utf8_valid (encode_code c) = true.
Proof.
  unfold is_scalar. intros Hc.
  assert (0 ≤ c < 0x110000 ∧ ¬ (0xD800 ≤ c < 0xE000))%Z as [Hr Hs] by lia. clear Hc.
  unfold encode_code. destruct (Z.ltb_spec c 0x80); [|destruct (Z.ltb_spec c 0x800);
    [|destruct (Z.ltb_spec c 0x10000)]]; cbn [fmap list_fmap utf8_valid]; unfold utf8_cont;
    rewrite !byte_in_of_Z by (Z.to_euclidean_division_equations; lia).
  all: repeat case_match; rewrite ?andb_true_iff, ?Z.leb_le;
    Z.to_euclidean_division_equations; lia.
Qed.

Lemma encode_chars_utf8 cs : utf8_valid (encode_chars cs) = true.
Proof.
  induction cs as [|c cs IH]; [done|]. apply utf8_valid_app; [|done].
  apply encode_code_utf8, scalar.
Qed.
