(* ===== verification/Advertising.v ===== *)
(** * The BLE advertising transport ([crates/pathweave-transport-ble/src/advertising.rs])

    Packets in the air are [dest | source | payload]; the dispatcher reads every
    packet the radio hears, drops echoes and repetitions, announces who it heard
    and demultiplexes what is addressed to this node into one virtual connection
    per peer. The radio ([trait AdvertisingBearer]) is the environment; so is
    [DefaultHasher], whose algorithm the standard library leaves unspecified.

    mpsc channels are a shared store: a queue and whether its receiver is alive,
    named by an index; a sender is that index in the connection map. *)

From S2P Require Import Prelude RustStd Types Effects.

Definition HEADER_LEN : nat := 16.
Definition MAX_PAYLOAD_LEN : nat := 150.
Definition ADV_DEDUP_TTL : Z := secs 2.

Abbreviation ShortId := (array 8).

(** ** The packet header *)

Definition encode_header (dest source : ShortId) : list byte :=
  array_to_list dest ++ array_to_list source.

Definition decode_header (bytes : list byte) : rust (option (ShortId * ShortId * list byte)) :=
  if length bytes <? HEADER_LEN then Val None
  else
    let! d := slice bytes 0 8 in
    let! dest := try_into_expect 8 d in
    let! s := slice bytes 8 16 in
    let! source := try_into_expect 8 s in
    let! payload := slice_from bytes HEADER_LEN in
    Val (Some (dest, source, payload)).

(** ** Short identifiers as text *)

Definition hex_bytes (l : list byte) : list byte := concat (hex_byte <$> l).

Lemma hex_bytes_utf8 l : utf8_valid (hex_bytes l) = true.
Proof.
  apply utf8_valid_ascii. unfold hex_bytes. intros c.
  induction l as [|b l IH]; simpl; [set_solver|].
  rewrite !elem_of_cons. intros [Hc|[Hc|Hc]]; [apply (hex_byte_ascii b); set_solver..|auto].
Qed.

Definition short_id_to_hex (id : ShortId) : rstring :=
  RString (hex_bytes (array_to_list id)) (hex_bytes_utf8 _).

(** The loop of [hex_to_short_id], with [n] bytes left to read from index [i]. *)
Fixpoint hex_pairs (hex : list byte) (n i : nat) : rust (option (list byte)) :=
  match n with
  | O => Val (Some [])
  | S n =>
    let! two := str_slice hex (i * 2) (i * 2 + 2) in
    match u8_from_str_radix16 two with
    | None => Val None
    | Some b =>
      let! rest := hex_pairs hex n (S i) in
      Val (cons b <$> rest)
    end
  end.

Definition hex_to_short_id (hex : rstring) : rust (option ShortId) :=
  if negb (length (str_bytes hex) =? 16) then Val None
  else
    let! o := hex_pairs (str_bytes hex) 8 0 in
    match o with
    | None => Val None
    | Some out => let! id := try_into_expect 8 out in Val (Some id)
    end.

(** ** The transport's state *)

Record channel := Channel { ch_queue : list (list byte); ch_receiver : bool }.

Record BroadcastConnection := {
  bc_local_short_id : ShortId;
  bc_peer_short_id : ShortId;
  bc_inbound_rx : nat
}.

Record adv_state := {
  local_short_id : option ShortId;
  channels : list channel;
  connections : gmap ShortId nat;
  (** [incoming_tx]/[incoming_rx]; the receiver goes when the transport is dropped. *)
  incoming : list BroadcastConnection;
  incoming_open : bool;
  (** Everything sent on [announce_tx]. *)
  announced : list PeerAnnouncement;
  dispatcher_handle : option nat;
  (** Names given to spawned tasks, and those whose handle was aborted. *)
  next_handle : nat;
  aborted : gset nat
}.

(** [with_bearer] *)
Definition adv_new : adv_state := {|
  local_short_id := None; channels := []; connections := ∅; incoming := [];
  incoming_open := true; announced := []; dispatcher_handle := None;
  next_handle := 0; aborted := ∅ |}.

Section setters.
Context (s : adv_state).

Definition set_local (o : option ShortId) : adv_state :=
  {| local_short_id := o; channels := channels s; connections := connections s;
     incoming := incoming s; incoming_open := incoming_open s; announced := announced s;
     dispatcher_handle := dispatcher_handle s; next_handle := next_handle s;
     aborted := aborted s |}.

Definition set_channels (l : list channel) : adv_state :=
  {| local_short_id := local_short_id s; channels := l; connections := connections s;
     incoming := incoming s; incoming_open := incoming_open s; announced := announced s;
     dispatcher_handle := dispatcher_handle s; next_handle := next_handle s;
     aborted := aborted s |}.

Definition set_connections (m : gmap ShortId nat) : adv_state :=
  {| local_short_id := local_short_id s; channels := channels s; connections := m;
     incoming := incoming s; incoming_open := incoming_open s; announced := announced s;
     dispatcher_handle := dispatcher_handle s; next_handle := next_handle s;
     aborted := aborted s |}.

Definition set_incoming (l : list BroadcastConnection) : adv_state :=
  {| local_short_id := local_short_id s; channels := channels s; connections := connections s;
     incoming := l; incoming_open := incoming_open s; announced := announced s;
     dispatcher_handle := dispatcher_handle s; next_handle := next_handle s;
     aborted := aborted s |}.

Definition announce (a : PeerAnnouncement) : adv_state :=
  {| local_short_id := local_short_id s; channels := channels s; connections := connections s;
     incoming := incoming s; incoming_open := incoming_open s; announced := announced s ++ [a];
     dispatcher_handle := dispatcher_handle s; next_handle := next_handle s;
     aborted := aborted s |}.

Definition set_handle (o : option nat) (next : nat) (dead : gset nat) : adv_state :=
  {| local_short_id := local_short_id s; channels := channels s; connections := connections s;
     incoming := incoming s; incoming_open := incoming_open s; announced := announced s;
     dispatcher_handle := o; next_handle := next; aborted := dead |}.
End setters.

(** ** Channels *)

(** [mpsc::unbounded_channel()] *)
Definition new_channel (s : adv_state) : nat * adv_state :=
  (length (channels s), set_channels s (channels s ++ [Channel [] true])).

Definition chan_push (payload : list byte) (c : channel) : channel :=
  if ch_receiver c then Channel (ch_queue c ++ [payload]) true else c.

(** [tx.send(payload)]: lost when the receiver is gone. *)
Definition chan_send (tx : nat) (payload : list byte) (s : adv_state) : adv_state :=
  set_channels s (alter (chan_push payload) tx (channels s)).

(** The receiver is dropped with the connection that owns it. *)
Definition chan_drop (rx : nat) (s : adv_state) : adv_state :=
  set_channels s (alter (λ _, Channel [] false) rx (channels s)).

(** A sender of the channel is alive: the connection map holds it. *)
Definition has_sender (rx : nat) (s : adv_state) : bool :=
  existsb (λ x, x.2 =? rx) (map_to_list (connections s)).

(** ** The environment of the transport *)

Inductive adv_op : Type → Type :=
(** [bearer.advertise(packet)] and the next packet of [bearer.scan()]. *)
| Advertise (packet : list byte) : adv_op (result unit)
| ScanNext : adv_op (option (list byte))
| Now : adv_op Z
(** Sleep until something may have happened to a channel. *)
| WaitChannel : adv_op unit
| AdvLoopBound : adv_op nat.

(** [tokio::spawn(dispatch_loop(..))], under the name of its handle. *)
Inductive adv_task := Dispatch (handle : nat) (local : ShortId).

Abbreviation adv_prog := (prog adv_state adv_op adv_task).

(** ** The virtual connection *)

Definition adv_send_bytes (c : BroadcastConnection) (bytes : list byte) :
    adv_prog (result unit) :=
  let packet := encode_header (bc_peer_short_id c) (bc_local_short_id c) ++ bytes in
  call (Advertise packet).

(** One poll of [inbound_rx.recv()]: [None] while the future is pending. *)
Definition poll_inbound (rx : nat) (s : adv_state) : option (result (list byte)) * adv_state :=
  match channels s !! rx with
  | Some (Channel (m :: q) b) =>
    (Some (Ok m), set_channels s (<[rx := Channel q b]> (channels s)))
  | _ =>
    if has_sender rx s then (None, s)
    else (Some (Err (ETransport "ble-advertising connection closed")), s)
  end.

Fixpoint recv_wait (bound : nat) (rx : nat) : adv_prog (result (list byte)) :=
  match bound with
  | O => Stuck Blocked
  | S bound =>
    r ← lock (poll_inbound rx);
    match r with
    | Some r => Ret r
    | None => call WaitChannel ;; recv_wait bound rx
    end
  end.

Definition adv_recv_bytes (c : BroadcastConnection) : adv_prog (result (list byte)) :=
  bound ← call AdvLoopBound; recv_wait bound (bc_inbound_rx c).

Definition adv_close (c : BroadcastConnection) : adv_prog (result unit) := Ret (Ok tt).

Definition adv_mtu (c : BroadcastConnection) : nat := MAX_PAYLOAD_LEN.

(** The connection goes out of scope. *)
Definition adv_drop (c : BroadcastConnection) : adv_prog unit :=
  modify (chan_drop (bc_inbound_rx c)).

(** ** The dispatcher *)

Section dispatch.
Context (hash_payload : list byte → u64).

Abbreviation recent_map := (gmap (ShortId * u64) Z).

(** [recent.retain(|_, seen_at| now.duration_since(seen_at) < DEDUP_TTL)]:
    [duration_since] is zero for a later instant. *)
Definition retain_recent (now : Z) (recent : recent_map) : recent_map :=
  filter (λ x, (Z.max 0 (now - x.2) < ADV_DEDUP_TTL)%Z) recent.

(** What follows the duplicate check, for a packet heard from [source]; whether
    the dispatcher goes on. *)
Definition route_packet (local dest source : ShortId) (payload : list byte) : adv_prog bool :=
  modify (λ s, announce s {| address := BleAdvertising (short_id_to_hex source);
                             short_id := Some source |}) ;;
  if decide (dest ≠ local) then Ret true
  else
    existing_tx ← read (λ s, connections s !! source);
    match existing_tx with
    | Some tx => modify (chan_send tx payload) ;; Ret true
    | None =>
      tx ← lock new_channel;
      modify (chan_send tx payload) ;;
      modify (λ s, set_connections s (<[source := tx]> (connections s))) ;;
      let conn := {| bc_local_short_id := local; bc_peer_short_id := source;
                     bc_inbound_rx := tx |} in
      lock (λ s, if incoming_open s then (true, set_incoming s (incoming s ++ [conn]))
                 else (false, chan_drop tx s))
    end.

Fixpoint dispatch_rounds (bound : nat) (handle : nat) (local : ShortId)
    (recent : recent_map) : adv_prog unit :=
  match bound with
  | O => Stuck Blocked
  | S bound =>
    packet ← call ScanNext;
    dead ← read (λ s, bool_decide (handle ∈ aborted s));
    if (dead : bool) then Ret tt
    else
      match packet with
      | None => Ret tt
      | Some packet =>
        header ← lift (decode_header packet);
        match header with
        | None => dispatch_rounds bound handle local recent
        | Some (dest, source, payload) =>
          if decide (source = local) then dispatch_rounds bound handle local recent
          else
            now ← call Now;
            let recent := retain_recent now recent in
            let key := (source, hash_payload payload) in
            match recent !! key with
            | Some _ => dispatch_rounds bound handle local recent
            | None =>
              go_on ← route_packet local dest source payload;
              if (go_on : bool)
              then dispatch_rounds bound handle local (<[key := now]> recent)
              else Ret tt
            end
        end
      end
  end.

Definition dispatch_loop (handle : nat) (local : ShortId) : adv_prog unit :=
  bound ← call AdvLoopBound; dispatch_rounds bound handle local ∅.

Definition adv_task_body (t : adv_task) : adv_prog unit :=
  match t with Dispatch handle local => dispatch_loop handle local end.
End dispatch.

(** ** [impl Transport for BleAdvertisingTransport] *)

Definition adv_start (identity : NodeIdentity) : adv_prog (result unit) :=
  prefix ← lift (slice (array_to_list (PeerId_as_bytes (peer_id identity))) 0 8);
  short ← lift (try_into_expect 8 prefix);
  modify (λ s, set_local s (Some short)) ;;
  handle ← lock (λ s, (next_handle s,
    set_handle s (dispatcher_handle s) (S (next_handle s)) (aborted s)));
  spawn (Dispatch handle short) ;;
  modify (λ s, set_handle s (Some handle) (next_handle s) (aborted s)) ;;
  Ret (Ok tt).

Definition adv_stop : adv_prog (result unit) :=
  modify (λ s, match dispatcher_handle s with
               | Some h => set_handle s None (next_handle s) ({[h]} ∪ aborted s)
               | None => s
               end) ;;
  modify (λ s, set_local s None) ;;
  modify (λ s, set_connections s ∅) ;;
  Ret (Ok tt).

Definition adv_connect (peer : PeerAnnouncement) : adv_prog (result BroadcastConnection) :=
  match address peer with
  | BleAdvertising hex_id =>
    parsed ← lift (hex_to_short_id hex_id);
    match parsed with
    | None => Ret (Err (ETransport "malformed BLE advertising short_id"))
    | Some peer_short_id =>
      local ← read local_short_id;
      match local with
      | None => Ret (Err (ETransport "transport not started"))
      | Some local =>
        tx ← lock new_channel;
        modify (λ s, set_connections s (<[peer_short_id := tx]> (connections s))) ;;
        Ret (Ok {| bc_local_short_id := local; bc_peer_short_id := peer_short_id;
                   bc_inbound_rx := tx |})
      end
    end
  | _ => Ret (Err (ETransport "expected BLE advertising address"))
  end.

(** The transport owns a sender of its own queue, so [recv] never sees it closed. *)
Fixpoint accept_wait (bound : nat) : adv_prog (result BroadcastConnection) :=
  match bound with
  | O => Stuck Blocked
  | S bound =>
    r ← lock (λ s, match incoming s with
                   | c :: rest => (Some c, set_incoming s rest)
                   | [] => (None, s)
                   end);
    match r with
    | Some c => Ret (Ok c)
    | None => call WaitChannel ;; accept_wait bound
    end
  end.

Definition adv_accept : adv_prog (result BroadcastConnection) :=
  bound ← call AdvLoopBound; accept_wait bound.

(** [discover]: a reader of the last 64 announcements, from now on. *)
Definition ANNOUNCE_CAPACITY : nat := 64.

Definition adv_discover : adv_prog nat := read (λ s, length (announced s)).

Definition poll_announcement (cursor : nat) (s : adv_state) : option (PeerAnnouncement * nat) :=
  let cursor := Nat.max cursor (length (announced s) - ANNOUNCE_CAPACITY) in
  (λ a, (a, S cursor)) <$> announced s !! cursor.

Definition adv_mtu_hint : nat := MAX_PAYLOAD_LEN.
Definition adv_cost : TransportCost := Free.
Definition adv_kind : TransportKind := KBleAdvertising.

Definition adv_local_addresses (s : adv_state) : list PeerAddress :=
  match local_short_id s with
  | Some id => [BleAdvertising (short_id_to_hex id)]
  | None => []
  end.

(** ** The header and the textual identifiers *)

Lemma decode_header_short bytes : length bytes < HEADER_LEN → decode_header bytes = Val None.
Proof. intros H. unfold decode_header. by rewrite (proj2 (Nat.ltb_lt _ _) H). Qed.

Lemma decode_encode_header d s payload :
  decode_header (encode_header d s ++ payload) = Val (Some (d, s, payload)).
Proof.
  unfold decode_header, encode_header.
  pose proof (array_length d) as Hd. pose proof (array_length s) as Hs.
  rewrite (proj2 (Nat.ltb_ge _ _)) by (rewrite !length_app, Hd, Hs; unfold HEADER_LEN; lia).
  rewrite <-app_assoc.
  pose proof (slice_app_mid [] (array_to_list d) (array_to_list s ++ payload) 0 8) as Hfst.
  cbn [app length] in Hfst. rewrite Hfst by lia.
  cbn [rust_bind]. rewrite try_into_expect_array. cbn [rust_bind].
  rewrite (slice_app_mid (array_to_list d) (array_to_list s)) by lia.
  cbn [rust_bind]. rewrite try_into_expect_array. cbn [rust_bind].
  rewrite app_assoc, slice_from_Val by (rewrite !length_app, Hd, Hs; unfold HEADER_LEN; lia).
  cbn [rust_bind]. by rewrite drop_app_length' by (rewrite length_app, Hd, Hs; done).
Qed.

Lemma decode_header_long bytes :
  HEADER_LEN ≤ length bytes →
  ∃ d s payload, bytes = encode_header d s ++ payload.
Proof.
  unfold HEADER_LEN, encode_header. intros H.
  destruct (try_into_is_Some 8 (take 8 bytes)) as (d & _ & Hd); [rewrite length_take; lia|].
  destruct (try_into_is_Some 8 (take 8 (drop 8 bytes))) as (s & _ & Hs);
    [rewrite length_take, length_drop; lia|].
  exists d, s, (drop 8 (drop 8 bytes)). rewrite Hd, Hs, <-app_assoc.
  by rewrite !take_drop.
Qed.

Definition header_of (bytes : list byte) : option (ShortId * ShortId * list byte) :=
  match decode_header bytes with Val o => o | Panic => None end.

Lemma decode_header_total bytes : decode_header bytes = Val (header_of bytes).
Proof.
  unfold header_of. destruct (Nat.lt_ge_cases (length bytes) HEADER_LEN) as [H|H].
  - by rewrite decode_header_short.
  - destruct (decode_header_long bytes H) as (d & s & p & ->). by rewrite decode_encode_header.
Qed.

(** Advertising packets: a header followed by a payload decodes to exactly the
    destination, the source and the payload; decoding never panics, fails precisely
    on packets shorter than a header, and whatever it accepts is the packet those
    three parts encode. *)
Theorem adv_header_codec bytes :
  ∃ o, decode_header bytes = Val o ∧
    (o = None ↔ length bytes < HEADER_LEN) ∧
    ∀ d s payload, o = Some (d, s, payload) ↔ bytes = encode_header d s ++ payload.
Proof.
  destruct (Nat.lt_ge_cases (length bytes) HEADER_LEN) as [H|H].
  - exists None. split_and!; [by apply decode_header_short|done|].
    intros d s p. split; [done|]. intros ->.
    unfold encode_header, HEADER_LEN in H. rewrite !length_app, !array_length in H. lia.
  - destruct (decode_header_long bytes H) as (d & s & p & Hb).
    exists (Some (d, s, p)). split_and!.
    + by rewrite Hb, decode_encode_header.
    + split; [done|]. lia.
    + intros d' s' p'. split; [by intros [= <- <- <-]|]. intros Hb'.
      rewrite Hb in Hb'. apply (f_equal decode_header) in Hb'.
      rewrite !decode_encode_header in Hb'. by injection Hb' as -> -> ->.
Qed.

Lemma length_hex_bytes l : length (hex_bytes l) = 2 * length l.
Proof.
  unfold hex_bytes. induction l as [|b l IH]; [done|].
  cbn [fmap list_fmap concat]. rewrite length_app, hex_byte_length, IH. simpl. lia.
Qed.

Lemma hex_bytes_app l1 l2 : hex_bytes (l1 ++ l2) = hex_bytes l1 ++ hex_bytes l2.
Proof. unfold hex_bytes. by rewrite fmap_app, concat_app. Qed.

Lemma ascii_boundary l i :
  (∀ c, c ∈ l → byte_in 0 127 c = true) → i ≤ length l → is_char_boundary l i = true.
Proof.
  intros Hl Hi. unfold is_char_boundary. destruct (i =? 0); [done|].
  destruct (l !! i) as [b|] eqn:Hb.
  - rewrite ascii_not_cont; [done|]. apply Hl. by eapply list_elem_of_lookup_2.
  - apply lookup_ge_None in Hb. apply Nat.eqb_eq. lia.
Qed.

Lemma hex_bytes_ascii l c : c ∈ hex_bytes l → byte_in 0 127 c = true.
Proof.
  unfold hex_bytes. induction l as [|b l IH]; simpl; [set_solver|].
  rewrite !elem_of_cons. intros [Hc|[Hc|Hc]]; [apply (hex_byte_ascii b); set_solver..|auto].
Qed.

Lemma hex_pairs_hex pre l :
  hex_pairs (hex_bytes (pre ++ l)) (length l) (length pre) = Val (Some l).
Proof.
  revert pre. induction l as [|b l IH]; intros pre; [done|]. cbn [length hex_pairs].
  assert (str_slice (hex_bytes (pre ++ b :: l)) (length pre * 2) (length pre * 2 + 2)
          = Val (hex_byte b)) as ->.
  { unfold str_slice.
    pose proof (length_hex_bytes (pre ++ b :: l)) as Hlen.
    rewrite length_app in Hlen; cbn [length] in Hlen.
    rewrite !ascii_boundary by (try lia; apply hex_bytes_ascii).
    rewrite (proj2 (Nat.leb_le _ _)) by lia. cbn [andb]. f_equal.
    rewrite hex_bytes_app, drop_app_length' by (rewrite length_hex_bytes; lia).
    replace (length pre * 2 + 2 - length pre * 2) with 2 by lia. done. }
  cbn [rust_bind]. rewrite hex_byte_parse.
  replace (pre ++ b :: l) with ((pre ++ [b]) ++ l) by by rewrite <-app_assoc.
  specialize (IH (pre ++ [b])). rewrite length_app in IH. cbn [length] in IH.
  rewrite Nat.add_1_r in IH. by rewrite IH.
Qed.

Lemma hex_roundtrip id : hex_to_short_id (short_id_to_hex id) = Val (Some id).
Proof.
  unfold hex_to_short_id, short_id_to_hex. cbn [str_bytes].
  pose proof (array_length id) as Hid.
  rewrite length_hex_bytes, Hid. cbn [Nat.mul Nat.add Nat.eqb negb].
  pose proof (hex_pairs_hex [] (array_to_list id)) as Hp. rewrite Hid in Hp.
  change ([] ++ array_to_list id) with (array_to_list id) in Hp.
  cbn [length] in Hp. rewrite Hp. cbn [rust_bind]. by rewrite try_into_expect_array.
Qed.

Lemma hex_pairs_ascii hex n i :
  (∀ c, c ∈ hex → byte_in 0 127 c = true) → (i + n) * 2 ≤ length hex →
  ∃ o, hex_pairs hex n i = Val o ∧ ∀ l, o = Some l → length l = n.
Proof.
  intros Ha. revert i. induction n as [|n IH]; intros i Hi; cbn [hex_pairs].
  { exists (Some []). split; [done|]. by intros l [= <-]. }
  unfold str_slice. rewrite !ascii_boundary by (try lia; done).
  rewrite (proj2 (Nat.leb_le _ _)) by lia. cbn [andb rust_bind].
  destruct (u8_from_str_radix16 _) as [b|]; [|by eexists].
  destruct (IH (S i)) as (o & -> & Ho); [lia|]. cbn [rust_bind].
  exists (cons b <$> o). split; [done|].
  intros l Hl. destruct o as [l'|]; simplify_eq/=. by rewrite (Ho l').
Qed.

(** An [a], a two-byte [é] and thirteen zeros. *)
Definition straddling : rstring :=
  RString ([x61; xc3; xa9] ++ replicate 13 x30) eq_refl.

(** Identifiers as text: the hexadecimal form the dispatcher announces parses
    back to the same short identifier, so it names one peer only; on every ASCII
    string the parser returns (an identifier or a refusal), and it refuses every
    string that is not sixteen bytes long. Sixteen bytes are not enough: a string
    whose characters straddle a pair makes it panic. *)
Theorem short_id_text :
  (∀ id, hex_to_short_id (short_id_to_hex id) = Val (Some id)) ∧
  (∀ id id', short_id_to_hex id = short_id_to_hex id' → id = id') ∧
  (∀ hex, (∀ c, c ∈ str_bytes hex → byte_in 0 127 c = true) →
     hex_to_short_id hex ≠ Panic) ∧
  (∀ hex, length (str_bytes hex) ≠ 16 → hex_to_short_id hex = Val None) ∧
  (hex_to_short_id straddling = Panic).
Proof.
  split_and!.
  - apply hex_roundtrip.
  - intros id id' H. apply (f_equal hex_to_short_id) in H.
    rewrite !hex_roundtrip in H. by injection H.
  - intros hex Ha. unfold hex_to_short_id. destruct (Nat.eqb_spec (length (str_bytes hex)) 16)
      as [Hl|Hl]; [|done]. cbn [negb].
    destruct (hex_pairs_ascii (str_bytes hex) 8 0 Ha) as (o & -> & Ho); [lia|].
    cbn [rust_bind]. destruct o as [l|]; [|done].
    destruct (try_into_expect_Val 8 l (Ho l eq_refl)) as (a & -> & _). done.
  - intros hex Hl. unfold hex_to_short_id. by rewrite (proj2 (Nat.eqb_neq _ _) Hl).
  - done.
Qed.

(** ** Demultiplexing: the abstract view *)

(** The air: the packets the radio will hear, with the instants it hears them. *)
Record air := { air_packets : list (list byte * Z); air_now : Z }.

Definition air_answer (X : Type) (e : adv_op X) (w : air) : X * N * air :=
  match e in adv_op X return X * N * air with
  | Advertise _ => (Ok tt, 0%N, w)
  | ScanNext =>
    match air_packets w with
    | (p, t) :: rest => (Some p, 0%N, {| air_packets := rest; air_now := t |})
    | [] => (None, 0%N, w)
    end
  | Now => (air_now w, 0%N, w)
  | WaitChannel => (tt, 0%N, w)
  | AdvLoopBound => (S (length (air_packets w)), 0%N, w)
  end.

Abbreviation heard := (ShortId * ShortId * list byte)%type (only parsing).

Section spec.
Context (hash_payload : list byte → u64) (local : ShortId).

Definition repeated (o : option Z) (now : Z) : bool :=
  match o with Some t => (now - t <? ADV_DEDUP_TTL)%Z | None => false end.

(** The packets a dispatcher should act on: well formed, not our own, and not
    acted on less than [ADV_DEDUP_TTL] ago under the same source and hash. [last]
    remembers for ever when a key was last acted on. *)
Fixpoint acted_on (last : gmap (ShortId * u64) Z) (pkts : list (list byte * Z)) : list heard :=
  match pkts with
  | [] => []
  | (p, now) :: pkts =>
    match header_of p with
    | None => acted_on last pkts
    | Some (dest, source, payload) =>
      let key := (source, hash_payload payload) in
      if decide (source = local) then acted_on last pkts
      else if repeated (last !! key) now
      then acted_on last pkts
      else (dest, source, payload) :: acted_on (<[key := now]> last) pkts
    end
  end.
End spec.

(** The payloads for [local] that came from [src], in order. *)
Definition mail (local src : ShortId) (l : list heard) : list (list byte) :=
  (λ h, h.2) <$> filter (λ h, h.1.1 = local ∧ h.1.2 = src) l.

(** Who is heard for the first time, in order. *)
Fixpoint newcomers (local : ShortId) (known : gset ShortId) (l : list heard) : list ShortId :=
  match l with
  | [] => []
  | (dest, source, _) :: l =>
    if decide (dest = local ∧ source ∉ known)
    then source :: newcomers local ({[source]} ∪ known) l
    else newcomers local known l
  end.

Definition inbox (s : adv_state) (src : ShortId) : list (list byte) :=
  match connections s !! src with
  | Some tx => match channels s !! tx with Some c => ch_queue c | None => [] end
  | None => []
  end.

(** Nobody has dropped the connection registered for [src]. *)
Definition listening (s : adv_state) (src : ShortId) : Prop :=
  ∀ tx, connections s !! src = Some tx →
  ∃ q, channels s !! tx = Some (Channel q true).

(** Each peer has a channel of its own. *)
Record adv_wf (s : adv_state) : Prop := {
  wf_channel : ∀ src tx, connections s !! src = Some tx → tx < length (channels s);
  wf_owner : ∀ src src' tx,
    connections s !! src = Some tx → connections s !! src' = Some tx → src = src'
}.

Fixpoint nondecreasing (t0 : Z) (l : list (list byte * Z)) : Prop :=
  match l with
  | [] => True
  | (_, t) :: l => (t0 <= t)%Z ∧ nondecreasing t l
  end.

(** What handling one packet does to the state. *)
Record routed (local dest src : ShortId) (payload : list byte) (s s' : adv_state) : Prop := {
  rt_wf : adv_wf s';
  rt_open : incoming_open s' = incoming_open s;
  rt_aborted : aborted s' = aborted s;
  rt_announced : announced s' = announced s ++
    [{| address := BleAdvertising (short_id_to_hex src); short_id := Some src |}];
  rt_inbox : ∀ x, listening s x →
    inbox s' x = inbox s x ++ (if decide (dest = local ∧ src = x) then [payload] else []) ∧
    listening s' x;
  rt_known : dom (connections s') =
    if decide (dest = local) then {[src]} ∪ dom (connections s) else dom (connections s);
  rt_incoming : bc_peer_short_id <$> incoming s' =
    (bc_peer_short_id <$> incoming s) ++
    (if decide (dest = local ∧ src ∉ dom (connections s)) then [src] else [])
}.

Lemma lookup_chan_send tx payload s i :
  channels (chan_send tx payload s) !! i =
  if decide (i = tx) then chan_push payload <$> (channels s !! i) else channels s !! i.
Proof.
  unfold chan_send. cbn [channels set_channels]. case_decide as Hi.
  - subst i. apply list_lookup_alter_eq.
  - by rewrite list_lookup_alter_ne.
Qed.

(** Queueing on the channel a peer already has. *)
Lemma routed_known local src payload s tx :
  adv_wf s → connections s !! src = Some tx →
  routed local local src payload s
    (chan_send tx payload
      (announce s {| address := BleAdvertising (short_id_to_hex src); short_id := Some src |})).
Proof.
  intros [Hch Hown] Hsrc.
  assert (src ∈ dom (connections s)) as Hdom by (apply elem_of_dom; eauto).
  constructor; try done.
  - constructor; [|exact Hown]. intros x t Hx. cbn. rewrite length_alter. by eapply Hch.
  - intros x Hl. unfold inbox, listening.
    change (connections (chan_send _ _ _)) with (connections s).
    destruct (connections s !! x) as [t|] eqn:Hx.
    2:{ split; [|done]. rewrite decide_False; [done|]. intros [_ ->]. congruence. }
    destruct (Hl t Hx) as [q Hq].
    assert (∀ i, channels (chan_send tx payload (announce s
      {| address := BleAdvertising (short_id_to_hex src); short_id := Some src |})) !! i =
      channels (chan_send tx payload s) !! i) as Hann by done.
    destruct (decide (t = tx)) as [->|Ht].
    + rewrite Hann, (Hown _ _ _ Hx Hsrc), decide_True by done.
      rewrite lookup_chan_send, Hq, decide_True by done. split; [done|].
      intros ? [= <-]. rewrite Hann, lookup_chan_send, Hq, decide_True by done. eauto.
    + rewrite Hann, lookup_chan_send, Hq, !decide_False, app_nil_r
        by (try intros [_ ->]; congruence). split; [done|].
      intros ? [= <-]. rewrite Hann, lookup_chan_send, Hq, decide_False by done. eauto.
  - rewrite decide_True by done. cbn. set_solver.
  - rewrite decide_False by set_solver. cbn. by rewrite app_nil_r.
Qed.

(** A first packet: a new channel, registered and offered to [accept]. *)
Lemma routed_new local src payload s :
  adv_wf s → connections s !! src = None →
  let s1 := announce s {| address := BleAdvertising (short_id_to_hex src);
                          short_id := Some src |} in
  let tx := length (channels s1) in
  let s2 := chan_send tx payload (new_channel s1).2 in
  let s3 := set_connections s2 (<[src := tx]> (connections s2)) in
  routed local local src payload s
    (set_incoming s3 (incoming s3 ++
      [{| bc_local_short_id := local; bc_peer_short_id := src; bc_inbound_rx := tx |}])).
Proof.
  intros [Hch Hown] Hsrc. cbv zeta.
  assert (src ∉ dom (connections s)) as Hdom by by apply not_elem_of_dom.
  assert (∀ i c, channels s !! i = Some c →
    channels (chan_send (length (channels s)) payload (new_channel s).2) !! i = Some c) as Hold.
  { intros i c Hi. pose proof (lookup_lt_Some _ _ _ Hi). rewrite lookup_chan_send.
    rewrite decide_False by lia. cbn. by rewrite lookup_app_l. }
  assert (channels (chan_send (length (channels s)) payload (new_channel s).2)
            !! length (channels s) = Some (Channel [payload] true)) as Hnew.
  { rewrite lookup_chan_send, decide_True by done. cbn. by rewrite list_lookup_middle. }
  constructor; try done.
  - constructor; cbn.
    + intros x t. rewrite length_alter, length_app. cbn.
      intros [[-> <-]|[? ?%Hch]]%lookup_insert_Some; lia.
    + intros x y t [[-> <-]|[? Hx]]%lookup_insert_Some [[-> Ht]|[? Hy]]%lookup_insert_Some;
        [done|apply Hch in Hy; lia|apply Hch in Hx; lia|by eapply Hown].
  - intros x Hl. unfold inbox, listening. cbn [connections set_incoming set_connections].
    change (channels (set_incoming _ _)) with
      (channels (chan_send (length (channels s)) payload (new_channel s).2)).
    change (connections (chan_send _ _ _)) with (connections s).
    change (length (channels (announce _ _))) with (length (channels s)).
    destruct (decide (src = x)) as [<-|Hx].
    + rewrite lookup_insert_eq, Hnew, Hsrc, decide_True by done. split; [done|].
      intros ? [= <-]. eauto.
    + rewrite lookup_insert_ne, decide_False, app_nil_r by naive_solver. split.
      * destruct (connections s !! x) as [t|] eqn:Hc; [|done].
        destruct (Hl t Hc) as [q Hq]. by rewrite (Hold _ _ Hq), Hq.
      * intros t Hc. destruct (Hl t Hc) as [q Hq]. eauto.
  - cbn. by rewrite dom_insert_L, decide_True by done.
  - cbn. by rewrite fmap_app, decide_True by done.
Qed.

Lemma routed_other local dest src payload s :
  adv_wf s → dest ≠ local →
  routed local dest src payload s
    (announce s {| address := BleAdvertising (short_id_to_hex src); short_id := Some src |}).
Proof.
  intros [Hch Hown] Hd. constructor; try done.
  - intros x Hl. by rewrite decide_False, app_nil_r by tauto.
  - by rewrite decide_False.
  - by rewrite decide_False, app_nil_r by tauto.
Qed.

Abbreviation adv_run := (run air_answer (λ _ (s : adv_state), s)).

Lemma route_packet_run local dest src payload s w :
  adv_wf s → incoming_open s = true →
  ∃ s', adv_run (route_packet local dest src payload) s w = Ran (Returned true) s' w [] ∧
    routed local dest src payload s s'.
Proof.
  intros Hwf Ho. unfold route_packet. cbn [bind modify lock run fst snd].
  destruct (decide (dest ≠ local)) as [Hd|Hd%dec_stable].
  - cbn [run]. eexists. split; [done|]. by apply routed_other.
  - subst dest. cbn [bind read lock run fst snd]. cbn [connections announce].
    destruct (connections s !! src) as [tx|] eqn:Hc; cbn [bind modify lock run fst snd].
    + eexists. split; [done|]. by apply routed_known.
    + cbn [incoming_open set_connections chan_send set_channels new_channel fst snd announce].
      rewrite Ho. cbn [fst snd run]. eexists. split; [done|]. by apply routed_new.
Qed.

(** What handling a sequence of packets does. *)
Record delivered (local : ShortId) (l : list heard) (s s' : adv_state) : Prop := {
  dl_wf : adv_wf s';
  dl_announced : announced s' = announced s ++
    ((λ h : heard, {| address := BleAdvertising (short_id_to_hex h.1.2);
                      short_id := Some h.1.2 |}) <$> l);
  dl_inbox : ∀ x, listening s x → inbox s' x = inbox s x ++ mail local x l;
  dl_incoming : bc_peer_short_id <$> incoming s' =
    (bc_peer_short_id <$> incoming s) ++ newcomers local (dom (connections s)) l
}.

Lemma delivered_nil local s : adv_wf s → delivered local [] s s.
Proof. intros H. constructor; [done|..]; intros; by rewrite app_nil_r. Qed.

Lemma mail_cons local x d src p l :
  mail local x ((d, src, p) :: l) =
  (if decide (d = local ∧ src = x) then [p] else []) ++ mail local x l.
Proof. unfold mail. rewrite filter_cons. cbn [fst snd]. by repeat case_decide. Qed.

Lemma newcomers_cons local known d src p l :
  newcomers local known ((d, src, p) :: l) =
  (if decide (d = local ∧ src ∉ known) then [src] else []) ++
  newcomers local (if decide (d = local) then {[src]} ∪ known else known) l.
Proof.
  cbn [newcomers]. destruct (decide (d = local ∧ src ∉ known)) as [[-> Hk]|Hn].
  - by rewrite decide_True by done.
  - cbn [app]. f_equal. destruct (decide (d = local)) as [->|]; [|done].
    assert (src ∈ known) by (apply dec_stable; tauto). set_solver.
Qed.

Lemma delivered_cons local d src p l s s1 s2 :
  routed local d src p s s1 → delivered local l s1 s2 →
  delivered local ((d, src, p) :: l) s s2.
Proof.
  intros Hr Hd. constructor.
  - apply Hd.
  - rewrite (dl_announced _ _ _ _ Hd), (rt_announced _ _ _ _ _ _ Hr), <-app_assoc. done.
  - intros x Hx. destruct (rt_inbox _ _ _ _ _ _ Hr x Hx) as [Hi Hl].
    by rewrite (dl_inbox _ _ _ _ Hd x Hl), Hi, <-app_assoc, mail_cons.
  - rewrite (dl_incoming _ _ _ _ Hd), (rt_incoming _ _ _ _ _ _ Hr), <-app_assoc.
    by rewrite newcomers_cons, (rt_known _ _ _ _ _ _ Hr).
Qed.

Section demultiplex.
Context (hash_payload : list byte → u64).

(** The evicting map of the dispatcher against the full history. *)
Record recent_sim (recent last : gmap (ShortId * u64) Z) (now : Z) : Prop := {
  rs_sound : ∀ k t, recent !! k = Some t → last !! k = Some t;
  rs_complete : ∀ k t, last !! k = Some t →
    (t <= now)%Z ∧ (recent !! k = Some t ∨ (ADV_DEDUP_TTL <= now - t)%Z)
}.

Lemma recent_sim_retain recent last t0 now :
  (t0 <= now)%Z → recent_sim recent last t0 → recent_sim (retain_recent now recent) last now.
Proof.
  intros Ht [Hs Hc]. unfold retain_recent. constructor.
  - intros k t [? _]%map_lookup_filter_Some. auto.
  - intros k t Hk. destruct (Hc k t Hk) as [? Hr]. split; [lia|].
    destruct (decide (ADV_DEDUP_TTL <= now - t)%Z); [by right|]. left.
    apply map_lookup_filter_Some. cbn. destruct Hr; [split; [done|]|]; lia.
Qed.

Lemma recent_sim_insert recent last now k :
  recent_sim recent last now → recent_sim (<[k := now]> recent) (<[k := now]> last) now.
Proof.
  intros [Hs Hc]. constructor; intros j t; rewrite !lookup_insert; case_decide; auto.
  intros [= <-]. split; [lia|by left].
Qed.

Lemma retain_repeated recent last t0 now k :
  (t0 <= now)%Z → recent_sim recent last t0 →
  is_Some (retain_recent now recent !! k) ↔ repeated (last !! k) now = true.
Proof.
  intros Ht [Hs Hc]. unfold repeated, retain_recent. split.
  - intros [t [Hk Hf]%map_lookup_filter_Some]. cbn in Hf.
    rewrite (Hs _ _ Hk). apply Z.ltb_lt. lia.
  - destruct (last !! k) as [t|] eqn:Hk; [|done]. intros Hf%Z.ltb_lt.
    exists t. apply map_lookup_filter_Some. cbn.
    destruct (Hc k t Hk) as [? [?|?]]; [split; [done|]|]; lia.
Qed.

Lemma rounds_run handle local pkts recent last t0 s :
  recent_sim recent last t0 → nondecreasing t0 pkts →
  adv_wf s → incoming_open s = true → handle ∉ aborted s →
  ∃ s' w', adv_run (dispatch_rounds hash_payload (S (length pkts)) handle local recent) s
      {| air_packets := pkts; air_now := t0 |} = Ran (Returned tt) s' w' [] ∧
    delivered local (acted_on hash_payload local last pkts) s s'.
Proof.
  revert recent last t0 s. induction pkts as [|[p now] pkts IH];
    intros recent last t0 s Hsim Hmono Hwf Ho Ha.
  - cbn. rewrite bool_decide_eq_false_2 by done. cbn.
    eexists _, _. split; [done|]. by apply delivered_nil.
  - destruct Hmono as [Ht Hmono]. cbn [length]. set (n := S (length pkts)) in *.
    cbn [dispatch_rounds acted_on bind call read lock run air_answer air_packets fst snd].
    rewrite bool_decide_eq_false_2 by done. rewrite decode_header_total. cbn [lift bind].
    assert (recent_sim recent last now) as Hsim'.
    { destruct Hsim as [Hs Hc]. constructor; [done|]. intros k t Hk.
      destruct (Hc k t Hk) as [? [?|?]]; split; auto with lia. }
    destruct (header_of p) as [[[d src] pl]|]; [|by apply IH].
    destruct (decide (src = local)) as [_|_]; [by apply IH|].
    cbn [bind call run air_answer air_now]. cbv zeta.
    pose proof (recent_sim_retain _ _ _ _ Ht Hsim) as Hkept.
    pose proof (retain_repeated _ _ _ _ (src, hash_payload pl) Ht Hsim) as Hrep.
    destruct (retain_recent now recent !! (src, hash_payload pl)) as [t|].
    { rewrite (proj1 Hrep) by eauto. by apply IH. }
    destruct (repeated (last !! (src, hash_payload pl)) now);
      [by destruct (proj2 Hrep eq_refl)|].
    rewrite run_bind.
    destruct (route_packet_run local d src pl s {| air_packets := pkts; air_now := now |} Hwf Ho)
      as (s1 & -> & Hr). cbn [r_final r_shared r_env r_spawned].
    destruct (IH _ _ now s1 (recent_sim_insert _ _ _ (src, hash_payload pl) Hkept) Hmono
      (rt_wf _ _ _ _ _ _ Hr)) as (s2 & w2 & -> & Hd);
      [by rewrite (rt_open _ _ _ _ _ _ Hr)|by rewrite (rt_aborted _ _ _ _ _ _ Hr)|].
    eexists s2, w2. split; [done|]. by eapply delivered_cons.
Qed.

(** C30. The dispatcher implements per-peer mailboxes over the shared medium. From a
    state in which every peer has a channel of its own, on every sequence of packets
    heard at non-decreasing instants, the loop ends with the scan stream; it has acted
    on exactly the well-formed foreign packets that are not repetitions, within two
    seconds, of one it acted on; it announced each of those, in order; each peer whose
    connection is still held finds, behind what was queued, precisely the payloads that
    peer addressed to this node; and one new connection was offered per peer heard for
    the first time. *)
Theorem adv_demultiplex handle local pkts t0 s :
  adv_wf s → incoming_open s = true → handle ∉ aborted s → nondecreasing t0 pkts →
  let r := adv_run (dispatch_loop hash_payload handle local) s
             {| air_packets := pkts; air_now := t0 |} in
  r_final r = Returned tt ∧
  delivered local (acted_on hash_payload local ∅ pkts) s (r_shared r).
Proof.
  intros Hwf Ho Ha Hmono. unfold dispatch_loop.
  cbn [bind call run air_answer air_packets].
  destruct (rounds_run handle local pkts ∅ ∅ t0 s) as (s' & w' & -> & Hd); [done..|].
  cbn. by split.
Qed.
End demultiplex.

(** ** A connection that was dropped *)

(** [src]'s sender is registered, its receiver is gone, and no connection of [src]
    waits to be accepted. *)
Record unreachable (src : ShortId) (tx : nat) (s : adv_state) : Prop := {
  un_entry : connections s !! src = Some tx;
  un_dead : channels s !! tx = Some (Channel [] false);
  un_incoming : ∀ c, c ∈ incoming s → bc_peer_short_id c ≠ src
}.

(** What goes on while nobody dials [src] and the transport is not stopped. *)
Inductive ordinary (hash_payload : list byte → u64) : adv_prog unit → Prop :=
| o_dispatch handle local : ordinary hash_payload (dispatch_loop hash_payload handle local)
| o_accept : ordinary hash_payload (adv_accept ;; Ret tt)
| o_send c bytes : ordinary hash_payload (adv_send_bytes c bytes ;; Ret tt)
| o_recv c : ordinary hash_payload (adv_recv_bytes c ;; Ret tt)
| o_drop c : ordinary hash_payload (adv_drop c).

Section stale.
Context (hash_payload : list byte → u64) (src : ShortId) (tx : nat).

Abbreviation usafe := (safe (unreachable src tx) (λ _ : adv_task, True)).

Lemma unreachable_channels s l :
  unreachable src tx s → l !! tx = Some (Channel [] false) → unreachable src tx (set_channels s l).
Proof. intros [? ? ?] ?. by constructor. Qed.

Lemma unreachable_send i payload s :
  unreachable src tx s → unreachable src tx (chan_send i payload s).
Proof.
  intros H. apply unreachable_channels; [done|].
  change (channels (chan_send i payload s) !! tx = Some (Channel [] false)).
  rewrite lookup_chan_send, (un_dead _ _ _ H). by case_decide.
Qed.

Lemma unreachable_drop i s : unreachable src tx s → unreachable src tx (chan_drop i s).
Proof.
  intros H. apply unreachable_channels; [done|]. destruct (decide (i = tx)) as [->|Hi].
  - by rewrite list_lookup_alter_eq, (un_dead _ _ _ H).
  - by rewrite list_lookup_alter_ne, (un_dead _ _ _ H).
Qed.

Lemma unreachable_new s : unreachable src tx s → unreachable src tx (new_channel s).2.
Proof.
  intros H. apply unreachable_channels; [done|].
  by apply lookup_app_l_Some, (un_dead _ _ _ H).
Qed.

Lemma unreachable_insert who i s :
  who ≠ src → unreachable src tx s →
  unreachable src tx (set_connections s (<[who := i]> (connections s))).
Proof. intros Hw [He ? ?]. constructor; [|done..]. cbn. by rewrite lookup_insert_ne. Qed.

Lemma unreachable_incoming l s :
  (∀ c, c ∈ l → c ∈ incoming s ∨ bc_peer_short_id c ≠ src) →
  unreachable src tx s → unreachable src tx (set_incoming s l).
Proof. intros Hl [? ? Hin]. constructor; [done..|]. intros c [?|?]%Hl; auto. Qed.

Lemma safe_route local dest source payload :
  usafe (route_packet local dest source payload) (λ _, True).
Proof.
  unfold route_packet. cbn. intros s H. split; [by destruct H; constructor|].
  destruct (decide (dest ≠ local)); [done|]. cbn. intros s' H'. split; [done|].
  destruct (connections s' !! source) as [i|] eqn:Hi; cbn.
  - intros s2 H2. split; [by apply unreachable_send|done].
  - assert (source ≠ src) as Hne by (intros ->; by rewrite (un_entry _ _ _ H') in Hi).
    intros s2 H2. split; [by apply unreachable_new|].
    intros s3 H3. split; [by apply unreachable_send|].
    intros s4 H4. split; [by apply unreachable_insert|].
    intros s5 H5. destruct (incoming_open s5); cbn; (split; [|done]).
    + apply unreachable_incoming; [|done].
      intros c [?| ->%list_elem_of_singleton]%elem_of_app; [by left|by right].
    + by apply unreachable_drop.
Qed.

Lemma safe_rounds bound handle local recent :
  usafe (dispatch_rounds hash_payload bound handle local recent) (λ _, True).
Proof.
  revert recent. induction bound as [|bound IH]; intros recent; [done|].
  cbn [dispatch_rounds bind call read lock safe fst snd]. intros packet s H. split; [done|].
  destruct (bool_decide _); [done|]. destruct packet as [packet|]; [|done].
  rewrite decode_header_total. cbn [lift bind].
  destruct (header_of packet) as [[[dest source] payload]|]; [|apply IH].
  destruct (decide (source = local)); [apply IH|]. cbn [bind call safe]. intros now.
  cbv zeta. destruct (retain_recent now recent !! _); [apply IH|].
  apply safe_seq with (R := λ _, True); [apply safe_route|].
  intros [] _; [apply IH|done].
Qed.

Lemma safe_ordinary p : ordinary hash_payload p → usafe p (λ _, True).
Proof.
  intros [handle local| |c bytes|c|c].
  - cbn. intros bound. apply safe_rounds.
  - apply safe_seq with (R := λ _, True); [|done]. cbn. intros bound.
    induction bound as [|bound IH]; [done|]. cbn. intros s H.
    destruct (incoming s) as [|c rest] eqn:Hin; cbn; [by auto|]. split; [|done].
    apply unreachable_incoming; [|done]. intros c' Hc'. left. rewrite Hin. set_solver.
  - done.
  - apply safe_seq with (R := λ _, True); [|done]. cbn. intros bound.
    induction bound as [|bound IH]; [done|]. cbn. intros s H. unfold poll_inbound.
    destruct (channels s !! bc_inbound_rx c) as [[[|m q] b]|] eqn:Hc;
      try (destruct (has_sender _ _); cbn; by auto). cbn. split; [|done].
    apply unreachable_channels; [done|]. rewrite list_lookup_insert_ne;
      [apply (un_dead _ _ _ H)|]. intros Heq. rewrite Heq, (un_dead _ _ _ H) in Hc. done.
  - cbn. intros s H. split; [by apply unreachable_drop|done].
Qed.

(** A dropped connection leaves its peer unreachable. When the connection
    registered for a peer has been dropped, its entry stays: whatever the radio hears
    and however dispatchers, accepts, sends, receives and drops interleave, the
    entry keeps naming the dead channel, so every later packet of that peer is lost
    and no new connection for it is ever offered. *)
Theorem adv_dropped_peer_lost {W} (answer : ∀ X, adv_op X → W → X * N * W) sched pool s w :
  unreachable src tx s → Forall (ordinary hash_payload) pool →
  unreachable src tx (c_shared (exec answer (λ _ s, s) (adv_task_body hash_payload) sched
                                  (Config pool s w))).
Proof.
  intros Hs Hp. refine (proj1 (exec_safe _ (λ _, True) answer _ _ _ _ sched (Config pool s w) _)).
  - done.
  - intros [handle local] _. apply (safe_ordinary (dispatch_loop hash_payload handle local)).
    constructor.
  - split; [done|]. eapply Forall_impl; [exact Hp|]. apply safe_ordinary.
Qed.
End stale.
