(* ===== verification/Framing.v ===== *)
(** * Frames on a byte stream ([QuicConnection], [WifiDirectConnection])

    QUIC and TCP carry bytes, not messages: both connections write a frame as its
    length in four big-endian bytes and then its bytes, and read it back with two
    [read_exact]. The streams themselves (quinn, tokio) are the environment. *)

From S2P Require Import Prelude RustStd Types Effects.

Abbreviation stream := nat (only parsing).

Inductive stream_op : Type → Type :=
| WriteAll (c : stream) (bytes : list byte) : stream_op (string + unit)
| ReadExact (c : stream) (n : nat) : stream_op (string + list byte)
(** [SendStream::finish], [TcpStream::shutdown] *)
| Finish (c : stream) : stream_op (string + unit).

Abbreviation conn_prog := (prog unit stream_op Empty_set).

Definition send_frame (c : stream) (bytes : list byte) : conn_prog (result unit) :=
  let len := u32_to_be_bytes (u32_of_Z (Z.of_nat (length bytes))) in
  r ← call (WriteAll c len);
  match map_err ETransport r with
  | Err e => Ret (Err e)
  | Ok _ =>
    r ← call (WriteAll c bytes);
    Ret (map_err ETransport r)
  end.

Definition recv_frame (c : stream) : conn_prog (result (list byte)) :=
  r ← call (ReadExact c 4);
  match map_err ETransport r with
  | Err e => Ret (Err e)
  | Ok len_buf =>
    let len := Z.to_nat (uval (u32_from_be_bytes len_buf)) in
    r ← call (ReadExact c len);
    Ret (map_err ETransport r)
  end.

Definition finish_stream (c : stream) : conn_prog (result unit) :=
  r ← call (Finish c); Ret (map_err ETransport r).

(** ** [impl Connection for QuicConnection] *)

Definition quic_send_bytes : stream → list byte → conn_prog (result unit) := send_frame.
Definition quic_recv_bytes : stream → conn_prog (result (list byte)) := recv_frame.
Definition quic_close : stream → conn_prog (result unit) := finish_stream.
Definition quic_mtu : nat := 1200.

(** [impl Drop for QuicConnection] *)
Definition quic_drop (c : stream) : conn_prog unit := call (Finish c) ;; Ret tt.

(** ** [impl Connection for WifiDirectConnection] *)

Definition wifi_send_bytes : stream → list byte → conn_prog (result unit) := send_frame.
Definition wifi_recv_bytes : stream → conn_prog (result (list byte)) := recv_frame.
Definition wifi_close : stream → conn_prog (result unit) := finish_stream.
Definition wifi_mtu : nat := 1400.

(** ** A reliable stream *)

(** What was written, and what is still to be read before the end of the stream. *)
Record wire := { w_out : list byte; w_in : list byte }.

Definition wire_answer (X : Type) (e : stream_op X) (w : wire) : X * N * wire :=
  match e in stream_op X return X * N * wire with
  | WriteAll _ bytes => (inr tt, 0%N, {| w_out := w_out w ++ bytes; w_in := w_in w |})
  | ReadExact _ n =>
    if n <=? length (w_in w)
    then (inr (take n (w_in w)), 0%N, {| w_out := w_out w; w_in := drop n (w_in w) |})
    else (inl "early eof"%string, 0%N, {| w_out := w_out w; w_in := [] |})
  | Finish _ => (inr tt, 0%N, w)
  end.

Definition frame (bytes : list byte) : list byte :=
  u32_to_be_bytes (u32_of_Z (Z.of_nat (length bytes))) ++ bytes.

Fixpoint send_frames (c : stream) (msgs : list (list byte)) : conn_prog (result unit) :=
  match msgs with
  | [] => Ret (Ok tt)
  | m :: msgs =>
    r ← send_frame c m;
    match r with Ok _ => send_frames c msgs | Err e => Ret (Err e) end
  end.

Fixpoint recv_frames (c : stream) (n : nat) : conn_prog (result (list (list byte))) :=
  match n with
  | O => Ret (Ok [])
  | S n =>
    r ← recv_frame c;
    match r with
    | Err e => Ret (Err e)
    | Ok m =>
      r ← recv_frames c n;
      Ret (result_map (cons m) r)
    end
  end.

(** A message of at most [u32::MAX] bytes. *)
Definition framable (bytes : list byte) : Prop := (Z.of_nat (length bytes) < 2 ^ 32)%Z.

(** What a connection's program returns and leaves on such a stream. *)
Abbreviation on_wire :=
  (yields (S := unit) (T := Empty_set) wire_answer (λ _ s, s)).

Lemma length_u32_be u : length (u32_to_be_bytes u) = 4.
Proof. apply length_to_be. Qed.

Lemma yields_send_frame c bytes w :
  on_wire (send_frame c bytes) w (Ok tt)
    {| w_out := w_out w ++ frame bytes; w_in := w_in w |}.
Proof. intros s. cbn. by rewrite <-app_assoc. Qed.

Lemma yields_read c n l rest out :
  length l = n →
  on_wire (call (ReadExact c n)) {| w_out := out; w_in := l ++ rest |}
    (inr l) {| w_out := out; w_in := rest |}.
Proof.
  intros <-. apply yields_call with 0%N. cbn.
  rewrite (proj2 (Nat.leb_le _ _)) by (rewrite length_app; lia).
  by rewrite take_app_length, drop_app_length.
Qed.

Lemma yields_read_short c n l out :
  length l < n →
  on_wire (call (ReadExact c n)) {| w_out := out; w_in := l |}
    (inl "early eof"%string) {| w_out := out; w_in := [] |}.
Proof.
  intros Hl. apply yields_call with 0%N. cbn. by rewrite (proj2 (Nat.leb_gt _ _)).
Qed.

Lemma frame_length_field bytes :
  framable bytes →
  Z.to_nat (uval (u32_from_be_bytes (u32_to_be_bytes (u32_of_Z (Z.of_nat (length bytes))))))
  = length bytes.
Proof.
  intros Hb. rewrite u32_from_to_be, u32_of_Z_uval, Z.mod_small; [lia|].
  unfold framable in Hb. lia.
Qed.

Lemma yields_recv_frame c bytes rest out :
  framable bytes →
  on_wire (recv_frame c) {| w_out := out; w_in := frame bytes ++ rest |}
    (Ok bytes) {| w_out := out; w_in := rest |}.
Proof.
  intros Hb. unfold recv_frame, frame. rewrite <-app_assoc.
  eapply yields_bind; [apply yields_read, length_u32_be|]. cbn [map_err].
  rewrite frame_length_field by done.
  eapply yields_bind; [by apply yields_read|]. apply yields_ret.
Qed.

Lemma yields_send_frames c msgs w :
  on_wire (send_frames c msgs) w (Ok tt)
    {| w_out := w_out w ++ concat (frame <$> msgs); w_in := w_in w |}.
Proof.
  revert w. induction msgs as [|m msgs IH]; intros w; cbn [send_frames].
  - intros s. cbn. rewrite app_nil_r. by destruct w.
  - eapply yields_bind; [apply yields_send_frame|]. cbn [fmap list_fmap concat].
    rewrite app_assoc. apply (IH {| w_out := w_out w ++ frame m; w_in := w_in w |}).
Qed.

(** Framing: sending any messages over a stream connection succeeds, and the
    other end, reading the bytes that came out (whatever follows them), receives
    exactly those messages in order and leaves what follows untouched. The length
    field is 32 bits wide, so messages are shorter than 4 GiB. *)
Theorem frames_roundtrip c d msgs rest :
  Forall framable msgs →
  ∃ written,
    (∀ input, on_wire (send_frames c msgs)
       {| w_out := []; w_in := input |} (Ok tt) {| w_out := written; w_in := input |}) ∧
    (∀ out, on_wire (recv_frames d (length msgs))
       {| w_out := out; w_in := written ++ rest |} (Ok msgs) {| w_out := out; w_in := rest |}).
Proof.
  intros Hm. exists (concat (frame <$> msgs)). split.
  { intros input. apply (yields_send_frames c msgs {| w_out := []; w_in := input |}). }
  induction Hm as [|m msgs Hm _ IH]; intros out; [done|].
  cbn [length recv_frames fmap list_fmap concat]. rewrite <-app_assoc.
  eapply yields_bind; [by apply yields_recv_frame|]. cbn [length].
  eapply yields_bind; [apply IH|]. apply yields_ret.
Qed.

(** A stream that ends inside a frame, in the length field or in the body, gives
    the reader a transport error and never a shortened message. *)
Theorem truncated_frame_fails c m cut out :
  framable m → cut < length (frame m) →
  on_wire (recv_frame c)
    {| w_out := out; w_in := take cut (frame m) |}
    (Err (ETransport "early eof")) {| w_out := out; w_in := [] |}.
Proof.
  intros Hm Hcut. unfold recv_frame, frame in *. rewrite length_app, length_u32_be in Hcut.
  destruct (Nat.lt_ge_cases cut 4) as [H4|H4].
  - eapply yields_bind; [apply yields_read_short; rewrite length_take; lia|]. apply yields_ret.
  - rewrite take_app_ge by (rewrite length_u32_be; lia). rewrite length_u32_be.
    eapply yields_bind; [apply yields_read, length_u32_be|]. cbn [map_err].
    rewrite frame_length_field by done.
    eapply yields_bind; [apply yields_read_short; rewrite length_take; lia|]. apply yields_ret.
Qed.

(** ** A receive that is dropped *)

Lemma yields_dropped_recv c bytes rest out :
  on_wire (dropped_after 1 (recv_frame c)) {| w_out := out; w_in := frame bytes ++ rest |}
    tt {| w_out := out; w_in := bytes ++ rest |}.
Proof.
  unfold frame. rewrite <-app_assoc. eapply yields_bind with
    (p := call (ReadExact c 4))
    (f := λ r, dropped_after 0 (match map_err ETransport r with
                               | Err e => Ret (Err e)
                               | Ok l => r ← call (ReadExact c (Z.to_nat (uval (u32_from_be_bytes l))));
                                         Ret (map_err ETransport r)
                               end)); [apply yields_read, length_u32_be|].
  apply yields_ret.
Qed.

Lemma bundle_length_field b1 b2 b3 :
  (2667577344 ≤ uval (u32_from_be_bytes [x9f; b1; b2; b3]))%Z.
Proof.
  unfold u32_from_be_bytes. rewrite u32_of_Z_uval.
  pose proof (from_be_range [x9f; b1; b2; b3]) as Hr. cbn [length] in Hr.
  rewrite Z.mod_small by exact Hr.
  pose proof (from_be_range [b1; b2; b3]) as Hr'. cbn [length] in Hr'.
  change (from_be [x9f; b1; b2; b3]) with (2667577344 + from_be [b1; b2; b3])%Z. lia.
Qed.

(** A receive dropped between the length and the bytes of a frame has taken the length:
    the next one reads the frame's first bytes as a length. A bundle starts with the byte
    0x9f (a CBOR array of indefinite length), so that length is at least 2,667,577,344,
    and on a stream that brings less the next receive fails, whatever it carries. *)
Theorem dropped_receive_loses_stream c m rest out :
  head m = Some x9f → (3 < length m)%nat →
  (Z.of_nat (length (m ++ rest)) < 2667577344)%Z →
  on_wire (dropped_after 1 (recv_frame c) ;; recv_frame c)
    {| w_out := out; w_in := frame m ++ rest |}
    (Err (ETransport "early eof")) {| w_out := out; w_in := [] |}.
Proof.
  intros Hh Hl Hrest. eapply yields_bind; [apply yields_dropped_recv|].
  destruct m as [|b0 [|b1 [|b2 [|b3 m]]]]; cbn in Hl; try lia. cbn in Hh. simplify_eq.
  eapply yields_bind.
  { apply (yields_read c 4 [x9f; b1; b2; b3] (m ++ rest)). done. }
  cbn [map_err]. pose proof (bundle_length_field b1 b2 b3) as Hlen.
  rewrite length_app in Hrest. cbn [length] in Hrest.
  eapply yields_bind; [apply yields_read_short; rewrite length_app; lia|]. apply yields_ret.
Qed.

Lemma frames_roundtrip_witness :
  ∃ written,
    (∀ input, on_wire (send_frames 0 [[x61]; []; [x62; x63]])
       {| w_out := []; w_in := input |} (Ok tt) {| w_out := written; w_in := input |}) ∧
    (∀ out, on_wire (recv_frames 1 3)
       {| w_out := out; w_in := written ++ [xff] |} (Ok [[x61]; []; [x62; x63]])
       {| w_out := out; w_in := [xff] |}).
Proof. apply (frames_roundtrip 0 1 [[x61]; []; [x62; x63]] [xff]). repeat constructor. Defined.

Lemma truncated_frame_fails_witness :
  on_wire (recv_frame 0) {| w_out := []; w_in := [x00; x00; x00; x02; x61] |}
    (Err (ETransport "early eof")) {| w_out := []; w_in := [] |}.
Proof. apply (truncated_frame_fails 0 [x61; x62] 5 []); [done|cbn; lia]. Defined.
