(* ===== verification/Quic.v ===== *)
(** * The QUIC transport ([crates/pathweave-transport-quic/src/lib.rs])

    - [Cost]: the network cost detection of each platform;
    - the mDNS bridge: service events into announcements and departures;
    - the transport: start, stop, dial, accept, discovery streams.

    Quinn, rcgen, rustls and mdns-sd are the environment ([quic_op]); what they
    answer is arbitrary. The framing of the connections is in [Framing]. *)

From S2P Require Import Prelude RustStd Types Effects Framing.

(** ** Network cost *)

Module Cost.
(** The whitespace of [char::is_whitespace], as the number of bytes of a leading
    whitespace character of UTF-8 text. *)
Definition space_len (l : list byte) : nat :=
  match l with
  | x09 :: _ | x0a :: _ | x0b :: _ | x0c :: _ | x0d :: _ | x20 :: _ => 1
  | xc2 :: x85 :: _ | xc2 :: xa0 :: _ => 2
  | xe1 :: x9a :: x80 :: _ | xe3 :: x80 :: x80 :: _ | xe2 :: x81 :: x9f :: _ => 3
  | xe2 :: x80 :: b :: _ =>
    if byte_in 128 138 b || byte_in 168 169 b || byte_in 175 175 b then 3 else 0
  | _ => 0
  end.

(** [str::split_whitespace]: the non-empty runs between whitespace characters.
    [skip] bytes of a whitespace character are still to be passed over; [word] is
    the current run, reversed. *)
Definition emit (word : list byte) (ws : list (list byte)) : list (list byte) :=
  match word with [] => ws | _ => rev word :: ws end.

Fixpoint split_ws (skip : nat) (word : list byte) (l : list byte) : list (list byte) :=
  match l with
  | [] => emit word []
  | b :: l' =>
    match skip with
    | S skip => split_ws skip word l'
    | O =>
      match space_len l with
      | O => split_ws 0 (b :: word) l'
      | S n => emit word (split_ws n [] l')
      end
    end
  end.

Definition split_whitespace (l : list byte) : list (list byte) := split_ws 0 [] l.

(** [str::lines]: split at line feeds, without a carriage return before one, and
    without an empty last line. [line] is the current line, reversed. *)
Definition strip_cr (line : list byte) : list byte :=
  match line with x0d :: line' => rev line' | _ => rev line end.

Fixpoint lines_from (line : list byte) (l : list byte) : list (list byte) :=
  match l with
  | [] => match line with [] => [] | _ => [rev line] end
  | x0a :: l' => strip_cr line :: lines_from [] l'
  | b :: l' => lines_from (b :: line) l'
  end.

Definition lines (l : list byte) : list (list byte) := lines_from [] l.

Definition starts_with (prefix : string) (l : list byte) : bool :=
  bool_decide (take (String.length prefix) l = ascii_bytes prefix).

(** The closure of [find_map]: the interface of a default route. *)
Definition default_route (line : list byte) : option (list byte) :=
  match split_whitespace line with
  | iface :: dest :: _ => if decide (dest = ascii_bytes "00000000") then Some iface else None
  | _ => None
  end.

Fixpoint find_map {A B} (f : A → option B) (l : list A) : option B :=
  match l with
  | [] => None
  | a :: l => match f a with Some b => Some b | None => find_map f l end
  end.

Definition classify (iface : option (list byte)) : TransportCost :=
  match iface with
  | None => Unknown
  | Some n =>
    if starts_with "wlan" n || starts_with "wlp" n || starts_with "wlx" n then Free
    else if starts_with "eth" n || starts_with "enp" n || starts_with "eno" n
         || starts_with "ens" n || starts_with "enx" n then Free
    else if starts_with "wwan" n || starts_with "rmnet" n || starts_with "ppp" n then Metered
    else Unknown
  end.

(** Linux: [content] is what reading [/proc/net/route] gave. *)
Definition detect_linux (content : option rstring) : TransportCost :=
  match content with
  | None => Unknown
  | Some c => classify (find_map default_route (drop 1 (lines (str_bytes c))))
  end.

(** Windows: the answers of WinRT's [NetworkInformation], any of which may fail. *)
Inductive NetworkCostType := Unrestricted | CostUnknown | OtherCost.

Definition detect_windows (profile : option (option (option NetworkCostType))) : TransportCost :=
  match profile with
  | Some (Some (Some Unrestricted)) => Free
  | Some (Some (Some CostUnknown)) => Unknown
  | Some (Some (Some OtherCost)) => Metered
  | _ => Unknown
  end.

(** macOS: the names of the interfaces that are up (without loopback), and the
    system's list of interfaces with their BSD name and type. *)
Inductive SCNetworkInterfaceType := IEEE80211 | Ethernet | WWAN | OtherInterface.

Fixpoint scan_interfaces (active : gset rstring)
    (l : list (option rstring * option SCNetworkInterfaceType))
    (found_free found_metered : bool) : bool * bool :=
  match l with
  | [] => (found_free, found_metered)
  | (None, _) :: l => scan_interfaces active l found_free found_metered
  | (Some bsd, ty) :: l =>
    if decide (bsd ∉ active) then scan_interfaces active l found_free found_metered
    else
      match ty with
      | Some IEEE80211 | Some Ethernet => scan_interfaces active l true found_metered
      | Some WWAN => scan_interfaces active l found_free true
      | _ => scan_interfaces active l found_free found_metered
      end
  end.

Definition detect_macos (if_addrs : list (rstring * bool))
    (interfaces : list (option rstring * option SCNetworkInterfaceType)) : TransportCost :=
  let active := list_to_set (fst <$> filter (λ i, i.2 = false) if_addrs) in
  let '(found_free, found_metered) := scan_interfaces active interfaces false false in
  if found_free then Free else if found_metered then Metered else Unknown.

(** What the calls of a platform tell about the network. *)
Inductive facts :=
| RouteTable (content : option rstring)
| CostProfile (profile : option (option (option NetworkCostType)))
| Interfaces (if_addrs : list (rstring * bool))
    (interfaces : list (option rstring * option SCNetworkInterfaceType))
| NoFacts.

(** [detect_network_cost], on each platform. *)
Definition detect_network_cost (f : facts) : TransportCost :=
  match f with
  | RouteTable content => detect_linux content
  | CostProfile profile => detect_windows profile
  | Interfaces if_addrs interfaces => detect_macos if_addrs interfaces
  | NoFacts => Unknown
  end.

(** The atomic the transport keeps it in. *)
Definition cost_code (c : TransportCost) : byte :=
  match c with Free => x00 | Metered => x01 | Unknown => x02 end.

Definition cost_of_code (b : byte) : TransportCost :=
  match b with x00 => Free | x01 => Metered | _ => Unknown end.

(** *** Reading a routing table *)

(** A field of the table: printable ASCII. *)
Definition field (w : list byte) : Prop := w ≠ [] ∧ ∀ b, b ∈ w → byte_in 33 126 b = true.

(** A row: interface, destination, and what follows the tab after it. *)
Record row := { r_iface : list byte; r_dest : list byte; r_rest : list byte }.

Definition row_ok (r : row) : Prop :=
  field (r_iface r) ∧ field (r_dest r) ∧ x0a ∉ r_rest r.

Definition print_row (r : row) : list byte :=
  r_iface r ++ x09 :: r_dest r ++ x09 :: r_rest r.

(** The table the kernel prints: a heading and one line per route. *)
Definition print_table (heading : list byte) (rows : list row) : list byte :=
  heading ++ x0a :: concat ((λ r, print_row r ++ [x0a]) <$> rows).

Definition first_default (rows : list row) : option (list byte) :=
  find_map (λ r, if decide (r_dest r = ascii_bytes "00000000") then Some (r_iface r) else None)
    rows.

Lemma space_len_printable b l : byte_in 33 126 b = true → space_len (b :: l) = 0.
Proof. by destruct b. Qed.

Lemma split_ws_word word w l :
  (∀ b, b ∈ w → byte_in 33 126 b = true) → word ≠ [] ∨ w ≠ [] →
  split_ws 0 word (w ++ x09 :: l) = (rev word ++ w) :: split_ws 0 [] l.
Proof.
  revert word. induction w as [|b w IH]; intros word Hw Hne.
  - destruct Hne as [Hne|]; [|done]. cbn. destruct word as [|c word]; [done|].
    cbn [emit]. by rewrite app_nil_r.
  - rewrite <-app_comm_cons. cbn [split_ws].
    rewrite space_len_printable by (apply Hw; set_solver).
    rewrite IH by (try (left; done); set_solver). cbn [rev]. by rewrite <-app_assoc.
Qed.

Lemma default_route_row iface dest rest :
  field iface → field dest →
  default_route (iface ++ x09 :: dest ++ x09 :: rest) =
  if decide (dest = ascii_bytes "00000000") then Some iface else None.
Proof.
  intros [? ?] [? ?]. unfold default_route, split_whitespace.
  rewrite !split_ws_word by (try (right; done); done). done.
Qed.

Lemma lines_from_row line l rest :
  x0a ∉ l → lines_from line (l ++ x0a :: rest) = strip_cr (rev l ++ line) :: lines_from [] rest.
Proof.
  revert line. induction l as [|b l IH]; intros line Hl; [done|].
  rewrite <-app_comm_cons. cbn [lines_from rev].
  rewrite <-app_assoc. destruct b; try (apply IH; set_solver). set_solver.
Qed.

(** Losing a carriage return at its end leaves the first fields of a row alone. *)
Lemma strip_cr_row r : ∃ rest,
  strip_cr (rev (print_row r) ++ []) = r_iface r ++ x09 :: r_dest r ++ x09 :: rest.
Proof.
  rewrite app_nil_r. unfold print_row. destruct (r_rest r) as [|b l _] using rev_ind.
  - exists []. rewrite app_comm_cons, app_assoc, rev_app_distr.
    change (strip_cr (rev [x09] ++ ?x)) with (rev (x09 :: x)). cbn [rev].
    by rewrite rev_involutive, <-app_assoc.
  - replace (r_iface r ++ x09 :: r_dest r ++ x09 :: l ++ [b])
      with ((r_iface r ++ x09 :: r_dest r ++ x09 :: l) ++ [b])
      by by rewrite <-app_assoc, <-!app_comm_cons, <-app_assoc.
    rewrite rev_app_distr. cbn [rev app]. unfold strip_cr.
    destruct (decide (b = x0d)) as [->|Hb].
    + exists l. by rewrite rev_involutive.
    + exists (l ++ [b]).
      transitivity (rev (b :: rev (r_iface r ++ x09 :: r_dest r ++ x09 :: l)));
        [by destruct b|]. cbn [rev]. rewrite rev_involutive.
      by rewrite <-app_assoc, <-!app_comm_cons, <-app_assoc.
Qed.

Lemma row_no_lf r : row_ok r → x0a ∉ print_row r.
Proof.
  intros ([_ Hi] & [_ Hd] & Hr). unfold print_row.
  rewrite elem_of_app, elem_of_cons, elem_of_app, elem_of_cons.
  intros [H|[H|[H|[H|H]]]]; try done; [by apply Hi in H|by apply Hd in H].
Qed.

Lemma find_rows rows :
  Forall row_ok rows →
  find_map default_route (lines_from [] (concat ((λ r, print_row r ++ [x0a]) <$> rows))) =
  first_default rows.
Proof.
  induction 1 as [|r rows Hr _ IH]; [done|]. cbn [fmap list_fmap concat].
  rewrite <-app_assoc. cbn [app].
  rewrite lines_from_row by by apply row_no_lf.
  destruct (strip_cr_row r) as [rest ->]. destruct Hr as (Hi & Hd & _).
  unfold first_default. cbn [find_map]. rewrite default_route_row by done.
  case_decide; [done|]. apply IH.
Qed.

(** Cost detection on Linux: for every routing table the kernel may print, with
    any heading and any columns after the destination, the detected cost is the class
    of the interface of the first default route; Free, Metered or Unknown by its name,
    and Unknown when there is none or the table cannot be read. The three results
    survive the byte the transport stores them in. *)
Theorem detect_linux_spec heading rows table :
  x0a ∉ heading → Forall row_ok rows → str_bytes table = print_table heading rows →
  detect_linux (Some table) = classify (first_default rows) ∧
  detect_linux None = Unknown ∧
  ∀ c, cost_of_code (cost_code c) = c.
Proof.
  intros Hh Hrows Ht. split_and!; [|done|by intros []].
  unfold detect_linux, lines. rewrite Ht.
  unfold print_table. rewrite lines_from_row by done.
  change (drop 1 (?a :: ?l)) with l. by rewrite find_rows.
Qed.

Lemma scan_interfaces_spec active l ff fm :
  let seen ty := existsb (λ i, match i with
    | (Some bsd, Some t) => bool_decide (bsd ∈ active) && ty t
    | _ => false end) l in
  scan_interfaces active l ff fm =
  (ff || seen (λ t, match t with IEEE80211 | Ethernet => true | _ => false end),
   fm || seen (λ t, match t with WWAN => true | _ => false end)).
Proof.
  cbv zeta. revert ff fm. induction l as [|[[bsd|] ty] l IH]; intros ff fm; cbn.
  - by rewrite !orb_false_r.
  - case_decide as Hb.
    + rewrite IH, !(bool_decide_eq_false_2 (bsd ∈ active)) by done. by destruct ty.
    + rewrite !(bool_decide_eq_true_2 (bsd ∈ active)) by done.
      destruct ty as [[]|]; rewrite IH; cbn; rewrite ?orb_true_r; done.
  - apply IH.
Qed.
End Cost.

(** ** The environment *)

Inductive ServiceEvent :=
(** The full name, the port, and the IPv4 addresses in the order they are iterated. *)
| ServiceResolved (fullname : rstring) (port : u16) (ips : list (array 4))
| ServiceRemoved (fullname : rstring)
| OtherServiceEvent.

Abbreviation handle := nat (only parsing).

Inductive quic_op : Type → Type :=
(** rcgen and quinn's configurations: opaque, possibly failing. *)
| SelfSigned : quic_op (string + nat)
| ServerConfigOf (cert : nat) : quic_op (string + nat)
| ClientConfigOf : quic_op (string + nat)
| EndpointServer (cfg : nat) (addr : SocketAddr) : quic_op (string + handle)
| EndpointLocalAddr (ep : handle) : quic_op (string + SocketAddr)
| EndpointClient : quic_op (string + handle)
| EndpointConnect (ep cfg : nat) (addr : SocketAddr) : quic_op (string + handle)
| EndpointAccept (ep : handle) : quic_op (option handle)
| EndpointClose (ep : handle) : quic_op unit
(** [.await] of a connection attempt, [open_bi] and [accept_bi]. *)
| AwaitConnection (c : handle) : quic_op (string + handle)
| OpenBi (c : handle) : quic_op (string + stream)
| AcceptBi (c : handle) : quic_op (string + stream)
(** The probe of [local_ipv4]. *)
| UdpBind : quic_op (string + handle)
| UdpConnect (s : handle) : quic_op (string + unit)
| UdpLocalAddr (s : handle) : quic_op (string + SocketAddr)
(** mdns-sd *)
| DaemonNew : quic_op (string + handle)
| ServiceInfoNew (instance host : list byte) (ip : array 4) (port : u16) :
    quic_op (string + rstring)
| DaemonRegister (d : handle) (fullname : rstring) : quic_op (string + unit)
| DaemonBrowse (d : handle) : quic_op (string + handle)
| DaemonUnregister (d : handle) (fullname : rstring) : quic_op unit
| DaemonStopBrowse (d : handle) : quic_op unit
| DaemonShutdown (d : handle) : quic_op unit
| BrowseNext (rx : handle) : quic_op (option ServiceEvent)
(** What [detect_network_cost] reads. *)
| NetworkFacts : quic_op Cost.facts
(** Sleep until a channel has something new: [true] when its sender is gone. *)
| QuicWait : quic_op bool
| QuicLoopBound : quic_op nat.

(** ** State *)

(** An mpsc channel: what is queued, and whether its receiver is alive. *)
Record queue (A : Type) := Queue { q_items : list A; q_alive : bool }.
Arguments Queue {A} _ _.
Arguments q_items {A} _.
Arguments q_alive {A} _.

Definition queue_send {A} (a : A) (q : queue A) : queue A :=
  if q_alive q then Queue (q_items q ++ [a]) true else q.

Definition queue_close {A} (q : queue A) : queue A := Queue [] false.

(** [announce_rx] and [departure_rx] are the indices of their channels. *)
Record MdnsState := {
  m_daemon : handle;
  m_service_fullname : rstring;
  m_announce_rx : option nat;
  m_departure_rx : option nat;
  m_bridge : handle
}.

Record quic_state := {
  endpoint : option handle;
  mdns : option MdnsState;
  cost_byte : byte;
  started_addr : option SocketAddr;
  announces : list (queue PeerAnnouncement);
  departed : list (queue PeerAddress);
  (** Names of bridge tasks, and the aborted ones. *)
  q_next : nat;
  q_aborted : gset nat
}.

(** [QuicTransport::new]; the instance name is [instance_name] below. *)
Definition quic_new : quic_state := {|
  endpoint := None; mdns := None; cost_byte := x02; started_addr := None;
  announces := []; departed := []; q_next := 0; q_aborted := ∅ |}.

Definition instance_name (entropy : array 8) : list byte :=
  concat (hex_byte <$> array_to_list entropy).

Section quic_setters.
Context (s : quic_state).

Definition set_endpoint (o : option handle) : quic_state :=
  {| endpoint := o; mdns := mdns s; cost_byte := cost_byte s; started_addr := started_addr s;
     announces := announces s; departed := departed s; q_next := q_next s;
     q_aborted := q_aborted s |}.

Definition set_mdns (o : option MdnsState) : quic_state :=
  {| endpoint := endpoint s; mdns := o; cost_byte := cost_byte s; started_addr := started_addr s;
     announces := announces s; departed := departed s; q_next := q_next s;
     q_aborted := q_aborted s |}.

Definition set_cost (b : byte) : quic_state :=
  {| endpoint := endpoint s; mdns := mdns s; cost_byte := b; started_addr := started_addr s;
     announces := announces s; departed := departed s; q_next := q_next s;
     q_aborted := q_aborted s |}.

Definition set_started_addr (o : option SocketAddr) : quic_state :=
  {| endpoint := endpoint s; mdns := mdns s; cost_byte := cost_byte s; started_addr := o;
     announces := announces s; departed := departed s; q_next := q_next s;
     q_aborted := q_aborted s |}.

Definition set_queues (a : list (queue PeerAnnouncement)) (d : list (queue PeerAddress)) :
    quic_state :=
  {| endpoint := endpoint s; mdns := mdns s; cost_byte := cost_byte s;
     started_addr := started_addr s; announces := a; departed := d; q_next := q_next s;
     q_aborted := q_aborted s |}.

Definition set_bridges (next : nat) (dead : gset nat) : quic_state :=
  {| endpoint := endpoint s; mdns := mdns s; cost_byte := cost_byte s;
     started_addr := started_addr s; announces := announces s; departed := departed s;
     q_next := next; q_aborted := dead |}.
End quic_setters.

(** The bridge task, with the browse receiver and its two channels. *)
Inductive quic_task := Bridge (name : nat) (browse : handle) (announce_ch departure_ch : nat).

Abbreviation quic_prog := (prog quic_state quic_op quic_task).

(** A step that may fail with a message, inside a fallible function: [?]. *)
Definition try_call {A B} (wrap : string → PathweaveError) (e : quic_op (string + A))
    (k : A → quic_prog (result B)) : quic_prog (result B) :=
  r ← call e;
  match r with
  | inl msg => Ret (Err (wrap msg))
  | inr a => k a
  end.

(** ** The bridge *)

(** [announce_tx.send(..).is_err()] *)
Definition send_announce (ch : nat) (a : PeerAnnouncement) (s : quic_state) : bool * quic_state :=
  (match announces s !! ch with Some q => negb (q_alive q) | None => true end,
   set_queues s (alter (queue_send a) ch (announces s)) (departed s)).

Definition send_departure (ch : nat) (a : PeerAddress) (s : quic_state) : bool * quic_state :=
  (match departed s !! ch with Some q => negb (q_alive q) | None => true end,
   set_queues s (announces s) (alter (queue_send a) ch (departed s))).

(** The loop over the addresses of one resolved service; [None] when the bridge
    returns because nobody listens. *)
Fixpoint announce_addrs (ch : nat) (port : u16) (ips : list (array 4)) (addrs : list SocketAddr) :
    quic_prog (option (list SocketAddr)) :=
  match ips with
  | [] => Ret (Some addrs)
  | ip :: ips =>
    let addr := V4 ip port in
    err ← lock (send_announce ch {| address := Types.Quic addr; short_id := None |});
    if (err : bool) then Ret None else announce_addrs ch port ips (addrs ++ [addr])
  end.

Fixpoint depart_addrs (ch : nat) (addrs : list SocketAddr) : quic_prog bool :=
  match addrs with
  | [] => Ret true
  | addr :: addrs =>
    err ← lock (send_departure ch (Types.Quic addr));
    if (err : bool) then Ret false else depart_addrs ch addrs
  end.

Fixpoint bridge_rounds (bound : nat) (name browse ach dch : nat)
    (resolved : gmap rstring (list SocketAddr)) : quic_prog unit :=
  match bound with
  | O => Stuck Blocked
  | S bound =>
    event ← call (BrowseNext browse);
    dead ← read (λ s, bool_decide (name ∈ q_aborted s));
    if (dead : bool) then Ret tt
    else
      match event with
      | None => Ret tt
      | Some (ServiceResolved fullname port ips) =>
        r ← announce_addrs ach port ips [];
        match r with
        | None => Ret tt
        | Some addrs => bridge_rounds bound name browse ach dch (<[fullname := addrs]> resolved)
        end
      | Some (ServiceRemoved fullname) =>
        match resolved !! fullname with
        | None => bridge_rounds bound name browse ach dch resolved
        | Some addrs =>
          go_on ← depart_addrs dch addrs;
          if (go_on : bool)
          then bridge_rounds bound name browse ach dch (delete fullname resolved)
          else Ret tt
        end
      | Some OtherServiceEvent => bridge_rounds bound name browse ach dch resolved
      end
  end.

Definition bridge (t : quic_task) : quic_prog unit :=
  match t with
  | Bridge name browse ach dch =>
    bound ← call QuicLoopBound; bridge_rounds bound name browse ach dch ∅
  end.

(** ** [impl Transport for QuicTransport] *)

Definition make_server_config {B} (k : nat → quic_prog (result B)) : quic_prog (result B) :=
  try_call ETransport SelfSigned (λ cert, try_call ETransport (ServerConfigOf cert) k).

Definition make_client_config {B} (k : nat → quic_prog (result B)) : quic_prog (result B) :=
  try_call ETransport ClientConfigOf k.

Definition LOCALHOST : array 4 := Array (n := 4) [x7f; x00; x00; x01] eq_refl.

Definition local_ipv4 : quic_prog (array 4) :=
  s ← call UdpBind;
  match s with
  | inl _ => Ret LOCALHOST
  | inr s =>
    c ← call (UdpConnect s);
    match c with
    | inl _ => Ret LOCALHOST
    | inr _ =>
      a ← call (UdpLocalAddr s);
      match a with
      | inr (V4 ip _) => Ret ip
      | _ => Ret LOCALHOST
      end
    end
  end.

Definition socket_port (a : SocketAddr) : u16 :=
  match a with V4 _ p => p | V6 _ p _ _ => p end.

(** A dropped [MdnsState] takes the receivers nobody has taken with it. *)
Definition close_opt {A} (o : option nat) (l : list (queue A)) : list (queue A) :=
  match o with Some i => alter queue_close i l | None => l end.

Definition drop_mdns (m : MdnsState) (s : quic_state) : quic_state :=
  set_queues s (close_opt (m_announce_rx m) (announces s))
               (close_opt (m_departure_rx m) (departed s)).

(** [*self.mdns.lock() = Some(m)] *)
Definition put_mdns (m : MdnsState) (s : quic_state) : quic_state :=
  set_mdns (match mdns s with Some old => drop_mdns old s | None => s end) (Some m).

(** Two fresh channels and the name of the bridge that feeds them. *)
Definition open_channels (s : quic_state) : (nat * nat * nat) * quic_state :=
  ((length (announces s), length (departed s), q_next s),
   set_bridges (set_queues s (announces s ++ [Queue [] true]) (departed s ++ [Queue [] true]))
     (S (q_next s)) (q_aborted s)).

Definition quic_start (listen_addr : SocketAddr) (instance : list byte) :
    quic_prog (result unit) :=
  make_server_config (λ cfg,
  try_call Io (EndpointServer cfg listen_addr) (λ ep,
  try_call Io (EndpointLocalAddr ep) (λ local_addr,
  modify (λ s, set_endpoint s (Some ep)) ;;
  modify (λ s, set_started_addr s (Some local_addr)) ;;
  try_call ETransport DaemonNew (λ daemon,
  ip ← local_ipv4;
  try_call ETransport
    (ServiceInfoNew instance (instance ++ ascii_bytes ".local.") ip (socket_port local_addr))
    (λ service_fullname,
  try_call ETransport (DaemonRegister daemon service_fullname) (λ _,
  try_call ETransport (DaemonBrowse daemon) (λ browse_rx,
  '(ach, dch, name) ← lock open_channels;
  spawn (Bridge name browse_rx ach dch) ;;
  modify (put_mdns
    {| m_daemon := daemon; m_service_fullname := service_fullname;
       m_announce_rx := Some ach; m_departure_rx := Some dch; m_bridge := name |}) ;;
  facts ← call NetworkFacts;
  modify (λ s, set_cost s (Cost.cost_code (Cost.detect_network_cost facts))) ;;
  Ret (Ok tt)))))))).

(** The mDNS half of [stop]; the state it took is dropped at the end. *)
Definition stop_mdns : quic_prog unit :=
  state ← lock (λ s, (mdns s, set_mdns s None));
  match state with
  | None => Ret tt
  | Some m =>
    call (DaemonUnregister (m_daemon m) (m_service_fullname m)) ;;
    call (DaemonStopBrowse (m_daemon m)) ;;
    modify (λ s, set_bridges s (q_next s) ({[m_bridge m]} ∪ q_aborted s)) ;;
    call (DaemonShutdown (m_daemon m)) ;;
    modify (drop_mdns m)
  end.

Definition quic_stop : quic_prog (result unit) :=
  modify (λ s, set_started_addr s None) ;;
  ep ← lock (λ s, (endpoint s, set_endpoint s None));
  match ep with Some ep => call (EndpointClose ep) | None => Ret tt end ;;
  stop_mdns ;;
  Ret (Ok tt).

(** [local_addr]: the endpoint's address, if it has one. *)
Definition quic_local_addr : quic_prog (option SocketAddr) :=
  ep ← read endpoint;
  match ep with
  | None => Ret None
  | Some ep =>
    r ← call (EndpointLocalAddr ep);
    Ret (match r with inr a => Some a | inl _ => None end)
  end.

(** [discover] and [departures] take the receiver on the first call; [None] is the
    empty stream of the later ones. *)
Definition quic_discover : quic_prog (option nat) :=
  lock (λ s, match mdns s with
             | None => (None, s)
             | Some m =>
               (m_announce_rx m,
                set_mdns s (Some {| m_daemon := m_daemon m;
                                    m_service_fullname := m_service_fullname m;
                                    m_announce_rx := None;
                                    m_departure_rx := m_departure_rx m;
                                    m_bridge := m_bridge m |}))
             end).

Definition quic_departures : quic_prog (option nat) :=
  lock (λ s, match mdns s with
             | None => (None, s)
             | Some m =>
               (m_departure_rx m,
                set_mdns s (Some {| m_daemon := m_daemon m;
                                    m_service_fullname := m_service_fullname m;
                                    m_announce_rx := m_announce_rx m;
                                    m_departure_rx := None;
                                    m_bridge := m_bridge m |}))
             end).

(** The next item of such a stream; [None] ends it. *)
Definition pop {A} (i : nat) (l : list (queue A)) : option A * list (queue A) :=
  match l !! i with
  | Some (Queue (a :: q) b) => (Some a, <[i := Queue q b]> l)
  | _ => (None, l)
  end.

Fixpoint next_announcement (bound : nat) (ch : nat) : quic_prog (option PeerAnnouncement) :=
  match bound with
  | O => Stuck Blocked
  | S bound =>
    r ← lock (λ s, let '(a, l) := pop ch (announces s) in (a, set_queues s l (departed s)));
    match r with
    | Some a => Ret (Some a)
    | None =>
      gone ← call QuicWait;
      if (gone : bool) then Ret None else next_announcement bound ch
    end
  end.

Fixpoint next_departure (bound : nat) (ch : nat) : quic_prog (option PeerAddress) :=
  match bound with
  | O => Stuck Blocked
  | S bound =>
    r ← lock (λ s, let '(a, l) := pop ch (departed s) in (a, set_queues s (announces s) l));
    match r with
    | Some a => Ret (Some a)
    | None =>
      gone ← call QuicWait;
      if (gone : bool) then Ret None else next_departure bound ch
    end
  end.

Definition quic_connect (peer : PeerAnnouncement) : quic_prog (result stream) :=
  match address peer with
  | Types.Quic addr =>
    make_client_config (λ cfg,
    try_call Io EndpointClient (λ ep,
    try_call ETransport (EndpointConnect ep cfg addr) (λ connecting,
    try_call ETransport (AwaitConnection connecting) (λ connection,
    try_call ETransport (OpenBi connection) (λ st, Ret (Ok st))))))
  | _ => Ret (Err (ETransport "expected QUIC address"))
  end.

Definition quic_accept : quic_prog (result stream) :=
  ep ← read endpoint;
  match ep with
  | None => Ret (Err (ETransport "transport not started"))
  | Some ep =>
    incoming ← call (EndpointAccept ep);
    match incoming with
    | None => Ret (Err (ETransport "endpoint closed"))
    | Some incoming =>
      try_call ETransport (AwaitConnection incoming) (λ connection,
      try_call ETransport (AcceptBi connection) (λ st, Ret (Ok st)))
    end
  end.

Definition quic_mtu_hint : nat := 1200.
Definition quic_kind : TransportKind := KQuic.
Definition quic_cost (s : quic_state) : TransportCost := Cost.cost_of_code (cost_byte s).

Definition quic_local_addresses (s : quic_state) : list PeerAddress :=
  match started_addr s with Some addr => [Types.Quic addr] | None => [] end.

(** ** What the bridge passes on *)

(** A network as mDNS sees it: the service events still to come. *)
Definition lan_answer (X : Type) (e : quic_op X) (w : list ServiceEvent) :
    X * N * list ServiceEvent :=
  match e in quic_op X return X * N * list ServiceEvent with
  | BrowseNext _ => match w with ev :: w => (Some ev, 0%N, w) | [] => (None, 0%N, []) end
  | QuicLoopBound => (S (length w), 0%N, w)
  | SelfSigned | ServerConfigOf _ | ClientConfigOf => (inr 0, 0%N, w)
  | EndpointServer _ _ | EndpointClient | EndpointConnect _ _ _ => (inr 0, 0%N, w)
  | EndpointLocalAddr _ | UdpLocalAddr _ => (inr (V4 LOCALHOST (u16_of_Z 4433)), 0%N, w)
  | EndpointAccept _ => (None, 0%N, w)
  | EndpointClose _ => (tt, 0%N, w)
  | AwaitConnection _ | OpenBi _ | AcceptBi _ => (inr 0, 0%N, w)
  | UdpBind => (inr 0, 0%N, w)
  | UdpConnect _ => (inr tt, 0%N, w)
  | DaemonNew | DaemonBrowse _ => (inr 0, 0%N, w)
  | ServiceInfoNew _ _ _ _ => (inr (RString [] eq_refl), 0%N, w)
  | DaemonRegister _ _ => (inr tt, 0%N, w)
  | DaemonUnregister _ _ | DaemonStopBrowse _ | DaemonShutdown _ => (tt, 0%N, w)
  | NetworkFacts => (Cost.NoFacts, 0%N, w)
  | QuicWait => (true, 0%N, w)
  end.

Abbreviation lan_run := (run lan_answer (λ _ (s : quic_state), s)).

Definition addresses (port : u16) (ips : list (array 4)) : list SocketAddr :=
  (λ ip, V4 ip port) <$> ips.

(** The addresses a service was last resolved to, unless it was removed since; the
    history has the latest event first. *)
Fixpoint resolved_as (hist : list ServiceEvent) (name : rstring) : option (list SocketAddr) :=
  match hist with
  | [] => None
  | ServiceResolved n port ips :: hist =>
    if decide (n = name) then Some (addresses port ips) else resolved_as hist name
  | ServiceRemoved n :: hist => if decide (n = name) then None else resolved_as hist name
  | OtherServiceEvent :: hist => resolved_as hist name
  end.

Definition announcements (evs : list ServiceEvent) : list PeerAnnouncement :=
  concat ((λ e, match e with
    | ServiceResolved _ port ips =>
      (λ a, {| address := Types.Quic a; short_id := None |}) <$> addresses port ips
    | _ => []
    end) <$> evs).

Fixpoint departures (hist evs : list ServiceEvent) : list PeerAddress :=
  match evs with
  | [] => []
  | e :: evs =>
    match e with
    | ServiceRemoved n => Types.Quic <$> default [] (resolved_as hist n)
    | _ => []
    end ++ departures (e :: hist) evs
  end.

(** Items put on the two queues of a bridge. *)
Definition fed (ach dch : nat) (a : list PeerAnnouncement) (d : list PeerAddress)
    (s s' : quic_state) : Prop :=
  (∀ q, announces s !! ach = Some (Queue q true) →
     announces s' = <[ach := Queue (q ++ a) true]> (announces s)) ∧
  (∀ q, departed s !! dch = Some (Queue q true) →
     departed s' = <[dch := Queue (q ++ d) true]> (departed s)) ∧
  q_aborted s' = q_aborted s.

Definition receiving (ach dch : nat) (s : quic_state) : Prop :=
  (∃ q, announces s !! ach = Some (Queue q true)) ∧
  (∃ q, departed s !! dch = Some (Queue q true)).

Lemma fed_nil ach dch s : fed ach dch [] [] s s.
Proof.
  split_and!; intros; rewrite ?app_nil_r, ?list_insert_id; done.
Qed.

Lemma fed_app ach dch a1 d1 a2 d2 s s1 s2 :
  receiving ach dch s → fed ach dch a1 d1 s s1 → fed ach dch a2 d2 s1 s2 →
  fed ach dch (a1 ++ a2) (d1 ++ d2) s s2.
Proof.
  intros [[qa Ha] [qd Hd]] (Ha1 & Hd1 & E1) (Ha2 & Hd2 & E2).
  specialize (Ha1 _ Ha). specialize (Hd1 _ Hd). split_and!; [| |congruence].
  - intros q Hq. simplify_eq. rewrite (Ha2 (qa ++ a1)), Ha1, list_insert_insert_eq, app_assoc;
      [done|]. rewrite Ha1. apply list_lookup_insert_eq. by eapply lookup_lt_Some.
  - intros q Hq. simplify_eq. rewrite (Hd2 (qd ++ d1)), Hd1, list_insert_insert_eq, app_assoc;
      [done|]. rewrite Hd1. apply list_lookup_insert_eq. by eapply lookup_lt_Some.
Qed.

Lemma fed_receiving ach dch a d s s' :
  receiving ach dch s → fed ach dch a d s s' → receiving ach dch s'.
Proof.
  intros [[qa Ha] [qd Hd]] (Ha1 & Hd1 & _).
  split; [rewrite (Ha1 _ Ha)|rewrite (Hd1 _ Hd)]; eexists;
    apply list_lookup_insert_eq; by eapply lookup_lt_Some.
Qed.

Lemma fed_announce ach dch a s :
  receiving ach dch s →
  (send_announce ach a s).1 = false ∧ fed ach dch [a] [] s (send_announce ach a s).2.
Proof.
  intros [[qa Ha] [qd Hd]]. unfold send_announce. rewrite Ha. split; [done|].
  split_and!; [| |done]; cbn [snd announces departed set_queues].
  - intros q Hq. simplify_eq. apply list_eq. intros i. destruct (decide (i = ach)) as [->|Hi].
    + rewrite list_lookup_alter_eq, Ha, list_lookup_insert_eq; [done|]. by eapply lookup_lt_Some.
    + by rewrite list_lookup_alter_ne, list_lookup_insert_ne.
  - intros q Hq. by rewrite app_nil_r, list_insert_id.
Qed.

Lemma fed_departure ach dch a s :
  receiving ach dch s →
  (send_departure dch a s).1 = false ∧ fed ach dch [] [a] s (send_departure dch a s).2.
Proof.
  intros [[qa Ha] [qd Hd]]. unfold send_departure. rewrite Hd. split; [done|].
  split_and!; [| |done]; cbn [snd announces departed set_queues].
  - intros q Hq. by rewrite app_nil_r, list_insert_id.
  - intros q Hq. simplify_eq. apply list_eq. intros i. destruct (decide (i = dch)) as [->|Hi].
    + rewrite list_lookup_alter_eq, Hd, list_lookup_insert_eq; [done|]. by eapply lookup_lt_Some.
    + by rewrite list_lookup_alter_ne, list_lookup_insert_ne.
Qed.

Lemma announce_addrs_run ach dch port ips acc s w :
  receiving ach dch s →
  ∃ s', lan_run (announce_addrs ach port ips acc) s w =
      Ran (Returned (Some (acc ++ addresses port ips))) s' w [] ∧
    fed ach dch ((λ a, {| address := Types.Quic a; short_id := None |}) <$> addresses port ips)
      [] s s'.
Proof.
  revert acc s. induction ips as [|ip ips IH]; intros acc s Hs; cbn [announce_addrs].
  - exists s. unfold addresses. cbn. rewrite app_nil_r. split; [done|apply fed_nil].
  - cbn [bind lock run]. cbv zeta.
    destruct (fed_announce ach dch {| address := Types.Quic (V4 ip port); short_id := None |} s Hs)
      as [He Hf]. rewrite He.
    destruct (IH (acc ++ [V4 ip port]) _ (fed_receiving _ _ _ _ _ _ Hs Hf)) as (s' & Hrun & Hf').
    exists s'. split; [rewrite Hrun, <-app_assoc; done|].
    by apply (fed_app ach dch _ [] _ [] s _ s' Hs Hf).
Qed.

Lemma depart_addrs_run ach dch addrs s w :
  receiving ach dch s →
  ∃ s', lan_run (depart_addrs dch addrs) s w = Ran (Returned true) s' w [] ∧
    fed ach dch [] (Types.Quic <$> addrs) s s'.
Proof.
  revert s. induction addrs as [|a addrs IH]; intros s Hs; cbn [depart_addrs].
  - exists s. split; [done|apply fed_nil].
  - cbn [bind lock run].
    destruct (fed_departure ach dch (Types.Quic a) s Hs) as [He Hf]. rewrite He.
    destruct (IH _ (fed_receiving _ _ _ _ _ _ Hs Hf)) as (s' & Hrun & Hf').
    exists s'. split; [done|]. by apply (fed_app ach dch [] _ [] _ s _ s' Hs Hf).
Qed.

Lemma bridge_rounds_run name browse ach dch evs hist resolved s :
  (∀ n, resolved !! n = resolved_as hist n) →
  receiving ach dch s → name ∉ q_aborted s →
  ∃ s', lan_run (bridge_rounds (S (length evs)) name browse ach dch resolved) s evs =
      Ran (Returned tt) s' [] [] ∧
    fed ach dch (announcements evs) (departures hist evs) s s'.
Proof.
  revert hist resolved s. induction evs as [|e evs IH]; intros hist resolved s Hr Hs Hn.
  - cbn. rewrite bool_decide_eq_false_2 by done. exists s. split; [done|apply fed_nil].
  - cbn [length]. set (n := S (length evs)) in *.
    cbn [bridge_rounds bind call read lock run lan_answer fst snd].
    rewrite bool_decide_eq_false_2 by done.
    destruct e as [fullname port ips|fullname|].
    + rewrite run_bind.
      destruct (announce_addrs_run ach dch port ips [] s evs Hs) as (s1 & -> & Hf).
      cbn [r_final r_shared r_env r_spawned app].
      destruct (IH (ServiceResolved fullname port ips :: hist)
        (<[fullname := addresses port ips]> resolved) s1) as (s2 & -> & Hf2).
      { intros m. rewrite lookup_insert. cbn. by case_decide. }
      { by eapply fed_receiving. }
      { by rewrite (proj2 (proj2 Hf)). }
      exists s2. split; [done|]. by apply (fed_app ach dch _ [] _ _ s s1 s2).
    + rewrite Hr. cbn [departures]. unfold announcements. cbn [fmap list_fmap concat app].
      destruct (resolved_as hist fullname) as [addrs|] eqn:Hh; cbn [default].
      * rewrite run_bind.
        destruct (depart_addrs_run ach dch addrs s evs Hs) as (s1 & -> & Hf).
        cbn [r_final r_shared r_env r_spawned].
        destruct (IH (ServiceRemoved fullname :: hist) (delete fullname resolved) s1)
          as (s2 & -> & Hf2).
        { intros m. rewrite lookup_delete. cbn. case_decide; [done|apply Hr]. }
        { by eapply fed_receiving. }
        { by rewrite (proj2 (proj2 Hf)). }
        exists s2. split; [done|]. by apply (fed_app ach dch [] _ _ _ s s1 s2).
      * apply IH; [|done..]. intros m. cbn. case_decide as Hm; [by subst m; rewrite Hr|apply Hr].
    + apply (IH (OtherServiceEvent :: hist)); [|done..]. intros m. apply Hr.
Qed.

(** Whatever departs was announced. *)
Lemma departures_announced hist evs a :
  a ∈ departures hist evs → a ∈ address <$> announcements (rev hist ++ evs).
Proof.
  revert hist. induction evs as [|e evs IH]; intros hist; cbn [departures]; [set_solver|].
  rewrite elem_of_app. intros [Ha|Ha].
  2:{ apply IH in Ha. cbn [rev] in Ha. by rewrite <-app_assoc in Ha. }
  destruct e as [| fullname |]; [set_solver| |set_solver].
  apply list_elem_of_fmap in Ha as (sa & -> & Hsa).
  unfold announcements. rewrite fmap_app, concat_app, fmap_app, elem_of_app. left.
  fold (announcements (rev hist)).
  induction hist as [|h hist IHh]; [set_solver|].
  assert (announcements (rev (h :: hist)) = announcements (rev hist) ++ announcements [h]) as ->.
  { unfold announcements. cbn [rev]. by rewrite fmap_app, concat_app. }
  rewrite fmap_app, elem_of_app. destruct h as [m port ips|m|]; cbn [resolved_as] in Hsa.
  - case_decide; [right|left; auto]. unfold announcements. cbn.
    rewrite app_nil_r, <-list_fmap_compose. by apply list_elem_of_fmap_2.
  - case_decide; [set_solver|left; auto].
  - left; auto.
Qed.

(** C32. The mDNS bridge. While both streams are read, a bridge turns every sequence of
    service events into exactly these items: one announcement per address of each
    resolved service, in order; and on a removal one departure per address the service
    was last resolved to (none when it is unknown or already removed). It ends with the
    event stream, touches no other queue, and only ever reports the departure of an
    address it announced. *)
Theorem quic_bridge_spec name browse ach dch evs s :
  receiving ach dch s → name ∉ q_aborted s →
  let r := lan_run (bridge (Bridge name browse ach dch)) s evs in
  r_final r = Returned tt ∧
  fed ach dch (announcements evs) (departures [] evs) s (r_shared r) ∧
  ∀ a, a ∈ departures [] evs → a ∈ address <$> announcements evs.
Proof.
  intros Hs Hn. cbn [bridge bind call run lan_answer].
  destruct (bridge_rounds_run name browse ach dch evs [] ∅ s) as (s' & -> & Hf); [done..|].
  split_and!; [done|done|]. intros a Ha. by apply (departures_announced [] evs).
Qed.

(** ** Start and stop *)

Section lifecycle.
Context {W : Type} (answer : ∀ X, quic_op X → W → X * N * W).

(** Runs, with a log of what the network stack was asked and answered. *)
Abbreviation qrun := (run (logged answer) (λ _ (s : quic_state), s)).

(** The mDNS half of a transport that was started: the bridge [t] feeds two fresh streams. *)
Definition bridge_feeds (s : quic_state) (daemon browse : handle) (fullname : rstring)
    (t : quic_task) : Prop :=
  ∃ m ach dch, mdns s = Some m ∧ t = Bridge (m_bridge m) browse ach dch ∧
    m_daemon m = daemon ∧ m_service_fullname m = fullname ∧
    m_announce_rx m = Some ach ∧ m_departure_rx m = Some dch ∧
    announces s !! ach = Some (Queue [] true) ∧ departed s !! dch = Some (Queue [] true).

Lemma close_opt_lookup {A} (o : option nat) (l : list (queue A)) i :
  (∀ j, o = Some j → j < i) → close_opt o l !! i = l !! i.
Proof.
  intros Ho. destruct o as [j|]; [|done]. cbn. apply list_lookup_alter_ne.
  specialize (Ho j eq_refl). lia.
Qed.

(** The receivers a state holds are channels of that state. *)
Definition mdns_wf (s : quic_state) : Prop :=
  ∀ m, mdns s = Some m →
  (∀ i, m_announce_rx m = Some i → i < length (announces s)) ∧
  (∀ i, m_departure_rx m = Some i → i < length (departed s)).

Lemma try_call_run {A B} wrap (e : quic_op (string + A)) (k : A → quic_prog (result B)) s w l :
  (∃ msg w', qrun (try_call wrap e k) s (w, l) =
     Ran (Returned (Err (wrap msg))) s (w', l ++ [Asked e (inl msg)]) []) ∨
  (∃ a w', qrun (try_call wrap e k) s (w, l) = qrun (k a) s (w', l ++ [Asked e (inr a)])).
Proof.
  unfold try_call. rewrite run_call_logged.
  destruct (answer _ e w) as [[[msg|a] d] w']; [left|right]; eauto.
Qed.

Lemma local_ipv4_run {B} (k : array 4 → quic_prog B) s w l :
  ∃ ip w' l', qrun (bind local_ipv4 k) s (w, l) = qrun (k ip) s (w', l ++ l').
Proof.
  unfold local_ipv4. rewrite run_bind, run_call_logged.
  destruct (answer _ UdpBind w) as [[[?|u] ?] w1].
  { eexists _, w1, _. cbn [run r_final r_shared r_env r_spawned]. by rewrite add_spawned_nil. }
  rewrite run_call_logged. destruct (answer _ (UdpConnect u) w1) as [[[?|?] ?] w2].
  { eexists _, w2, _. cbn [run r_final r_shared r_env r_spawned].
    by rewrite add_spawned_nil, <-app_assoc. }
  rewrite run_call_logged. destruct (answer _ (UdpLocalAddr u) w2) as [[a ?] w3].
  rewrite <-!app_assoc. destruct a as [?|[ip port|?]]; eexists _, w3, _;
    cbn [run r_final r_shared r_env r_spawned]; by rewrite add_spawned_nil.
Qed.

(** The calls that bind the endpoint [ep], listening at [listen_addr] and bound to [addr]. *)
Definition bind_calls (listen_addr : SocketAddr) (cert cfg ep : handle) (addr : SocketAddr) :
    list (asked quic_op) :=
  [Asked SelfSigned (inr cert); Asked (ServerConfigOf cert) (inr cfg);
   Asked (EndpointServer cfg listen_addr) (inr ep); Asked (EndpointLocalAddr ep) (inr addr)].

(** What [start] leaves behind. While the endpoint is not bound, nothing. Once it is, the
    endpoint and the address the stack reported for it, whether or not mDNS follows. *)
Definition start_outcome (listen_addr : SocketAddr) (instance : list byte) (s : quic_state)
    (r : ran (S := quic_state) (T := quic_task) (W := W * list (asked quic_op)) (result unit)) : Prop :=
  let s' := r_shared r in
  let calls := (r_env r).2 in
  match r_final r with
  | Returned (Err _) =>
    r_spawned r = [] ∧
    (length calls ≤ 4 ∧ s' = s ∨
     ∃ cert cfg ep addr rest, rest ≠ [] ∧ calls = bind_calls listen_addr cert cfg ep addr ++ rest ∧
       s' = set_started_addr (set_endpoint s (Some ep)) (Some addr))
  | Returned (Ok _) =>
    ∃ cert cfg ep addr daemon ips ip fullname browse facts t,
      calls = bind_calls listen_addr cert cfg ep addr ++
        [Asked DaemonNew (inr daemon)] ++ ips ++
        [Asked (ServiceInfoNew instance (instance ++ ascii_bytes ".local.") ip (socket_port addr))
           (inr fullname);
         Asked (DaemonRegister daemon fullname) (inr tt);
         Asked (DaemonBrowse daemon) (inr browse); Asked NetworkFacts facts] ∧
      endpoint s' = Some ep ∧ quic_local_addresses s' = [Types.Quic addr] ∧
      cost_byte s' = Cost.cost_code (Cost.detect_network_cost facts) ∧
      r_spawned r = [t] ∧ bridge_feeds s' daemon browse fullname t
  | StuckAt _ => False
  end.

(** The end of [start]: the bridge, the mDNS state, the cost. *)
Lemma start_tail s w l browse daemon fullname :
  mdns_wf s →
  ∃ w' facts s' t,
    qrun (
      '(ach, dch, name) ← lock open_channels;
      spawn (Bridge name browse ach dch) ;;
      modify (put_mdns
        {| m_daemon := daemon; m_service_fullname := fullname;
           m_announce_rx := Some ach; m_departure_rx := Some dch; m_bridge := name |}) ;;
      facts ← call NetworkFacts;
      modify (λ s, set_cost s (Cost.cost_code (Cost.detect_network_cost facts))) ;;
      Ret (Ok tt)) s (w, l) =
      Ran (Returned (Ok tt)) s' (w', l ++ [Asked NetworkFacts facts]) [t] ∧
    endpoint s' = endpoint s ∧ started_addr s' = started_addr s ∧
    cost_byte s' = Cost.cost_code (Cost.detect_network_cost facts) ∧
    bridge_feeds s' daemon browse fullname t.
Proof.
  intros Hwf. unfold spawn, modify at 1, lock at 1 2. cbn [bind run fst snd open_channels].
  rewrite run_call_logged. destruct (answer _ NetworkFacts w) as [[facts d] w'].
  unfold modify, lock. cbn [bind run fst snd add_spawned r_final r_shared r_env r_spawned app].
  eexists w', facts, _, _. split; [done|].
  unfold put_mdns. cbn [mdns open_channels snd set_bridges set_queues].
  destruct (mdns s) as [old|] eqn:Hold; (split_and!; [done..|]);
    eexists _, _, _; split_and!; try done; cbn;
    rewrite ?close_opt_lookup by apply (Hwf old Hold); by rewrite list_lookup_middle.
Qed.

Ltac start_step failed a :=
  match goal with
  | |- start_outcome _ _ _ (run _ _ (try_call ?wrap ?e ?k) ?s (?w, ?l)) =>
    destruct (try_call_run wrap e k s w l) as [(? & ? & ->)|(a & ? & ->)];
    [failed|rewrite <-?app_assoc; cbn [app]]
  end.

(** A step failed, before and after the endpoint was bound. *)
Ltac unbound := split; [done|]; left; split; [cbn; lia|done].
Ltac bound := split; [done|]; right; eexists _, _, _, _, (_ :: _);
  split_and!; [done|rewrite <-?app_assoc; cbn [app]; reflexivity|done].

Lemma quic_start_run listen_addr instance s w :
  mdns_wf s → start_outcome listen_addr instance s (qrun (quic_start listen_addr instance) s (w, [])).
Proof.
  intros Hwf. unfold quic_start, make_server_config.
  start_step unbound cert. start_step unbound cfg. start_step unbound ep. start_step unbound addr.
  cbn [bind modify lock run fst snd]. start_step bound daemon.
  match goal with |- start_outcome _ _ _ (run _ _ (bind local_ipv4 ?k) ?s (?w, ?l)) =>
    destruct (local_ipv4_run k s w l) as (ip & ? & ips & ->) end.
  rewrite <-?app_assoc; cbn [app].
  start_step bound fullname. start_step bound registered. start_step bound browse.
  match goal with |- start_outcome _ _ _ (run _ _ _ ?s1 (?w1, ?l1)) =>
    destruct (start_tail s1 w1 l1 browse daemon fullname Hwf)
      as (w' & facts & s' & t & Hrun & Hep & Hsa & Hc & Hb) end.
  match type of Hrun with _ = ?r => cut (start_outcome listen_addr instance s r) end;
    [by rewrite <-Hrun|].
  exists cert, cfg, ep, addr, daemon, ips, ip, fullname, browse, facts, t.
  cbn [r_final r_shared r_env r_spawned snd]. destruct registered.
  split_and!; [cbn [app]; by rewrite <-!app_assoc|done| |done|done|done].
  unfold quic_local_addresses. by rewrite Hsa.
Qed.

Lemma close_opt_closed {A} i (l : list (queue A)) :
  i < length l → close_opt (Some i) l !! i = Some (Queue [] false).
Proof.
  intros [q Hq]%lookup_lt_is_Some_2. cbn. by rewrite list_lookup_alter_eq, Hq.
Qed.

(** What [stop] leaves of the transport [s]. *)
Record stopped (s s' : quic_state) : Prop := {
  st_endpoint : endpoint s' = None;
  st_address : quic_local_addresses s' = [];
  st_mdns : mdns s' = None;
  st_bridge : ∀ m, mdns s = Some m → m_bridge m ∈ q_aborted s';
  st_announce : ∀ m i, mdns s = Some m → m_announce_rx m = Some i →
    announces s' !! i = Some (Queue [] false);
  st_departure : ∀ m i, mdns s = Some m → m_departure_rx m = Some i →
    departed s' !! i = Some (Queue [] false)
}.

(** What [stop] asks of the network stack. *)
Definition stop_calls (s : quic_state) : list (asked quic_op) :=
  match endpoint s with Some ep => [Asked (EndpointClose ep) tt] | None => [] end ++
  match mdns s with
  | Some m => [Asked (DaemonUnregister (m_daemon m) (m_service_fullname m)) tt;
               Asked (DaemonStopBrowse (m_daemon m)) tt; Asked (DaemonShutdown (m_daemon m)) tt]
  | None => []
  end.

Lemma stop_mdns_run s w l :
  mdns_wf s → ∃ s' w',
  qrun (stop_mdns ;; Ret (Ok tt)) (set_endpoint (set_started_addr s None) None) (w, l) =
    Ran (Returned (Ok tt)) s' (w', l ++ stop_calls (set_endpoint s None)) [] ∧ stopped s s'.
Proof.
  intros Hwf. unfold stop_mdns, stop_calls. cbn [bind lock run fst snd endpoint mdns set_endpoint
    set_started_addr]. destruct (mdns s) as [m|] eqn:Hm.
  2:{ eexists _, _. split; [cbn; by rewrite app_nil_r|]. constructor; try done; congruence. }
  cbn. unfold logged at 1. cbn. destruct (answer _ (DaemonUnregister _ _) w) as [[[] ?] w2].
  unfold logged at 1. cbn. destruct (answer _ (DaemonStopBrowse _) w2) as [[[] ?] w3].
  unfold logged at 1. cbn. destruct (answer _ (DaemonShutdown _) w3) as [[[] ?] w4].
  eexists _, _. split; [by rewrite <-!app_assoc|]. constructor; try done; rewrite Hm; cbn.
  - intros ? [= <-]. set_solver.
  - intros ? i [= <-] Hi. rewrite Hi. apply close_opt_closed. by apply (proj1 (Hwf m Hm)).
  - intros ? i [= <-] Hi. rewrite Hi. apply close_opt_closed. by apply (proj2 (Hwf m Hm)).
Qed.

(** C33. Lifecycle of the QUIC transport, whatever the network stack answers. [start]
    always returns. If the endpoint cannot be bound, or its address not read, nothing has
    changed; once it is bound, the endpoint and the address the stack reports for it are
    kept, also when mDNS then fails, with everything else as before and no task spawned. When [start] succeeds, the
    service was registered under the port of that address, [local_addresses] reports that
    address, exactly one bridge was spawned, feeding two fresh, empty and open streams that
    wait to be taken, and the cost is what the network facts say. [stop] always succeeds: it
    closes the endpoint, unregisters the service, stops browsing and shuts the daemon down,
    and leaves no endpoint, no reported address and no mDNS state, the bridge aborted, and
    the streams nobody had taken closed. *)
Theorem quic_lifecycle listen_addr instance s w :
  mdns_wf s →
  start_outcome listen_addr instance s (qrun (quic_start listen_addr instance) s (w, [])) ∧
  ∃ s' w', qrun quic_stop s (w, []) = Ran (Returned (Ok tt)) s' (w', stop_calls s) [] ∧ stopped s s'.
Proof.
  intros Hwf. split; [by apply quic_start_run|]. unfold quic_stop, stop_calls.
  unfold modify, lock. cbn [bind run fst snd]. cbn [endpoint set_started_addr].
  destruct (endpoint s) as [ep|]; [|by apply (stop_mdns_run s w [])].
  rewrite run_call_logged. destruct (answer _ (EndpointClose ep) w) as [[[] ?] w1].
  by apply (stop_mdns_run s w1 [_]).
Qed.
End lifecycle.
