(* ===== verification/NetAddr.v ===== *)
(** * [SocketAddr::from_str] of the standard library

    The WiFi Direct transport builds the address it dials or binds by formatting an
    address it was given as text with its port, and parsing the result. The parser of
    [core::net] is a recursive descent over the bytes in which every production
    restores the position when it fails; here a production is a function of the
    remaining bytes. *)

From S2P Require Import Prelude RustStd Types.

Local Open Scope Z_scope.

Definition parser (A : Type) : Type := list byte → option (A * list byte).

Definition p_bind {A B} (p : parser A) (f : A → parser B) : parser B :=
  λ l, match p l with Some (a, l') => f a l' | None => None end.

Notation "'let%' x := p 'in' q" := (p_bind p (λ x, q))
  (at level 10, x pattern, p at level 100, q at level 200) : pw_scope.

Definition p_ret {A} (a : A) : parser A := λ l, Some (a, l).
Definition p_fail {A} : parser A := λ _, None.

(** [read_given_char] *)
Definition read_given_char (c : byte) : parser unit :=
  λ l, match l with b :: l' => if decide (b = c) then Some (tt, l') else None | [] => None end.

(** [char::to_digit] *)
Definition to_digit (radix : Z) (c : byte) : option Z :=
  match digit_of_hex c with
  | Some d => if d <? radix then Some d else None
  | None => None
  end.

(** The two loops of [read_number]: at most [max_digits] digits, or as many as the type
    holds. *)
Fixpoint few_digits (radix : Z) (max_digits count : nat) (acc : Z) (l : list byte) :
    option (Z * nat * list byte) :=
  match l with
  | c :: l' =>
    match to_digit radix c with
    | Some d =>
      if (max_digits <? S count)%nat then None
      else few_digits radix max_digits (S count) (acc * radix + d) l'
    | None => Some (acc, count, l)
    end
  | [] => Some (acc, count, l)
  end.

Fixpoint all_digits (radix w : Z) (count : nat) (acc : Z) (l : list byte) :
    option (Z * nat * list byte) :=
  match l with
  | c :: l' =>
    match to_digit radix c with
    | Some d =>
      if acc * radix <? 2 ^ w then
        if acc * radix + d <? 2 ^ w then all_digits radix w (S count) (acc * radix + d) l'
        else None
      else None
    | None => Some (acc, count, l)
    end
  | [] => Some (acc, count, l)
  end.

(** [read_number] at a [w]-bit type. *)
Definition read_number (radix w : Z) (max_digits : option nat) (allow_zero_prefix : bool) :
    parser Z :=
  λ l,
    let has_leading_zero := match l with c :: _ => bool_decide (c = x30) | [] => false end in
    match match max_digits with
          | Some m => few_digits radix m 0 0 l
          | None => all_digits radix w 0 0 l
          end with
    | None => None
    | Some (z, count, l') =>
      if (count =? 0)%nat then None
      else if negb allow_zero_prefix && has_leading_zero && (1 <? count)%nat then None
      else if z <? 2 ^ w then Some (z, l')
      else None
    end.

(** [read_separator(sep, index, inner)] *)
Definition read_separator {A} (sep : byte) (index : nat) (inner : parser A) : parser A :=
  if (index =? 0)%nat then inner else p_bind (read_given_char sep) (λ _, inner).

Definition octet : parser byte :=
  let% z := read_number 10 8 (Some 3%nat) false in p_ret (byte_of_Z z).

Definition read_ipv4_addr : parser (array 4) :=
  let% a := read_separator x2e 0 octet in
  let% b := read_separator x2e 1 octet in
  let% c := read_separator x2e 2 octet in
  let% d := read_separator x2e 3 octet in
  p_ret (Array (n := 4) [a; b; c; d] eq_refl).

(** [read_groups] over a slice of [limit] groups, [todo] of them still to read: the
    groups read and whether they end with an embedded IPv4 address. *)
Fixpoint read_groups (limit todo : nat) (l : list byte) : list Z * bool * list byte :=
  match todo with
  | O => ([], false, l)
  | S todo =>
    let i := (limit - S todo)%nat in
    let ipv4 := if (i <? limit - 1)%nat then read_separator x3a i read_ipv4_addr l else None in
    match ipv4 with
    | Some (a, l') =>
      ([from_be (take 2 (array_to_list a)); from_be (drop 2 (array_to_list a))], true, l')
    | None =>
      match read_separator x3a i (read_number 16 16 (Some 4%nat) true) l with
      | Some (g, l') =>
        let '(gs, v4, l'') := read_groups limit todo l' in (g :: gs, v4, l'')
      | None => ([], false, l)
      end
    end
  end.

Definition groups_to_bytes (gs : list Z) : option (array 16) :=
  try_into 16 (concat (to_be 2 <$> gs)).

Definition read_ipv6_addr : parser (array 16) :=
  λ l,
    let '(head, head_ipv4, l) := read_groups 8 8 l in
    let done gs l := match groups_to_bytes gs with Some a => Some (a, l) | None => None end in
    if (length head =? 8)%nat then done head l
    else if head_ipv4 then None
    else
      (let% _ := read_given_char x3a in
       let% _ := read_given_char x3a in
       λ l,
         let limit := (8 - S (length head))%nat in
         let '(tail, _, l) := read_groups limit limit l in
         done (head ++ replicate (8 - length head - length tail) 0 ++ tail) l) l.

Definition read_port : parser u16 :=
  let% _ := read_given_char x3a in
  let% z := read_number 10 16 None true in p_ret (u16_of_Z z).

Definition read_scope_id : parser u32 :=
  let% _ := read_given_char x25 in
  let% z := read_number 10 32 None true in p_ret (u32_of_Z z).

Definition read_socket_addr_v4 : parser SocketAddr :=
  let% ip := read_ipv4_addr in
  let% port := read_port in
  p_ret (V4 ip port).

Definition read_socket_addr_v6 : parser SocketAddr :=
  let% _ := read_given_char x5b in
  let% ip := read_ipv6_addr in
  let% scope := (λ l, match read_scope_id l with
                      | Some r => Some r
                      | None => Some (u32_of_Z 0, l) end) in
  let% _ := read_given_char x5d in
  let% port := read_port in
  p_ret (V6 ip port (u32_of_Z 0) scope).

(** [str::parse::<SocketAddr>()]: the whole input. *)
Definition parse_socket_addr (l : list byte) : option SocketAddr :=
  match match read_socket_addr_v4 l with
        | Some r => Some r
        | None => read_socket_addr_v6 l
        end with
  | Some (a, []) => Some a
  | _ => None
  end.

(** ** Printing IPv4 addresses *)

Definition decimal_digit (z : Z) : byte := byte_of_Z (48 + z).

(** [Display] of a [u8]. *)
Definition decimal (b : byte) : list byte :=
  let z := byte_to_Z b in
  if z <? 10 then [decimal_digit z]
  else if z <? 100 then [decimal_digit (z / 10); decimal_digit (z mod 10)]
  else [decimal_digit (z / 100); decimal_digit (z / 10 mod 10); decimal_digit (z mod 10)].

(** [Display] of an [Ipv4Addr]. *)
Definition show_ipv4 (ip : array 4) : list byte :=
  match array_to_list ip with
  | [a; b; c; d] => decimal a ++ [x2e] ++ decimal b ++ [x2e] ++ decimal c ++ [x2e] ++ decimal d
  | _ => []
  end.

Lemma octet_decimal b c l :
  c ∈ [x2e; x3a] → octet (decimal b ++ c :: l) = Some (b, c :: l).
Proof.
  intros Hc. assert (c = x2e ∨ c = x3a) as [-> | ->] by set_solver; by destruct b.
Qed.

Lemma read_show_ipv4 ip l :
  read_ipv4_addr (show_ipv4 ip ++ x3a :: l) = Some (ip, x3a :: l).
Proof.
  destruct ip as [ip Hip]. unfold show_ipv4. cbn [array_to_list].
  destruct ip as [|a [|b [|c [|d []]]]]; try discriminate Hip.
  unfold read_ipv4_addr, read_separator, p_bind. cbn [Nat.eqb].
  repeat (rewrite <-?app_assoc; cbn [app]; rewrite octet_decimal by set_solver;
          cbn [read_given_char decide_rel]; try (rewrite decide_True by done)).
  unfold p_ret. do 2 f_equal. by apply array_eq.
Qed.

(** A printed IPv4 address and a port parse back to the socket address. *)
Lemma parse_show_v4 ip port digits :
  read_number 10 16 None true digits = Some (uval port, []) →
  parse_socket_addr (show_ipv4 ip ++ x3a :: digits) = Some (V4 ip port).
Proof.
  intros Hd. unfold parse_socket_addr, read_socket_addr_v4, p_bind.
  rewrite read_show_ipv4. unfold read_port, p_bind. cbn [read_given_char].
  rewrite decide_True by done. rewrite Hd. unfold p_ret. do 2 f_equal.
  apply uN_eq. rewrite u16_of_Z_uval. apply Z.mod_small, uval_range.
Qed.

(** The parser on the other forms: IPv6 needs brackets, octets no leading zero. *)
Example parse_socket_addr_forms :
  parse_socket_addr (ascii_bytes "[fe80::1%3]:80") =
    Some (V6 (Array (n := 16) [xfe; x80; x00; x00; x00; x00; x00; x00; x00; x00; x00; x00; x00; x00; x00; x01] eq_refl)
             (u16_of_Z 80) (u32_of_Z 0) (u32_of_Z 3)) ∧
  parse_socket_addr (ascii_bytes "fe80::1:80") = None ∧
  parse_socket_addr (ascii_bytes "192.168.049.1:80") = None ∧
  parse_socket_addr (ascii_bytes "192.168.49.1:65536") = None ∧
  parse_socket_addr (ascii_bytes "[::ffff:1.2.3.4]:5") =
    Some (V6 (Array (n := 16) [x00; x00; x00; x00; x00; x00; x00; x00; x00; x00; xff; xff; x01; x02; x03; x04] eq_refl)
             (u16_of_Z 5) (u32_of_Z 0) (u32_of_Z 0)).
Proof. by vm_compute. Qed.
