(* ===== verification/Channels.v ===== *)
(** * What the platform transports share: counted channels and fallible calls

    An mpsc channel lives in a store and is named by its index. It ends when its last
    sender is dropped; sends are lost when the receiver is dropped. *)

From S2P Require Import Prelude RustStd Types Effects.

Record mpsc (A : Type) := Mpsc {
  m_items : list A;
  m_senders : nat;
  m_receiver : bool
}.
Arguments Mpsc {A} _ _ _.
Arguments m_items {A} _.
Arguments m_senders {A} _.
Arguments m_receiver {A} _.

(** [unbounded_channel()]: one sender, the receiver alive. *)
Definition mpsc_new {A} : mpsc A := Mpsc [] 1 true.

Definition mpsc_clone {A} (c : mpsc A) : mpsc A :=
  Mpsc (m_items c) (S (m_senders c)) (m_receiver c).

Definition mpsc_drop_tx {A} (c : mpsc A) : mpsc A :=
  Mpsc (m_items c) (pred (m_senders c)) (m_receiver c).

Definition mpsc_drop_rx {A} (c : mpsc A) : mpsc A := Mpsc [] (m_senders c) false.

Definition mpsc_send {A} (a : A) (c : mpsc A) : mpsc A :=
  if m_receiver c then Mpsc (m_items c ++ [a]) (m_senders c) true else c.

(** [tx.send(a).is_err()] *)
Definition send_fails {A} (store : list (mpsc A)) (i : nat) : bool :=
  match store !! i with Some c => negb (m_receiver c) | None => true end.

(** [rx.try_recv().ok()] *)
Definition mpsc_try_recv {A} (store : list (mpsc A)) (i : nat) : option A * list (mpsc A) :=
  match store !! i with
  | Some (Mpsc (a :: q) n r) => (Some a, <[i := Mpsc q n r]> store)
  | _ => (None, store)
  end.

(** One poll of [rx.recv()]: [None] while it is pending, [Some None] when the channel
    has ended. *)
Definition mpsc_poll {A} (store : list (mpsc A)) (i : nat) :
    option (option A) * list (mpsc A) :=
  match store !! i with
  | Some (Mpsc (a :: q) n r) => (Some (Some a), <[i := Mpsc q n r]> store)
  | Some (Mpsc [] (S _) _) => (None, store)
  | _ => (Some None, store)
  end.

(** [e.await.map_err(wrap)?] *)
Definition await_ok {S E T A B} (wrap : string → PathweaveError) (e : E (string + A)%type)
    (k : A → prog S E T (result B)) : prog S E T (result B) :=
  r ← call e;
  match r with
  | inl msg => Ret (Err (wrap msg))
  | inr a => k a
  end.

Lemma await_ok_run {S E T W A B} (answer : ∀ X, E X → W → X * N * W) (wrap : string → PathweaveError) (e : E (string + A)%type)
    (k : A → prog S E T (result B)) s w :
  (∃ msg w', run answer (λ _ s, s) (await_ok wrap e k) s w =
             Ran (Returned (Err (wrap msg))) s w' []) ∨
  (∃ a w', run answer (λ _ s, s) (await_ok wrap e k) s w = run answer (λ _ s, s) (k a) s w').
Proof.
  unfold await_ok. cbn. destruct (answer _ e w) as [[[msg|a] d] w']; [left|right]; eauto.
Qed.

(** [|e| PathweaveError::Transport(format!("{what}: {e}"))] *)
Definition transport_error (what e : string) : PathweaveError :=
  ETransport (what +:+ ": " +:+ e).

(** A task that panics drops what it owns: [cleanup] runs before it is gone. *)
Fixpoint unwinding {S E T A} (cleanup : prog S E T unit) (p : prog S E T A) : prog S E T A :=
  match p with
  | Ret a => Ret a
  | Lock f k => Lock f (λ x, unwinding cleanup (k x))
  | Call e k => Call e (λ x, unwinding cleanup (k x))
  | Spawn t k => Spawn t (unwinding cleanup k)
  | Stuck Panicked => cleanup ;; Stuck Panicked
  | Stuck Blocked => Stuck Blocked
  end.

(** Text that is formatted into a message. *)
Definition show_bytes (l : list byte) : string :=
  foldr (λ b, String (Ascii.ascii_of_byte b)) "" l.

(** [Display] of [std::net::AddrParseError] for a socket address. *)
Definition ADDR_PARSE_ERROR : string := "invalid socket address syntax".

(** ** The last component of a path ([str::rsplit('/').next()]) *)

Fixpoint rsplit_last (sep : byte) (l last : list byte) : list byte :=
  match l with
  | [] => last
  | b :: l => rsplit_last sep l (if decide (b = sep) then l else last)
  end.

(** What follows an ASCII character of a valid string is a valid string. *)
Lemma utf8_valid_after pre c l :
  byte_in 0 127 c = true → utf8_valid (pre ++ c :: l) = true → utf8_valid l = true.
Proof.
  intros Hc. assert (utf8_cont c = false) as Hn by by apply ascii_not_cont.
  assert (∀ lo hi, (128 ≤ lo)%Z → byte_in lo hi c = false) as Hr.
  { intros lo hi Hlo. unfold byte_in in *. rewrite andb_true_iff, !Z.leb_le in Hc.
    apply andb_false_iff. left. apply Z.leb_gt. lia. }
  remember (length pre) as n eqn:Hlen. revert pre Hlen.
  induction (lt_wf n) as [n _ IH]. intros pre -> H.
  destruct pre as [|b0 pre]; simpl in H; [by rewrite Hc in H|].
  destruct (byte_in 0 127 b0); [by apply (IH (length pre)) with pre; simpl; [lia|..]|].
  destruct pre as [|b1 pre]; simpl in H.
  { rewrite Hn, !Hr in H by lia. simpl in H. repeat case_match; done. }
  destruct (byte_in 194 223 b0).
  { apply andb_true_iff in H as [_ H]. by apply (IH (length pre)) with pre; simpl; [lia|..]. }
  destruct pre as [|b2 pre]; simpl in H.
  { rewrite Hn, !andb_false_r in H. simpl in H. repeat case_match; done. }
  destruct (byte_in 224 239 b0).
  { apply andb_true_iff in H as [_ H]. by apply (IH (length pre)) with pre; simpl; [lia|..]. }
  destruct pre as [|b3 pre]; simpl in H.
  { rewrite Hn, !andb_false_r in H. simpl in H. repeat case_match; done. }
  destruct (byte_in 240 244 b0); [|done].
  apply andb_true_iff in H as [_ H]. by apply (IH (length pre)) with pre; simpl; [lia|..].
Qed.

Lemma rsplit_last_utf8 sep l :
  byte_in 0 127 sep = true → utf8_valid l = true → utf8_valid (rsplit_last sep l l) = true.
Proof.
  intros Hsep Hl.
  enough (∀ pre rest last, utf8_valid (pre ++ rest) = true → utf8_valid last = true →
    utf8_valid (rsplit_last sep rest last) = true) as H by by apply (H []).
  intros pre rest. revert pre. induction rest as [|b rest IH]; intros pre last Hv Hlast; [done|].
  simpl. apply (IH (pre ++ [b])); [by rewrite <-app_assoc|].
  case_decide as Hb; [|done]. subst b. by eapply utf8_valid_after.
Qed.

Definition last_component (path : rstring) : rstring :=
  RString (rsplit_last x2f (str_bytes path) (str_bytes path))
    (rsplit_last_utf8 x2f _ eq_refl (str_utf8 path)).

(** ** A receiver behind a mutex whose guard is held across an await

    [accept] of the WiFi Direct and BLE transports waits for its channel with the guard
    of [conn_rx] in hand. The guard is a flag of the state ([g_held]), and
    [conn_rx.lock().await] polls until it is free. [Wait] suspends a task until something
    may have changed; [LoopBound] bounds the iterations of a loop that polls. *)

Record guarded_rx (S C : Type) := {
  g_held : S → bool;
  g_set_held : S → bool → S;
  g_rx : S → option nat;
  g_poll : nat → S → option (option C) * S
}.
Arguments g_held {S C} _ _.
Arguments g_set_held {S C} _ _ _.
Arguments g_rx {S C} _ _.
Arguments g_poll {S C} _ _ _.

Section mutex.
Context {S : Type} (held : S → bool).
Context {E : Type → Type} {T : Type} (Wait : E unit) (LoopBound : E nat).

Fixpoint lock_wait {X} (bound : nat) (f : S → X * S) : prog S E T X :=
  match bound with
  | O => Stuck Blocked
  | Datatypes.S bound =>
    r ← lock (λ s, if held s then (None, s)
                   else let '(x, s') := f s in (Some x, s'));
    match r with
    | Some x => Ret x
    | None => call Wait ;; lock_wait bound f
    end
  end.

(** [m.lock().await] on a mutex that other tasks hold across awaits, with a critical
    section that has none of its own. *)
Definition mutex_lock {X} (f : S → X * S) : prog S E T X :=
  bound ← call LoopBound; lock_wait bound f.

(** An uncontended critical section runs at once. *)
Lemma mutex_lock_run {W X B} (answer : ∀ X, E X → W → X * N * W) (f : S → X * S)
    (k : X → prog S E T B) s w :
  held s = false →
  (∃ w', run answer (λ _ s, s) (bind (mutex_lock f) k) s w = Ran (StuckAt Blocked) s w' []) ∨
  (∃ w', run answer (λ _ s, s) (bind (mutex_lock f) k) s w =
         run answer (λ _ s, s) (k (f s).1) (f s).2 w').
Proof.
  intros Hf. cbn. destruct (answer _ LoopBound w) as [[[|n] d] w']; [left; by eauto|].
  right. exists w'. cbn. rewrite Hf. by destruct (f s).
Qed.

(** While another task keeps the guard, nobody gets past [lock().await]. *)
Lemma lock_wait_blocks R I GT {X} bound (f : S → X * S) Q :
  (∀ s, I s → held s = true) → safe_under R I GT (lock_wait bound f) Q.
Proof.
  intros HI. induction bound as [|bound IH]; [done|]. cbn [lock_wait]. apply safe_under_bind.
  intros s Hs. rewrite (HI s Hs). split; [done|]. cbn. intros [] _. apply IH.
Qed.
End mutex.

Section guarded.
Context {S C : Type} (G : guarded_rx S C).
Context {E : Type → Type} {T : Type} (Wait : E unit) (LoopBound : E nat).

Abbreviation gprog := (prog S E T).

(** [conn_rx.lock().await], a guard that is dropped before the next await. *)
Definition with_conn_rx {X} : (S → X * S) → gprog X := mutex_lock (g_held G) Wait LoopBound.

(** [let mut guard = conn_rx.lock().await] *)
Definition take_conn_rx : gprog (option nat) :=
  with_conn_rx (λ s, (g_rx G s, g_set_held G s true)).

Definition release_conn_rx : gprog unit := modify (λ s, g_set_held G s false).

(** [rx.recv().await] *)
Fixpoint recv_conn (bound : nat) (rx : nat) : gprog (option C) :=
  match bound with
  | O => Stuck Blocked
  | Datatypes.S bound =>
    r ← lock (g_poll G rx);
    match r with
    | Some r => Ret r
    | None => call Wait ;; recv_conn bound rx
    end
  end.

(** [accept], with the guard held across [recv().await]. *)
Definition accept_blocking (ended not_started : string) : gprog (result C) :=
  guard ← take_conn_rx;
  match guard with
  | Some rx =>
    bound ← call LoopBound;
    c ← recv_conn bound rx;
    release_conn_rx ;;
    Ret (ok_or c (ETransport ended))
  | None =>
    release_conn_rx ;;
    Ret (Err (ETransport not_started))
  end.

Lemma with_conn_rx_run {W X B} (answer : ∀ X, E X → W → X * N * W) (f : S → X * S)
    (k : X → gprog B) s w :
  g_held G s = false →
  (∃ w', run answer (λ _ s, s) (bind (with_conn_rx f) k) s w = Ran (StuckAt Blocked) s w' []) ∨
  (∃ w', run answer (λ _ s, s) (bind (with_conn_rx f) k) s w =
         run answer (λ _ s, s) (k (f s).1) (f s).2 w').
Proof. apply mutex_lock_run. Qed.
End guarded.
