(* ===== verification/Chat.v ===== *)
(** * The chat demo ([examples/pw-chat/src/main.rs])

    A terminal program over the public API of the node: what is typed is sent to the last
    peer that connected, what the node delivers is shown. The app is a local value of
    [run_app]; the node's state is shared with the node's tasks, and the channel of
    [TuiHandler] is the list of the node's deliveries with a cursor. The terminal, the
    argument parser and ratatui's layout are the environment. Arithmetic on [u16] is
    checked, as in a debug build. *)

From S2P Require Import Prelude RustStd Utf8 Types Effects Env Bundle Session NodeState Router Node Channels.

Abbreviation text := (list byte).

Definition DEFAULT_LISTEN_PORT : u16 := u16_of_Z 9001.

Record Args := { arg_peer : option SocketAddr; arg_port : u16 }.

Record App := {
  a_messages : list text;
  a_input : list char;
  a_peer_id : option PeerId;
  a_peer_short_id : option text;
  a_transport_name : option text;
  a_local_short_id : text
}.

Definition transport_kind_name (kind : TransportKind) : text :=
  ascii_bytes
    match kind with
    | KQuic => "QUIC"
    | KBle => "BLE"
    | KWifiDirect => "WiFiDirect"
    | KBleAdvertising => "BLE-Advertising"
    end.

Definition push_message (m : text) (app : App) : App :=
  {| a_messages := a_messages app ++ [m]; a_input := a_input app; a_peer_id := a_peer_id app;
     a_peer_short_id := a_peer_short_id app; a_transport_name := a_transport_name app;
     a_local_short_id := a_local_short_id app |}.

Definition set_input (cs : list char) (app : App) : App :=
  {| a_messages := a_messages app; a_input := cs; a_peer_id := a_peer_id app;
     a_peer_short_id := a_peer_short_id app; a_transport_name := a_transport_name app;
     a_local_short_id := a_local_short_id app |}.

Definition set_transport_name (n : text) (app : App) : App :=
  {| a_messages := a_messages app; a_input := a_input app; a_peer_id := a_peer_id app;
     a_peer_short_id := a_peer_short_id app; a_transport_name := Some n;
     a_local_short_id := a_local_short_id app |}.

Definition set_peer (p : PeerId) (short : text) (app : App) : App :=
  {| a_messages := a_messages app; a_input := a_input app; a_peer_id := Some p;
     a_peer_short_id := Some short; a_transport_name := a_transport_name app;
     a_local_short_id := a_local_short_id app |}.

(** ** Drawing *)

Record Rect := { r_x : u16; r_y : u16; r_width : u16; r_height : u16 }.

(** [a + b] on [u16]: an overflow panics. *)
Definition u16_add (a b : u16) : rust u16 :=
  if (uval a + uval b <? 2 ^ 16)%Z then Val (u16_of_Z (uval a + uval b)) else Panic.

(** [u16::saturating_sub] *)
Definition u16_saturating_sub (a b : u16) : u16 := u16_of_Z (Z.max 0 (uval a - uval b)).

Definition u16_min (a b : u16) : u16 := if (uval a <=? uval b)%Z then a else b.

(** What a frame shows: the status line, the messages, the input line, the cursor. *)
Record screen := { scr_status : text; scr_lines : list text; scr_input : text; scr_cursor : u16 * u16 }.

Definition draw (chunks : Rect * Rect * Rect) (app : App) : rust screen :=
  let '(_, body, bar) := chunks in
  let peer_label := default (ascii_bytes "waiting...") (a_peer_short_id app) in
  let transport_label := default (ascii_bytes "none") (a_transport_name app) in
  let status := ascii_bytes " me: " ++ a_local_short_id app ++ ascii_bytes "   peer: " ++ peer_label
    ++ ascii_bytes "   transport: " ++ transport_label in
  let inner_height := Z.to_nat (uval (u16_saturating_sub (r_height body) (u16_of_Z 2))) in
  let start := length (a_messages app) - inner_height in
  let! lines := slice_from (a_messages app) start in
  let input := encode_chars (a_input app) in
  let! x1 := u16_add (r_x bar) (u16_of_Z 1) in
  let! x2 := u16_add x1 (u16_of_Z 2) in
  let! cursor_x := u16_add x2 (u16_of_Z (Z.of_nat (length input))) in
  let! max_x := u16_add (r_x bar) (u16_saturating_sub (r_width bar) (u16_of_Z 2)) in
  let! y := u16_add (r_y bar) (u16_of_Z 1) in
  Val {| scr_status := status; scr_lines := lines; scr_input := ascii_bytes "> " ++ input;
         scr_cursor := (u16_min cursor_x max_x, y) |}.

(** ** The environment of the program *)

Inductive KeyCode := KChar (c : char) | Esc | Enter | Backspace | OtherKey.
Record KeyEvent := { key_code : KeyCode; key_control : bool; key_press : bool }.

(** The branch of the [select!] that is ready; a key stream that has ended, failed, or
    brought something that is no key gives [ReadyKey None]. *)
Inductive ready := ReadyKey (k : option KeyEvent) | ReadyEvent | ReadyMessage.

Inductive chat_op : Type → Type :=
| Core {X} (e : env_op X) : chat_op X
(** [terminal.draw]: the area of the frame, and the frame shown. *)
| FrameArea : chat_op (string + Rect)
| Present (s : screen) : chat_op (string + unit)
| NextReady : chat_op ready
(** Sleep until the node has delivered something: [true] when its handler is gone. *)
| WaitMessage : chat_op bool
| EnableRawMode : chat_op (string + unit)
| EnterAlternateScreen : chat_op (string + unit)
| TerminalNew : chat_op (string + unit)
| DisableRawMode : chat_op (string + unit)
| LeaveAlternateScreen : chat_op (string + unit)
| Eprintln (line : text) : chat_op unit.

Abbreviation chat_prog := (prog node_state chat_op task).

(** A call of the node. *)
Fixpoint on_node {A} (p : node_prog A) : chat_prog A :=
  match p with
  | Ret a => Ret a
  | Lock f k => Lock f (λ x, on_node (k x))
  | Call e k => Call (Core e) (λ x, on_node (k x))
  | Spawn t k => Spawn t (on_node k)
  | Stuck why => Stuck why
  end.

Section chat.
Context `{Crypto, Bp7, Snow, HashOrder}.
Context (identity : NodeIdentity).
(** [Layout::split] with a line, the rest, and three lines; [Display] of socket addresses. *)
Context (split : Rect → Rect * Rect * Rect) (show_addr : SocketAddr → text) (show_port : u16 → text).

Local Abbreviation ttl := (node_store_ttl NodeConfig_default).
Local Abbreviation depth := (cfg_max_queue_depth NodeConfig_default).

(** [#[derive(thiserror::Error)]] *)
Definition show_error (e : PathweaveError) : text :=
  ascii_bytes
    match e with
    | NoTransportAvailable => "no transport available to reach peer"
    | DeliveryFailed => "delivery failed: all retry attempts exhausted without confirmation"
    | ETransport msg => "transport error: " ++ msg
    | ESession msg => "session error: " ++ msg
    | EBundle msg => "bundle error: " ++ msg
    | InvalidKey => "invalid key material"
    | KeyUnknown p => "no known key for destination " ++ to_base58 p
    | Io msg => msg
    end.

(** [id.to_base58()[..8].to_owned()] *)
Definition short_name (p : PeerId) : rust text := str_slice (ascii_bytes (to_base58 p)) 0 8.

Definition App_new (local_short_id : text) (peer_id : option PeerId) : rust App :=
  let! peer_short_id :=
    match peer_id with
    | Some p => let! short := short_name p in Val (Some short)
    | None => Val None
    end in
  Val {| a_messages := []; a_input := []; a_peer_id := peer_id; a_peer_short_id := peer_short_id;
         a_transport_name := None; a_local_short_id := local_short_id |}.

Definition terminal_draw (app : App) : chat_prog (string + unit) :=
  area ← call FrameArea;
  match area with
  | inl e => Ret (inl e)
  | inr area => scr ← lift (draw (split area) app); call (Present scr)
  end.

(** How a branch of the loop ends: [run_app] returns, or goes on. *)
Inductive next := Quit (r : string + unit) | Continue (app : App).

Definition send_line (p : PeerId) (app : App) : chat_prog next :=
  let line := encode_chars (a_input app) in
  let app := push_message (ascii_bytes "me: " ++ line) (set_input [] app) in
  r ← terminal_draw app;
  match r with
  | inl e => Ret (Quit (inl e))
  | inr _ =>
    r ← on_node (send identity p line);
    Ret (Continue
      match r with
      | Err e => push_message (ascii_bytes "[error] " ++ show_error e) app
      | Ok _ => app
      end)
  end.

Definition on_key (k : option KeyEvent) (app : App) : chat_prog next :=
  match k with
  | None => Ret (Continue app)
  | Some key =>
    if negb (key_press key) then Ret (Continue app) else
    match key_code key with
    | KChar c =>
      if (code c =? 99)%Z && key_control key then Ret (Quit (inr tt))
      else Ret (Continue (set_input (a_input app ++ [c]) app))
    | Esc => Ret (Quit (inr tt))
    | Enter =>
      match a_input app, a_peer_id app with
      | _ :: _, Some p => send_line p app
      | _, _ => Ret (Continue app)
      end
    | Backspace => Ret (Continue (set_input (removelast (a_input app)) app))
    | OtherKey => Ret (Continue app)
    end
  end.

Definition on_event (e : option TransportEvent) (app : App) : rust App :=
  match e with
  | Some (MessageDelivered _ transport) =>
    Val (set_transport_name (transport_kind_name transport) app)
  | Some (PeerConnected p) =>
    let! short := short_name p in
    Val (set_peer p short (push_message (ascii_bytes "[connected] peer: " ++ short) app))
  | Some (PeerDisconnected p) =>
    let! short := short_name p in
    Val (push_message (ascii_bytes "[disconnected] peer: " ++ short) app)
  | _ => Val app
  end.

Definition show_received (m : option (PeerId * list byte)) (app : App) : rust App :=
  match m with
  | Some (p, payload) =>
    let! short := short_name p in
    Val (push_message (short ++ ascii_bytes ": " ++ from_utf8_lossy payload) app)
  | None => Val app
  end.

(** [msg_rx.recv()] *)
Fixpoint recv_message (bound : nat) (cursor : nat) : chat_prog (option (PeerId * list byte) * nat) :=
  match bound with
  | O => Stuck Blocked
  | S bound =>
    m ← read (λ s, delivered s !! cursor);
    match m with
    | Some m => Ret (Some m, S cursor)
    | None =>
      closed ← call WaitMessage;
      if (closed : bool) then Ret (None, cursor) else recv_message bound cursor
    end
  end.

Fixpoint app_rounds (bound : nat) (ev msg : nat) (app : App) : chat_prog (string + unit) :=
  match bound with
  | O => Stuck Blocked
  | S bound =>
    r ← terminal_draw app;
    match r with
    | inl e => Ret (inl e)
    | inr _ =>
      ready ← call NextReady;
      match ready with
      | ReadyKey k =>
        n ← on_key k app;
        match n with
        | Quit r => Ret r
        | Continue app => app_rounds bound ev msg app
        end
      | ReadyEvent =>
        '(e, ev) ← on_node (events_next ev);
        app ← lift (on_event e app);
        app_rounds bound ev msg app
      | ReadyMessage =>
        n ← call (Core LoopBound);
        '(m, msg) ← recv_message n msg;
        app ← lift (show_received m app);
        app_rounds bound ev msg app
      end
    end
  end.

Definition run_app (ev : nat) (app : App) : chat_prog (string + unit) :=
  bound ← call (Core LoopBound); app_rounds bound ev 0 app.

(** ** [main] *)

(** [r.expect(..)] of a terminal call *)
Definition expect_ok (e : chat_op (string + unit)) : chat_prog unit :=
  r ← call e;
  match r with inr _ => Ret tt | inl _ => Stuck Panicked end.

(** What the panic hook does before the message is printed. *)
Definition panic_hook : chat_prog unit :=
  call DisableRawMode ;; call LeaveAlternateScreen ;; Ret tt.

(** From the hook on; the process's exit code. *)
Definition interactive (ev : nat) (app : App) : chat_prog Z :=
  unwinding panic_hook
    (expect_ok EnableRawMode ;;
     expect_ok EnterAlternateScreen ;;
     expect_ok TerminalNew ;;
     result ← run_app ev app;
     call DisableRawMode ;;
     call LeaveAlternateScreen ;;
     match result with
     | inl e => call (Eprintln (ascii_bytes ("terminal error: " ++ e))) ;; Ret 1%Z
     | inr _ => Ret 0%Z
     end).

(** Transport 0 is QUIC on the given port, transport 1 is BLE. *)
Definition chat_main (args : Args) : chat_prog Z :=
  local_short_id ← lift (short_name (peer_id identity));
  on_node (spawn TEventLoop) ;;
  ev ← on_node (read (λ s, length (events s)));
  on_node (register_transport 0 KQuic) ;;
  on_node (register_transport 1 KBle) ;;
  on_node on_message ;;
  initial ←
    match arg_peer args with
    | Some addr =>
      r ← on_node (connect identity ttl {| address := Quic addr; short_id := None |});
      match r with
      | Ok p => Ret (Ok (Some p))
      | Err e =>
        call (Eprintln (ascii_bytes "error: could not connect to " ++ show_addr addr ++
                        ascii_bytes ": " ++ show_error e)) ;;
        call (Eprintln (ascii_bytes "hint: check that the other side is running and port " ++
                        show_port (arg_port args) ++ ascii_bytes " is not blocked by a firewall")) ;;
        Ret (Err e)
      end
    | None => Ret (Ok None)
    end;
  match initial with
  | Err _ => Ret 1%Z
  | Ok initial_peer_id =>
    app ← lift (App_new local_short_id initial_peer_id);
    interactive ev app
  end.
End chat.
