(* ===== verification/ChatFacts.v ===== *)
(** * The chat demo: its terminal, its screen, its lines *)

From S2P Require Import Prelude RustStd Utf8 Types Effects Env Bundle Session NodeState Router Node Channels Chat.

(** ** The terminal is given back *)

(** A mode of the terminal, as far as the answers tell: it was left, it was entered, or the
    terminal answered the attempt to leave it with an error. *)
Inductive mode := Left | Entered | Refused (msg : string).

Record term := { t_raw : mode; t_alternate : mode }.

Definition leave {A} (answer : string + A) : mode :=
  match answer with inl msg => Refused msg | inr _ => Left end.

(** The terminal after a call and its answer. An attempt to enter a mode that failed may have
    changed something: it counts as entered. *)
Definition term_after {X} (e : chat_op X) : X → term → term :=
  match e in chat_op X return X → term → term with
  | EnableRawMode => λ _ t, {| t_raw := Entered; t_alternate := t_alternate t |}
  | EnterAlternateScreen => λ _ t, {| t_raw := t_raw t; t_alternate := Entered |}
  | DisableRawMode => λ x t, {| t_raw := leave x; t_alternate := t_alternate t |}
  | LeaveAlternateScreen => λ x t, {| t_raw := t_raw t; t_alternate := leave x |}
  | _ => λ _ t, t
  end.

Definition untouched : term := {| t_raw := Left; t_alternate := Left |}.

(** Nothing the terminal would have let go of is left behind. *)
Definition restored (t : term) : Prop := t_raw t ≠ Entered ∧ t_alternate t ≠ Entered.

(** Any environment, with the terminal watched. *)
Definition watched {W} (answer : ∀ X, chat_op X → W → X * N * W) (X : Type) (e : chat_op X)
    (w : W * term) : X * N * (W * term) :=
  let '(x, d, w') := answer X e w.1 in (x, d, (w', term_after e x w.2)).

(** Whatever the environment answers: a program that starts with the terminal as [t] returns
    with [Q], or panics with [P]. *)
Fixpoint tracks {A} (p : chat_prog A) (t : term) (Q : A → term → Prop) (P : term → Prop) : Prop :=
  match p with
  | Ret a => Q a t
  | Lock f k => ∀ s, tracks (k (f s).1) t Q P
  | Call e k => ∀ x, tracks (k x) (term_after e x t) Q P
  | Spawn _ k => tracks k t Q P
  | Stuck Panicked => P t
  | Stuck Blocked => True
  end.

Lemma tracks_bind {A B} (p : chat_prog A) (f : A → chat_prog B) t Q P :
  tracks p t (λ a t', tracks (f a) t' Q P) P → tracks (bind p f) t Q P.
Proof.
  revert t. induction p as [a|X g k IH|X e k IH|ta k IH|[]]; intros t; simpl; auto.
Qed.

Lemma tracks_mono {A} (p : chat_prog A) t (Q Q' : A → term → Prop) (P P' : term → Prop) :
  (∀ a t, Q a t → Q' a t) → (∀ t, P t → P' t) → tracks p t Q P → tracks p t Q' P'.
Proof.
  intros HQ HP. revert t. induction p as [a|X g k IH|X e k IH|ta k IH|[]]; intros t; simpl; auto.
Qed.

(** Sequencing with a part that leaves the terminal alone. *)
Definition keeps {A} (p : chat_prog A) : Prop := ∀ t, tracks p t (λ _ t', t' = t) (λ t', t' = t).

Lemma keeps_seq {A B} (p : chat_prog A) (f : A → chat_prog B) t (Q : B → term → Prop) (P : term → Prop) :
  keeps p → P t → (∀ a, tracks (f a) t Q P) → tracks (bind p f) t Q P.
Proof.
  intros Hp HP Hf. apply tracks_bind. eapply tracks_mono; [| |apply (Hp t)]; cbn.
  - intros a t' ->. apply Hf.
  - by intros t' ->.
Qed.

Lemma keeps_bind {A B} (p : chat_prog A) (f : A → chat_prog B) :
  keeps p → (∀ a, keeps (f a)) → keeps (bind p f).
Proof. intros Hp Hf t. apply keeps_seq; [done|done|]. intros a. apply Hf. Qed.

Lemma keeps_node {A} (p : node_prog A) : keeps (on_node p).
Proof. intros t. induction p as [a|X g k IH|X e k IH|ta k IH|[]]; simpl; auto. Qed.

Lemma keeps_lift {A} (m : rust A) : keeps (lift m).
Proof. by destruct m. Qed.

#[export] Hint Resolve keeps_node keeps_lift : core.

Section facts.
Context `{Crypto, Bp7, Snow, HashOrder} (identity : NodeIdentity).
Context (split : Rect → Rect * Rect * Rect) (show_addr : SocketAddr → text) (show_port : u16 → text).

Lemma keeps_draw app : keeps (terminal_draw split app).
Proof. intros t [e|area]; simpl; [done|]. apply keeps_bind; [done|]. by intros scr t' []. Qed.

Lemma keeps_key k app : keeps (on_key identity split k app).
Proof.
  destruct k as [[[c| | | |] control []]|]; cbn [on_key negb key_press key_code]; try done.
  - by destruct (_ && _).
  - destruct (a_input app) as [|c cs]; [done|]. destruct (a_peer_id app) as [p|]; [|done].
    unfold send_line. cbv zeta. apply keeps_bind; [apply keeps_draw|]. intros [e|u]; [done|].
    by apply keeps_bind.
Qed.

Lemma keeps_recv bound cursor : keeps (recv_message bound cursor).
Proof.
  induction bound as [|bound IH]; [done|]. intros t s. simpl.
  destruct (delivered s !! cursor); simpl; [done|]. intros []; [done|apply IH].
Qed.

Lemma keeps_app bound ev msg app : keeps (app_rounds identity split bound ev msg app).
Proof.
  revert ev msg app. induction bound as [|bound IH]; intros ev msg app; [done|].
  apply keeps_bind; [apply keeps_draw|]. intros [e|u]; [done|].
  apply (keeps_bind (call NextReady)); [done|]. intros [k| |].
  - apply keeps_bind; [apply keeps_key|]. by intros [].
  - apply keeps_bind; [done|]. intros [e ev']. by apply keeps_bind.
  - apply (keeps_bind (call (Core LoopBound))); [done|]. intros n.
    apply keeps_bind; [apply keeps_recv|]. intros [m msg']. by apply keeps_bind.
Qed.

Lemma keeps_run_app ev app : keeps (run_app identity split ev app).
Proof. intros t n. apply keeps_app. Qed.

Lemma not_entered m : m ≠ Entered → m = Left ∨ ∃ msg, m = Refused msg.
Proof. destruct m; naive_solver. Qed.

Lemma left_restored {A B} (x : string + A) (y : string + B) :
  restored {| t_raw := leave x; t_alternate := leave y |}.
Proof. by destruct x, y. Qed.

(** The hook runs on a panic and on nothing else. *)
Lemma tracks_hook {A} (p : chat_prog A) t (Q : A → term → Prop) :
  tracks p t Q (λ _, True) → tracks (unwinding panic_hook p) t Q restored.
Proof.
  revert t. induction p as [a|X g k IH|X e k IH|ta k IH|[]]; intros t; simpl; auto.
  intros _ x y. apply left_restored.
Qed.

Lemma tracks_interactive ev app t :
  tracks (interactive identity split ev app) t (λ _, restored) restored.
Proof.
  apply tracks_hook. unfold expect_ok.
  intros [|u1]; [done|]. intros [|u2]; [done|]. intros [|u3]; [done|].
  apply (keeps_seq (run_app identity split ev app)); [apply keeps_run_app|done|].
  intros [e|u] x y; cbn; [intros _|]; apply left_restored.
Qed.

Lemma tracks_main args t : restored t →
  tracks (chat_main identity split show_addr show_port args) t (λ _, restored) restored.
Proof.
  intros Ht. do 6 (apply keeps_seq; [done|done|intros ?]).
  apply keeps_seq; [|done|].
  { destruct (arg_peer args); [|done]. apply keeps_bind; [done|]. by intros []. }
  intros [p|e]; [|done]. apply keeps_seq; [done|done|]. intros app. apply tracks_interactive.
Qed.

Lemma run_tracks {W A} (answer : ∀ X, chat_op X → W → X * N * W) tick (p : chat_prog A) t Q P s w :
  tracks p t Q P →
  let r := run (watched answer) tick p s (w, t) in
  match r_final r with
  | Returned a => Q a (r_env r).2
  | StuckAt Panicked => P (r_env r).2
  | StuckAt Blocked => True
  end.
Proof.
  revert t s w. induction p as [a|X g k IH|X e k IH|ta k IH|[]]; intros t s w Hp; simpl;
    [done|exact (IH _ t (g s).2 w (Hp s))| |exact (IH t s w Hp)|done|done].
  unfold watched. cbn [fst snd]. destruct (answer X e w) as [[x d] w'].
  exact (IH x _ (tick d s) w' (Hp x)).
Qed.

(** C39. The terminal is given back: whatever the terminal, the peers and the operating
    system answer, when the program exits, with any code, or panics, raw mode and the
    alternate screen it may have entered are both left again, except where the terminal
    itself answered the attempt to leave with an error, which the program ignores; a failure
    to leave the one does not keep it from leaving the other ([Blocked]: it has not exited). *)
Theorem terminal_restored {W} (answer : ∀ X, chat_op X → W → X * N * W) tick args s w :
  let r := run (watched answer) tick (chat_main identity split show_addr show_port args) s
             (w, untouched) in
  r_final r = StuckAt Blocked ∨
  (t_raw (r_env r).2 = Left ∨ ∃ msg, t_raw (r_env r).2 = Refused msg) ∧
  (t_alternate (r_env r).2 = Left ∨ ∃ msg, t_alternate (r_env r).2 = Refused msg).
Proof.
  cbv zeta. assert (restored untouched) as Hu by done.
  pose proof (run_tracks answer tick _ _ _ _ s w (tracks_main args untouched Hu)) as Hr.
  cbv zeta in Hr. destruct (r_final _) as [code|[]]; [right|right|by left];
    destruct Hr as [Hraw Halt]; split; apply not_entered; assumption.
Qed.
End facts.

(** ** What is drawn *)

Lemma u16_range (a : u16) : (0 ≤ uval a < 2 ^ 16)%Z.
Proof. apply uval_range. Qed.

Lemma u16_add_spec a b :
  match u16_add a b with
  | Val c => uval c = (uval a + uval b)%Z ∧ (uval a + uval b < 2 ^ 16)%Z
  | Panic => (2 ^ 16 ≤ uval a + uval b)%Z
  end.
Proof.
  pose proof (u16_range a). pose proof (u16_range b). unfold u16_add.
  destruct (Z.ltb_spec (uval a + uval b) (2 ^ 16)); [|done].
  by rewrite u16_of_Z_uval, Z.mod_small by lia.
Qed.

Lemma u16_saturating_sub_spec a b :
  uval (u16_saturating_sub a b) = Z.max 0 (uval a - uval b).
Proof.
  pose proof (u16_range a). pose proof (u16_range b).
  unfold u16_saturating_sub. rewrite u16_of_Z_uval, Z.mod_small; lia.
Qed.

Lemma u16_min_spec a b : uval (u16_min a b) = Z.min (uval a) (uval b).
Proof. unfold u16_min. destruct (Z.leb_spec (uval a) (uval b)); lia. Qed.

(** C40. Drawing: in a terminal of at most 65535 columns and rows, the screen shows the
    newest messages that fit inside the frame, in order, and the whole input behind its
    prompt, with the cursor three columns and the input's byte length from the left,
    stopped at the border. The length is cut to 16 bits and added with a check: the only
    panic is an input whose length modulo 65536 reaches the end of the range. *)
Theorem draw_spec top body bar app
    (Hx : (uval (r_x bar) + 3 < 2 ^ 16)%Z)
    (Hw : (uval (r_x bar) + uval (r_width bar) < 2 ^ 16)%Z)
    (Hy : (uval (r_y bar) + 1 < 2 ^ 16)%Z) :
  let len := (Z.of_nat (length (encode_chars (a_input app))) mod 2 ^ 16)%Z in
  match draw (top, body, bar) app with
  | Panic => (2 ^ 16 ≤ uval (r_x bar) + 3 + len)%Z
  | Val scr =>
    (uval (r_x bar) + 3 + len < 2 ^ 16)%Z ∧
    (∃ older, a_messages app = older ++ scr_lines scr) ∧
    length (scr_lines scr) =
      Nat.min (length (a_messages app)) (Z.to_nat (uval (r_height body) - 2)) ∧
    scr_input scr = ascii_bytes "> " ++ encode_chars (a_input app) ∧
    uval (scr_cursor scr).1 =
      Z.min (uval (r_x bar) + 3 + len) (uval (r_x bar) + Z.max 0 (uval (r_width bar) - 2)) ∧
    uval (scr_cursor scr).2 = (uval (r_y bar) + 1)%Z
  end.
Proof.
  unfold draw. rewrite slice_from_Val by lia. cbn [rust_bind].
  change (uval (u16_of_Z 1)) with 1%Z in *. set (len := Z.of_nat _).
  pose proof (u16_range (r_x bar)). pose proof (u16_range (r_y bar)).
  pose proof (u16_range (r_width bar)). pose proof (u16_range (r_height body)).
  pose proof (u16_add_spec (r_x bar) (u16_of_Z 1)) as Ha1. change (uval (u16_of_Z 1)) with 1%Z in Ha1.
  destruct (u16_add (r_x bar) (u16_of_Z 1)) as [x1|]; cbn [rust_bind]; [|lia].
  pose proof (u16_add_spec x1 (u16_of_Z 2)) as Ha2. change (uval (u16_of_Z 2)) with 2%Z in Ha2.
  destruct (u16_add x1 (u16_of_Z 2)) as [x2|]; cbn [rust_bind]; [|lia].
  pose proof (u16_add_spec x2 (u16_of_Z len)) as Ha3. rewrite u16_of_Z_uval in Ha3.
  destruct (u16_add x2 (u16_of_Z len)) as [cx|]; cbn [rust_bind]; [|cbv zeta; lia].
  pose proof (u16_add_spec (r_x bar) (u16_saturating_sub (r_width bar) (u16_of_Z 2))) as Ha4.
  rewrite u16_saturating_sub_spec in Ha4. change (uval (u16_of_Z 2)) with 2%Z in Ha4.
  destruct (u16_add (r_x bar) _) as [mx|]; cbn [rust_bind]; [|lia].
  pose proof (u16_add_spec (r_y bar) (u16_of_Z 1)) as Ha5. change (uval (u16_of_Z 1)) with 1%Z in Ha5.
  destruct (u16_add (r_y bar) (u16_of_Z 1)) as [y|]; cbn [rust_bind]; [|lia].
  cbn [scr_lines scr_input scr_cursor fst snd]. rewrite u16_min_spec, u16_saturating_sub_spec.
  change (uval (u16_of_Z 2)) with 2%Z. cbv zeta. split_and!; try lia; try done.
  - eexists. symmetry. apply take_drop.
  - rewrite length_drop. lia.
Qed.

(** ** A line, from one keyboard to the other screen *)

Section lines.
Context `{Crypto, Bp7, Snow, HashOrder} (identity : NodeIdentity).
Context (split : Rect → Rect * Rect * Rect).

Definition typed (c : char) : option KeyEvent :=
  Some {| key_code := KChar c; key_control := false; key_press := true |}.
Definition entered : option KeyEvent :=
  Some {| key_code := Enter; key_control := false; key_press := true |}.

(** The keys of a line, one round of the loop each (without the drawing in between). *)
Fixpoint press (keys : list (option KeyEvent)) (app : App) : chat_prog next :=
  match keys with
  | [] => Ret (Continue app)
  | k :: keys =>
    n ← on_key identity split k app;
    match n with Quit r => Ret (Quit r) | Continue app => press keys app end
  end.

Lemma press_typed cs keys app :
  press ((typed <$> cs) ++ keys) app = press keys (set_input (a_input app ++ cs) app).
Proof.
  revert app. induction cs as [|c cs IH]; intros app; cbn [fmap list_fmap Datatypes.app].
  - rewrite app_nil_r. by destruct app.
  - cbn. rewrite andb_false_r. cbn. rewrite IH. cbn. by rewrite <-app_assoc.
Qed.

Lemma run_continue {W} (answer : ∀ X, chat_op X → W → X * N * W) tick (p : chat_prog next) s w :
  run answer tick (n ← p; match n with Quit r => Ret (Quit r) | Continue app => Ret (Continue app) end)
    s w = run answer tick p s w.
Proof.
  rewrite run_bind. destruct (run answer tick p s w) as [[[r|app]|why] s' w' ts]; cbn;
    unfold add_spawned; cbn; by rewrite ?app_nil_r.
Qed.

(** A line goes through: typing a text at an empty prompt and pressing Enter shows
    it, hands exactly its UTF-8 bytes to [send] for the current peer, and leaves the
    prompt empty; and those bytes, delivered at the other end, are shown there behind the
    sender's short name, character for character. *)
Theorem line_goes_through {W} (answer : ∀ X, chat_op X → W → X * N * W) tick c cs p app s w them short
    (Hempty : a_input app = []) (Hpeer : a_peer_id app = Some p)
    (Hshort : short_name (peer_id identity) = Val short) :
  let line := encode_chars (c :: cs) in
  let shown := push_message (ascii_bytes "me: " ++ line) app in
  run answer tick (press ((typed <$> (c :: cs)) ++ [entered]) app) s w =
  run answer tick
    (r ← terminal_draw split shown;
     match r with
     | inl e => Ret (Quit (inl e))
     | inr _ =>
       r ← on_node (send identity p line);
       Ret (Continue match r with
                     | Err e => push_message (ascii_bytes "[error] " ++ show_error e) shown
                     | Ok _ => shown
                     end)
     end) s w ∧
  show_received (Some (peer_id identity, line)) them =
    Val (push_message (short ++ ascii_bytes ": " ++ line) them).
Proof.
  cbv zeta. rewrite press_typed, Hempty. split.
  - cbn [press entered Datatypes.app]. rewrite run_continue. unfold on_key. cbn -[encode_chars send terminal_draw].
    rewrite Hpeer. unfold send_line. cbv zeta. cbn [a_input set_input].
    replace (set_input [] (set_input (c :: cs) app)) with app by (destruct app; cbn in *; by subst).
    done.
  - cbn [show_received]. rewrite Hshort. cbn [rust_bind].
    by rewrite from_utf8_lossy_valid by apply encode_chars_utf8.
Qed.
End lines.
