(* ===== verification/WifiDirect.v ===== *)
(** * The WiFi Direct transport: what both platforms share
      ([crates/pathweave-transport-wifi-direct/src/lib.rs])

    The state ([Inner]) is two mutexes. [state] is only ever held between two awaits, so
    its critical sections are atomic; [conn_rx] is held by [accept] while it waits for
    the channel, so its guard is part of the model: [conn_rx_held] says whether a task
    holds it ([Channels.guarded_rx]). *)

From S2P Require Import Prelude RustStd Types Effects NetAddr Channels Advertising Framing.

Definition P2P_SERVICE_NAME : string := "pathweave-p2p".
Definition WIFI_DIRECT_PORT : u16 := u16_of_Z 47808.

(** [format!("{ip}:{WIFI_DIRECT_PORT}")] *)
Definition with_port (ip : rstring) : list byte := str_bytes ip ++ ascii_bytes ":47808".

(** ** Short identifiers in device names *)

(** [str::strip_prefix] *)
Definition strip_prefix (prefix l : list byte) : option (list byte) :=
  if decide (take (length prefix) l = prefix) then Some (drop (length prefix) l) else None.

Definition parse_short_id_from_service_name (name : rstring) : rust (option ShortId) :=
  let prefix := ascii_bytes (P2P_SERVICE_NAME +:+ ":") in
  match strip_prefix prefix (str_bytes name) with
  | None => Val None
  | Some hex =>
    if negb (length hex =? 16) then Val None
    else
      let! bytes := hex_pairs hex 8 0 in
      match bytes with
      | None => Val None
      | Some bytes => Val (try_into 8 bytes)
      end
  end.

(** The Windows backend has a copy of the same function. *)
Definition parse_short_id_from_name : rstring → rust (option ShortId) :=
  parse_short_id_from_service_name.

(** ** The group owner *)

(** [a > b] on byte arrays: lexicographic. *)
Fixpoint bytes_gt (a b : list byte) : bool :=
  match a, b with
  | x :: a, y :: b =>
    if decide (x = y) then bytes_gt a b else (byte_to_Z y <? byte_to_Z x)%Z
  | _ :: _, [] => true
  | [], _ => false
  end.

(** The role [connect] takes towards a peer. *)
Definition we_are_go (local : ShortId) (their_id : option ShortId) : bool :=
  match their_id with
  | Some their_id => bytes_gt (array_to_list local) (array_to_list their_id)
  | None => false
  end.

(** ** [Inner] *)

Record wifi_state (St : Type) := {
  w_state : option St;
  w_conn_rx : option nat;
  w_conn_rx_held : bool;
  (** The channels of accepted connections and of announcements. *)
  w_conns : list (mpsc stream);
  w_anns : list (mpsc PeerAnnouncement);
  (** [oneshot] senders, by index: whether they are alive (Windows only). *)
  w_oneshots : list bool
}.
Arguments w_state {St} _.
Arguments w_conn_rx {St} _.
Arguments w_conn_rx_held {St} _.
Arguments w_conns {St} _.
Arguments w_anns {St} _.
Arguments w_oneshots {St} _.

(** [WifiDirectTransport::new] *)
Definition wifi_new {St} : wifi_state St := {|
  w_state := None; w_conn_rx := None; w_conn_rx_held := false; w_conns := []; w_anns := [];
  w_oneshots := [] |}.

Section setters.
Context {St : Type} (s : wifi_state St).

Definition set_w_state (o : option St) : wifi_state St :=
  {| w_state := o; w_conn_rx := w_conn_rx s; w_conn_rx_held := w_conn_rx_held s;
     w_conns := w_conns s; w_anns := w_anns s; w_oneshots := w_oneshots s |}.

Definition set_conn_rx (o : option nat) : wifi_state St :=
  {| w_state := w_state s; w_conn_rx := o; w_conn_rx_held := w_conn_rx_held s;
     w_conns := w_conns s; w_anns := w_anns s; w_oneshots := w_oneshots s |}.

Definition set_held (b : bool) : wifi_state St :=
  {| w_state := w_state s; w_conn_rx := w_conn_rx s; w_conn_rx_held := b;
     w_conns := w_conns s; w_anns := w_anns s; w_oneshots := w_oneshots s |}.

Definition set_conns (l : list (mpsc stream)) : wifi_state St :=
  {| w_state := w_state s; w_conn_rx := w_conn_rx s; w_conn_rx_held := w_conn_rx_held s;
     w_conns := l; w_anns := w_anns s; w_oneshots := w_oneshots s |}.

Definition set_anns (l : list (mpsc PeerAnnouncement)) : wifi_state St :=
  {| w_state := w_state s; w_conn_rx := w_conn_rx s; w_conn_rx_held := w_conn_rx_held s;
     w_conns := w_conns s; w_anns := l; w_oneshots := w_oneshots s |}.

Definition set_oneshots (l : list bool) : wifi_state St :=
  {| w_state := w_state s; w_conn_rx := w_conn_rx s; w_conn_rx_held := w_conn_rx_held s;
     w_conns := w_conns s; w_anns := w_anns s; w_oneshots := l |}.
End setters.

(** [*inner.conn_rx.lock().await = rx]: the receiver it replaces is dropped. *)
Definition replace_conn_rx {St} (rx : option nat) (s : wifi_state St) : unit * wifi_state St :=
  (tt, set_conn_rx
         (match w_conn_rx s with
          | Some old => set_conns s (alter mpsc_drop_rx old (w_conns s))
          | None => s
          end) rx).

(** [conn_rx], as a guarded receiver. *)
Definition wifi_rx {St} : guarded_rx (wifi_state St) stream := {|
  g_held := w_conn_rx_held;
  g_set_held := set_held;
  g_rx := w_conn_rx;
  g_poll := λ rx s, let '(r, l) := mpsc_poll (w_conns s) rx in (r, set_conns s l) |}.

(** The blocking half of [accept]. *)
Definition wifi_accept {St} {E : Type → Type} {T} (Wait : E unit) (LoopBound : E nat) :
    prog (wifi_state St) E T (result stream) :=
  accept_blocking wifi_rx Wait LoopBound
    "WiFi Direct: accept channel closed" "WiFi Direct transport not started".

Section stream.
Context {St : Type} {E : Type → Type} {T : Type} (Wait : E unit).

Abbreviation wprog := (prog (wifi_state St) E T).

(** The next item of a discovery stream. *)
Fixpoint next_ann (bound : nat) (rx : nat) : wprog (option PeerAnnouncement) :=
  match bound with
  | O => Stuck Blocked
  | S bound =>
    r ← lock (λ s, let '(r, l) := mpsc_poll (w_anns s) rx in (r, set_anns s l));
    match r with
    | Some r => Ret r
    | None => call Wait ;; next_ann bound rx
    end
  end.
End stream.

(** ** [impl Transport for WifiDirectTransport], the parts without a backend *)

Definition wifi_mtu_hint : nat := 1400.
Definition wifi_cost : TransportCost := Free.
Definition wifi_kind : TransportKind := KWifiDirect.
Definition wifi_local_addresses : list PeerAddress := [].

(** On other platforms nothing starts, and [accept] is for ever pending. *)
Section unsupported.
Context {S : Type} {E : Type → Type} {T : Type}.

Definition unsupported_start (identity : NodeIdentity) : prog S E T (result unit) :=
  Ret (Err (ETransport "WiFi Direct is not supported on this platform. Linux (wpa_supplicant) and Windows (WinRT) only.")).

Definition unsupported_stop : prog S E T (result unit) := Ret (Ok tt).

Definition unsupported_discover : list PeerAnnouncement := [].

Definition unsupported_connect (peer : PeerAnnouncement) : prog S E T (result stream) :=
  Ret (Err (ETransport "WiFi Direct is not supported on this platform.")).

Definition unsupported_accept : prog S E T (result stream) := Stuck Blocked.
End unsupported.

(** ** Theorems *)

Lemma bytes_gt_irrefl a : bytes_gt a a = false.
Proof. induction a; [done|]. simpl. by rewrite decide_True. Qed.

(** Lists of the same length are equal or ordered one way. *)
Lemma bytes_gt_total a b :
  length a = length b → a ≠ b → bytes_gt a b = negb (bytes_gt b a).
Proof.
  revert b. induction a as [|x a IH]; intros [|y b] Hlen Hne; try done.
  simpl in *. destruct (decide (x = y)) as [->|Hxy].
  - rewrite decide_True by done. apply IH; [lia|congruence].
  - rewrite decide_False by done.
    destruct (Z.ltb_spec (byte_to_Z y) (byte_to_Z x)), (Z.ltb_spec (byte_to_Z x) (byte_to_Z y));
      try done; [lia|].
    destruct Hxy. apply byte_to_Z_inj. lia.
Qed.

Lemma we_are_go_total local peer :
  local ≠ peer → we_are_go local (Some peer) = negb (we_are_go peer (Some local)).
Proof.
  intros Hne. apply bytes_gt_total; [by rewrite !array_length|].
  intros H. by apply Hne, array_eq.
Qed.

(** A printed IPv4 address is dialled on the transport's port. *)
Lemma parse_with_port text ip :
  str_bytes text = show_ipv4 ip →
  parse_socket_addr (with_port text) = Some (V4 ip WIFI_DIRECT_PORT).
Proof.
  intros Hip. unfold with_port. rewrite Hip.
  by apply (parse_show_v4 ip WIFI_DIRECT_PORT (ascii_bytes "47808")).
Qed.

(** The device name that carries a short identifier. *)
Definition service_device_name (id : ShortId) : list byte :=
  ascii_bytes (P2P_SERVICE_NAME +:+ ":") ++ hex_bytes (array_to_list id).

Lemma strip_prefix_app prefix l : strip_prefix prefix (prefix ++ l) = Some l.
Proof.
  unfold strip_prefix. rewrite decide_True by by rewrite take_app_length.
  by rewrite drop_app_length.
Qed.

(** Device names: a name built for an identifier gives the identifier back, ASCII names
    never make the parser panic, and a name without the service prefix carries none. *)
Lemma device_name_text :
  (∀ id name, str_bytes name = service_device_name id →
     parse_short_id_from_service_name name = Val (Some id)) ∧
  (∀ name, (∀ c, c ∈ str_bytes name → byte_in 0 127 c = true) →
     parse_short_id_from_service_name name ≠ Panic) ∧
  (∀ name, strip_prefix (ascii_bytes "pathweave-p2p:") (str_bytes name) = None →
     parse_short_id_from_service_name name = Val None).
Proof.
  split_and!.
  - intros id name Hn. unfold parse_short_id_from_service_name. rewrite Hn.
    unfold service_device_name. rewrite strip_prefix_app.
    pose proof (array_length id) as Hid. rewrite length_hex_bytes, Hid.
    cbn [Nat.mul Nat.add Nat.eqb negb].
    pose proof (hex_pairs_hex [] (array_to_list id)) as Hp. rewrite Hid in Hp.
    cbn [app length] in Hp. rewrite Hp. cbn [rust_bind]. by rewrite try_into_array.
  - intros name Ha. unfold parse_short_id_from_service_name.
    destruct (strip_prefix _ _) as [hex|] eqn:Hs; [|done].
    destruct (Nat.eqb_spec (length hex) 16) as [Hl|]; [|done]. cbn [negb].
    destruct (hex_pairs_ascii hex 8 0) as (o & -> & Ho); [|lia|by destruct o].
    intros c Hc. apply Ha. unfold strip_prefix in Hs. case_decide; simplify_eq.
    eapply subseteq_drop; eauto.
  - intros name Hn. unfold parse_short_id_from_service_name. change (P2P_SERVICE_NAME +:+ ":") with "pathweave-p2p:".
    by rewrite Hn.
Qed.
