(* ===== verification/WifiLinux.v ===== *)
(** * WiFi Direct on Linux ([crates/pathweave-transport-wifi-direct/src/linux.rs])

    wpa_supplicant is reached over D-Bus (zbus); both, and TCP, are the environment. A
    signal's body is what [deserialize] makes of it. *)

From S2P Require Import Prelude RustStd Types Effects NetAddr Channels Advertising Framing WifiDirect.

(** ** The environment *)

(** [zvariant::Value]: the code distinguishes strings from everything else. *)
Inductive dbus_value := VStr (s : rstring) | VOther.

(** [HashMap<String, OwnedValue>] *)
Abbreviation props := (gmap (list byte) dbus_value) (only parsing).

(** [props.get(key)], when it is a string. *)
Definition get_str (ps : gmap (list byte) dbus_value) (key : list byte) : option rstring :=
  match ps !! key with Some (VStr s) => Some s | _ => None end.

Definition WPA_SERVICE : string := "fi.w1.wpa_supplicant1".
Definition WPA_IFACE : string := "fi.w1.wpa_supplicant1.Interface".
Definition WPA_P2P_IFACE : string := "fi.w1.wpa_supplicant1.Interface.P2PDevice".
Definition WPA_PATH : string := "/fi/w1/wpa_supplicant1".

Abbreviation handle := nat (only parsing).

Inductive linux_op : Type → Type :=
| DbusSystem : linux_op (string + handle)
(** [Proxy::new(&conn, service, path, interface)] *)
| ProxyNew (conn : handle) (service : string) (path : list byte) (interface : string) :
    linux_op (string + handle)
| GetInterfaces (proxy : handle) : linux_op (string + list rstring)
| ServiceAdd (proxy : handle) (service_type : string) (version : Z) (service : string) :
    linux_op (string + unit)
| Find (proxy : handle) : linux_op (string + unit)
| P2PConnect (proxy : handle) (device : rstring) (go_intent : Z) (wps_method : string) :
    linux_op (string + unit)
| ReceiveSignal (proxy : handle) (signal : string) : linux_op (string + handle)
(** The next message of a signal stream, deserialized: the stream may end, the body may
    be malformed. *)
| NextPeerFound (signals : handle) : linux_op (option (string + (rstring * props)))
| NextGroup (signals : handle) : linux_op (option (string + props))
(** The same under [connect]'s thirty-second timeout: [None] when it has elapsed. *)
| NextGroupTimed (signals : handle) : linux_op (option (option (string + props)))
| TcpConnect (addr : SocketAddr) : linux_op (string + stream)
| TcpBind (addr : SocketAddr) : linux_op (string + handle)
| TcpAccept (listener : handle) : linux_op (string + stream)
| LinuxWait : linux_op unit
| LinuxLoopBound : linux_op nat.

(** ** State and tasks *)

Record LinuxState := {
  ls_conn : handle;
  ls_iface_path : rstring;
  ls_local_short_id : ShortId
}.

Inductive linux_task :=
| AcceptLoop (conn : handle) (iface_path : rstring) (conn_tx : nat)
| Listen (bind_addr : SocketAddr) (tx : nat)
| Discover (tx : nat).

Abbreviation linux_prog := (prog (wifi_state LinuxState) linux_op linux_task).

Definition drop_conn_tx (tx : nat) : linux_prog unit :=
  modify (λ s, set_conns s (alter mpsc_drop_tx tx (w_conns s))).

Definition drop_ann_tx (tx : nat) : linux_prog unit :=
  modify (λ s, set_anns s (alter mpsc_drop_tx tx (w_anns s))).

Definition clone_conn_tx (tx : nat) : linux_prog unit :=
  modify (λ s, set_conns s (alter mpsc_clone tx (w_conns s))).

Definition p2p_proxy {B} (conn : handle) (iface_path : rstring)
    (k : handle → linux_prog (result B)) : linux_prog (result B) :=
  await_ok (transport_error "P2PDevice proxy failed")
    (ProxyNew conn WPA_SERVICE (str_bytes iface_path) WPA_P2P_IFACE) k.

(** ** [start] and [stop] *)

Definition linux_start (identity : NodeIdentity) : linux_prog (result unit) :=
  prefix ← lift (slice (array_to_list (PeerId_as_bytes (peer_id identity))) 0 8);
  local_short_id ← lift (try_into_expect 8 prefix);
  await_ok (transport_error "D-Bus connection failed") DbusSystem (λ conn,
  await_ok (transport_error "wpa_supplicant proxy failed")
    (ProxyNew conn WPA_SERVICE (ascii_bytes WPA_PATH) "fi.w1.wpa_supplicant1") (λ wpa_proxy,
  await_ok (transport_error "could not read Interfaces") (GetInterfaces wpa_proxy)
    (λ iface_paths,
  match iface_paths with
  | [] => Ret (Err (ETransport "no wpa_supplicant interfaces found"))
  | iface_path :: _ =>
    p2p_proxy conn iface_path (λ p2p_proxy,
    await_ok (transport_error "ServiceAdd failed")
      (ServiceAdd p2p_proxy "bonjour" 1 P2P_SERVICE_NAME) (λ _,
    await_ok (transport_error "P2PFind failed") (Find p2p_proxy) (λ _,
    conn_tx ← lock (λ s, (length (w_conns s), set_conns s (w_conns s ++ [mpsc_new])));
    clone_conn_tx conn_tx ;;
    spawn (AcceptLoop conn iface_path conn_tx) ;;
    modify (λ s, set_w_state s (Some {| ls_conn := conn; ls_iface_path := iface_path;
                                        ls_local_short_id := local_short_id |})) ;;
    with_conn_rx wifi_rx LinuxWait LinuxLoopBound (replace_conn_rx (Some conn_tx)) ;;
    drop_conn_tx conn_tx ;;
    Ret (Ok tt))))
  end))).

Definition linux_stop : linux_prog (result unit) :=
  modify (λ s, set_w_state s None) ;;
  with_conn_rx wifi_rx LinuxWait LinuxLoopBound (replace_conn_rx None) ;;
  Ret (Ok tt).

(** ** [discover] *)

(** One announcement; whether the task goes on. *)
Definition peer_found (tx : nat) (peer_path : rstring) (short : option ShortId) :
    linux_prog bool :=
  let mac := last_component peer_path in
  if decide (str_bytes mac = []) then Ret true
  else
    let ann := {| address := WifiDirect mac; short_id := short |} in
    lock (λ s, (negb (send_fails (w_anns s) tx),
                set_anns s (alter (mpsc_send ann) tx (w_anns s)))).

Fixpoint discover_rounds (bound : nat) (signals : handle) (tx : nat) : linux_prog unit :=
  match bound with
  | O => Stuck Blocked
  | S bound =>
    msg ← call (NextPeerFound signals);
    match msg with
    | None => Ret tt
    | Some (inl _) => discover_rounds bound signals tx
    | Some (inr (peer_path, ps)) =>
      let device_name := get_str ps (ascii_bytes "DeviceName") in
      short ← lift (match device_name with
                    | Some name => parse_short_id_from_service_name name
                    | None => Val None
                    end);
      go_on ← peer_found tx peer_path short;
      if (go_on : bool) then discover_rounds bound signals tx else Ret tt
    end
  end.

Definition linux_discover_task (tx : nat) : linux_prog unit :=
  state ← read w_state;
  match state with
  | None => Ret tt
  | Some state =>
    r ← call (ProxyNew (ls_conn state) WPA_SERVICE (str_bytes (ls_iface_path state))
                WPA_P2P_IFACE);
    match r with
    | inl _ => Ret tt
    | inr proxy =>
      r ← call (ReceiveSignal proxy "P2PPeerFound");
      match r with
      | inl _ => Ret tt
      | inr signals => bound ← call LinuxLoopBound; discover_rounds bound signals tx
      end
    end
  end ;;
  drop_ann_tx tx.

(** The stream's receiver. *)
Definition linux_discover : linux_prog nat :=
  tx ← lock (λ s, (length (w_anns s), set_anns s (w_anns s ++ [mpsc_new])));
  spawn (Discover tx) ;;
  Ret tx.

(** ** [connect] *)

Definition extract_go_ip (ps : gmap (list byte) dbus_value) (we_are_go : bool) :
    result rstring :=
  let key := if we_are_go then "ip_addr" else "ip_addr_go" in
  ok_or (get_str ps (ascii_bytes key))
    (ETransport ("WiFi Direct: '" +:+ key +:+ "' missing from GroupStarted properties")).

(** The loop under the timeout: the first well-formed signal; [None] when the time is
    up, [Some None] when the stream ends. *)
Fixpoint await_group (bound : nat) (signals : handle) :
    linux_prog (option (option (gmap (list byte) dbus_value))) :=
  match bound with
  | O => Stuck Blocked
  | S bound =>
    msg ← call (NextGroupTimed signals);
    match msg with
    | None => Ret None
    | Some None => Ret (Some None)
    | Some (Some (inl _)) => await_group bound signals
    | Some (Some (inr ps)) => Ret (Some (Some ps))
    end
  end.

(** What [connect] does once the group has formed. *)
Definition dial_group (ps : gmap (list byte) dbus_value) (we_are_go : bool) :
    linux_prog (result stream) :=
  match extract_go_ip ps we_are_go with
  | Err e => Ret (Err e)
  | Ok peer_ip =>
    match parse_socket_addr (with_port peer_ip) with
    | None => Ret (Err (ETransport ("WiFi Direct: invalid peer IP '" +:+ show_bytes (str_bytes peer_ip) +:+ "': " +:+ ADDR_PARSE_ERROR)))
    | Some addr =>
      await_ok (transport_error "WiFi Direct TCP connect failed") (TcpConnect addr)
        (λ stream, Ret (Ok stream))
    end
  end.

Definition linux_connect (peer : PeerAnnouncement) : linux_prog (result stream) :=
  match address peer with
  | WifiDirect device_id =>
    state ← read w_state;
    match state with
    | None => Ret (Err (ETransport "WiFi Direct transport not started"))
    | Some state =>
      let we_are_go := we_are_go (ls_local_short_id state) (short_id peer) in
      let go_intent := if we_are_go then 15%Z else 0%Z in
      p2p_proxy (ls_conn state) (ls_iface_path state) (λ p2p_proxy,
      await_ok (transport_error "Interface proxy failed")
        (ProxyNew (ls_conn state) WPA_SERVICE (str_bytes (ls_iface_path state)) WPA_IFACE)
        (λ iface_proxy,
      await_ok (transport_error "P2PGroupStarted signal failed")
        (ReceiveSignal iface_proxy "P2PGroupStarted") (λ group_stream,
      await_ok (transport_error "P2PConnect failed")
        (P2PConnect p2p_proxy device_id go_intent "pbc") (λ _,
      bound ← call LinuxLoopBound;
      group ← await_group bound group_stream;
      match group with
      | None => Ret (Err (ETransport "WiFi Direct: P2P group formation timed out"))
      | Some None => Ret (Err (ETransport "WiFi Direct: GroupStarted stream closed"))
      | Some (Some ps) => dial_group ps we_are_go
      end))))
    end
  | _ => Ret (Err (ETransport "WiFi Direct connect: wrong address type"))
  end.

(** ** [accept] and the task behind it *)

Definition linux_accept : linux_prog (result stream) :=
  conn ← with_conn_rx wifi_rx LinuxWait LinuxLoopBound
    (λ s, match w_conn_rx s with
          | Some rx => let '(c, l) := mpsc_try_recv (w_conns s) rx in (c, set_conns s l)
          | None => (None, s)
          end);
  match conn with
  | Some c => Ret (Ok c)
  | None => wifi_accept LinuxWait LinuxLoopBound
  end.

(** The address to listen on, for a group in which this node is the owner. *)
Definition group_bind_addr (ps : gmap (list byte) dbus_value) : option SocketAddr :=
  match get_str ps (ascii_bytes "role") with
  | Some role =>
    if decide (str_bytes role = ascii_bytes "GO") then
      match get_str ps (ascii_bytes "interface_address") with
      | Some addr => parse_socket_addr (with_port addr)
      | None => None
      end
    else None
  | None => None
  end.

Fixpoint group_rounds (bound : nat) (signals : handle) (conn_tx : nat) : linux_prog unit :=
  match bound with
  | O => Stuck Blocked
  | S bound =>
    msg ← call (NextGroup signals);
    match msg with
    | None => Ret tt
    | Some (inl _) => group_rounds bound signals conn_tx
    | Some (inr ps) =>
      match group_bind_addr ps with
      | None => group_rounds bound signals conn_tx
      | Some bind_addr =>
        clone_conn_tx conn_tx ;;
        spawn (Listen bind_addr conn_tx) ;;
        group_rounds bound signals conn_tx
      end
    end
  end.

Definition linux_accept_loop (conn : handle) (iface_path : rstring) (conn_tx : nat) :
    linux_prog unit :=
  r ← call (ProxyNew conn WPA_SERVICE (str_bytes iface_path) WPA_IFACE);
  match r with
  | inl _ => Ret tt
  | inr proxy =>
    r ← call (ReceiveSignal proxy "P2PGroupStarted");
    match r with
    | inl _ => Ret tt
    | inr signals => bound ← call LinuxLoopBound; group_rounds bound signals conn_tx
    end
  end ;;
  drop_conn_tx conn_tx.

Definition listen_task (bind_addr : SocketAddr) (tx : nat) : linux_prog unit :=
  r ← call (TcpBind bind_addr);
  match r with
  | inl _ => Ret tt
  | inr listener =>
    r ← call (TcpAccept listener);
    match r with
    | inl _ => Ret tt
    | inr stream => modify (λ s, set_conns s (alter (mpsc_send stream) tx (w_conns s)))
    end
  end ;;
  drop_conn_tx tx.

Definition linux_body (t : linux_task) : linux_prog unit :=
  match t with
  | AcceptLoop conn iface_path conn_tx => linux_accept_loop conn iface_path conn_tx
  | Listen bind_addr tx => listen_task bind_addr tx
  | Discover tx => unwinding (drop_ann_tx tx) (linux_discover_task tx)
  end.

(** ** [stop] while [accept] waits *)

(** The situation: [accept] holds the guard of [conn_rx] and waits on the channel [rx],
    which is empty and whose sender in [linux_accept_loop] is alive. *)
Definition waiting_on (rx : nat) (s : wifi_state LinuxState) : Prop :=
  w_conn_rx s = Some rx ∧ w_conn_rx_held s = true ∧
  ∃ c, w_conns s !! rx = Some c ∧ m_items c = [] ∧ 0 < m_senders c.

(** wpa_supplicant answers and keeps its signal streams open, and no group forms in
    which this node is the owner; loops are given at least one round. *)
Definition no_owned_group (X : Type) (e : linux_op X) : X → Prop :=
  match e in linux_op X return X → Prop with
  | ProxyNew _ _ _ _ => λ r, ∃ h, r = inr h
  | ReceiveSignal _ _ => λ r, ∃ h, r = inr h
  | NextGroup _ => λ msg,
      match msg with
      | None => False
      | Some (inl _) => True
      | Some (inr ps) => group_bind_addr ps = None
      end
  | LinuxLoopBound => λ n, 0 < n
  | _ => λ _, True
  end.

Section blocked.
Context (rx : nat).

Abbreviation quiet p Q := (safe_under no_owned_group (waiting_on rx) (λ _ : linux_task, False) p Q).

Lemma quiet_recv_conn bound Q : quiet (recv_conn wifi_rx LinuxWait bound rx) Q.
Proof.
  induction bound as [|bound IH]; [done|]. cbn [recv_conn]. apply safe_under_bind.
  intros s Hs. pose proof Hs as (Hrx & Hheld & [q n r] & Hc & Hq & Hn). cbn in Hq, Hn. subst q.
  cbn [wifi_rx g_poll]. unfold mpsc_poll. rewrite Hc. destruct n as [|n]; [lia|]. cbn. split; [by destruct s|].
  intros [] _. apply IH.
Qed.

Lemma quiet_group_rounds bound signals tx Q : quiet (group_rounds bound signals tx) Q.
Proof.
  revert Q. induction bound as [|bound IH]; intros Q; [done|]. cbn [group_rounds bind call].
  intros [[e|ps]|] HR; cbn in HR; [apply IH| |done]. rewrite HR. apply IH.
Qed.

Lemma quiet_stop Q : quiet linux_stop Q.
Proof.
  unfold linux_stop. apply safe_under_bind. intros s Hs. split; [by destruct s|].
  cbn [fst]. apply safe_under_bind. cbn. intros bound _.
  apply lock_wait_blocks. by intros s' (_ & ? & _).
Qed.

Lemma quiet_accept_loop conn iface Q : quiet (linux_accept_loop conn iface rx) Q.
Proof.
  unfold linux_accept_loop. apply safe_under_bind. cbn. intros ? [proxy ->]. cbn.
  intros ? [signals ->]. cbn. intros bound _. apply safe_under_bind, quiet_group_rounds.
Qed.

Lemma quiet_waiting Q :
  quiet (bound ← call LinuxLoopBound;
         c ← recv_conn wifi_rx LinuxWait bound rx;
         release_conn_rx wifi_rx ;;
         Ret (ok_or c (ETransport "WiFi Direct: accept channel closed"))) Q.
Proof. cbn. intros bound _. apply safe_under_bind, quiet_recv_conn. Qed.
End blocked.

(** ** [start] *)

Lemma short_prefix identity :
  ∃ prefix short,
    slice (array_to_list (PeerId_as_bytes (peer_id identity))) 0 8 = Val prefix ∧
    try_into_expect 8 prefix = Val short.
Proof.
  set (l := array_to_list (PeerId_as_bytes (peer_id identity))).
  assert (length l = 32) as Hl by apply array_length.
  rewrite slice_Val by lia. destruct (try_into_expect_Val 8 (take 8 l)) as (short & Hs & _).
  - rewrite length_take. lia.
  - by exists (take 8 l), short.
Qed.

Section lifecycle.
Context {W : Type} (answer : ∀ X, linux_op X → W → X * N * W).

Abbreviation lrun := (run answer (λ _ (s : wifi_state LinuxState), s)).

(** A transport that has started: its channel is empty and the accept loop [t] has the
    only sender. *)
Record started (s : wifi_state LinuxState) (t : linux_task) : Prop := {
  sd_state : is_Some (w_state s);
  sd_free : w_conn_rx_held s = false;
  sd_loop : ∃ conn iface rx, t = AcceptLoop conn iface rx ∧ w_conn_rx s = Some rx ∧
    w_conns s !! rx = Some (Mpsc [] 1 true)
}.

(** The receiver the transport holds is a channel of the store. *)
Definition conn_rx_wf (s : wifi_state LinuxState) : Prop :=
  ∀ rx, w_conn_rx s = Some rx → rx < length (w_conns s).

Definition start_outcome (s : wifi_state LinuxState)
    (r : ran (S := wifi_state LinuxState) (T := linux_task) (W := W) (result unit)) : Prop :=
  match r_final r with
  | Returned (Ok _) => ∃ t, r_spawned r = [t] ∧ started (r_shared r) t
  | Returned (Err _) => r_spawned r = [] ∧ r_shared r = s
  | StuckAt w => w = Blocked
  end.

Ltac start_step :=
  match goal with
  | |- start_outcome _ (run _ _ (await_ok ?wrap ?e ?k) ?s ?w) =>
    destruct (await_ok_run answer wrap e k s w) as [(? & ? & ->)|(? & ? & ->)];
    [by split|]
  end.

Lemma linux_start_run identity s w :
  w_conn_rx_held s = false → conn_rx_wf s →
  start_outcome s (lrun (linux_start identity) s w).
Proof.
  intros Hf Hwf. unfold linux_start.
  destruct (short_prefix identity) as (prefix & short & -> & Hs).
  cbn [lift bind]. rewrite Hs. cbn [lift bind].
  start_step. start_step. start_step.
  match goal with |- context [match ?l with _ => _ end] => destruct l as [|iface l] end;
    [by split|].
  unfold p2p_proxy. start_step. start_step. start_step.
  cbn [bind lock modify clone_conn_tx drop_conn_tx spawn run fst snd].
  match goal with |- context [run _ _ (bind (with_conn_rx _ _ _ ?f) ?k) ?s ?w] =>
    destruct (with_conn_rx_run wifi_rx LinuxWait LinuxLoopBound answer f k s w Hf) as [(w' & ->)|(w' & ->)]; [done|] end.
  cbn [bind modify lock run fst snd replace_conn_rx].
  unfold start_outcome. cbn. eexists. split; [done|].
  constructor; cbn; [by destruct (w_conn_rx s)|by destruct (w_conn_rx s)|].
  eexists _, _, (length (w_conns s)). split; [done|]. split; [by destruct (w_conn_rx s)|].
  destruct (w_conn_rx s) as [old|] eqn:Hrx; cbn.
  - pose proof (Hwf old Hrx) as Hold.
    rewrite list_lookup_alter_eq, list_lookup_alter_ne by lia.
    rewrite list_lookup_alter_eq, list_lookup_middle by done. done.
  - rewrite !list_lookup_alter_eq, list_lookup_middle by done. done.
Qed.

Lemma linux_stop_run s w :
  w_conn_rx_held s = false →
  let r := lrun linux_stop s w in
  match r_final r with
  | Returned v => v = Ok tt ∧ w_state (r_shared r) = None ∧ w_conn_rx (r_shared r) = None ∧
      ∀ rx c, w_conn_rx s = Some rx → w_conns s !! rx = Some c →
        w_conns (r_shared r) !! rx = Some (Mpsc [] (m_senders c) false)
  | StuckAt why => why = Blocked
  end.
Proof.
  intros Hf. cbv zeta. unfold linux_stop. cbn [bind modify lock run fst snd].
  match goal with |- context [run _ _ (bind (with_conn_rx _ _ _ ?f) ?k) ?s ?w] =>
    destruct (with_conn_rx_run wifi_rx LinuxWait LinuxLoopBound answer f k s w Hf) as [(w' & ->)|(w' & ->)]; [done|] end.
  cbn. destruct (w_conn_rx s) as [old|] eqn:Hrx; cbn; split_and!; try done.
  intros rx c [= <-] Hc. by rewrite list_lookup_alter_eq, Hc.
Qed.
End lifecycle.

(** Start and stop on Linux, whatever D-Bus and wpa_supplicant answer, while no
    other task holds the guard of [conn_rx]: neither panics. A failed [start] leaves the
    transport as it was and spawns nothing; a successful one leaves an empty channel
    whose only sender is with the accept loop it spawned. [stop] clears the state and
    drops the receiver. *)
Theorem linux_lifecycle {W} (answer : ∀ X, linux_op X → W → X * N * W) s :
  w_conn_rx_held s = false → conn_rx_wf s →
  (∀ identity w, start_outcome s (run answer (λ _ s, s) (linux_start identity) s w)) ∧
  (∀ w, let r := run answer (λ _ s, s) linux_stop s w in
    match r_final r with
    | Returned v => v = Ok tt ∧ w_state (r_shared r) = None ∧ w_conn_rx (r_shared r) = None ∧
        ∀ rx c, w_conn_rx s = Some rx → w_conns s !! rx = Some c →
          w_conns (r_shared r) !! rx = Some (Mpsc [] (m_senders c) false)
    | StuckAt why => why = Blocked
    end).
Proof.
  intros Hf Hwf. split; intros.
  - by apply linux_start_run.
  - by apply linux_stop_run.
Qed.

(** Four steps take [accept] to its wait. *)
Lemma accept_waits {W} (answer : ∀ X, linux_op X → W → X * N * W) s w rx c rest :
  (∀ X (e : linux_op X) w, no_owned_group X e (answer X e w).1.1) →
  w_conn_rx_held s = false → w_conn_rx s = Some rx → w_conns s !! rx = Some c →
  m_items c = [] → 0 < m_senders c →
  ∃ w', exec answer (λ _ s, s) linux_body (replicate 4 (Step 0))
    (Config ((linux_accept ;; Ret tt) :: rest) s w) =
  Config (((bound ← call LinuxLoopBound;
            c ← recv_conn wifi_rx LinuxWait bound rx;
            release_conn_rx wifi_rx ;;
            Ret (ok_or c (ETransport "WiFi Direct: accept channel closed"))) ;; Ret tt) :: rest)
    (set_held s true) w' ∧ waiting_on rx (set_held s true).
Proof.
  intros Ha Hf Hrx Hc Hq Hn. destruct c as [q n r]. cbn in Hq, Hn. subst q.
  pose proof (Ha _ LinuxLoopBound w) as H1.
  destruct (answer _ LinuxLoopBound w) as [[[|n1] d1] w1] eqn:E1; cbn in H1; [lia|].
  pose proof (Ha _ LinuxLoopBound w1) as H2.
  destruct (answer _ LinuxLoopBound w1) as [[[|n2] d2] w2] eqn:E2; cbn in H2; [lia|].
  assert (set_conns s (w_conns s) = s) as Hid by by destruct s.
  exists w2. split.
  - cbn. rewrite E1. cbn. rewrite Hf, Hrx. unfold mpsc_try_recv. rewrite Hc. cbn.
    rewrite Hid, E2. cbn. rewrite Hf, Hrx. cbn. by rewrite !app_nil_r.
  - split_and!; cbn; [done..|]. by eexists.
Qed.

(** C36. [stop] cannot get past a waiting [accept]. A transport is started; [accept]
    runs until it waits for a connection; then tasks are interleaved in any way. As long
    as wpa_supplicant keeps its signal stream open and no group forms in which this node
    is the owner, [stop] never returns, and neither does [accept]: the accept loop's own
    sender keeps the channel open, [accept] keeps the guard, and [stop] waits for it. *)
Theorem linux_stop_hangs {W} (answer : ∀ X, linux_op X → W → X * N * W) identity w sched :
  let r := run answer (λ _ s, s) (linux_start identity) wifi_new w in
  (∀ X (e : linux_op X) w, no_owned_group X e (answer X e w).1.1) →
  r_final r = Returned (Ok tt) →
  let pool := (linux_accept ;; Ret tt) :: (linux_body <$> r_spawned r) ++
              [linux_stop ;; Ret tt] in
  let c := exec answer (λ _ s, s) linux_body (replicate 4 (Step 0) ++ sched)
             (Config pool (r_shared r) (r_env r)) in
  length pool = 3 ∧
  c_pool c !! 0 ≠ Some (Ret tt) ∧ c_pool c !! 2 ≠ Some (Ret tt) ∧
  w_conn_rx_held (c_shared c) = true ∧ is_Some (w_conn_rx (c_shared c)).
Proof.
  intros r Ha Hr.
  assert (start_outcome wifi_new r) as Hs by by apply linux_start_run.
  unfold start_outcome in Hs. rewrite Hr in Hs.
  destruct Hs as (t & -> & [Hst Hf (conn & iface & rx & -> & Hrx & Hc)]).
  cbn [fmap list_fmap app linux_body]. cbv zeta.
  destruct (accept_waits answer (r_shared r) (r_env r) rx _
    [linux_accept_loop conn iface rx; linux_stop ;; Ret tt] Ha Hf Hrx Hc) as (w' & He & Hw);
    [done|cbn; lia|].
  rewrite exec_app, He.
  edestruct (exec_under no_owned_group (waiting_on rx) (λ _, False) answer (λ _ s, s) linux_body
    Ha (λ _ _ H, H) (λ _ H, match H with end) (λ i, 3 ≤ i) sched)
    as ((Hrx' & Hheld & _) & Hp & _).
  2:{ split_and!; [done| | |done|by eexists]; intros Hi; apply Hp in Hi; cbn in Hi; lia. }
  split_and!; [done| |done].
  intros [|[|[|i]]] p Hi; [apply (inj Some) in Hi as <-..|done].
  - apply safe_under_bind, quiet_waiting.
  - apply quiet_accept_loop.
  - apply safe_under_bind, quiet_stop.
Qed.

(** ** [connect] *)

(** A supplicant that forms the group at once, with the properties [ps], and remembers
    the intents it was given and the addresses that were dialled. *)
Record p2p_log := { intents : list Z; dialled : list SocketAddr }.

Definition group_answer (ps : gmap (list byte) dbus_value) (X : Type) (e : linux_op X)
    (w : p2p_log) : X * N * p2p_log :=
  match e in linux_op X return X * N * p2p_log with
  | P2PConnect _ _ go_intent _ =>
    (inr tt, 0%N, {| intents := intents w ++ [go_intent]; dialled := dialled w |})
  | NextGroupTimed _ => (Some (Some (inr ps)), 0%N, w)
  | TcpConnect addr =>
    (inr 0, 0%N, {| intents := intents w; dialled := dialled w ++ [addr] |})
  | LinuxLoopBound => (1, 0%N, w)
  | DbusSystem => (inr 0, 0%N, w)
  | ProxyNew _ _ _ _ => (inr 0, 0%N, w)
  | GetInterfaces _ => (inr [], 0%N, w)
  | ServiceAdd _ _ _ _ => (inr tt, 0%N, w)
  | Find _ => (inr tt, 0%N, w)
  | ReceiveSignal _ _ => (inr 0, 0%N, w)
  | NextPeerFound _ => (None, 0%N, w)
  | NextGroup _ => (None, 0%N, w)
  | TcpBind _ => (inr 0, 0%N, w)
  | TcpAccept _ => (inr 0, 0%N, w)
  | LinuxWait => (tt, 0%N, w)
  end.

Definition connect_to (ps : gmap (list byte) dbus_value) (s : wifi_state LinuxState)
    (device : rstring) (id : option ShortId) :=
  run (group_answer ps) (λ _ s, s)
    (linux_connect {| address := WifiDirect device; short_id := id |}) s
    {| intents := []; dialled := [] |}.

(** The address a group gives the member that dials. *)
Definition group_address (ps : gmap (list byte) dbus_value) (go : bool) : option SocketAddr :=
  match extract_go_ip ps go with
  | Ok ip => parse_socket_addr (with_port ip)
  | Err _ => None
  end.

Lemma connect_to_run ps s st device id :
  w_state s = Some st →
  let go := we_are_go (ls_local_short_id st) id in
  intents (r_env (connect_to ps s device id)) = [if go then 15 else 0]%Z ∧
  dialled (r_env (connect_to ps s device id)) = option_list (group_address ps go) ∧
  r_shared (connect_to ps s device id) = s ∧
  (r_final (connect_to ps s device id) = Returned (Ok 0) ↔ is_Some (group_address ps go)) ∧
  ∃ v, r_final (connect_to ps s device id) = Returned v.
Proof.
  intros Hs go. unfold connect_to, linux_connect, group_address. cbn. rewrite Hs. cbn.
  fold go. unfold dial_group.
  assert (∀ e, Returned (Err e) = Returned (Ok 0) ↔ is_Some (@None SocketAddr)) as Hn.
  { intros e. split; [done|by intros []]. }
  destruct (extract_go_ip ps go) as [ip|e]; cbn; [|by split_and!; eauto].
  destruct (parse_socket_addr (with_port ip)) as [a|]; cbn; split_and!; eauto; by split; eauto.
Qed.

(** C37. Electing the group owner on Linux. Two started nodes with different short
    identifiers that know each other's ask for the group with intents 15 and 0, one
    each; towards a peer whose identifier is unknown a node always asks to be client, so
    two nodes that do not know each other both do. The client then dials the owner's
    address of the group, on port 47808, and the connection is the result. The owner
    does not wait to be dialled: it dials the address the group gives for itself. *)
Theorem group_owner_election ps1 ps2 s1 s2 st1 st2 dev1 dev2 :
  w_state s1 = Some st1 → w_state s2 = Some st2 →
  ls_local_short_id st1 ≠ ls_local_short_id st2 →
  let intent ps s dev id := intents (r_env (connect_to ps s dev id)) in
  ((intent ps1 s1 dev2 (Some (ls_local_short_id st2)) = [15%Z] ∧
    intent ps2 s2 dev1 (Some (ls_local_short_id st1)) = [0%Z]) ∨
   (intent ps1 s1 dev2 (Some (ls_local_short_id st2)) = [0%Z] ∧
    intent ps2 s2 dev1 (Some (ls_local_short_id st1)) = [15%Z])) ∧
  intent ps1 s1 dev2 None = [0%Z] ∧ intent ps2 s2 dev1 None = [0%Z] ∧
  ∀ id ip text,
    let go := we_are_go (ls_local_short_id st1) id in
    get_str ps1 (ascii_bytes (if go then "ip_addr" else "ip_addr_go")) = Some text →
    str_bytes text = show_ipv4 ip →
    dialled (r_env (connect_to ps1 s1 dev2 id)) = [V4 ip WIFI_DIRECT_PORT] ∧
    r_final (connect_to ps1 s1 dev2 id) = Returned (Ok 0).
Proof.
  intros H1 H2 Hne intent.
  pose proof (connect_to_run ps1 s1 st1 dev2 (Some (ls_local_short_id st2)) H1) as [I1 _].
  pose proof (connect_to_run ps2 s2 st2 dev1 (Some (ls_local_short_id st1)) H2) as [I2 _].
  rewrite (we_are_go_total _ _ Hne) in I1.
  split_and!.
  - unfold intent. rewrite I1, I2. destruct (we_are_go _ _); auto.
  - apply (connect_to_run ps1 s1 st1 dev2 None H1).
  - apply (connect_to_run ps2 s2 st2 dev1 None H2).
  - intros id ip text go Ht Hip.
    destruct (connect_to_run ps1 s1 st1 dev2 id H1) as (_ & Hd & _ & Hf & _). fold go in Hd, Hf.
    assert (group_address ps1 go = Some (V4 ip WIFI_DIRECT_PORT)) as Hg.
    { unfold group_address, extract_go_ip. rewrite Ht. by apply parse_with_port. }
    rewrite Hg in Hd, Hf. split; [done|]. by apply Hf.
Qed.
