(* ===== verification/WifiWindows.v ===== *)
(** * WiFi Direct on Windows ([crates/pathweave-transport-wifi-direct/src/windows.rs])

    WinRT objects are handles of the environment. The [ConnectionRequested] callback,
    which WinRT invokes on its own threads, is a task that asks for the next invocation
    and ends when the listener is released. *)

From S2P Require Import Prelude RustStd Types Effects NetAddr Channels Advertising Framing WifiDirect.

Abbreviation handle := nat (only parsing).

Inductive winrt_op : Type → Type :=
| PublisherNew : winrt_op (string + handle)
| ListenerNew : winrt_op (string + handle)
| OnConnectionRequested (listener : handle) : winrt_op (string + unit)
| PublisherStart (publisher : handle) : winrt_op (string + unit)
| PublisherStop (publisher : handle) : winrt_op (string + unit)
| ListenerRelease (listener : handle) : winrt_op unit
(** The next invocation of the callback: its argument may be missing, and so may the
    request and the device in it. *)
| NextRequest (listener : handle) : winrt_op (option (option (string + (string + handle))))
| GetDeviceSelector : winrt_op (string + handle)
| FindAll (selector : handle) : winrt_op (string + handle)
| DevicesSize (devices : handle) : winrt_op (string + nat)
| DeviceAt (devices : handle) (i : nat) : winrt_op (string + handle)
| DeviceId (device : handle) : winrt_op (string + rstring)
| DeviceName (device : handle) : winrt_op (string + rstring)
| FromId (id : rstring) : winrt_op (string + handle)
| EndpointPairs (device : handle) : winrt_op (string + handle)
| FirstPair (pairs : handle) : winrt_op (string + handle)
| RemoteHostName (pair : handle) : winrt_op (string + handle)
| LocalHostName (pair : handle) : winrt_op (string + handle)
| DisplayName (host : handle) : winrt_op (string + rstring)
| WinTcpConnect (addr : SocketAddr) : winrt_op (string + stream)
| WinTcpBind (addr : SocketAddr) : winrt_op (string + handle)
| WinTcpAccept (listener : handle) : winrt_op (string + stream)
| WinWait : winrt_op unit
| WinLoopBound : winrt_op nat.

(** [stop_tx] is the index of a oneshot sender. *)
Record WindowsState := { ws_stop_tx : nat; ws_local_short_id : ShortId }.

Inductive win_task :=
| PublisherThread (conn_tx stop_rx : nat)
| ConnectionRequested (listener : handle) (tx : nat)
| HandleIncoming (device : handle) (tx : nat)
| WinDiscover (tx : nat).

Abbreviation win_prog := (prog (wifi_state WindowsState) winrt_op win_task).

Definition win_drop_tx (tx : nat) : win_prog unit :=
  modify (λ s, set_conns s (alter mpsc_drop_tx tx (w_conns s))).

Definition win_clone_tx (tx : nat) : win_prog unit :=
  modify (λ s, set_conns s (alter mpsc_clone tx (w_conns s))).

(** [*inner.state.lock().await = o]: the old state's [_stop_tx] is dropped with it. *)
Definition replace_state (o : option WindowsState) (s : wifi_state WindowsState) :
    wifi_state WindowsState :=
  set_w_state
    (match w_state s with
     | Some old => set_oneshots s (<[ws_stop_tx old := false]> (w_oneshots s))
     | None => s
     end) o.

(** ** [start], [stop] and the publisher's thread *)

Definition windows_start (identity : NodeIdentity) : win_prog (result unit) :=
  prefix ← lift (slice (array_to_list (PeerId_as_bytes (peer_id identity))) 0 8);
  local_short_id ← lift (try_into_expect 8 prefix);
  conn_tx ← lock (λ s, (length (w_conns s), set_conns s (w_conns s ++ [mpsc_new])));
  stop_tx ← lock (λ s, (length (w_oneshots s), set_oneshots s (w_oneshots s ++ [true])));
  win_clone_tx conn_tx ;;
  spawn (PublisherThread conn_tx stop_tx) ;;
  modify (replace_state (Some {| ws_stop_tx := stop_tx;
                                 ws_local_short_id := local_short_id |})) ;;
  with_conn_rx wifi_rx WinWait WinLoopBound (replace_conn_rx (Some conn_tx)) ;;
  win_drop_tx conn_tx ;;
  Ret (Ok tt).

Definition windows_stop : win_prog (result unit) :=
  modify (replace_state None) ;;
  with_conn_rx wifi_rx WinWait WinLoopBound (replace_conn_rx None) ;;
  Ret (Ok tt).

(** [stop_rx.blocking_recv()]: nothing is ever sent, so it ends with the sender. *)
Fixpoint await_stop (bound : nat) (stop_rx : nat) : win_prog unit :=
  match bound with
  | O => Stuck Blocked
  | S bound =>
    alive ← read (λ s, default false (w_oneshots s !! stop_rx));
    if (alive : bool) then call WinWait ;; await_stop bound stop_rx else Ret tt
  end.

(** From the publisher on; the listener is released when the thread ends. *)
Definition publish (publisher listener conn_tx stop_rx : nat) : win_prog unit :=
  win_clone_tx conn_tx ;;
  r ← call (OnConnectionRequested listener);
  match r with
  | inl _ => win_drop_tx conn_tx
  | inr _ =>
    spawn (ConnectionRequested listener conn_tx) ;;
    r ← call (PublisherStart publisher);
    match r with
    | inl _ => Ret tt
    | inr _ =>
      bound ← call WinLoopBound;
      await_stop bound stop_rx ;;
      call (PublisherStop publisher) ;;
      Ret tt
    end
  end ;;
  call (ListenerRelease listener).

Definition publisher_thread (conn_tx stop_rx : nat) : win_prog unit :=
  r ← call PublisherNew;
  match r with
  | inl _ => Ret tt
  | inr publisher =>
    r ← call ListenerNew;
    match r with
    | inl _ => Ret tt
    | inr listener => publish publisher listener conn_tx stop_rx
    end
  end ;;
  win_drop_tx conn_tx.

(** The callback. *)
Fixpoint request_rounds (bound : nat) (listener tx : nat) : win_prog unit :=
  match bound with
  | O => Stuck Blocked
  | S bound =>
    args ← call (NextRequest listener);
    match args with
    | None => win_drop_tx tx
    | Some (Some (inr (inr device_info))) =>
      win_clone_tx tx ;;
      spawn (HandleIncoming device_info tx) ;;
      request_rounds bound listener tx
    | Some _ => request_rounds bound listener tx
    end
  end.

(** ** [accept] and incoming connections *)

Definition windows_accept : win_prog (result stream) := wifi_accept WinWait WinLoopBound.

(** Both ends find the address of the link the same way, up to the host they ask for. *)
Definition endpoint_host {B} (open_error pairs_error host_error : string) (id : rstring)
    (host : handle → winrt_op (string + handle)) (k : rstring → win_prog (result B)) :
    win_prog (result B) :=
  await_ok (transport_error open_error) (FromId id) (λ wifi_device,
  await_ok (transport_error pairs_error) (EndpointPairs wifi_device) (λ endpoints,
  await_ok (transport_error "no endpoint pairs") (FirstPair endpoints) (λ ep,
  await_ok (transport_error host_error) (host ep) (λ hostname,
  await_ok (transport_error "DisplayName failed") (DisplayName hostname) k)))).

Definition windows_handle_incoming (device_info : handle) (conn_tx : nat) : win_prog (result unit) :=
  await_ok (transport_error "device Id failed") (DeviceId device_info) (λ id,
  endpoint_host "FromIdAsync (incoming) failed" "GetConnectionEndpointPairs"
    "LocalHostName failed" id LocalHostName (λ local_ip,
  match parse_socket_addr (with_port local_ip) with
  | None =>
    Ret (Err (ETransport ("WiFi Direct: invalid local IP '" +:+
      show_bytes (str_bytes local_ip) +:+ "': " +:+ ADDR_PARSE_ERROR)))
  | Some bind_addr =>
    await_ok (transport_error "TCP bind failed") (WinTcpBind bind_addr) (λ listener,
    await_ok (transport_error "TCP accept failed") (WinTcpAccept listener) (λ stream,
    modify (λ s, set_conns s (alter (mpsc_send stream) conn_tx (w_conns s))) ;;
    Ret (Ok tt)))
  end)).

(** ** [discover] *)

(** The loop of [enumerate_peers], with [todo] devices to go from index [i]. *)
Fixpoint enumerate_from (todo i : nat) (devices : handle) (local : option ShortId)
    (out : list PeerAnnouncement) : win_prog (list PeerAnnouncement) :=
  match todo with
  | O => Ret out
  | S todo =>
    r ← call (DeviceAt devices i);
    match r with
    | inl _ => enumerate_from todo (S i) devices local out
    | inr device =>
      r ← call (DeviceId device);
      match r with
      | inl _ => enumerate_from todo (S i) devices local out
      | inr id_str =>
        r ← call (DeviceName device);
        short ← lift (match r with
                      | inl _ => Val None
                      | inr name => parse_short_id_from_name name
                      end);
        if decide (is_Some local ∧ local = short)
        then enumerate_from todo (S i) devices local out
        else
          enumerate_from todo (S i) devices local
            (out ++ [{| address := WifiDirect id_str; short_id := short |}])
      end
    end
  end.

Definition enumerate_peers (local : option ShortId) : win_prog (list PeerAnnouncement) :=
  r ← call GetDeviceSelector;
  match r with
  | inl _ => Ret []
  | inr selector =>
    r ← call (FindAll selector);
    match r with
    | inl _ => Ret []
    | inr devices =>
      r ← call (DevicesSize devices);
      enumerate_from (match r with inr count => count | inl _ => 0 end) 0 devices local []
    end
  end.

Fixpoint send_anns (tx : nat) (anns : list PeerAnnouncement) : win_prog unit :=
  match anns with
  | [] => Ret tt
  | ann :: anns =>
    err ← lock (λ s, (send_fails (w_anns s) tx,
                      set_anns s (alter (mpsc_send ann) tx (w_anns s))));
    if (err : bool) then Ret tt else send_anns tx anns
  end.

Definition drop_ann (tx : nat) : win_prog unit :=
  modify (λ s, set_anns s (alter mpsc_drop_tx tx (w_anns s))).

Definition win_discover_task (tx : nat) : win_prog unit :=
  local ← read (λ s, option_map ws_local_short_id (w_state s));
  anns ← enumerate_peers local;
  send_anns tx anns ;;
  drop_ann tx.

Definition windows_discover : win_prog nat :=
  tx ← lock (λ s, (length (w_anns s), set_anns s (w_anns s ++ [mpsc_new])));
  spawn (WinDiscover tx) ;;
  Ret tx.

(** ** [connect] *)

Definition windows_connect (peer : PeerAnnouncement) : win_prog (result stream) :=
  match address peer with
  | WifiDirect device_id =>
    local ← read (λ s, option_map ws_local_short_id (w_state s));
    match local with
    | None => Ret (Err (ETransport "WiFi Direct transport not started"))
    | Some local_short_id =>
      if we_are_go local_short_id (short_id peer) then
        Ret (Err (ETransport "WiFi Direct: this node is GO — the remote side will initiate; the router should call accept() to receive the inbound connection"))
      else
        endpoint_host "WiFiDirectDevice::FromIdAsync failed" "GetConnectionEndpointPairs failed"
          "RemoteHostName failed" device_id RemoteHostName (λ remote_ip,
        match parse_socket_addr (with_port remote_ip) with
        | None =>
          Ret (Err (ETransport ("WiFi Direct: invalid remote IP '" +:+
            show_bytes (str_bytes remote_ip) +:+ "': " +:+ ADDR_PARSE_ERROR)))
        | Some addr =>
          await_ok (transport_error "WiFi Direct TCP connect failed") (WinTcpConnect addr)
            (λ stream, Ret (Ok stream))
        end)
    end
  | _ => Ret (Err (ETransport "WiFi Direct connect: wrong address type"))
  end.

Definition win_body (t : win_task) : win_prog unit :=
  match t with
  | PublisherThread conn_tx stop_rx => publisher_thread conn_tx stop_rx
  | ConnectionRequested listener tx =>
    bound ← call WinLoopBound; request_rounds bound listener tx
  | HandleIncoming device tx => windows_handle_incoming device tx ;; win_drop_tx tx
  | WinDiscover tx => unwinding (drop_ann tx) (win_discover_task tx)
  end.

(** ** Roles *)

Section roles.
Context {W : Type} (answer : ∀ X, winrt_op X → W → X * N * W).

Abbreviation wrun := (run answer (λ _ (s : wifi_state WindowsState), s)).

(** Returns without touching the transport's state. *)
Definition quiet_result (s : wifi_state WindowsState)
    (r : ran (S := wifi_state WindowsState) (T := win_task) (W := W) (result stream)) : Prop :=
  (∃ v, r_final r = Returned v) ∧ r_shared r = s ∧ r_spawned r = [].

Ltac dial_step :=
  match goal with
  | |- quiet_result _ (run _ _ (await_ok ?wrap ?e ?k) ?s ?w) =>
    destruct (await_ok_run answer wrap e k s w) as [(? & ? & ->)|(? & ? & ->)];
    [by split_and!; eauto|]
  end.

Lemma windows_connect_quiet peer s w : quiet_result s (wrun (windows_connect peer) s w).
Proof.
  unfold windows_connect. destruct (address peer) as [| |device|]; try by split_and!; eauto.
  cbn [bind read lock run fst snd].
  destruct (option_map ws_local_short_id (w_state s)) as [local|]; [|by split_and!; eauto].
  destruct (we_are_go local (short_id peer)); [by split_and!; eauto|].
  unfold endpoint_host. dial_step. dial_step. dial_step. dial_step. dial_step.
  destruct (parse_socket_addr _); [|by split_and!; eauto].
  dial_step. by split_and!; eauto.
Qed.
End roles.

(** A WinRT that connects, answers every lookup with the remote host's address, and
    remembers which devices were opened and which addresses were dialled. *)
Record win_log := { opened : list rstring; win_dialled : list SocketAddr }.

Definition link_answer (host : rstring) (X : Type) (e : winrt_op X) (w : win_log) :
    X * N * win_log :=
  match e in winrt_op X return X * N * win_log with
  | FromId id => (inr 0, 0%N, {| opened := opened w ++ [id]; win_dialled := win_dialled w |})
  | WinTcpConnect addr =>
    (inr 0, 0%N, {| opened := opened w; win_dialled := win_dialled w ++ [addr] |})
  | DisplayName _ => (inr host, 0%N, w)
  | PublisherNew => (inr 0, 0%N, w)
  | ListenerNew => (inr 0, 0%N, w)
  | OnConnectionRequested _ => (inr tt, 0%N, w)
  | PublisherStart _ => (inr tt, 0%N, w)
  | PublisherStop _ => (inr tt, 0%N, w)
  | ListenerRelease _ => (tt, 0%N, w)
  | NextRequest _ => (None, 0%N, w)
  | GetDeviceSelector => (inr 0, 0%N, w)
  | FindAll _ => (inr 0, 0%N, w)
  | DevicesSize _ => (inr 0, 0%N, w)
  | DeviceAt _ _ => (inr 0, 0%N, w)
  | DeviceId _ => (inr host, 0%N, w)
  | DeviceName _ => (inr host, 0%N, w)
  | EndpointPairs _ => (inr 0, 0%N, w)
  | FirstPair _ => (inr 0, 0%N, w)
  | RemoteHostName _ => (inr 0, 0%N, w)
  | LocalHostName _ => (inr 0, 0%N, w)
  | WinTcpBind _ => (inr 0, 0%N, w)
  | WinTcpAccept _ => (inr 0, 0%N, w)
  | WinWait => (tt, 0%N, w)
  | WinLoopBound => (1, 0%N, w)
  end.

Definition win_connect_to (host : rstring) (s : wifi_state WindowsState) (device : rstring)
    (id : option ShortId) :=
  run (link_answer host) (λ _ s, s)
    (windows_connect {| address := WifiDirect device; short_id := id |}) s
    {| opened := []; win_dialled := [] |}.

Lemma win_connect_run host ip s st device id :
  w_state s = Some st → str_bytes host = show_ipv4 ip →
  let r := win_connect_to host s device id in
  if we_are_go (ws_local_short_id st) id
  then opened (r_env r) = [] ∧ win_dialled (r_env r) = [] ∧
       ∃ msg, r_final r = Returned (Err (ETransport msg))
  else opened (r_env r) = [device] ∧ win_dialled (r_env r) = [V4 ip WIFI_DIRECT_PORT] ∧
       r_final r = Returned (Ok 0).
Proof.
  intros Hs Hip. cbv zeta. unfold win_connect_to, windows_connect. cbn. rewrite Hs. cbn.
  destruct (we_are_go (ws_local_short_id st) id); [by eauto|].
  cbn. by rewrite (parse_with_port host ip Hip).
Qed.

(** Roles on Windows. [connect] always returns, and never touches the transport's
    state. Of two started nodes with different short identifiers that know each other's,
    exactly one opens the other's device and dials its address on port 47808; the other,
    the owner, fails without calling WinRT at all. A node that does not know the peer's
    identifier dials. *)
Theorem windows_roles host1 host2 ip1 ip2 s1 s2 st1 st2 dev1 dev2 :
  w_state s1 = Some st1 → w_state s2 = Some st2 →
  ws_local_short_id st1 ≠ ws_local_short_id st2 →
  str_bytes host1 = show_ipv4 ip1 → str_bytes host2 = show_ipv4 ip2 →
  let r1 := win_connect_to host2 s1 dev2 (Some (ws_local_short_id st2)) in
  let r2 := win_connect_to host1 s2 dev1 (Some (ws_local_short_id st1)) in
  ((win_dialled (r_env r1) = [V4 ip2 WIFI_DIRECT_PORT] ∧ r_final r1 = Returned (Ok 0) ∧
    opened (r_env r2) = [] ∧ win_dialled (r_env r2) = []) ∨
   (win_dialled (r_env r2) = [V4 ip1 WIFI_DIRECT_PORT] ∧ r_final r2 = Returned (Ok 0) ∧
    opened (r_env r1) = [] ∧ win_dialled (r_env r1) = [])) ∧
  r_final (win_connect_to host2 s1 dev2 None) = Returned (Ok 0) ∧
  (∀ W (answer : ∀ X, winrt_op X → W → X * N * W) peer w,
     quiet_result s1 (run answer (λ _ s, s) (windows_connect peer) s1 w)).
Proof.
  intros H1 H2 Hne Hh1 Hh2 r1 r2.
  pose proof (win_connect_run host2 ip2 s1 st1 dev2 (Some (ws_local_short_id st2)) H1 Hh2) as I1.
  pose proof (win_connect_run host1 ip1 s2 st2 dev1 (Some (ws_local_short_id st1)) H2 Hh1) as I2.
  rewrite (we_are_go_total _ _ Hne) in I1. cbv zeta in I1, I2. fold r1 in I1. fold r2 in I2.
  split_and!.
  - destruct (we_are_go (ws_local_short_id st2) (Some (ws_local_short_id st1)));
      destruct I1 as (? & ? & ?), I2 as (? & ? & ?); auto.
  - apply (win_connect_run host2 ip2 s1 st1 dev2 None H1 Hh2).
  - intros. apply windows_connect_quiet.
Qed.

(** ** [stop] while [accept] waits *)

(** A WinRT whose publisher works; the callback ends once the listener is released. *)
Definition publisher_answer (X : Type) (e : winrt_op X) (released : bool) : X * N * bool :=
  match e in winrt_op X return X * N * bool with
  | ListenerRelease _ => (tt, 0%N, true)
  | NextRequest _ => (if released then None else Some None, 0%N, released)
  | WinLoopBound => (100, 0%N, released)
  | FromId _ => (inl ""%string, 0%N, released)
  | WinTcpConnect _ => (inl ""%string, 0%N, released)
  | DisplayName _ => (inl ""%string, 0%N, released)
  | PublisherNew => (inr 0, 0%N, released)
  | ListenerNew => (inr 0, 0%N, released)
  | OnConnectionRequested _ => (inr tt, 0%N, released)
  | PublisherStart _ => (inr tt, 0%N, released)
  | PublisherStop _ => (inr tt, 0%N, released)
  | GetDeviceSelector => (inl ""%string, 0%N, released)
  | FindAll _ => (inl ""%string, 0%N, released)
  | DevicesSize _ => (inl ""%string, 0%N, released)
  | DeviceAt _ _ => (inl ""%string, 0%N, released)
  | DeviceId _ => (inl ""%string, 0%N, released)
  | DeviceName _ => (inl ""%string, 0%N, released)
  | EndpointPairs _ => (inl ""%string, 0%N, released)
  | FirstPair _ => (inl ""%string, 0%N, released)
  | RemoteHostName _ => (inl ""%string, 0%N, released)
  | LocalHostName _ => (inl ""%string, 0%N, released)
  | WinTcpBind _ => (inl ""%string, 0%N, released)
  | WinTcpAccept _ => (inl ""%string, 0%N, released)
  | WinWait => (tt, 0%N, released)
  end.

Definition one_round (n : nat) : list choice := Step <$> seq 0 n.

(** Scheduling the tasks in turn: [stop] drops the state, which ends the publisher's
    thread; with it and its callback the last senders go, so the waiting [accept] gets
    its error, releases the guard, and [stop] returns. (On Linux it does not:
    [WifiLinux.linux_stop_hangs].) *)
Example windows_stop_returns :
  let id := {| private_key := []; public_key := [];
               peer_id := PeerId_from_bytes (array_of_byte 32 x00) |} in
  let r := run publisher_answer (λ _ s, s) (windows_start id) wifi_new false in
  let c := exec publisher_answer (λ _ s, s) win_body
    (replicate 6 (Step 0) ++ mjoin (replicate 25 (one_round 4)))
    (Config ((windows_accept ;; Ret tt) :: (win_body <$> r_spawned r) ++
             [windows_stop ;; Ret tt]) (r_shared r) (r_env r)) in
  c_pool c = [Ret tt; Ret tt; Ret tt; Ret tt] ∧
  w_state (c_shared c) = None ∧ w_conn_rx (c_shared c) = None.
Proof. by vm_compute. Qed.
