(* ===== verification/Ble.v ===== *)
(** * The BLE GATT transport ([crates/pathweave-transport-ble/src/lib.rs])

    A node is a central (it scans, connects and writes to a characteristic) and a
    peripheral (it serves the same characteristics). The Bluetooth stacks (btleplug,
    bluer, WinRT, CoreBluetooth) are the environment. The peripheral's side is a task per
    platform that bridges the stack's events to channels; the channels, the cells
    ([write_forward]) and the one-shot stop signals are stores, named by index.

    [adapter] and [conn_rx] are mutexes that [stop] and [accept] hold across awaits, so
    their guards are flags of the state. *)

From S2P Require Import Prelude RustStd Types Effects Channels.

Abbreviation ShortId := (array 8).
Abbreviation Uuid := (array 16).
Abbreviation handle := nat (only parsing).

Definition PATHWEAVE_SERVICE_UUID : Uuid :=
  Array (n := 16) [x82; xdf; xc0; xba; xe2; xb5; x4e; x65; xad; x11; xc7; x23; x8c; xa5; x45; xc9] eq_refl.
Definition WRITE_CHAR_UUID : Uuid :=
  Array (n := 16) [x34; x39; x99; x2c; x84; x53; x4c; xa3; x96; x88; x63; x9e; xf5; xf6; xf5; xdc] eq_refl.
Definition NOTIFY_CHAR_UUID : Uuid :=
  Array (n := 16) [x6d; xe6; x33; x78; x8b; xc3; x4e; x87; x88; x92; x0a; x9a; x80; xef; xff; x64] eq_refl.

Definition ADVERTISEMENT_VERSION : byte := x01.

(** ** Service data: a version byte and the short identifier *)

Definition service_data_payload (short_id : ShortId) : list byte :=
  ADVERTISEMENT_VERSION :: array_to_list short_id.

Definition parse_service_data (data : list byte) : rust (option ShortId) :=
  if length data <? 9 then Val None
  else
    let! version := index data 0 in
    if decide (version ≠ ADVERTISEMENT_VERSION) then Val None
    else
      let! bytes := slice data 1 9 in
      let! short_id := try_into_expect 8 bytes in
      Val (Some short_id).

(** ** State *)

Record BlePeripheralConnection := { write_rx : nat; reply_tx : nat }.

(** What keeps the peripheral running: bluer's handles, or the sender of a stop signal. *)
Inductive BlePeripheralState :=
| BluerHandles (adv_handle app_handle : handle)
| StopSignal (stop_tx : nat).

Record ble_state := {
  b_adapter : option handle;
  b_adapter_held : bool;
  b_peripheral : option BlePeripheralState;
  b_conn_rx : option nat;
  b_conn_rx_held : bool;
  (** Channels: connections for [accept], frames, announcements, subscriptions. *)
  b_conns : list (mpsc BlePeripheralConnection);
  b_frames : list (mpsc (list byte));
  b_anns : list (mpsc PeerAnnouncement);
  b_signals : list (mpsc unit);
  (** [write_forward] cells, holding a sender of [b_frames]. *)
  b_forwards : list (option nat);
  b_oneshots : list bool
}.

(** [BleTransport::new] *)
Definition ble_new : ble_state := {|
  b_adapter := None; b_adapter_held := false; b_peripheral := None; b_conn_rx := None;
  b_conn_rx_held := false; b_conns := []; b_frames := []; b_anns := []; b_signals := [];
  b_forwards := []; b_oneshots := [] |}.

Section setters.
Context (s : ble_state).

Definition set_b_adapter (o : option handle) (held : bool) : ble_state :=
  {| b_adapter := o; b_adapter_held := held; b_peripheral := b_peripheral s;
     b_conn_rx := b_conn_rx s; b_conn_rx_held := b_conn_rx_held s; b_conns := b_conns s;
     b_frames := b_frames s; b_anns := b_anns s; b_signals := b_signals s;
     b_forwards := b_forwards s; b_oneshots := b_oneshots s |}.

Definition set_b_peripheral (o : option BlePeripheralState) : ble_state :=
  {| b_adapter := b_adapter s; b_adapter_held := b_adapter_held s; b_peripheral := o;
     b_conn_rx := b_conn_rx s; b_conn_rx_held := b_conn_rx_held s; b_conns := b_conns s;
     b_frames := b_frames s; b_anns := b_anns s; b_signals := b_signals s;
     b_forwards := b_forwards s; b_oneshots := b_oneshots s |}.

Definition set_b_conn_rx (o : option nat) (held : bool) : ble_state :=
  {| b_adapter := b_adapter s; b_adapter_held := b_adapter_held s;
     b_peripheral := b_peripheral s; b_conn_rx := o; b_conn_rx_held := held;
     b_conns := b_conns s; b_frames := b_frames s; b_anns := b_anns s;
     b_signals := b_signals s; b_forwards := b_forwards s; b_oneshots := b_oneshots s |}.

Definition set_b_conns (l : list (mpsc BlePeripheralConnection)) : ble_state :=
  {| b_adapter := b_adapter s; b_adapter_held := b_adapter_held s;
     b_peripheral := b_peripheral s; b_conn_rx := b_conn_rx s;
     b_conn_rx_held := b_conn_rx_held s; b_conns := l; b_frames := b_frames s;
     b_anns := b_anns s; b_signals := b_signals s; b_forwards := b_forwards s;
     b_oneshots := b_oneshots s |}.

Definition set_b_frames (l : list (mpsc (list byte))) : ble_state :=
  {| b_adapter := b_adapter s; b_adapter_held := b_adapter_held s;
     b_peripheral := b_peripheral s; b_conn_rx := b_conn_rx s;
     b_conn_rx_held := b_conn_rx_held s; b_conns := b_conns s; b_frames := l;
     b_anns := b_anns s; b_signals := b_signals s; b_forwards := b_forwards s;
     b_oneshots := b_oneshots s |}.

Definition set_b_anns (l : list (mpsc PeerAnnouncement)) : ble_state :=
  {| b_adapter := b_adapter s; b_adapter_held := b_adapter_held s;
     b_peripheral := b_peripheral s; b_conn_rx := b_conn_rx s;
     b_conn_rx_held := b_conn_rx_held s; b_conns := b_conns s; b_frames := b_frames s;
     b_anns := l; b_signals := b_signals s; b_forwards := b_forwards s;
     b_oneshots := b_oneshots s |}.

(** The stores of the callback-driven platforms. *)
Definition set_b_bridge (sig : list (mpsc unit)) (fwd : list (option nat)) (os : list bool) :
    ble_state :=
  {| b_adapter := b_adapter s; b_adapter_held := b_adapter_held s;
     b_peripheral := b_peripheral s; b_conn_rx := b_conn_rx s;
     b_conn_rx_held := b_conn_rx_held s; b_conns := b_conns s; b_frames := b_frames s;
     b_anns := b_anns s; b_signals := sig; b_forwards := fwd; b_oneshots := os |}.
End setters.

(** [conn_rx], as a guarded receiver. *)
Definition ble_rx : guarded_rx ble_state BlePeripheralConnection := {|
  g_held := b_conn_rx_held;
  g_set_held := λ s b, set_b_conn_rx s (b_conn_rx s) b;
  g_rx := b_conn_rx;
  g_poll := λ rx s, let '(r, l) := mpsc_poll (b_conns s) rx in (r, set_b_conns s l) |}.

(** ** Frame channels and connections *)

Definition frames_alter (f : mpsc (list byte) → mpsc (list byte)) (i : nat) (s : ble_state) :
    ble_state := set_b_frames s (alter f i (b_frames s)).

Definition new_frames (s : ble_state) : nat * ble_state :=
  (length (b_frames s), set_b_frames s (b_frames s ++ [mpsc_new])).

(** A connection goes out of scope: its receiver and its sender are dropped. *)
Definition drop_conn (c : BlePeripheralConnection) (s : ble_state) : ble_state :=
  frames_alter mpsc_drop_tx (reply_tx c) (frames_alter mpsc_drop_rx (write_rx c) s).

(** [let _ = conn_tx.send(conn)]: without a receiver the connection is dropped. *)
Definition offer_conn (conn_tx : nat) (c : BlePeripheralConnection) (s : ble_state) : ble_state :=
  if send_fails (b_conns s) conn_tx then drop_conn c s
  else set_b_conns s (alter (mpsc_send c) conn_tx (b_conns s)).

(** A dropped receiver of connections drops what is queued. *)
Definition drop_conn_queue (rx : nat) (s : ble_state) : ble_state :=
  let queued := match b_conns s !! rx with Some c => m_items c | None => [] end in
  foldr drop_conn (set_b_conns s (alter mpsc_drop_rx rx (b_conns s))) queued.

(** [*self.conn_rx.lock().await = o] *)
Definition replace_b_conn_rx (o : option nat) (s : ble_state) : unit * ble_state :=
  let s := match b_conn_rx s with Some old => drop_conn_queue old s | None => s end in
  (tt, set_b_conn_rx s o (b_conn_rx_held s)).

(** ** The environment *)

Record Characteristic := { c_uuid : Uuid; c_write_without_response : bool }.

Record device_props := {
  p_service_data : gmap Uuid (list byte);
  p_services : list Uuid
}.

Inductive CentralEvent :=
| DeviceDiscovered (id : rstring)
| ServiceDataAdvertisement (id : rstring) (service_data : gmap Uuid (list byte))
| ServicesAdvertisement (id : rstring) (services : list Uuid)
| OtherCentralEvent.

(** What a [select!] of a peripheral task may find ready. *)
Inductive gatt_select :=
(** [notify_ctrl.next()]: a subscriber's writer, or anything else. *)
| SelNotify (writer : option handle)
(** [write_ctrl.next()]: a write request, or anything else. *)
| SelWrite (req : option handle)
| SelReply
| SelStop
| SelSubscribe.

(** Calls of the stack into the handlers of Windows (a write that could be read, the new
    number of subscribers) and of macOS (a batch of write requests, a new subscriber). *)
Inductive gatt_callback :=
| WriteRequested (bytes : list byte)
| SubscribedClientsChanged (size : nat)
| DidReceiveWrites (requests : list (option (list byte)))
| DidSubscribe
| OtherCallback.

(** ** Objective-C objects (macOS), by what they are made from *)

Inductive cb_property := PropertyWrite | PropertyNotify.
Inductive cb_permission := Writeable | Readable.

Inductive objc_object :=
(** [MacosPeripheralDelegate::new(bridge)], with the bridge's cell and channel *)
| ODelegate (write_forward subscribe_tx : nat)
| OSerialQueue (label : string)
| OManager (delegate queue : handle)
(** [CBUUID::UUIDWithString], with its temporary string *)
| OUuid (uuid : Uuid)
| OCharacteristic (uuid : handle) (prop : cb_property) (perm : cb_permission)
| OArray (elements : list handle)
| OService (uuid : handle) (primary : bool)
| OString (text : string)
| ODictionary (key value : handle).

Inductive objc_message :=
| SetCharacteristics (service characteristics : handle)
| AddService (manager service : handle)
| ManagerStartAdvertising (manager advertisement : handle)
| UpdateValue (manager characteristic : handle) (bytes : list byte)
| ManagerStopAdvertising (manager : handle)
(** One retain given up: [Retained]'s [Drop]. *)
| Release (object : handle).

Inductive ble_op : Type → Type :=
| ManagerNew : ble_op (string + handle)
| Adapters (manager : handle) : ble_op (string + list handle)
| StopScan (adapter : handle) : ble_op (string + unit)
| StartScan (adapter : handle) (service : Uuid) : ble_op (string + unit)
| AdapterEvents (adapter : handle) : ble_op (string + handle)
| NextEvent (events : handle) : ble_op (option CentralEvent)
| PeripheralOf (adapter : handle) (id : rstring) : ble_op (string + handle)
| Properties (peripheral : handle) : ble_op (string + option device_props)
(** The scan cache, with the identifiers as text. *)
| Peripherals (adapter : handle) : ble_op (string + list (handle * rstring))
| Disconnect (peripheral : handle) : ble_op (string + unit)
| Sleep (duration : Z) : ble_op unit
(** [None] when the ten seconds have elapsed. *)
| ConnectTimed (peripheral : handle) : ble_op (option (string + unit))
| DiscoverServices (peripheral : handle) : ble_op (string + unit)
| Characteristics (peripheral : handle) : ble_op (list Characteristic)
| Subscribe (peripheral : handle) (c : Characteristic) : ble_op (string + unit)
| Notifications (peripheral : handle) : ble_op (string + handle)
| NextNotification (stream : handle) : ble_op (option (list byte))
| WriteChar (peripheral : handle) (c : Characteristic) (bytes : list byte) (with_response : bool) :
    ble_op (string + unit)
(** bluer *)
| BluerSession : ble_op (string + handle)
| DefaultAdapter (session : handle) : ble_op (string + handle)
| ServeGatt (adapter : handle) : ble_op (string + handle)
| AdvertiseService (adapter : handle) (service : Uuid) (data : list byte) : ble_op (string + handle)
| DropHandles (adv_handle app_handle : handle) : ble_op unit
| AcceptWrite (req : handle) : ble_op (string + handle)
| ReadToEnd (reader : handle) : ble_op (string + list byte)
| WriterWrite (writer : handle) (bytes : list byte) : ble_op (string + unit)
(** WinRT: a fallible step of the set-up, the advertisement, and the notification of a
    frame. *)
| GattStep (what : string) : ble_op (string + unit)
| StartAdvertising (data : list byte) : ble_op (string + unit)
| StopAdvertising : ble_op unit
| NotifyValue (bytes : list byte) : ble_op unit
(** Objective-C: a new object (one retain, held by the caller), and a message. *)
| ObjcNew (o : objc_object) : ble_op handle
| ObjcSend (m : objc_message) : ble_op unit
(** [None] once the handlers are gone; macOS answers a batch of requests. *)
| NextCallback : ble_op (option gatt_callback)
| RespondToRequests : ble_op unit
(** Which branch of a [select!] is taken next, if it is ready. *)
| Select : ble_op gatt_select
| BleWait : ble_op unit
| BleLoopBound : ble_op nat.

Inductive ble_task :=
| PeripheralLoop (conn_tx : nat)
| PeripheralTask (conn_tx write_forward subscribe_rx stop_rx : nat)
| MacosPeripheralTask (manager notify_char : handle) (conn_tx write_forward subscribe_rx stop_rx : nat)
| Callbacks (write_forward subscribe_tx : nat)
| DiscoverTask (tx : nat)
| ForwardNotifications (stream : handle) (tx : nat).

Abbreviation ble_prog := (prog ble_state ble_op ble_task).

(** [recv().await] on a channel of frames. *)
Fixpoint await_frame (bound : nat) (rx : nat) : ble_prog (option (list byte)) :=
  match bound with
  | O => Stuck Blocked
  | S bound =>
    r ← lock (λ s, let '(r, l) := mpsc_poll (b_frames s) rx in (r, set_b_frames s l));
    match r with
    | Some r => Ret r
    | None => call BleWait ;; await_frame bound rx
    end
  end.

(** ** [impl Connection for BlePeripheralConnection] *)

Definition peripheral_send_bytes (c : BlePeripheralConnection) (bytes : list byte) :
    ble_prog (result unit) :=
  lock (λ s, (if send_fails (b_frames s) (reply_tx c)
              then Err (ETransport "peripheral reply channel closed") else Ok tt,
              frames_alter (mpsc_send bytes) (reply_tx c) s)).

Definition peripheral_recv_bytes (c : BlePeripheralConnection) : ble_prog (result (list byte)) :=
  bound ← call BleLoopBound;
  r ← await_frame bound (write_rx c);
  Ret (ok_or r (ETransport "peripheral write channel closed")).

Definition peripheral_close (c : BlePeripheralConnection) : ble_prog (result unit) := Ret (Ok tt).

Definition peripheral_drop (c : BlePeripheralConnection) : ble_prog unit := modify (drop_conn c).

Definition ble_mtu : nat := 512.

(** ** [BleConnection], the central's side *)

Record BleConnection := { g_peripheral : handle; g_write_char : Characteristic; g_rx_chan : nat }.

Definition central_send_bytes (c : BleConnection) (bytes : list byte) : ble_prog (result unit) :=
  let with_response := negb (c_write_without_response (g_write_char c)) in
  r ← call (WriteChar (g_peripheral c) (g_write_char c) bytes with_response);
  Ret (map_err ETransport r).

Definition central_recv_bytes (c : BleConnection) : ble_prog (result (list byte)) :=
  bound ← call BleLoopBound;
  r ← await_frame bound (g_rx_chan c);
  Ret (ok_or r (ETransport "BLE notification stream ended")).

Definition central_close (c : BleConnection) : ble_prog (result unit) :=
  r ← call (Disconnect (g_peripheral c)); Ret (map_err ETransport r).

(** The task that feeds the connection's channel. *)
Fixpoint forward_rounds (bound : nat) (stream : handle) (tx : nat) : ble_prog unit :=
  match bound with
  | O => Stuck Blocked
  | S bound =>
    n ← call (NextNotification stream);
    match n with
    | None => Ret tt
    | Some value =>
      err ← lock (λ s, (send_fails (b_frames s) tx, frames_alter (mpsc_send value) tx s));
      if (err : bool) then Ret tt else forward_rounds bound stream tx
    end
  end.

Definition forward_notifications (stream : handle) (tx : nat) : ble_prog unit :=
  bound ← call BleLoopBound;
  forward_rounds bound stream tx ;;
  modify (frames_alter mpsc_drop_tx tx).

(** ** [discover] *)

(** What an event announces. *)
Definition announcement_of (adapter : handle) (event : CentralEvent) :
    ble_prog (option PeerAnnouncement) :=
  let with_data id data :=
    short ← lift (parse_service_data data);
    Ret (match short with
         | Some short => Some {| address := Ble id; short_id := Some short |}
         | None => None
         end) in
  let without_data id := Some {| address := Ble id; short_id := None |} in
  match event with
  | DeviceDiscovered id =>
    r ← call (PeripheralOf adapter id);
    match r with
    | inl _ => Ret None
    | inr peripheral =>
      r ← call (Properties peripheral);
      match r with
      | inr (Some props) =>
        match p_service_data props !! PATHWEAVE_SERVICE_UUID with
        | Some data => with_data id data
        | None =>
          Ret (if decide (PATHWEAVE_SERVICE_UUID ∈ p_services props) then without_data id else None)
        end
      | _ => Ret None
      end
    end
  | ServiceDataAdvertisement id service_data =>
    match service_data !! PATHWEAVE_SERVICE_UUID with
    | None => Ret None
    | Some data => with_data id data
    end
  | ServicesAdvertisement id services =>
    Ret (if decide (PATHWEAVE_SERVICE_UUID ∈ services) then without_data id else None)
  | OtherCentralEvent => Ret None
  end.

Fixpoint scan_rounds (bound : nat) (adapter events : handle) (tx : nat) : ble_prog unit :=
  match bound with
  | O => Stuck Blocked
  | S bound =>
    event ← call (NextEvent events);
    match event with
    | None => Ret tt
    | Some event =>
      ann ← announcement_of adapter event;
      match ann with
      | None => scan_rounds bound adapter events tx
      | Some ann =>
        err ← lock (λ s, (send_fails (b_anns s) tx,
                          set_b_anns s (alter (mpsc_send ann) tx (b_anns s))));
        if (err : bool) then Ret tt else scan_rounds bound adapter events tx
      end
    end
  end.

Definition with_adapter {X} : (ble_state → X * ble_state) → ble_prog X :=
  mutex_lock b_adapter_held BleWait BleLoopBound.

Definition ble_discover_task (tx : nat) : ble_prog unit :=
  adapter ← with_adapter (λ s, (b_adapter s, s));
  match adapter with
  | None => Ret tt
  | Some adapter =>
    r ← call (StartScan adapter PATHWEAVE_SERVICE_UUID);
    match r with
    | inl _ => Ret tt
    | inr _ =>
      r ← call (AdapterEvents adapter);
      match r with
      | inl _ => Ret tt
      | inr events => bound ← call BleLoopBound; scan_rounds bound adapter events tx
      end
    end
  end ;;
  modify (λ s, set_b_anns s (alter mpsc_drop_tx tx (b_anns s))).

Definition ble_discover : ble_prog nat :=
  tx ← lock (λ s, (length (b_anns s), set_b_anns s (b_anns s ++ [mpsc_new])));
  spawn (DiscoverTask tx) ;;
  Ret tx.

(** ** [connect] *)

Definition find_char (uuid : Uuid) (chars : list Characteristic) : option Characteristic :=
  head (filter (λ c, c_uuid c = uuid) chars).

Definition open_central (peripheral : handle) : ble_prog (result BleConnection) :=
  await_ok ETransport (DiscoverServices peripheral) (λ _,
  chars ← call (Characteristics peripheral);
  match find_char WRITE_CHAR_UUID chars with
  | None => Ret (Err (ETransport "write characteristic not found"))
  | Some write_char =>
    match find_char NOTIFY_CHAR_UUID chars with
    | None => Ret (Err (ETransport "notify characteristic not found"))
    | Some notify_char =>
      await_ok ETransport (Subscribe peripheral notify_char) (λ _,
      await_ok ETransport (Notifications peripheral) (λ notifications,
      notify_tx ← lock new_frames;
      spawn (ForwardNotifications notifications notify_tx) ;;
      Ret (Ok {| g_peripheral := peripheral; g_write_char := write_char;
                 g_rx_chan := notify_tx |})))
    end
  end).

Definition ble_connect (peer : PeerAnnouncement) : ble_prog (result BleConnection) :=
  match address peer with
  | Ble id_str =>
    adapter ← with_adapter (λ s, (b_adapter s, s));
    match adapter with
    | None => Ret (Err (ETransport "transport not started"))
    | Some adapter =>
      await_ok ETransport (Peripherals adapter) (λ peripherals,
      match head (filter (λ p, p.2 = id_str) peripherals) with
      | None =>
        Ret (Err (ETransport ("BLE peer " +:+ show_bytes (str_bytes id_str) +:+
          " not in scan cache; discover() must complete first")))
      | Some (peripheral, _) =>
        call (Disconnect peripheral) ;;
        call (Sleep 500000000) ;;
        r ← call (ConnectTimed peripheral);
        match r with
        | None => Ret (Err (ETransport "BLE connect timed out"))
        | Some (inl e) => Ret (Err (ETransport e))
        | Some (inr _) => open_central peripheral
        end
      end)
    end
  | _ => Ret (Err (ETransport "expected BLE address"))
  end.

(** ** [accept] *)

Definition ble_accept : ble_prog (result BlePeripheralConnection) :=
  accept_blocking ble_rx BleWait BleLoopBound "peripheral loop ended" "transport not started".
