(* ===== verification/BlePeripheral.v ===== *)
(** * The BLE peripheral: one task per platform, start and stop
      ([crates/pathweave-transport-ble/src/lib.rs])

    On Linux [peripheral_loop] reads bluer's event streams itself. On Windows and macOS
    the stack calls handlers, which leave frames in the channel of the [write_forward]
    cell and subscriptions in another; the two platforms' tasks differ only in the calls
    that notify and stop. *)

From S2P Require Import Prelude RustStd Types Effects Channels Ble.

(** ** Linux: [peripheral_loop] *)

(** Its local variables besides [reply_rx]. *)
Record loop_vars := { writer : option handle; active_write_tx : option nat }.

(** Dropping or replacing the sender in [active_write_tx]. *)
Definition drop_active (v : loop_vars) : ble_prog unit :=
  match active_write_tx v with
  | Some tx => modify (frames_alter mpsc_drop_tx tx)
  | None => Ret tt
  end.

(** A subscriber: a new connection, unless the last one is still alive. *)
Definition on_notify (conn_tx reply : nat) (v : loop_vars) (w : handle) : ble_prog loop_vars :=
  busy ← read (λ s, match active_write_tx v with
                    | Some tx => negb (send_fails (b_frames s) tx)
                    | None => false
                    end);
  if (busy : bool) then Ret v
  else
    write ← lock new_frames;
    drop_active v ;;
    modify (frames_alter mpsc_clone reply) ;;
    modify (offer_conn conn_tx {| write_rx := write; reply_tx := reply |}) ;;
    Ret {| writer := Some w; active_write_tx := Some write |}.

(** A write request: its bytes go to the connection. *)
Definition on_write (v : loop_vars) (req : handle) : ble_prog loop_vars :=
  r ← call (AcceptWrite req);
  match active_write_tx v, r with
  | Some tx, inr reader =>
    buf ← call (ReadToEnd reader);
    match buf with
    | inl _ => Ret v
    | inr buf =>
      err ← lock (λ s, (send_fails (b_frames s) tx, frames_alter (mpsc_send buf) tx s));
      if (err : bool) then
        drop_active v ;; Ret {| writer := writer v; active_write_tx := None |}
      else Ret v
    end
  | _, _ => Ret v
  end.

(** The branch [reply_rx.recv(), if writer.is_some()]: nothing happens while it is not
    ready. *)
Definition on_reply (reply : nat) (v : loop_vars) : ble_prog loop_vars :=
  match writer v with
  | None => Ret v
  | Some w =>
    data ← lock (λ s, let '(r, l) := mpsc_try_recv (b_frames s) reply in (r, set_b_frames s l));
    match data with
    | None => Ret v
    | Some bytes =>
      r ← call (WriterWrite w bytes);
      match r with
      | inl _ => drop_active v ;; Ret {| writer := None; active_write_tx := None |}
      | inr _ => Ret v
      end
    end
  end.

(** The loop ends when one of the two event streams yields anything else. *)
Fixpoint loop_rounds (bound : nat) (conn_tx reply : nat) (v : loop_vars) : ble_prog loop_vars :=
  match bound with
  | O => Stuck Blocked
  | S bound =>
    branch ← call Select;
    match branch with
    | SelNotify None => Ret v
    | SelWrite None => Ret v
    | SelNotify (Some w) => v ← on_notify conn_tx reply v w; loop_rounds bound conn_tx reply v
    | SelWrite (Some req) => v ← on_write v req; loop_rounds bound conn_tx reply v
    | SelReply => v ← on_reply reply v; loop_rounds bound conn_tx reply v
    | SelStop => loop_rounds bound conn_tx reply v
    | SelSubscribe => loop_rounds bound conn_tx reply v
    end
  end.

Definition drop_b_conn_tx (conn_tx : nat) : ble_prog unit :=
  modify (λ s, set_b_conns s (alter mpsc_drop_tx conn_tx (b_conns s))).

Definition peripheral_loop (conn_tx : nat) : ble_prog unit :=
  reply ← lock new_frames;
  bound ← call BleLoopBound;
  v ← loop_rounds bound conn_tx reply {| writer := None; active_write_tx := None |};
  drop_active v ;;
  modify (frames_alter mpsc_drop_tx reply) ;;
  modify (frames_alter mpsc_drop_rx reply) ;;
  drop_b_conn_tx conn_tx.

(** ** Windows and macOS: the callbacks and the task behind them *)

(** [*write_forward.lock() = o]: the sender it held is dropped. *)
Definition set_forward (cell : nat) (o : option nat) (s : ble_state) : ble_state :=
  let s := match b_forwards s !! cell with
           | Some (Some tx) => frames_alter mpsc_drop_tx tx s
           | _ => s
           end in
  set_b_bridge s (b_signals s) (<[cell := o]> (b_forwards s)) (b_oneshots s).

(** A frame is forwarded to the active connection, or discarded. *)
Definition forward_frame (cell : nat) (bytes : list byte) (s : ble_state) : ble_state :=
  match b_forwards s !! cell with
  | Some (Some tx) => frames_alter (mpsc_send bytes) tx s
  | _ => s
  end.

Definition signal_subscriber (subscribe_tx : nat) (s : ble_state) : ble_state :=
  set_b_bridge s (alter (mpsc_send tt) subscribe_tx (b_signals s)) (b_forwards s) (b_oneshots s).

Definition on_callback (cell subscribe_tx : nat) (c : gatt_callback) : ble_prog unit :=
  match c with
  | WriteRequested bytes => modify (forward_frame cell bytes)
  | SubscribedClientsChanged size =>
    if 0 <? size then modify (signal_subscriber subscribe_tx) else modify (set_forward cell None)
  | DidReceiveWrites requests =>
    modify (λ s, foldl (λ s o, match o with
                               | Some bytes => forward_frame cell bytes s
                               | None => s
                               end) s requests) ;;
    match requests with [] => Ret tt | _ :: _ => call RespondToRequests end
  | DidSubscribe => modify (signal_subscriber subscribe_tx)
  | OtherCallback => Ret tt
  end.

Fixpoint callback_rounds (bound : nat) (cell subscribe_tx : nat) : ble_prog unit :=
  match bound with
  | O => Stuck Blocked
  | S bound =>
    c ← call NextCallback;
    match c with
    | None =>
      modify (λ s, set_b_bridge s (alter mpsc_drop_tx subscribe_tx (b_signals s))
                     (b_forwards s) (b_oneshots s))
    | Some c => on_callback cell subscribe_tx c ;; callback_rounds bound cell subscribe_tx
    end
  end.

(** [stop_rx] has resolved: its sender is gone. *)
Definition stop_fired (stop_rx : nat) (s : ble_state) : bool :=
  negb (default false (b_oneshots s !! stop_rx)).

Definition poll_subscribe (rx : nat) (s : ble_state) : option (option unit) * ble_state :=
  let '(r, l) := mpsc_poll (b_signals s) rx in
  (r, set_b_bridge s l (b_forwards s) (b_oneshots s)).

(** A subscriber while no connection is active: its two channels, the cell, the offer;
    the index of the reply channel. *)
Definition open_connection (conn_tx cell : nat) : ble_prog nat :=
  write ← lock new_frames;
  reply ← lock new_frames;
  modify (set_forward cell (Some write)) ;;
  modify (offer_conn conn_tx {| write_rx := write; reply_tx := reply |}) ;;
  Ret reply.

(** Both loops of the task, which differs between the platforms in how a reply is sent
    ([notify]): [active] is the reply channel of the current connection, or [None] in the
    outer loop; the task's last value of it is returned. A branch that is not ready is not
    taken. *)
Fixpoint task_rounds (notify : list byte → ble_prog unit) (bound : nat)
    (conn_tx cell subscribe_rx stop_rx : nat) (active : option nat) : ble_prog (option nat) :=
  match bound with
  | O => Stuck Blocked
  | S bound =>
    let again := task_rounds notify bound conn_tx cell subscribe_rx stop_rx in
    branch ← call Select;
    match branch, active with
    | SelStop, _ =>
      fired ← read (stop_fired stop_rx);
      if (fired : bool) then Ret active else again active
    | SelSubscribe, None =>
      msg ← lock (poll_subscribe subscribe_rx);
      match msg with
      | None => again None
      | Some None => Ret None
      | Some (Some _) => reply ← open_connection conn_tx cell; again (Some reply)
      end
    | SelSubscribe, Some reply =>
      lock (poll_subscribe subscribe_rx) ;; again (Some reply)
    | SelReply, Some reply =>
      data ← lock (λ s, let '(r, l) := mpsc_poll (b_frames s) reply in (r, set_b_frames s l));
      match data with
      | None => again (Some reply)
      | Some (Some bytes) => notify bytes ;; again (Some reply)
      | Some None =>
        modify (set_forward cell None) ;;
        modify (frames_alter mpsc_drop_rx reply) ;;
        again None
      end
    | _, _ => again active
    end
  end.

(** The receivers and the sender a task owns go when it ends. *)
Definition drop_task (conn_tx subscribe_rx : nat) (active : option nat) : ble_prog unit :=
  match active with
  | Some reply => modify (frames_alter mpsc_drop_rx reply)
  | None => Ret tt
  end ;;
  modify (λ s, set_b_bridge s (alter mpsc_drop_rx subscribe_rx (b_signals s))
                 (b_forwards s) (b_oneshots s)) ;;
  drop_b_conn_tx conn_tx.

(** [windows_peripheral_task] *)
Definition peripheral_task (conn_tx cell subscribe_rx stop_rx : nat) : ble_prog unit :=
  bound ← call BleLoopBound;
  active ← task_rounds (λ bytes, call (NotifyValue bytes)) bound conn_tx cell subscribe_rx stop_rx None;
  modify (set_forward cell None) ;;
  call StopAdvertising ;;
  drop_task conn_tx subscribe_rx active.

Definition macos_peripheral_task (manager notify_char : handle)
    (conn_tx cell subscribe_rx stop_rx : nat) : ble_prog unit :=
  bound ← call BleLoopBound;
  active ← task_rounds (λ bytes, call (ObjcSend (UpdateValue manager notify_char bytes))) bound
             conn_tx cell subscribe_rx stop_rx None;
  modify (set_forward cell None) ;;
  call (ObjcSend (ManagerStopAdvertising manager)) ;;
  call (ObjcSend (Release notify_char)) ;;
  call (ObjcSend (Release manager)) ;;
  drop_task conn_tx subscribe_rx active.

(** ** [start] and [stop] *)

Inductive platform := Linux | Windows | Macos | OtherPlatform.

(** Storing a new peripheral state, or none: the old one's handles or stop signal go. *)
Definition replace_peripheral (o : option BlePeripheralState) : ble_prog unit :=
  old ← lock (λ s, (b_peripheral s,
    set_b_peripheral
      (match b_peripheral s with
       | Some (StopSignal i) =>
         set_b_bridge s (b_signals s) (b_forwards s) (<[i := false]> (b_oneshots s))
       | _ => s
       end) o));
  match old with
  | Some (BluerHandles adv app) => call (DropHandles adv app)
  | _ => Ret tt
  end.

Definition linux_start_peripheral (short : ShortId) : ble_prog (result unit) :=
  await_ok ETransport BluerSession (λ session,
  await_ok ETransport (DefaultAdapter session) (λ adapter,
  await_ok ETransport (ServeGatt adapter) (λ app_handle,
  await_ok ETransport
    (AdvertiseService adapter PATHWEAVE_SERVICE_UUID (service_data_payload short)) (λ adv_handle,
  conn_tx ← lock (λ s, (length (b_conns s), set_b_conns s (b_conns s ++ [mpsc_new])));
  spawn (PeripheralLoop conn_tx) ;;
  with_conn_rx ble_rx BleWait BleLoopBound (replace_b_conn_rx (Some conn_tx)) ;;
  replace_peripheral (Some (BluerHandles adv_handle app_handle)) ;;
  Ret (Ok tt))))).

(** Set-up steps in order, each of which may fail. *)
Fixpoint gatt_steps (steps : list string) (k : ble_prog (result unit)) : ble_prog (result unit) :=
  match steps with
  | [] => k
  | step :: steps => await_ok ETransport (GattStep step) (λ _, gatt_steps steps k)
  end.

Definition windows_setup : list string :=
  ["CreateAsync"; "ServiceProvider"; "Service";
   "write GattLocalCharacteristicParameters"; "write SetCharacteristicProperties";
   "write CreateCharacteristicAsync"; "write Characteristic";
   "notify GattLocalCharacteristicParameters"; "notify SetCharacteristicProperties";
   "notify CreateCharacteristicAsync"; "notify Characteristic";
   "WriteRequested"; "SubscribedClientsChanged"].

Definition windows_advertising_setup : list string :=
  ["bytes_to_ibuffer"; "GattServiceProviderAdvertisingParameters"; "SetIsConnectable";
   "SetIsDiscoverable"; "SetServiceData"].

(** The channels, the cell and the stop signal of a callback-driven peripheral. *)
Definition open_bridge (s : ble_state) : (nat * nat * nat * nat) * ble_state :=
  ((length (b_conns s), length (b_forwards s), length (b_signals s), length (b_oneshots s)),
   set_b_bridge (set_b_conns s (b_conns s ++ [mpsc_new]))
     (b_signals s ++ [mpsc_new]) (b_forwards s ++ [None]) (b_oneshots s ++ [true])).

(** The end of both set-ups. *)
Definition run_bridge (task : ble_task) (conn_tx stop_tx : nat) : ble_prog (result unit) :=
  spawn task ;;
  with_conn_rx ble_rx BleWait BleLoopBound (replace_b_conn_rx (Some conn_tx)) ;;
  replace_peripheral (Some (StopSignal stop_tx)) ;;
  Ret (Ok tt).

Definition windows_start_peripheral (short : ShortId) : ble_prog (result unit) :=
  '(conn_tx, cell, subscribe, stop_tx) ← lock open_bridge;
  gatt_steps windows_setup (
  spawn (Callbacks cell subscribe) ;;
  gatt_steps windows_advertising_setup (
  await_ok ETransport (StartAdvertising (service_data_payload short)) (λ _,
  run_bridge (PeripheralTask conn_tx cell subscribe stop_tx) conn_tx stop_tx))).

(** [drop] of the closure's locals, the last declared first. *)
Fixpoint release_all (l : list handle) : ble_prog unit :=
  match l with
  | [] => Ret tt
  | h :: l => call (ObjcSend (Release h)) ;; release_all l
  end.

(** The closure of [block_in_place]: the objects that serve and advertise. The manager and
    the notify characteristic are forgotten: their retains are the task's. CoreBluetooth's
    set-up calls do not fail, and its advertisements carry no data. *)
Definition macos_setup (cell subscribe : nat) : ble_prog (handle * handle) :=
  delegate ← call (ObjcNew (ODelegate cell subscribe));
  queue ← call (ObjcNew (OSerialQueue "com.pathweave.ble.peripheral"));
  manager ← call (ObjcNew (OManager delegate queue));
  svc_uuid ← call (ObjcNew (OUuid PATHWEAVE_SERVICE_UUID));
  write_uuid ← call (ObjcNew (OUuid WRITE_CHAR_UUID));
  notify_uuid ← call (ObjcNew (OUuid NOTIFY_CHAR_UUID));
  write_char ← call (ObjcNew (OCharacteristic write_uuid PropertyWrite Writeable));
  notify_char ← call (ObjcNew (OCharacteristic notify_uuid PropertyNotify Readable));
  chars ← call (ObjcNew (OArray [write_char; notify_char]));
  service ← call (ObjcNew (OService svc_uuid true));
  call (ObjcSend (SetCharacteristics service chars)) ;;
  call (ObjcSend (AddService manager service)) ;;
  uuid_arr ← call (ObjcNew (OArray [svc_uuid]));
  adv_key ← call (ObjcNew (OString "kCBAdvDataServiceUUIDs"));
  adv ← call (ObjcNew (ODictionary adv_key uuid_arr));
  call (ObjcSend (ManagerStartAdvertising manager adv)) ;;
  release_all [adv; adv_key; uuid_arr; service; chars; write_char; notify_uuid; write_uuid;
               svc_uuid; queue; delegate] ;;
  Ret (manager, notify_char).

Definition macos_start_peripheral : ble_prog (result unit) :=
  '(conn_tx, cell, subscribe, stop_tx) ← lock open_bridge;
  spawn (Callbacks cell subscribe) ;;
  '(manager, notify_char) ← macos_setup cell subscribe;
  run_bridge (MacosPeripheralTask manager notify_char conn_tx cell subscribe stop_tx) conn_tx stop_tx.

Definition start_peripheral (p : platform) (identity : NodeIdentity) : ble_prog (result unit) :=
  let short k :=
    prefix ← lift (slice (array_to_list (PeerId_as_bytes (peer_id identity))) 0 8);
    short ← lift (try_into_expect 8 prefix);
    k short in
  match p with
  | Linux => short linux_start_peripheral
  | Windows => short windows_start_peripheral
  | Macos => macos_start_peripheral
  | OtherPlatform => Ret (Ok tt)
  end.

Definition ble_start (p : platform) (identity : NodeIdentity) : ble_prog (result unit) :=
  await_ok ETransport ManagerNew (λ manager,
  await_ok ETransport (Adapters manager) (λ adapters,
  match adapters with
  | [] => Ret (Err (ETransport "no Bluetooth adapter found"))
  | adapter :: _ =>
    with_adapter (λ s, (tt, set_b_adapter s (Some adapter) false)) ;;
    start_peripheral p identity
  end)).

(** The guard of [adapter] is held to the end. *)
Definition ble_stop (p : platform) : ble_prog (result unit) :=
  adapter ← with_adapter (λ s, (b_adapter s, set_b_adapter s (b_adapter s) true));
  match adapter with
  | Some adapter => call (StopScan adapter) ;; Ret tt
  | None => Ret tt
  end ;;
  modify (λ s, set_b_adapter s None true) ;;
  match p with
  | OtherPlatform => Ret tt
  | _ =>
    replace_peripheral None ;;
    with_conn_rx ble_rx BleWait BleLoopBound (replace_b_conn_rx None)
  end ;;
  modify (λ s, set_b_adapter s (b_adapter s) false) ;;
  Ret (Ok tt).

Definition ble_accept_on (p : platform) : ble_prog (result BlePeripheralConnection) :=
  match p with
  | OtherPlatform =>
    Ret (Err (ETransport "BLE peripheral mode not supported on this platform"))
  | _ => ble_accept
  end.

Definition ble_body (t : ble_task) : ble_prog unit :=
  match t with
  | PeripheralLoop conn_tx => peripheral_loop conn_tx
  | PeripheralTask conn_tx cell subscribe_rx stop_rx =>
    peripheral_task conn_tx cell subscribe_rx stop_rx
  | MacosPeripheralTask manager notify_char conn_tx cell subscribe_rx stop_rx =>
    macos_peripheral_task manager notify_char conn_tx cell subscribe_rx stop_rx
  | Callbacks cell subscribe_tx =>
    bound ← call BleLoopBound; callback_rounds bound cell subscribe_tx
  | DiscoverTask tx => ble_discover_task tx
  | ForwardNotifications stream tx => forward_notifications stream tx
  end.
