(* ===== verification/BleFacts.v ===== *)
(** * The BLE GATT transport: theorems *)

From S2P Require Import Prelude RustStd Types Effects Channels Ble BlePeripheral.

(** ** Service data *)

(** Service data. The bytes a peripheral advertises give its short identifier back to
    any scanner, extra bytes after them are ignored, and the parser never panics: it
    refuses exactly what is shorter than nine bytes or has another version. *)
Theorem service_data_codec :
  (∀ id rest, parse_service_data (service_data_payload id ++ rest) = Val (Some id)) ∧
  (∀ data, ∃ o, parse_service_data data = Val o ∧
     (o = None ↔ length data < 9 ∨ data !! 0 ≠ Some ADVERTISEMENT_VERSION)).
Proof.
  split.
  - intros id rest. unfold parse_service_data, service_data_payload.
    pose proof (array_length id) as Hid. rewrite length_app. cbn [length app].
    rewrite Hid, (proj2 (Nat.ltb_ge _ _)) by lia. cbn [index lookup list_lookup rust_bind].
    rewrite decide_False by auto.
    pose proof (slice_app_mid [ADVERTISEMENT_VERSION] (array_to_list id) rest 1 9) as Hs.
    cbn [app] in Hs. rewrite Hs by (cbn; lia). cbn [rust_bind].
    by rewrite try_into_expect_array.
  - intros data. unfold parse_service_data.
    destruct (Nat.ltb_spec (length data) 9) as [Hl|Hl]; [exists None; split; [done|]; split; auto|].
    destruct (index_Val data 0) as (b & -> & Hb); [lia|]. cbn [rust_bind]. rewrite Hb.
    case_decide as Hv; [exists None; split; [done|]; split; [right; congruence|done]|].
    subst b.
    rewrite slice_Val by lia. cbn [rust_bind].
    destruct (try_into_expect_Val 8 (take (9 - 1) (drop 1 data))) as (id & -> & _).
    { rewrite length_take, length_drop. lia. }
    exists (Some id). split; [done|]. split; [done|]. intros [?|?]; [lia|done].
Qed.

(** ** The Linux loop as a mailbox *)

(** What a central does to the peripheral, and the points at which the loop looks at the
    node's replies. *)
Inductive gatt_event := GSubscribe (w : handle) | GWrite (bytes : list byte) | GReply.

(** The central's side: events to come, the bytes of the write being read, and what was
    written to subscribers. *)
Record gatt_world := {
  gw_events : list gatt_event;
  gw_buf : list byte;
  gw_out : list (handle * list byte)
}.

Definition gatt_answer (X : Type) (e : ble_op X) (w : gatt_world) : option (X * gatt_world) :=
  match e in ble_op X return option (X * gatt_world) with
  | Select =>
    Some match gw_events w with
         | [] => (SelNotify None, w)
         | GSubscribe h :: evs =>
           (SelNotify (Some h), {| gw_events := evs; gw_buf := gw_buf w; gw_out := gw_out w |})
         | GWrite b :: evs =>
           (SelWrite (Some 0), {| gw_events := evs; gw_buf := b; gw_out := gw_out w |})
         | GReply :: evs =>
           (SelReply, {| gw_events := evs; gw_buf := gw_buf w; gw_out := gw_out w |})
         end
  | AcceptWrite _ => Some (inr 0, w)
  | ReadToEnd _ => Some (inr (gw_buf w), w)
  | WriterWrite h b =>
    Some (inr tt, {| gw_events := gw_events w; gw_buf := gw_buf w; gw_out := gw_out w ++ [(h, b)] |})
  | _ => None
  end.

(** The same as an environment: the other calls do not occur in the loop, and any
    environment will do for them. *)
Section mailbox.
Context (other : ∀ X, ble_op X → gatt_world → X * N * gatt_world).

Definition gatt_env (X : Type) (e : ble_op X) (w : gatt_world) : X * N * gatt_world :=
  match gatt_answer X e w with Some (x, w') => (x, 0%N, w') | None => other X e w end.

Definition written (evs : list gatt_event) : list (list byte) :=
  omap (λ e, match e with GWrite b => Some b | _ => None end) evs.

Definition polls (evs : list gatt_event) : nat :=
  length (omap (λ e, match e with GReply => Some tt | _ => None end) evs).

(** The first subscription, and what follows it. *)
Fixpoint first_subscriber (evs : list gatt_event) : option (handle * list gatt_event) :=
  match evs with
  | [] => None
  | GSubscribe w :: evs => Some (w, evs)
  | _ :: evs => first_subscriber evs
  end.

Abbreviation grun := (run gatt_env (λ _ (s : ble_state), s)).

(** With a live connection [i] nothing but its mailbox, the replies and the output move. *)
Lemma active_run evs cx r w i s buf out q n rs k b :
  i ≠ r → b_frames s !! i = Some (Mpsc q n true) → b_frames s !! r = Some (Mpsc rs k b) →
  ∃ s' buf',
    grun (loop_rounds (S (length evs)) cx r {| writer := Some w; active_write_tx := Some i |}) s
      {| gw_events := evs; gw_buf := buf; gw_out := out |} =
    Ran (Returned {| writer := Some w; active_write_tx := Some i |}) s'
      {| gw_events := []; gw_buf := buf';
         gw_out := out ++ (pair w <$> take (polls evs) rs) |} [] ∧
    b_conns s' = b_conns s ∧
    b_frames s' !! i = Some (Mpsc (q ++ written evs) n true) ∧
    b_frames s' !! r = Some (Mpsc (drop (polls evs) rs) k b).
Proof.
  intros Hne. revert s buf out q rs.
  induction evs as [|e evs IH]; intros s buf out q rs Hi Hr.
  { exists s, buf. cbn. rewrite !app_nil_r. by rewrite Hi. }
  cbn [length]. set (m := S (length evs)) in *. cbn [loop_rounds].
  clearbody m. destruct e as [h|bytes|]; cbn -[frames_alter].
  - unfold send_fails. rewrite Hi. cbn. apply IH; auto.
  - unfold send_fails. rewrite Hi. cbn -[frames_alter].
    destruct (IH (frames_alter (mpsc_send bytes) i s) bytes out (q ++ [bytes]) rs)
      as (s' & buf' & -> & Hc & Hi' & Hr').
    + cbn. by rewrite list_lookup_alter_eq, Hi.
    + cbn. by rewrite list_lookup_alter_ne.
    + exists s', buf'. split_and!; try done. by rewrite Hi', <-app_assoc.
  - unfold mpsc_try_recv. rewrite Hr. destruct rs as [|x rs]; cbn.
    + destruct (IH (set_b_frames s (b_frames s)) buf out q []) as (s' & buf' & E & ? & ? & Hr'); [done..|].
      exists s', buf'. rewrite E. rewrite take_nil. split_and!; try done.
      by rewrite drop_nil in Hr'.
    + destruct (IH (set_b_frames s (<[r := Mpsc rs k b]> (b_frames s))) buf (out ++ [(w, x)]) q rs)
        as (s' & buf' & E & ? & ? & ?).
      * cbn. by rewrite list_lookup_insert_ne.
      * cbn. apply list_lookup_insert_eq. by eapply lookup_lt_Some.
      * exists s', buf'. rewrite E, <-app_assoc. done.
Qed.
(** The loop before anybody subscribes: writes are discarded, replies wait. *)
Definition no_subscriber : loop_vars := {| writer := None; active_write_tx := None |}.

(** A subscription opens the connection [i]. *)
Definition subscribed (cx r : nat) (s : ble_state) : ble_state :=
  offer_conn cx {| write_rx := length (b_frames s); reply_tx := r |}
    (frames_alter mpsc_clone r (new_frames s).2).

Lemma idle_run evs cx r s buf :
  match first_subscriber evs with
  | None => ∃ buf',
      grun (loop_rounds (S (length evs)) cx r no_subscriber) s
        {| gw_events := evs; gw_buf := buf; gw_out := [] |} =
      Ran (Returned no_subscriber) s {| gw_events := []; gw_buf := buf'; gw_out := [] |} []
  | Some (w, rest) => ∃ buf',
      grun (loop_rounds (S (length evs)) cx r no_subscriber) s
        {| gw_events := evs; gw_buf := buf; gw_out := [] |} =
      grun (loop_rounds (S (length rest)) cx r
              {| writer := Some w; active_write_tx := Some (length (b_frames s)) |})
        (subscribed cx r s) {| gw_events := rest; gw_buf := buf'; gw_out := [] |}
  end.
Proof.
  revert buf. induction evs as [|e evs IH]; intros buf; [by eexists|].
  cbn [length first_subscriber]. destruct e as [h|bytes|].
  - exists buf. cbn [loop_rounds]. set (m := S (length evs)). by clearbody m.
  - specialize (IH bytes). set (m := S (length evs)) in *. clearbody m. cbn [loop_rounds].
    destruct (first_subscriber evs) as [[w rest]|]; exact IH.
  - specialize (IH buf). set (m := S (length evs)) in *. clearbody m. cbn [loop_rounds].
    destruct (first_subscriber evs) as [[w rest]|]; exact IH.
Qed.

(** C34. The Linux peripheral is a mailbox. Over any sequence of subscriptions, writes and
    chances to reply, as long as the connection lives: writes before the first
    subscription are discarded; the first subscription offers exactly one connection to
    [accept], whose inbox then holds exactly the later writes, in order; later
    subscribers get no connection of their own; and the node's replies leave in order,
    one per chance, all to the first subscriber. *)
Theorem peripheral_mailbox evs cx r s buf q n rs k :
  b_conns s !! cx = Some (Mpsc q n true) → b_frames s !! r = Some (Mpsc rs k true) →
  let res := grun (loop_rounds (S (length evs)) cx r no_subscriber) s
               {| gw_events := evs; gw_buf := buf; gw_out := [] |} in
  match first_subscriber evs with
  | None => r_final res = Returned no_subscriber ∧ r_shared res = s ∧ gw_out (r_env res) = []
  | Some (w, rest) =>
    let i := length (b_frames s) in
    r_final res = Returned {| writer := Some w; active_write_tx := Some i |} ∧
    b_conns (r_shared res) !! cx =
      Some (Mpsc (q ++ [{| write_rx := i; reply_tx := r |}]) n true) ∧
    b_frames (r_shared res) !! i = Some (Mpsc (written rest) 1 true) ∧
    b_frames (r_shared res) !! r = Some (Mpsc (drop (polls rest) rs) (S k) true) ∧
    gw_out (r_env res) = pair w <$> take (polls rest) rs
  end.
Proof.
  intros Hc Hr. cbv zeta. pose proof (idle_run evs cx r s buf) as H.
  destruct (first_subscriber evs) as [[w rest]|]; [|by destruct H as [? ->]].
  destruct H as [buf' ->].
  assert (r < length (b_frames s)) as Hlt by by eapply lookup_lt_Some.
  assert (subscribed cx r s = set_b_conns (frames_alter mpsc_clone r (new_frames s).2)
    (alter (mpsc_send {| write_rx := length (b_frames s); reply_tx := r |}) cx (b_conns s))) as Hsub.
  { unfold subscribed, offer_conn, send_fails. cbn. by rewrite Hc. }
  destruct (active_run rest cx r w (length (b_frames s)) (subscribed cx r s) buf' [] [] 1 rs (S k) true)
    as (s' & buf'' & -> & Hc' & Hi & Hr').
  - lia.
  - rewrite Hsub. cbn. rewrite list_lookup_alter_ne by lia. by rewrite list_lookup_middle.
  - rewrite Hsub. cbn. rewrite list_lookup_alter_eq, lookup_app_l by done. by rewrite Hr.
  - cbn [r_final r_shared r_env gw_out]. rewrite Hc', Hsub. cbn.
    rewrite list_lookup_alter_eq, Hc. by split_and!.
Qed.
End mailbox.

(** ** One connection at a time *)

(** The connection [i] is alive, and no other waits to be accepted. *)
Definition only_conn (cx i : nat) (s : ble_state) : Prop :=
  (∃ c, b_frames s !! i = Some c ∧ m_receiver c = true) ∧
  ∀ q c, b_conns s !! cx = Some q → c ∈ m_items q → write_rx c = i.

(** What is written to the subscriber is taken. *)
Definition writes_succeed (X : Type) (e : ble_op X) : X → Prop :=
  match e in ble_op X return X → Prop with
  | WriterWrite _ _ => λ r, r = inr tt
  | _ => λ _, True
  end.

Section one_connection.
Context (cx i : nat).

Abbreviation kept p Q := (safe_under writes_succeed (only_conn cx i) (λ _ : ble_task, False) p Q).

Lemma only_frames f j s :
  (∀ c, m_receiver (f c) = m_receiver c) ∨ j ≠ i →
  only_conn cx i s → only_conn cx i (frames_alter f j s).
Proof.
  intros Hf [(c & Hc & Hr) Hq]. split; [|done]. cbn.
  destruct (decide (j = i)) as [->|Hj].
  - destruct Hf as [Hf|]; [|done]. rewrite list_lookup_alter_eq, Hc. eexists. by rewrite Hf.
  - rewrite list_lookup_alter_ne by done. eauto.
Qed.

Lemma only_alive s : only_conn cx i s → send_fails (b_frames s) i = false.
Proof. intros [(c & Hc & Hr) _]. unfold send_fails. by rewrite Hc, Hr. Qed.

Lemma only_recv s r l j :
  mpsc_try_recv (b_frames s) j = (r, l) ∨ (∃ r', mpsc_poll (b_frames s) j = (r', l)) →
  only_conn cx i s → only_conn cx i (set_b_frames s l).
Proof.
  intros Hl [(c & Hc & Hr) Hq]. split; [|done]. cbn.
  assert (l = b_frames s ∨ ∃ x q n b, b_frames s !! j = Some (Mpsc (x :: q) n b) ∧
    l = <[j := Mpsc q n b]> (b_frames s)) as [->|(x & q & n & b & Hj & ->)]; [|by eauto|].
  { destruct Hl as [Hl|[r' Hl]]; unfold mpsc_try_recv, mpsc_poll in Hl; repeat case_match;
      simplify_eq; eauto 10. }
  destruct (decide (i = j)) as [<-|Hij]; [|rewrite list_lookup_insert_ne by done; eauto].
  rewrite list_lookup_insert_eq by by eapply lookup_lt_Some. simplify_eq. eauto.
Qed.

Lemma kept_notify r w h (Q : loop_vars → Prop) :
  Q {| writer := w; active_write_tx := Some i |} →
  kept (on_notify cx r {| writer := w; active_write_tx := Some i |} h) Q.
Proof.
  intros HQ. cbn. intros s Hs. rewrite (only_alive s Hs). by split.
Qed.

Lemma kept_write w req (Q : loop_vars → Prop) :
  Q {| writer := w; active_write_tx := Some i |} →
  kept (on_write {| writer := w; active_write_tx := Some i |} req) Q.
Proof.
  intros HQ. cbn -[frames_alter]. intros [e|reader] _; [done|]. intros [e|buf] _; [done|].
  intros s Hs. rewrite (only_alive s Hs). split; [|done].
  apply only_frames; [|done]. left. intros [q n []]; done.
Qed.

Lemma kept_reply r w (Q : loop_vars → Prop) :
  Q {| writer := w; active_write_tx := Some i |} →
  kept (on_reply r {| writer := w; active_write_tx := Some i |}) Q.
Proof.
  intros HQ. destruct w as [w|]; [|done]. cbn -[mpsc_try_recv]. intros s Hs.
  destruct (mpsc_try_recv (b_frames s) r) as [x l] eqn:Hx. cbn.
  split; [by eapply only_recv; eauto|]. destruct x as [bytes|]; [|done]. by intros ? ->.
Qed.

Lemma kept_loop bound r w :
  kept (loop_rounds bound cx r {| writer := w; active_write_tx := Some i |})
    (λ v, active_write_tx v = Some i).
Proof.
  induction bound as [|bound IH]; [done|]. cbn [loop_rounds]. apply safe_under_bind.
  intros branch _.
  destruct branch as [[h|]|[req|]| | |]; try exact IH; try done;
    apply safe_under_bind; [apply kept_notify|apply kept_write|apply kept_reply]; apply IH.
Qed.

(** The rest of the peripheral's task once its connection [i] is open. *)
Definition loop_from (bound r : nat) (w : option handle) : ble_prog unit :=
  v ← loop_rounds bound cx r {| writer := w; active_write_tx := Some i |};
  drop_active v ;;
  modify (frames_alter mpsc_drop_tx r) ;;
  modify (frames_alter mpsc_drop_rx r) ;;
  drop_b_conn_tx cx.

Lemma kept_loop_from bound r w : r ≠ i → kept (loop_from bound r w) (λ _, True).
Proof.
  intros Hr. apply safe_under_bind. eapply safe_under_mono; [|apply kept_loop].
  intros v Hv. unfold drop_active. rewrite Hv. cbn -[frames_alter].
  intros s Hs. split; [apply only_frames; [by left|done]|].
  clear s Hs. intros s Hs. split; [apply only_frames; [by left|done]|].
  clear s Hs. intros s Hs. split; [apply only_frames; [by right|done]|].
  clear s Hs. intros s [Hi Hq]. split; [|done]. split; [done|]. cbn.
  intros q c Hc Hin. destruct (b_conns s !! cx) as [q0|] eqn:H0.
  - rewrite list_lookup_alter_eq, H0 in Hc. cbn in Hc. simplify_eq. by apply (Hq q0).
  - rewrite list_lookup_alter_eq, H0 in Hc. done.
Qed.

Lemma kept_lock_wait {X} bound (f : ble_state → X * ble_state) held Q :
  (∀ s, only_conn cx i s → only_conn cx i (f s).2) → (∀ x, Q x) →
  kept (lock_wait held BleWait bound f) Q.
Proof.
  intros Hf HQ. induction bound as [|bound IH]; [done|]. cbn [lock_wait]. apply safe_under_bind.
  intros s Hs. destruct (held s).
  - split; [done|]. cbn. intros [] _. apply IH.
  - specialize (Hf s Hs). destruct (f s) as [x s']. by split; cbn.
Qed.

Lemma only_poll_conn s rx :
  only_conn cx i s → only_conn cx i (g_poll ble_rx rx s).2.
Proof.
  intros [Hi Hq]. cbn. unfold mpsc_poll.
  destruct (b_conns s !! rx) as [[[|x l] [|n] b]|] eqn:Hrx; (split; [done|]); cbn; try done;
    intros q c Hc Hin; (destruct (decide (cx = rx)) as [<-|Hne];
      [rewrite list_lookup_insert_eq in Hc by (by eapply lookup_lt_Some); simplify_eq;
       eapply Hq; [done|]; by right
      |rewrite list_lookup_insert_ne in Hc by done; by eapply Hq]).
Qed.

Lemma kept_accept : kept ble_accept (λ _, True).
Proof.
  unfold ble_accept, accept_blocking, take_conn_rx, with_conn_rx, mutex_lock.
  cbn -[g_poll ble_rx lock_wait recv_conn]. intros bound _. apply safe_under_bind.
  apply kept_lock_wait; [done|]. intros [rx|]; [|by intros s Hs; split].
  cbn -[g_poll ble_rx recv_conn]. intros bound' _. apply safe_under_bind.
  induction bound' as [|n IH]; [done|]. cbn [recv_conn]. apply safe_under_bind.
  intros s Hs. split; [by apply only_poll_conn|].
  destruct (g_poll ble_rx rx s).1 as [c|]; [by intros s' Hs'; split|].
  intros [] _. apply IH.
Qed.

Lemma kept_recv c : kept (peripheral_recv_bytes c) (λ _, True).
Proof.
  unfold peripheral_recv_bytes. intros bound _. cbn -[mpsc_poll await_frame]. apply safe_under_bind.
  induction bound as [|n IH]; [done|]. cbn [await_frame]. apply safe_under_bind.
  intros s Hs. destruct (mpsc_poll (b_frames s) (write_rx c)) as [x l] eqn:Hx.
  split; [apply (only_recv s None l (write_rx c)); eauto|]. destruct x as [o|]; [done|]. intros [] _. apply IH.
Qed.

Lemma kept_send c bytes : kept (peripheral_send_bytes c bytes) (λ _, True).
Proof.
  intros s Hs. split; [|done]. apply only_frames; [|done]. left. by intros [q n []].
Qed.
End one_connection.

(** What a node does with the connections it accepts, short of dropping them. *)
Inductive uses_peripheral : ble_prog unit → Prop :=
| uses_accept : uses_peripheral (ble_accept ;; Ret tt)
| uses_recv c : uses_peripheral (peripheral_recv_bytes c ;; Ret tt)
| uses_send c bytes : uses_peripheral (peripheral_send_bytes c bytes ;; Ret tt).

(** C35. One connection at a time, and no other until it is dropped. Once the Linux
    peripheral has handed out the connection [i], then under every interleaving with
    accepting, receiving and sending, and whatever centrals subscribe, write or leave: as
    long as nothing is dropped and no write to the first subscriber fails, no other
    connection is ever offered. In particular a subscriber that goes away while the node
    has nothing to write to it keeps every later central out. *)
Theorem peripheral_one_connection {W} (answer : ∀ X, ble_op X → W → X * N * W)
    cx i r bound w others sched s env :
  (∀ X (e : ble_op X) w, writes_succeed X e (answer X e w).1.1) →
  r ≠ i → only_conn cx i s → Forall uses_peripheral others →
  let c := exec answer (λ _ s, s) ble_body sched
             (Config (loop_from cx i bound r w :: others) s env) in
  only_conn cx i (c_shared c).
Proof.
  intros Ha Hr Hs Ho. cbv zeta.
  eapply (exec_under writes_succeed (only_conn cx i) (λ _, False) answer (λ _ s, s) ble_body
    Ha (λ _ _ H, H) (λ _ H, match H with end) (λ _, True)).
  split_and!; [done| |done]. intros [|j] p Hp.
  - apply (inj Some) in Hp as <-. by apply kept_loop_from.
  - cbn [c_pool lookup list_lookup] in Hp. eapply Forall_lookup_1 in Ho; [|exact Hp].
    destruct Ho; apply safe_under_bind;
      [eapply safe_under_mono; [|apply kept_accept]
      |eapply safe_under_mono; [|apply kept_recv]
      |eapply safe_under_mono; [|apply kept_send]]; done.
Qed.
