(* ===== verification/BleMacos.v ===== *)
(** * The macOS peripheral: who holds its objects, and when its task ends

    [start_peripheral] leaks its retains of the peripheral manager and of the notify
    characteristic, and the task gives them back: it must use them while it runs, release
    each once, and touch neither afterwards. *)

From S2P Require Import Prelude RustStd Types Effects Channels Ble BlePeripheral.

(** The messages a call sends to Objective-C objects. *)
Definition sent {X} (e : ble_op X) : list objc_message :=
  match e with ObjcSend m => [m] | _ => [] end.

(** Whatever the stack answers and whatever state the task finds at each of its critical
    sections, so under every interleaving: a program that has sent [log] returns with [Q],
    never panics, and has sent [B] whenever it is left waiting for ever. *)
Fixpoint sends {A} (p : ble_prog A) (log : list objc_message)
    (Q : A → list objc_message → Prop) (B : list objc_message → Prop) : Prop :=
  match p with
  | Ret a => Q a log
  | Lock f k => ∀ s, sends (k (f s).1) log Q B
  | Call e k => ∀ x, sends (k x) (log ++ sent e) Q B
  | Spawn _ k => sends k log Q B
  | Stuck why => why = Blocked ∧ B log
  end.

Lemma sends_bind {A A'} (p : ble_prog A) (f : A → ble_prog A') log Q B :
  sends p log (λ a log', sends (f a) log' Q B) B → sends (bind p f) log Q B.
Proof.
  revert log. induction p as [a|X g k IH|X e k IH|t k IH|why]; intros log; simpl; auto.
Qed.

Lemma sends_mono {A} (p : ble_prog A) log (Q Q' : A → list objc_message → Prop)
    (B B' : list objc_message → Prop) :
  (∀ a log, Q a log → Q' a log) → (∀ log, B log → B' log) → sends p log Q B → sends p log Q' B'.
Proof.
  intros HQ HB. revert log. induction p as [a|X g k IH|X e k IH|t k IH|why]; intros log; simpl; auto.
  intros [? ?]. auto.
Qed.

(** The same for one run, with every message recorded. *)
Definition recorded {W} (answer : ∀ X, ble_op X → W → X * N * W) (X : Type) (e : ble_op X)
    (w : W * list objc_message) : X * N * (W * list objc_message) :=
  let '(x, d, w') := answer X e w.1 in (x, d, (w', w.2 ++ sent e)).

Lemma run_sends {W A} (answer : ∀ X, ble_op X → W → X * N * W) tick (p : ble_prog A) log Q B s w :
  sends p log Q B →
  let r := run (recorded answer) tick p s (w, log) in
  match r_final r with
  | Returned a => Q a (r_env r).2
  | StuckAt why => why = Blocked ∧ B (r_env r).2
  end.
Proof.
  revert log s w. induction p as [a|X g k IH|X e k IH|t k IH|why]; intros log s w Hp; simpl;
    [done|exact (IH _ log (g s).2 w (Hp s))| |exact (IH log s w Hp)|done].
  unfold recorded. cbn [fst snd]. destruct (answer X e w) as [[x d] w'].
  exact (IH x _ (tick d s) w' (Hp x)).
Qed.

Section task.
Context (manager notify_char : handle).

Definition updates (bs : list (list byte)) : list objc_message := UpdateValue manager notify_char <$> bs.

Definition only_updates (log : list objc_message) : Prop := ∃ bs, log = updates bs.

Lemma only_updates_more bytes log :
  only_updates log → only_updates (log ++ [UpdateValue manager notify_char bytes]).
Proof. intros [bs ->]. exists (bs ++ [bytes]). unfold updates. by rewrite fmap_app. Qed.

(** The loops of the task only send replies. *)
Lemma sends_task_rounds bound conn_tx cell sub stop active log :
  only_updates log →
  sends (task_rounds (λ bytes, call (ObjcSend (UpdateValue manager notify_char bytes))) bound
           conn_tx cell sub stop active) log (λ _, only_updates) only_updates.
Proof.
  revert active log. induction bound as [|bound IH]; intros active log Hlog; [done|].
  intros branch. rewrite app_nil_r.
  destruct branch, active as [reply|]; cbn [bind call]; try by apply IH.
  - intros s. cbn [fst snd]. destruct (mpsc_poll _ _) as [[[bytes|]|] l]; cbn.
    + intros _. by apply IH, only_updates_more.
    + intros ? ?. by apply IH.
    + by apply IH.
  - intros s. cbn. destruct (stop_fired stop s); [done|by apply IH].
  - intros s. cbn. destruct (stop_fired stop s); [done|by apply IH].
  - intros s. cbn. by apply IH.
  - intros s. cbn [fst snd lock bind]. destruct (poll_subscribe sub s).1 as [[u|]|]; cbn; [|done|by apply IH].
    intros ? ? ? ?. by apply IH.
Qed.

(** C38. The leaked objects are given back: under every interleaving and whatever
    CoreBluetooth answers, a task that ends has sent its replies to the notify
    characteristic, then stopped the advertisement, and then released the characteristic
    and the manager once each, touching neither afterwards; one that never leaves its loops
    has released nothing. *)
Theorem macos_releases conn_tx cell sub stop :
  sends (macos_peripheral_task manager notify_char conn_tx cell sub stop) []
    (λ _ log, ∃ bs, log = updates bs ++
       [ManagerStopAdvertising manager; Release notify_char; Release manager])
    only_updates.
Proof.
  intros bound. apply (sends_bind (task_rounds _ bound conn_tx cell sub stop None)).
  eapply sends_mono; [|intros log Hlog; exact Hlog|apply sends_task_rounds; by exists []].
  intros active log [bs ->]. unfold drop_task.
  destruct active as [reply|]; cbn; intros; exists bs; by rewrite <-!app_assoc, ?app_nil_r.
Qed.
End task.

(** ** When the delegate is gone

    The delegate owns the sender of the subscriptions; [start_peripheral] drops its own
    retain of it. When nothing else holds the delegate the channel ends, and with it, at
    the first poll, the task: the manager and the advertisement are given up and [accept]
    finds the peripheral ended, although nobody called [stop]. *)
Theorem orphaned_task_ends {W} (answer : ∀ X, ble_op X → W → X * N * W)
    manager notify_char cx cell sub stop s w c r
    (Hbound : ∀ w, 0 < (answer _ BleLoopBound w).1.1)
    (Hselect : ∀ w, (answer _ Select w).1.1 = SelSubscribe)
    (Hsub : b_signals s !! sub = Some (Mpsc [] 0 r)) (Hcx : b_conns s !! cx = Some c) :
  let res := run answer (λ _ s, s) (macos_peripheral_task manager notify_char cx cell sub stop) s w in
  r_final res = Returned tt ∧ b_conns (r_shared res) !! cx = Some (mpsc_drop_tx c).
Proof.
  cbv zeta. unfold macos_peripheral_task. specialize (Hbound w). cbn [bind call run].
  destruct (answer nat BleLoopBound w) as [[n d] w1]. cbn in Hbound.
  destruct n as [|n]; [lia|]. cbn [task_rounds bind call run].
  specialize (Hselect w1). destruct (answer gatt_select Select w1) as [[sel d'] w2].
  cbn in Hselect. subst sel. cbn [bind call run lock]. unfold poll_subscribe, mpsc_poll. rewrite Hsub.
  cbn [fst snd bind run lock modify drop_task].
  destruct (answer unit _ _) as [[x3 d3] w3]. cbn [bind call run].
  destruct (answer unit _ _) as [[x4 d4] w4]. cbn [bind call run].
  destruct (answer unit _ _) as [[x5 d5] w5]. cbn.
  split; [done|]. unfold set_forward.
  destruct (b_forwards _ !! cell) as [[]|]; cbn; by rewrite list_lookup_alter_eq, Hcx.
Qed.
