(* ===== verification/TransportKinds.v ===== *)
(** * Every transport keeps to its kind

    What [Kinds.v] asks of transports: their discovery tasks announce addresses of the
    transport's kind only, and [connect] turns away any other address before it does
    anything. The contract is the class [KeepsKind]; each transport is an instance. *)

From S2P Require Import Prelude RustStd Types Effects Advertising Framing Quic NetAddr Channels.
From S2P Require Import WifiDirect WifiLinux WifiWindows Ble BlePeripheral.

(** ** Programs that keep an invariant, whether or not they panic, and spawn nothing *)

Section maintains.
Context {S : Type} {E : Type → Type} {T : Type} (I : S → Prop).
Abbreviation kprog := (prog S E T).

Fixpoint maintains {A} (p : kprog A) (Q : A → Prop) : Prop :=
  match p with
  | Ret a => Q a
  | Lock f k => ∀ s, I s → I (f s).2 ∧ maintains (k (f s).1) Q
  | Call e k => ∀ x, maintains (k x) Q
  | Spawn _ _ => False
  | Stuck _ => True
  end.

Lemma maintains_seq {A B} (R : A → Prop) (p : kprog A) (f : A → kprog B) (Q : B → Prop) :
  maintains p R → (∀ a, R a → maintains (f a) Q) → maintains (bind p f) Q.
Proof.
  intros Hp Hf. induction p as [a|X g k IH|X e k IH|t k IH|w]; simpl in *; auto.
  intros s Hs. destruct (Hp s Hs). auto.
Qed.

Lemma maintains_lift {A} (m : rust A) (Q : A → Prop) :
  (∀ a, m = Val a → Q a) → maintains (lift m) Q.
Proof. destruct m; simpl; auto. Qed.

Lemma maintains_lock {X} (f : S → X * S) : (∀ s, I s → I (f s).2) → maintains (lock f) (λ _, True).
Proof. intros Hf s Hs. split; [auto|done]. Qed.

Lemma maintains_mutex_lock {X} held Wait LoopBound (f : S → X * S) :
  (∀ s, I s → I (f s).2) → maintains (mutex_lock held Wait LoopBound f) (λ _, True).
Proof.
  intros Hf n. cbn [bind]. induction n as [|n IH]; [done|]. intros s Hs. simpl.
  destruct (held s); simpl; [by split; [|intros _; apply IH]|].
  specialize (Hf s Hs). by destruct (f s).
Qed.

(** Under every interleaving. *)
Lemma exec_maintains {W} (answer : ∀ X, E X → W → X * N * W) (tick : N → S → S)
    (body : T → kprog unit) sched c :
  (∀ d s, I s → I (tick d s)) →
  I (c_shared c) → Forall (λ p, maintains p (λ _, True)) (c_pool c) →
  I (c_shared (exec answer tick body sched c)).
Proof.
  intros Htick. revert c. induction sched as [|ch sched IH]; intros c Hs Hp; simpl; [done|].
  destruct ch as [i|d]; simpl; [|by apply IH; simpl; auto].
  destruct (c_pool c !! i) as [p|] eqn:Hi; [|by apply IH].
  pose proof (Forall_lookup_1 _ _ _ _ Hp Hi) as Hpi.
  assert (∀ p', maintains p' (λ _, True) →
    Forall (λ p, maintains p (λ _, True)) (<[i:=p']> (c_pool c) ++ [])) as Hrest.
  { intros p' ?. rewrite app_nil_r. by apply Forall_insert. }
  destruct p as [a|X f k|X e k|t k|why]; simpl in Hpi |- *.
  - apply IH; [done|by apply Hrest].
  - destruct (Hpi _ Hs). apply IH; [done|by apply Hrest].
  - destruct (answer X e (c_env c)) as [[x d] w'].
    apply IH; [by apply Htick|by apply Hrest, Hpi].
  - done.
  - apply IH; [done|by apply Hrest].
Qed.
End maintains.

(** ** The contract *)

Definition ann_of_kind (kind : TransportKind) (a : PeerAnnouncement) : Prop :=
  PeerAddress_kind (address a) = kind.

(** Everything that waits in the transport's announcement channels. *)
Definition announces_kind {S} (kind : TransportKind) (pending : S → list PeerAnnouncement) (s : S) :
    Prop := Forall (ann_of_kind kind) (pending s).

Class KeepsKind {S E T C} (kind : TransportKind) (pending : S → list PeerAnnouncement)
    (discoverer : prog S E T unit → Prop) (connect : PeerAnnouncement → prog S E T (result C)) := {
  discovers_kind : ∀ p, discoverer p → maintains (announces_kind kind pending) p (λ _, True);
  refuses_kind : ∀ peer, PeerAddress_kind (address peer) ≠ kind →
    ∃ msg, connect peer = Ret (Err (ETransport msg))
}.

(** What the contract gives: however its discovery tasks interleave, whatever the radio or
    the network reports, everything that waits to be read is of the transport's kind, so
    the promise [right_answer] of [Kinds.v] holds of it; and a foreign address is refused
    with no call and no change. *)
Lemma announcements_keep_kind {St E T C} `{KeepsKind St E T C kind pending discoverer connect} {W}
    (answer : ∀ X, E X → W → X * N * W) (body : T → prog St E T unit) pool s w sched :
  Forall discoverer pool → announces_kind kind pending s →
  announces_kind kind pending (c_shared (exec answer (λ _ s, s) body sched (Config pool s w))) ∧
  ∀ peer, PeerAddress_kind (address peer) ≠ kind →
    ∃ msg, run answer (λ _ s, s) (connect peer) s w = Ran (Returned (Err (ETransport msg))) s w [].
Proof.
  intros Hpool Hs. split.
  - apply exec_maintains; [done|done|]. eapply Forall_impl; [exact Hpool|]. apply discovers_kind.
  - intros peer Hpeer. destruct (refuses_kind peer Hpeer) as [msg ->]. by exists msg.
Qed.

(** ** Channels *)

Definition all_items {A} (l : list (mpsc A)) : list A := l ≫= m_items.

Lemma bind_alter {X A} (items : X → list A) (P : A → Prop) (f : X → X) i l :
  (∀ c, Forall P (items c) → Forall P (items (f c))) →
  Forall P (l ≫= items) → Forall P (alter f i l ≫= items).
Proof.
  intros Hf. revert i. induction l as [|c l IH]; intros [|i]; simpl; [done|done| |];
    rewrite !Forall_app; intros [? ?]; split; auto.
  by apply IH.
Qed.

Lemma all_items_send {A} (P : A → Prop) a i l :
  P a → Forall P (all_items l) → Forall P (all_items (alter (mpsc_send a) i l)).
Proof.
  intros Ha. apply bind_alter. intros [q n r] Hq. unfold mpsc_send. simpl.
  destruct r; [|done]. apply Forall_app. auto.
Qed.

Lemma all_items_drop_tx {A} (P : A → Prop) i l :
  Forall P (all_items l) → Forall P (all_items (alter mpsc_drop_tx i l)).
Proof. by apply bind_alter. Qed.

(** Case analysis of a program; what is left are the announcements it sends. *)
Create HintDb maintains.
#[export] Hint Resolve all_items_send all_items_drop_tx : maintains.
Ltac maintains_walk :=
  repeat match goal with
  | |- maintains _ (Ret _) _ => done
  | |- maintains _ (Stuck _) _ => done
  | |- maintains _ (Call _ _) _ => cbn [maintains]; intros ?
  | |- maintains _ (call _) _ => cbn [maintains call]; intros ?
  | |- maintains _ (read _) _ => intros ? ?; split; done
  | |- maintains _ (lift _) _ => apply maintains_lift; auto
  | |- maintains _ (modify _) _ => intros ? ?; split; [|done]
  | |- maintains _ (lock _) _ => apply maintains_lock; intros ? ?
  | |- maintains _ (bind _ _) _ => apply (maintains_seq _ (λ _, True)); [|intros ? _]
  | |- maintains _ (match ?x with _ => _ end) _ => destruct x
  | |- maintains _ _ _ => solve [eauto with maintains]
  end.

(** ** BLE *)

Definition ble_pending (s : ble_state) : list PeerAnnouncement := all_items (b_anns s).

Lemma maintains_announcement_of I adapter event :
  maintains I (announcement_of adapter event)
    (λ o, match o with Some ann => ann_of_kind KBle ann | None => True end).
Proof.
  destruct event; cbn [announcement_of]; try done.
  - intros [?|p]; [done|]. intros [?|[props|]]; [done| |done]. simpl.
    case_match; [|by case_decide]. apply (maintains_seq _ (λ _, True)); [by apply maintains_lift|].
    by intros [?|].
  - case_match; [|done]. apply (maintains_seq _ (λ _, True)); [by apply maintains_lift|]. by intros [?|].
  - simpl. by case_decide.
Qed.

Lemma maintains_scan_rounds n adapter events tx :
  maintains (announces_kind KBle ble_pending) (scan_rounds n adapter events tx) (λ _, True).
Proof.
  induction n as [|n IH]; [done|]. cbn [scan_rounds]. intros [event|]; [|done]. cbn [bind].
  eapply maintains_seq; [apply maintains_announcement_of|]. intros [ann|] Hann; [|done].
  intros s Hs. split; [by apply all_items_send|]. simpl. case_match; [done|exact IH].
Qed.

Lemma maintains_ble_discover_task tx :
  maintains (announces_kind KBle ble_pending) (ble_discover_task tx) (λ _, True).
Proof.
  unfold ble_discover_task. apply (maintains_seq _ (λ _, True)); [by apply maintains_mutex_lock|]. intros adapter _.
  pose proof maintains_scan_rounds. maintains_walk; try by apply all_items_drop_tx. all: eauto.
Qed.

#[export] Instance ble_keeps_kind :
  KeepsKind KBle ble_pending (λ p, ∃ tx, p = ble_discover_task tx) ble_connect.
Proof.
  split; [intros p [tx ->]; apply maintains_ble_discover_task|].
  intros [[] ?] Hk; simpl in Hk; try done; by eexists.
Qed.

(** ** WiFi Direct *)

Definition wifi_pending {St} (s : wifi_state St) : list PeerAnnouncement := all_items (w_anns s).

Lemma maintains_discover_rounds n signals tx :
  maintains (announces_kind KWifiDirect wifi_pending) (discover_rounds n signals tx) (λ _, True).
Proof.
  induction n as [|n IH]; [done|]. cbn [discover_rounds]. intros [[?|[path ps]]|]; [done| |done].
  cbn [bind]. apply (maintains_seq _ (λ _, True)); [by apply maintains_lift|]. intros short _. unfold peer_found.
  eapply maintains_seq; [|intros []; intros; [exact IH|done]].
  case_decide; [by instantiate (1 := λ _, True)|].
  apply maintains_lock. intros s. by apply all_items_send.
Qed.

Lemma maintains_linux_discover_task tx :
  maintains (announces_kind KWifiDirect wifi_pending) (linux_discover_task tx) (λ _, True).
Proof.
  unfold linux_discover_task, drop_ann_tx. pose proof maintains_discover_rounds.
  maintains_walk; try by apply all_items_drop_tx. all: eauto.
Qed.

#[export] Instance linux_keeps_kind :
  KeepsKind KWifiDirect wifi_pending (λ p, ∃ tx, p = linux_discover_task tx) linux_connect.
Proof.
  split; [intros p [tx ->]; apply maintains_linux_discover_task|].
  intros [[] ?] Hk; simpl in Hk; try done; by eexists.
Qed.

Lemma maintains_enumerate_from I n i devices local out :
  Forall (ann_of_kind KWifiDirect) out →
  maintains I (enumerate_from n i devices local out) (Forall (ann_of_kind KWifiDirect)).
Proof.
  revert i out. induction n as [|n IH]; intros i out Hout; [done|]. cbn [enumerate_from].
  intros [?|device]; [by apply IH|]. intros [?|name]; [by apply IH|].
  intros r. cbn [bind]. apply (maintains_seq _ (λ _, True)); [by apply maintains_lift|]. intros short _.
  case_decide; [by apply IH|]. apply IH, Forall_app. split; [done|by apply Forall_singleton].
Qed.

Lemma maintains_enumerate_peers I local :
  maintains I (enumerate_peers local) (Forall (ann_of_kind KWifiDirect)).
Proof.
  intros [?|selector]; [by apply Forall_nil|]. intros [?|devices]; [by apply Forall_nil|].
  intros r. by apply maintains_enumerate_from.
Qed.

Lemma maintains_send_anns tx anns :
  Forall (ann_of_kind KWifiDirect) anns →
  maintains (announces_kind KWifiDirect wifi_pending) (send_anns tx anns) (λ _, True).
Proof.
  induction 1 as [|ann anns Hann Hanns IH]; [done|]. intros s Hs. simpl.
  split; [by apply all_items_send|]. by destruct (send_fails _ _).
Qed.

#[export] Instance windows_keeps_kind :
  KeepsKind KWifiDirect wifi_pending (λ p, ∃ tx, p = win_discover_task tx) windows_connect.
Proof.
  split.
  - intros p [tx ->]. unfold win_discover_task, drop_ann. intros s Hs. split; [done|].
    cbn [bind]. eapply maintains_seq; [apply maintains_enumerate_peers|]. intros anns Hanns.
    eapply maintains_seq; [by apply maintains_send_anns|]. intros _ _. maintains_walk.
    by apply all_items_drop_tx.
  - intros [[] ?] Hk; simpl in Hk; try done; by eexists.
Qed.

(** ** QUIC *)

Definition quic_pending (s : quic_state) : list PeerAnnouncement := announces s ≫= q_items.

Lemma queue_items_send (P : PeerAnnouncement → Prop) a i l :
  P a → Forall P (l ≫= q_items) → Forall P (alter (queue_send a) i l ≫= q_items).
Proof.
  intros Ha. apply bind_alter. intros [q []] Hq; simpl in *; [|done]. apply Forall_app. auto.
Qed.

Lemma maintains_announce_addrs ch port ips addrs :
  maintains (announces_kind KQuic quic_pending) (announce_addrs ch port ips addrs) (λ _, True).
Proof.
  revert addrs. induction ips as [|ip ips IH]; intros addrs; [done|]. intros s Hs.
  split; [by apply queue_items_send|]. simpl. case_match; [done|apply IH].
Qed.

Lemma maintains_depart_addrs I ch addrs :
  (∀ a s, I s → I (send_departure ch a s).2) → maintains I (depart_addrs ch addrs) (λ _, True).
Proof.
  intros Hsend. induction addrs as [|a addrs IH]; [done|]. intros s Hs. split; [auto|].
  simpl. case_match; [done|apply IH].
Qed.

Lemma maintains_bridge_rounds n name browse ach dch resolved :
  maintains (announces_kind KQuic quic_pending) (bridge_rounds n name browse ach dch resolved)
    (λ _, True).
Proof.
  revert resolved. induction n as [|n IH]; intros resolved; [done|]. cbn [bridge_rounds].
  pose proof maintains_announce_addrs. pose proof (maintains_depart_addrs (announces_kind KQuic quic_pending) dch).
  intros event s Hs. split; [done|]. cbn [fst bind].
  maintains_walk; auto.
Qed.

#[export] Instance quic_keeps_kind :
  KeepsKind KQuic quic_pending (λ p, ∃ t, p = bridge t) quic_connect.
Proof.
  split.
  - intros p [[name browse ach dch] ->] n. apply maintains_bridge_rounds.
  - intros [[] ?] Hk; simpl in Hk; try done; by eexists.
Qed.

(** ** BLE advertising *)

Lemma maintains_route_packet local dest source payload :
  maintains (announces_kind KBleAdvertising announced) (route_packet local dest source payload)
    (λ _, True).
Proof.
  intros s Hs. split; [by apply Forall_app; split; [|apply Forall_singleton]|]. cbn [fst bind].
  maintains_walk; simpl; try done. by case_match.
Qed.

Lemma maintains_dispatch_rounds hash_payload n h local recent :
  maintains (announces_kind KBleAdvertising announced)
    (dispatch_rounds hash_payload n h local recent) (λ _, True).
Proof.
  revert recent. induction n as [|n IH]; intros recent; [done|]. cbn [dispatch_rounds].
  pose proof maintains_route_packet. intros packet s Hs. split; [done|]. cbn [fst bind].
  maintains_walk; auto.
Qed.

#[export] Instance adv_keeps_kind hash_payload :
  KeepsKind KBleAdvertising announced (λ p, ∃ h local, p = dispatch_loop hash_payload h local)
    adv_connect.
Proof.
  split.
  - intros p (h & local & ->) n. apply maintains_dispatch_rounds.
  - intros [[] ?] Hk; simpl in Hk; try done; by eexists.
Qed.
