(* ===== verification/Layers.v ===== *)
(** * The node over the connections of its transports ([trait Connection])

    The core is written against [trait Connection]: its bundles and sessions are
    programs that call [ConnSend], [ConnRecv], [ConnClose] and [ConnMtu], answered so
    far by an abstract link ([pipe_answer]). Here those calls are replaced by the code
    of a transport's connection ([compile]), which runs on the transport's own state and
    environment. [CarriesFrames] is what a connection promises; under it the compiled
    program and the program over the abstract link cannot be told apart. *)

From S2P Require Import Prelude RustStd Types Effects Env.

(** The state is not aged: the calls below take no time the core could see. *)
Definition still {S : Type} (_ : N) (s : S) : S := s.

Section layers.
(** The core's shared state and tasks, and those of a transport. *)
Context {S T : Type} {S2 : Type} {E2 : Type → Type} {T2 : Type}.

(** [trait Connection]: the operations of one connection. *)
Record Connection := {
  send_bytes : list byte → prog S2 E2 T2 (result unit);
  recv_bytes : prog S2 E2 T2 (result (list byte));
  conn_close : prog S2 E2 T2 (result unit);
  conn_mtu : nat
}.

(** Calls of the composed program: the transport's own, or the rest of the core's. *)
Inductive layered_op : Type → Type :=
| Below {X} (e : E2 X) : layered_op X
| Beside {X} (e : env_op X) : layered_op X.

Abbreviation layered_prog := (prog (S * S2) layered_op (T + T2)).

(** The transport's code, next to the core's state. *)
Fixpoint embed {A} (p : prog S2 E2 T2 A) : layered_prog A :=
  match p with
  | Ret a => Ret a
  | Lock f k => Lock (λ s, ((f s.2).1, (s.1, (f s.2).2))) (λ x, embed (k x))
  | Call e k => Call (Below e) (λ x, embed (k x))
  | Spawn t k => Spawn (inr t) (embed k)
  | Stuck why => Stuck why
  end.

(** The calls of a connection run its code. A receive raced with a timer: the environment
    says who wins; when the timer does, the receive is dropped at one of its awaits. *)
Definition compile_call (conns : conn → Connection) {X} (e : env_op X) : layered_prog X :=
  match e in env_op X return layered_prog X with
  | ConnSend c bytes => embed (send_bytes (conns c) bytes)
  | ConnRecv c => embed (recv_bytes (conns c))
  | ConnClose c => embed (conn_close (conns c))
  | ConnRecvBefore c limit =>
    o ← call (Beside (ConnRecvBefore c limit));
    match o with
    | Some _ => r ← embed (recv_bytes (conns c)); Ret (Some r)
    | None => n ← call (Beside LoopBound); embed (dropped_after n (recv_bytes (conns c))) ;; Ret None
    end
  | ConnMtu c => Ret (conn_mtu (conns c))
  | e => call (Beside e)
  end.

Fixpoint compile (conns : conn → Connection) {A} (p : prog S env_op T A) : layered_prog A :=
  match p with
  | Ret a => Ret a
  | Lock f k => Lock (λ s, ((f s.1).1, ((f s.1).2, s.2))) (λ x, compile conns (k x))
  | Call e k => x ← compile_call conns e; compile conns (k x)
  | Spawn t k => Spawn (inl t) (compile conns k)
  | Stuck why => Stuck why
  end.

Section worlds.
Context {W2 : Type} (below : ∀ X, E2 X → W2 → X * N * W2).

(** The transport's environment, and an end of a link for the rest of the calls (its
    frames are not used). *)
Definition layered_answer (X : Type) (e : layered_op X) (w : W2 * pipe) : X * N * (W2 * pipe) :=
  match e in layered_op X return X * N * (W2 * pipe) with
  | Below e => let '(x, d, w2) := below _ e w.1 in (x, d, (w2, w.2))
  | Beside e => let '(x, d, p) := pipe_answer _ e w.2 in (x, d, (w.1, p))
  end.

Abbreviation run_below := (run (T := T2) below still).
Abbreviation run_layered := (run layered_answer still).

(** What a connection promises: it carries frames whole, in order and once each, and when
    no more come it says so with one error. [carries inbox outbox] relates it to the link. *)
Class CarriesFrames (conns : conn → Connection) (mtu : nat) (eof : PathweaveError)
    (carries : list (list byte) → list (list byte) → S2 → W2 → Prop) := {
  carries_send : ∀ c bytes inbox out s w, carries inbox out s w →
    let r := run_below (send_bytes (conns c) bytes) s w in
    r_final r = Returned (Ok tt) ∧ r_spawned r = [] ∧
    carries inbox (out ++ [bytes]) (r_shared r) (r_env r);
  carries_recv : ∀ c f inbox out s w, carries (f :: inbox) out s w →
    let r := run_below (recv_bytes (conns c)) s w in
    r_final r = Returned (Ok f) ∧ r_spawned r = [] ∧ carries inbox out (r_shared r) (r_env r);
  carries_eof : ∀ c out s w, carries [] out s w →
    let r := run_below (recv_bytes (conns c)) s w in
    r_final r = Returned (Err eof) ∧ r_spawned r = [] ∧ carries [] out (r_shared r) (r_env r);
  carries_close : ∀ c inbox out s w, carries inbox out s w →
    let r := run_below (conn_close (conns c)) s w in
    r_final r = Returned (Ok tt) ∧ r_spawned r = [] ∧ carries inbox out (r_shared r) (r_env r);
  carries_mtu : ∀ c, conn_mtu (conns c) = mtu
}.

Lemma run_embed {A} (p : prog S2 E2 T2 A) s s2 w2 w :
  run_layered (embed p) (s, s2) (w2, w) =
  let r := run_below p s2 w2 in
  Ran (r_final r) (s, r_shared r) (r_env r, w) (inr <$> r_spawned r).
Proof.
  revert s2 w2. induction p as [a|X f k IH|X e k IH|t k IH|why]; intros s2 w2; cbn.
  - done.
  - by rewrite IH.
  - destruct (below X e w2) as [[x d] w2']. apply IH.
  - by rewrite IH.
  - done.
Qed.

(** The same link seen from below and from above: all but the frames. *)
Record same_side (w w' : pipe) : Prop := {
  side_mtu : p_mtu w = p_mtu w';
  side_eof : p_eof w = p_eof w';
  side_entropy : p_entropy w = p_entropy w';
  side_bound : p_bound w = p_bound w';
  side_local : p_local w = p_local w'
}.

Section simulation.
Context (conns : conn → Connection) (mtu : nat) (eof : PathweaveError)
  (carries : list (list byte) → list (list byte) → S2 → W2 → Prop)
  `{!CarriesFrames conns mtu eof carries}.

Definition simulates (s2 : S2) (w2 : W2) (side w : pipe) : Prop :=
  carries (p_in w) (p_out w) s2 w2 ∧ same_side side w ∧ p_mtu w = mtu ∧ p_eof w = eof.

(** One call, above and below. *)
Lemma simulate_call {X} (e : env_op X) s s2 w2 side w :
  simulates s2 w2 side w →
  ∃ s2' w2' side',
    run_layered (compile_call conns e) (s, s2) (w2, side) =
      Ran (Returned (pipe_answer X e w).1.1) (s, s2') (w2', side') [] ∧
    simulates s2' w2' side' (pipe_answer X e w).2.
Proof.
  intros (Hc & Hs & Hm & He).
  destruct e; cbn [compile_call pipe_answer fst snd]; 
    try (exists s2, w2, side; cbn; unfold still; split; [reflexivity|by split_and!]).
  - exists s2, w2, side. cbn. rewrite (side_local _ _ Hs). by split.
  - destruct (carries_send c bytes _ _ _ _ Hc) as (Hf & Hsp & Hc').
    rewrite run_embed. cbv zeta. rewrite Hf, Hsp. eexists _, _, side. split; [reflexivity|].
    split; [exact Hc'|]. split_and!; [|done..]. destruct Hs. by constructor.
  - rewrite run_embed. cbv zeta. destruct (p_in w) as [|f fs] eqn:Hin.
    + destruct (carries_eof c _ _ _ Hc) as (Hf & Hsp & Hc'). rewrite Hf, Hsp, He.
      eexists _, _, side. split; [reflexivity|]. cbn. split_and!; [by rewrite Hin|done..].
    + destruct (carries_recv c _ _ _ _ _ Hc) as (Hf & Hsp & Hc'). rewrite Hf, Hsp.
      eexists _, _, side. split; [reflexivity|]. split; [exact Hc'|].
      split_and!; [|done..]. destruct Hs. by constructor.
  - assert (∃ f side', layered_answer _ (Beside (ConnRecvBefore c limit)) (w2, side) =
      (Some f, 0%N, (w2, side')) ∧ same_side side' w) as (f & side' & Hans & Hs').
    { cbn. destruct (p_in side); eexists _, _; (split; [reflexivity|]); [done|]. destruct Hs. by constructor. }
    rewrite run_bind. cbn [call run]. rewrite Hans. cbn [r_final r_spawned r_shared r_env].
    rewrite run_bind. unfold still. rewrite run_embed. cbv zeta. destruct (p_in w) as [|g fs] eqn:Hin.
    + destruct (carries_eof c _ _ _ Hc) as (Hf & Hsp & Hc'). rewrite Hf, Hsp, He.
      eexists _, _, side'. split; [reflexivity|]. cbn. split_and!; [by rewrite Hin|done..].
    + destruct (carries_recv c _ _ _ _ _ Hc) as (Hf & Hsp & Hc'). rewrite Hf, Hsp.
      eexists _, _, side'. split; [reflexivity|]. split; [exact Hc'|].
      split_and!; [|done..]. destruct Hs'. by constructor.
  - destruct (carries_close c _ _ _ _ Hc) as (Hf & Hsp & Hc').
    rewrite run_embed. cbv zeta. rewrite Hf, Hsp. eexists _, _, side. by split.
  - rewrite (carries_mtu c), Hm. by eexists _, _, side.
  - destruct Hs as [H1 H2 H3 H4 H5]. eexists _, _, _. cbn. rewrite H3. split; [reflexivity|].
    split; [exact Hc|]. split_and!; [|done..]. by constructor; cbn; rewrite ?H3.
  - exists s2, w2, side. cbn. rewrite (side_bound _ _ Hs). by split.
Qed.

Lemma simulation {A} (p : prog S env_op T A) s s2 w2 side w :
  simulates s2 w2 side w →
  let low := run_layered (compile conns p) (s, s2) (w2, side) in
  let high := run pipe_answer still p s w in
  r_final low = r_final high ∧ (r_shared low).1 = r_shared high ∧
  r_spawned low = inl <$> r_spawned high ∧
  simulates (r_shared low).2 (r_env low).1 (r_env low).2 (r_env high).
Proof.
  revert s s2 w2 side w. induction p as [a|X f k IH|X e k IH|t k IH|why];
    intros s s2 w2 side w Hsim; cbv zeta.
  - done.
  - by apply IH.
  - cbn [compile]. rewrite run_bind.
    destruct (simulate_call e s s2 w2 side w Hsim) as (s2' & w2' & side' & -> & Hsim').
    cbn [r_final r_shared r_env r_spawned run]. destruct (pipe_answer X e w) as [[x d] w'].
    destruct (IH x s s2' w2' side' w' Hsim') as (H1 & H2 & H3 & H4).
    by split_and!.
  - cbn. destruct (IH s s2 w2 side w Hsim) as (H1 & H2 & H3 & H4).
    split_and!; [done|done| |done]. by rewrite H3.
  - done.
Qed.

(** The connection cannot be told from the abstract link: [p], with the connection's code
    put in place of its calls, returns, panics or blocks as [p] does over the link, leaves
    the core's state as [p] does and spawns the same tasks; and the frames that crossed the
    connection, and those still to come, are those of the link. *)
Definition as_the_link {A} (p : prog S env_op T A) : Prop :=
  ∀ s s2 w2 side w,
  carries (p_in w) (p_out w) s2 w2 → same_side side w → p_mtu w = mtu → p_eof w = eof →
  let low := run_layered (compile conns p) (s, s2) (w2, side) in
  let high := run pipe_answer still p s w in
  r_final low = r_final high ∧ (r_shared low).1 = r_shared high ∧
  r_spawned low = inl <$> r_spawned high ∧
  carries (p_in (r_env high)) (p_out (r_env high)) (r_shared low).2 (r_env low).1.

Lemma carries_as_the_link {A} (p : prog S env_op T A) : as_the_link p.
Proof.
  intros s s2 w2 side w Hc Hs Hm He.
  destruct (simulation p s s2 w2 side w ltac:(done)) as (H1 & H2 & H3 & H4 & _). by split_and!.
Qed.

Lemma simulation_yields {A} (p : prog S env_op T A) w a w' s s2 w2 side :
  yields pipe_answer still p w a w' → simulates s2 w2 side w →
  let r := run_layered (compile conns p) (s, s2) (w2, side) in
  r_final r = Returned a ∧ carries (p_in w') (p_out w') (r_shared r).2 (r_env r).1.
Proof.
  intros Hp Hw. cbv zeta. destruct (Hp s) as [Hr He].
  destruct (simulation p s s2 w2 side w Hw) as (H1 & _ & _ & H2 & _).
  rewrite H1, Hr. by rewrite He in H2.
Qed.
End simulation.
End worlds.
End layers.
Arguments Connection : clear implicits.
Arguments layered_op : clear implicits.
