(* ===== verification/Carriers.v ===== *)
(** * The connections that carry frames

    [impl Connection] of the QUIC, WiFi Direct and BLE transports, each discharging
    [CarriesFrames]: over a reliable stream the length prefix restores the frames, and the
    two ends of a GATT link pass them through channels. *)

From S2P Require Import Prelude RustStd Types Effects Env Framing Channels Ble Layers.

(** ** QUIC and WiFi Direct: frames on a byte stream *)

Definition quic_conn (c : conn) : Connection unit stream_op Empty_set := {|
  send_bytes := quic_send_bytes c; recv_bytes := quic_recv_bytes c;
  conn_close := quic_close c; conn_mtu := quic_mtu |}.

Definition wifi_conn (c : conn) : Connection unit stream_op Empty_set := {|
  send_bytes := wifi_send_bytes c; recv_bytes := wifi_recv_bytes c;
  conn_close := wifi_close c; conn_mtu := wifi_mtu |}.

(** A stream holds the frames of the link, each behind its length. *)
Definition stream_carries (inbox out : list (list byte)) (_ : unit) (w : wire) : Prop :=
  w_in w = concat (frame <$> inbox) ∧ w_out w = concat (frame <$> out) ∧ Forall framable inbox.

Lemma spawns_nothing {A} (r : ran (S := unit) (T := Empty_set) (W := wire) A) : r_spawned r = [].
Proof. destruct (r_spawned r) as [|[] ts]; done. Qed.

(** What [CarriesFrames] asks, from what a program yields on the stream. *)
Lemma stream_step {A} (p : conn_prog A) (a : A) s w w' inbox out :
  on_wire p w a w' → stream_carries inbox out s w' →
  let r := run wire_answer still p s w in
  r_final r = Returned a ∧ r_spawned r = [] ∧ stream_carries inbox out (r_shared r) (r_env r).
Proof.
  intros Hp Hc. cbv zeta. destruct (Hp s) as [Hf He]. unfold still.
  rewrite He, Hf. split; [done|]. split; [apply spawns_nothing|done].
Qed.

Section stream.
Context (conns : conn → Connection unit stream_op Empty_set) (mtu : nat).
Hypothesis framed : ∀ c, conns c = {| send_bytes := send_frame c; recv_bytes := recv_frame c;
  conn_close := finish_stream c; conn_mtu := mtu |}.

Lemma stream_carries_frames :
  CarriesFrames wire_answer conns mtu (ETransport "early eof") stream_carries.
Proof.
  split; intros c; rewrite framed; cbn [send_bytes recv_bytes conn_close conn_mtu].
  - intros bytes inbox out s w (Hin & Hout & Hf). eapply stream_step; [apply yields_send_frame|].
    split_and!; cbn; [done| |done]. rewrite Hout, fmap_app, concat_app. cbn.
    by rewrite app_nil_r.
  - intros f inbox out s [wo wi] (Hin & Hout & Hf). cbn in Hin. subst wi.
    apply Forall_cons in Hf as [Hf Hfs].
    eapply stream_step; [by apply yields_recv_frame|]. by split_and!.
  - intros out s [wo wi] (Hin & Hout & Hf). cbn in Hin. subst wi.
    eapply (stream_step _ _ _ _ {| w_out := wo; w_in := [] |}); [|by split_and!].
    eapply yields_bind; [apply yields_read_short; cbn; lia|]. apply yields_ret.
  - intros inbox out s w Hc. eapply stream_step; [|exact Hc]. by intros [].
  - done.
Qed.
End stream.

#[export] Instance quic_carries_frames :
  CarriesFrames wire_answer quic_conn quic_mtu (ETransport "early eof") stream_carries.
Proof. by apply stream_carries_frames. Qed.

#[export] Instance wifi_carries_frames :
  CarriesFrames wire_answer wifi_conn wifi_mtu (ETransport "early eof") stream_carries.
Proof. by apply stream_carries_frames. Qed.

(** ** BLE: frames through the channels of a GATT link *)

Definition ble_peripheral_conn (pc : BlePeripheralConnection) (_ : conn) :
    Connection ble_state ble_op ble_task := {|
  send_bytes := peripheral_send_bytes pc; recv_bytes := peripheral_recv_bytes pc;
  conn_close := peripheral_close pc; conn_mtu := ble_mtu |}.

Definition ble_central_conn (bc : BleConnection) (_ : conn) :
    Connection ble_state ble_op ble_task := {|
  send_bytes := central_send_bytes bc; recv_bytes := central_recv_bytes bc;
  conn_close := central_close bc; conn_mtu := ble_mtu |}.

(** How a receive fails once its channel has ended. *)
Definition peripheral_eof : PathweaveError := ETransport "peripheral write channel closed".
Definition central_eof : PathweaveError := ETransport "BLE notification stream ended".

Section ble.
(** The radio: what was written to the peer's characteristic. A loop that polls goes round
    at least once; the calls a connection does not make are anyone's. *)
Context (other : ∀ X, ble_op X → list (list byte) → X * N * list (list byte)).

Definition radio_answer (X : Type) (e : ble_op X) (w : list (list byte)) :
    X * N * list (list byte) :=
  match e in ble_op X return (X * N * list (list byte)) → X * N * list (list byte) with
  | WriteChar _ _ bytes _ => λ _, (inr tt, 0%N, w ++ [bytes])
  | Disconnect _ => λ _, (inr tt, 0%N, w)
  | BleLoopBound => λ _, (1, 0%N, w)
  | _ => λ x, x
  end (other X e w).

(** The central has gone after writing [inbox]; the node's replies queue up in [out]. *)
Definition peripheral_carries (pc : BlePeripheralConnection) (inbox out : list (list byte))
    (s : ble_state) (_ : list (list byte)) : Prop :=
  b_frames s !! write_rx pc = Some (Mpsc inbox 0 true) ∧
  (∃ n, b_frames s !! reply_tx pc = Some (Mpsc out n true)) ∧ write_rx pc ≠ reply_tx pc.

(** The notifications [inbox] have come and the stream has ended; [out] was written. *)
Definition central_carries (bc : BleConnection) (inbox out : list (list byte))
    (s : ble_state) (w : list (list byte)) : Prop :=
  b_frames s !! g_rx_chan bc = Some (Mpsc inbox 0 true) ∧ w = out.

(** A receive takes the oldest frame of its channel, or finds it ended. *)
Lemma run_recv_channel rx e inbox s w :
  b_frames s !! rx = Some (Mpsc inbox 0 true) →
  let s' := set_b_frames s (<[rx := Mpsc (tail inbox) 0 true]> (b_frames s)) in
  run radio_answer still
    (bound ← call BleLoopBound; r ← await_frame bound rx; Ret (ok_or r e)) s w =
    Ran (Returned (ok_or (head inbox) e)) s' w [] ∧
  b_frames s' !! rx = Some (Mpsc (tail inbox) 0 true) ∧
  ∀ i, i ≠ rx → b_frames s' !! i = b_frames s !! i.
Proof.
  intros Hrx. cbn -[head]. unfold still, mpsc_poll. rewrite Hrx. split_and!.
  - destruct inbox as [|f inbox]; cbn; [by rewrite list_insert_id|done].
  - rewrite list_lookup_insert_eq; [done|]. by eapply lookup_lt_Some.
  - intros i Hi. by rewrite list_lookup_insert_ne.
Qed.

#[export] Instance ble_peripheral_carries_frames pc :
  CarriesFrames radio_answer (ble_peripheral_conn pc) ble_mtu
    peripheral_eof (peripheral_carries pc).
Proof.
  split; intros c; cbn [ble_peripheral_conn send_bytes recv_bytes conn_close conn_mtu].
  - intros bytes inbox out s w (Hi & [n Ho] & Hne). cbn. unfold send_fails. rewrite Ho.
    split_and!; [done|done|]. split_and!; cbn; [by rewrite list_lookup_alter_ne| |done].
    exists n. by rewrite list_lookup_alter_eq, Ho.
  - intros f inbox out s w (Hi & [n Ho] & Hne). unfold peripheral_recv_bytes. fold peripheral_eof.
    destruct (run_recv_channel _ peripheral_eof _ _ w Hi)
      as (-> & Hr & Hk). split; [done|]. split; [done|]. split; [exact Hr|].
    split; [exists n; by rewrite Hk|done].
  - intros out s w (Hi & [n Ho] & Hne). unfold peripheral_recv_bytes. fold peripheral_eof.
    destruct (run_recv_channel _ peripheral_eof _ _ w Hi)
      as (-> & Hr & Hk). split; [done|]. split; [done|]. split; [exact Hr|].
    split; [exists n; by rewrite Hk|done].
  - done.
  - done.
Qed.

#[export] Instance ble_central_carries_frames bc :
  CarriesFrames radio_answer (ble_central_conn bc) ble_mtu
    central_eof (central_carries bc).
Proof.
  split; intros c; cbn [ble_central_conn send_bytes recv_bytes conn_close conn_mtu].
  - intros bytes inbox out s w (Hi & ->). done.
  - intros f inbox out s w (Hi & ->). unfold central_recv_bytes. fold central_eof.
    destruct (run_recv_channel _ central_eof _ _ out Hi)
      as (-> & Hr & _). by split_and!.
  - intros out s w (Hi & ->). unfold central_recv_bytes. fold central_eof.
    destruct (run_recv_channel _ central_eof _ _ out Hi)
      as (-> & Hr & _). by split_and!.
  - done.
  - done.
Qed.
End ble.
