(* ===== verification/Stack.v ===== *)
(** * Sessions over the transports' connections

    The whole stack of one link: Noise session, bundles, the transport's framing, bytes.
    What was proved over the abstract link holds over every connection that carries frames. *)

From S2P Require Import Prelude RustStd Types Effects Env Bundle Session LinkCalls Framing Channels Ble Layers Carriers.

(** ** The stack over a byte stream *)

Section stream.
Context {S T : Type}.

(** How a stream ends. *)
Definition stream_eof : PathweaveError := ETransport "early eof".

(** The calls of the core that no connection answers: entropy, and the loop bound. *)
Definition beside (eof : PathweaveError) (mtu bound : nat) (entropy : list (list byte)) : pipe :=
  {| p_mtu := mtu; p_eof := eof; p_in := []; p_out := []; p_local := [];
     p_entropy := entropy; p_bound := bound |}.

(** What a program of the core, compiled over a stream connection, returns and leaves on
    the stream. *)
Definition over_stream (conns : conn → Connection unit stream_op Empty_set)
    (side : pipe) {A} (p : prog S env_op T A) (w : wire) (a : A) (w' : wire) : Prop :=
  ∀ s, let r := run (layered_answer wire_answer) still (compile conns p) (s, tt) (w, side) in
    r_final r = Returned a ∧ (r_env r).1 = w'.

(** The bytes of the frames of a link. *)
Definition stream_bytes (fs : list (list byte)) : list byte := concat (Framing.frame <$> fs).

Lemma stream_bytes_app fs gs : stream_bytes (fs ++ gs) = stream_bytes fs ++ stream_bytes gs.
Proof. unfold stream_bytes. by rewrite fmap_app, concat_app. Qed.

Definition stream_of (w : pipe) : wire :=
  {| w_out := stream_bytes (p_out w); w_in := stream_bytes (p_in w) |}.

(** What a program yields on the link, it yields on the stream. *)
Lemma over_stream_yields conns mtu
    `{!CarriesFrames wire_answer conns mtu stream_eof stream_carries}
    {A} (p : prog S env_op T A) w a w' :
  yields pipe_answer still p w a w' → p_mtu w = mtu →
  p_eof w = stream_eof → p_local w = [] → Forall framable (p_in w) →
  over_stream conns (beside stream_eof mtu (p_bound w) (p_entropy w)) p (stream_of w) a (stream_of w').
Proof.
  intros Hp Hm He Hl Hf s.
  destruct (simulation_yields wire_answer conns mtu stream_eof stream_carries p
    w a w' s tt (stream_of w) (beside stream_eof mtu (p_bound w) (p_entropy w)) Hp) as [Hr (Hin & Hout & _)].
  { split; [by split_and!|]. by split_and!. }
  split; [exact Hr|]. unfold stream_of, stream_bytes. rewrite <-Hin, <-Hout.
  by destruct (r_env _).1.
Qed.
End stream.

Section over_streams.
Context `{Crypto, Bp7, Snow, !SnowLaws} {LAWS : Bp7Laws} {SIZES : Bp7Sizes}.
Context {S T : Type}.

Local Opaque NOISE_MSG_MAX.

(** The connections that frame a byte stream, with their mtus. *)
Definition stream_conns : list ((conn → Connection unit stream_op Empty_set) * nat) :=
  [(quic_conn, quic_mtu); (wifi_conn, wifi_mtu)].

Lemma stream_conns_carry conns mtu : (conns, mtu) ∈ stream_conns →
  CarriesFrames wire_answer conns mtu stream_eof stream_carries ∧
  (0 < mtu ≤ 1400)%nat.
Proof.
  unfold stream_conns. rewrite !elem_of_cons, elem_of_nil.
  intros [[= -> ->]|[[= -> ->]|[]]]; (split; [apply _|unfold quic_mtu, wifi_mtu; lia]).
Qed.

Lemma noise_frame_framable mtu f :
  (0 < mtu ≤ 1400)%nat → noise_frame mtu f → framable f.
Proof.
  intros Hmtu (sq & m & fs & Hm & Hfs & Hf). pose proof NOISE_MSG_MAX_Z.
  pose proof (sent_frame_size mtu sq m fs ltac:(lia) ltac:(lia) Hfs) as Hs.
  eapply Forall_forall in Hs; [|exact Hf]. unfold framable. cbn in Hs. lia.
Qed.

(** Handshakes over real connections: between two honest nodes, over a QUIC or a
    WiFi Direct stream, the bytes each side writes are exactly what completes the other's
    handshake: both return a session, every byte is read, each session names the
    other's PeerId, and the two are linked. *)
Theorem handshake_over_streams conns mtu (ka kb : array 32) ida idb rk c1 c2 bound e1 e2 e3
    (Hconn : (conns, mtu) ∈ stream_conns)
    (Ha : NodeIdentity_from_bytes (array_to_list ka) = Ok ida)
    (Hb : NodeIdentity_from_bytes (array_to_list kb) = Ok idb)
    (Hrk : rk = None ∨ rk = Some (x25519_public kb))
    (Hroom : roomy mtu) (Hbound : (NOISE_MSG_MAX < bound)%nat) :
  ∃ bytesA bytesB sa sb,
    over_stream (S := S) (T := T) conns (beside stream_eof mtu bound [e1; e3])
      (initiate ida (BundleLayer_new c1) rk)
      {| w_out := []; w_in := bytesB |} (Ok sa) {| w_out := bytesA; w_in := [] |} ∧
    over_stream (S := S) (T := T) conns (beside stream_eof mtu bound [e2])
      (respond idb (BundleLayer_new c2))
      {| w_out := []; w_in := bytesA |} (Ok sb) {| w_out := bytesB; w_in := [] |} ∧
    s_peer_id sa = peer_id idb ∧ s_peer_id sb = peer_id ida ∧ linked sa sb.
Proof.
  destruct (stream_conns_carry _ _ Hconn) as [Hc Hmtu].
  destruct (yields_handshake (T := T) (still (S := S)) ka kb ida idb rk c1 c2
    stream_eof stream_eof mtu bound e1 e2 e3 Ha Hb Hrk Hroom Hbound)
    as (outA & outB & sa & sb & Hya & Hyb & HfA & HfB & Hids).
  exists (stream_bytes outA), (stream_bytes outB), sa, sb. split_and!; try apply Hids.
  - apply (over_stream_yields conns mtu _ (handshake_pipe _ mtu bound [e1; e3] outB) _
      (handshake_done _ mtu bound outA) Hya eq_refl eq_refl eq_refl).
    eapply Forall_impl; [exact HfB|]. intros f. by apply noise_frame_framable.
  - apply (over_stream_yields conns mtu _ (handshake_pipe _ mtu bound [e2] outA) _
      (handshake_done _ mtu bound outB) Hyb eq_refl eq_refl eq_refl).
    eapply Forall_impl; [exact HfA|]. intros f. by apply noise_frame_framable.
Qed.

(** Handshakes over BLE: a central that dials a peripheral completes the handshake
    with it when the frames it writes are what the peripheral's connection receives and
    the replies the peripheral queues are what the central is notified of; each session
    names the other's PeerId and the two are linked. *)
Theorem handshake_over_ble (ka kb : array 32) ida idb rk c1 c2 bound e1 e2 e3
    (bc : BleConnection) (pc : BlePeripheralConnection) other
    (Ha : NodeIdentity_from_bytes (array_to_list ka) = Ok ida)
    (Hb : NodeIdentity_from_bytes (array_to_list kb) = Ok idb)
    (Hrk : rk = None ∨ rk = Some (x25519_public kb))
    (Hroom : roomy ble_mtu) (Hbound : (NOISE_MSG_MAX < bound)%nat) :
  ∃ outA outB sa sb,
    (∀ (s : S) central, central_carries bc outB [] central [] →
       let r := run (layered_answer (radio_answer other)) still
                  (compile (T := T) (ble_central_conn bc) (initiate ida (BundleLayer_new c1) rk))
                  (s, central) ([], beside central_eof ble_mtu bound [e1; e3]) in
       r_final r = Returned (Ok sa) ∧ (r_env r).1 = outA) ∧
    (∀ (s : S) peripheral w, peripheral_carries pc outA [] peripheral w →
       let r := run (layered_answer (radio_answer other)) still
                  (compile (T := T) (ble_peripheral_conn pc) (respond idb (BundleLayer_new c2)))
                  (s, peripheral) (w, beside peripheral_eof ble_mtu bound [e2]) in
       r_final r = Returned (Ok sb) ∧
       ∃ n, b_frames (r_shared r).2 !! reply_tx pc = Some (Mpsc outB n true)) ∧
    s_peer_id sa = peer_id idb ∧ s_peer_id sb = peer_id ida ∧ linked sa sb.
Proof.
  destruct (yields_handshake (T := T) (still (S := S)) ka kb ida idb rk c1 c2
    central_eof peripheral_eof ble_mtu bound e1 e2 e3 Ha Hb Hrk Hroom Hbound)
    as (outA & outB & sa & sb & Hya & Hyb & _ & _ & Hids).
  exists outA, outB, sa, sb. split_and!; try apply Hids.
  - intros s central Hc.
    destruct (simulation_yields (radio_answer other) (ble_central_conn bc) _ _ _ _ _ _ _ s central []
      (beside central_eof ble_mtu bound [e1; e3]) Hya) as [Hr [_ Hw]].
    { split; [exact Hc|]. by split_and!. }
    by split.
  - intros s peripheral w Hc.
    destruct (simulation_yields (radio_answer other) (ble_peripheral_conn pc) _ _ _ _ _ _ _ s peripheral w
      (beside peripheral_eof ble_mtu bound [e2]) Hyb) as [Hr (_ & Hw & _)].
    { split; [exact Hc|]. by split_and!. }
    by split.
Qed.

(** A conversation one way: every message sent in turn; as many received. *)
Fixpoint say (a : Session) (ds : list (list byte)) : prog S env_op T (result Session) :=
  match ds with
  | [] => Ret (Ok a)
  | d :: ds =>
    '(r, a) ← session_send a d;
    match r with Ok _ => say a ds | Err e => Ret (Err e) end
  end.

Fixpoint hear (b : Session) (n : nat) : prog S env_op T (result (list (list byte) * Session)) :=
  match n with
  | O => Ret (Ok ([], b))
  | Datatypes.S n =>
    '(r, b) ← session_recv b;
    match r with
    | Err e => Ret (Err e)
    | Ok d => r ← hear b n; Ret (result_map (λ '(ds, b), (d :: ds, b)) r)
    end
  end.

Lemma yields_conversation a b ds mtu eof bound entropy out :
  linked a b → roomy mtu → Forall (λ d, length d + 16 ≤ NOISE_MSG_MAX)%nat ds →
  ∃ fs a' b',
    yields pipe_answer still (say a ds)
      {| p_mtu := mtu; p_eof := eof; p_in := []; p_out := out; p_local := []; p_entropy := entropy;
         p_bound := bound |} (Ok a')
      {| p_mtu := mtu; p_eof := eof; p_in := []; p_out := out ++ fs; p_local := []; p_entropy := entropy;
         p_bound := bound |} ∧
    (∀ w rest, p_in w = fs ++ rest → (NOISE_MSG_MAX < p_bound w)%nat →
       yields pipe_answer still (hear b (length ds)) w (Ok (ds, b')) (set_in w rest)) ∧
    Forall (noise_frame mtu) fs ∧ linked a' b'.
Proof.
  intros Hl Hroom Hds. revert a b out Hl.
  induction Hds as [|d ds Hd _ IH]; intros a b out Hl.
  { exists [], a, b. split_and!; [rewrite app_nil_r; apply yields_ret| |done|done].
    intros w rest Hin _. cbn in Hin. subst rest. rewrite set_in_id. apply yields_ret. }
  set (w1 := {| p_mtu := mtu; p_eof := eof; p_in := []; p_out := out; p_local := []; p_entropy := entropy;
                p_bound := bound |}).
  destruct (yields_channel (T := T) (still (S := S)) a b d w1 Hl Hd Hroom)
    as (fs & a1 & b1 & Hs & Hr & Hf & Hl1 & _).
  destruct (IH a1 b1 (out ++ fs) Hl1) as (gs & a' & b' & Hs' & Hr' & Hf' & Hl').
  exists (fs ++ gs), a', b'. split_and!; [| |by apply Forall_app|done].
  - eapply yields_bind; [exact Hs|]. cbn. rewrite app_assoc. exact Hs'.
  - intros w rest Hin Hb. rewrite <-app_assoc in Hin.
    eapply yields_bind; [by apply (Hr w (gs ++ rest))|]. cbn [length].
    eapply yields_bind; [by apply (Hr' (set_in w (gs ++ rest)) rest)|]. apply yields_ret.
Qed.

(** C9. Sessions over real connections: over a QUIC or a WiFi Direct stream, any sequence
    of messages of up to 65519 bytes sent on one of two linked sessions is received on the
    other, unchanged and in order, from the bytes that crossed, none of them left over;
    and the two stay linked. *)
Theorem conversation_over_streams conns mtu a b ds boundA boundB e1 e2
    (Hconn : (conns, mtu) ∈ stream_conns) (Hlinked : linked a b)
    (Hds : Forall (λ d, length d + 16 ≤ NOISE_MSG_MAX)%nat ds)
    (Hroom : roomy mtu) (Hbound : (NOISE_MSG_MAX < boundB)%nat) :
  ∃ bytes a' b',
    over_stream conns (beside stream_eof mtu boundA e1) (say a ds)
      {| w_out := []; w_in := [] |} (Ok a') {| w_out := bytes; w_in := [] |} ∧
    over_stream conns (beside stream_eof mtu boundB e2) (hear b (length ds))
      {| w_out := []; w_in := bytes |} (Ok (ds, b')) {| w_out := []; w_in := [] |} ∧
    linked a' b'.
Proof.
  destruct (stream_conns_carry _ _ Hconn) as [Hc Hmtu].
  destruct (yields_conversation a b ds mtu stream_eof boundA e1 []
    Hlinked Hroom Hds) as (fs & a' & b' & Hs & Hr & Hf & Hl).
  exists (stream_bytes fs), a', b'. split_and!; [| |done].
  - apply (over_stream_yields conns mtu _ _ _ _ Hs eq_refl eq_refl eq_refl).
    constructor.
  - set (w := handshake_pipe stream_eof mtu boundB e2 fs).
    apply (over_stream_yields conns mtu _ w _ (set_in w []));
      [|done|done|done|].
    + apply Hr; [by rewrite app_nil_r|done].
    + eapply Forall_impl; [exact Hf|]. intros f. by apply noise_frame_framable.
Qed.
End over_streams.
