(* ===== verification/FullStack.v ===== *)
(** * Nodes over the connections of their transports

    A whole message, from [send] of one node to the handler of another, with the code of
    the transports' connections below the sessions: the node, the router, Noise, bundles,
    framing, bytes. *)

From S2P Require Import Prelude RustStd Types Effects Env KeyRegistry Dedup Wire Bundle Session LinkCalls.
From S2P Require Import NodeState Router Node Dispatch Sending LinkRuns EndToEnd.
From S2P Require Import Framing Channels Ble Layers Carriers Stack.

Local Opaque NOISE_MSG_MAX.

(** A program of a node over a connection of a transport; [side] answers what no
    connection does. *)
Abbreviation run_over below conns p s s2 w2 side :=
  (run (layered_answer below) still (compile conns p) (s, s2) (w2, side)).

(** A program that returns over the abstract link returns the same over a connection. *)
Lemma node_over_connection {S2 E2 T2 W2} (below : ∀ X, E2 X → W2 → X * N * W2)
    (conns : conn → Connection S2 E2 T2) mtu eof carries
    `{!CarriesFrames below conns mtu eof carries}
    {A} (p : node_prog A) s w a s' w' ts s2 w2 side :
  run pipe_answer node_tick p s w = Ran (Returned a) s' w' ts →
  carries (p_in w) (p_out w) s2 w2 → same_side side w → p_mtu w = mtu → p_eof w = eof →
  let r := run_over below conns p s s2 w2 side in
  r_final r = Returned a ∧ (r_shared r).1 = s' ∧ r_spawned r = inl <$> ts ∧
  carries (p_in w') (p_out w') (r_shared r).2 (r_env r).1.
Proof.
  intros Hrun Hc Hside Hm He. cbv zeta. rewrite run_notick in Hrun.
  destruct (simulation below conns mtu eof carries p s s2 w2 side w) as (H1 & H2 & H3 & H4 & _);
    [by split|].
  change (run pipe_answer still p s w) with (run pipe_answer notick p s w) in H1, H2, H3, H4.
  rewrite Hrun in H1, H2, H3, H4. by split_and!.
Qed.

Lemma wire_eq w o i : w_in w = i → w_out w = o → w = {| w_out := o; w_in := i |}.
Proof. destruct w. cbn. by intros -> ->. Qed.

Section full_stack.
Context `{Crypto, Bp7, Snow, !SnowLaws, HashOrder} {LAWS : Bp7Laws} {SIZES : Bp7Sizes}.

(** The nodes and the link of a delivery, and the message. *)
Context (ka kb : array 32) (ida idb : NodeIdentity) (h : hop) (sA sB : node_state).
Context (t : nat) (kind : TransportKind) (ann : PeerAnnouncement)
  (others : list (nat * TransportKind * PeerAnnouncement)) (anns : list PeerAnnouncement)
  (m : list byte).
Local Abbreviation pA := (peer_id ida).
Local Abbreviation pB := (peer_id idb).

(** B is reachable for A over the link, and the message fits. *)
Record deliverable : Prop := {
  dv_a : NodeIdentity_from_bytes (array_to_list ka) = Ok ida;
  dv_b : NodeIdentity_from_bytes (array_to_list kb) = Ok idb;
  dv_hop : hop_ok h sB;
  dv_key : no_wrong_key sA pB kb;
  dv_peer : peers sA !! pB = Some anns;
  dv_candidate : candidates anns (transports sA) = (t, kind, ann) :: others;
  dv_size : (length m + 25 ≤ NOISE_MSG_MAX)%nat
}.

(** What the handler of B is given. *)
Definition given : list (PeerId * list byte) :=
  if (check_and_insert (dedup sB) (clock sB) pA pipe_message_id).1 || negb (handler sB)
  then [] else [(pA, m)].

(** Over any two connections that carry frames. *)
Lemma message_over_connections {SA EA TA WA SB EB TB WB}
    (belowA : ∀ X, EA X → WA → X * N * WA) (connsA : conn → Connection SA EA TA) carriesA
    (belowB : ∀ X, EB X → WB → X * N * WB) (connsB : conn → Connection SB EB TB) carriesB
    `{!CarriesFrames belowA connsA (h_mtu h) (h_dial_eof h) carriesA}
    `{!CarriesFrames belowB connsB (h_mtu h) (h_answer_eof h) carriesB} :
  deliverable →
  ∃ outA outB, Forall (noise_frame (h_mtu h)) outA ∧ Forall (noise_frame (h_mtu h)) outB ∧
    (∀ s2 w2, carriesA outB [] s2 w2 →
       let r := run_over belowA connsA (send ida pB m) sA s2 w2 (dial_end h []) in
       r_final r = Returned (Ok tt) ∧ carriesA [] outA (r_shared r).2 (r_env r).1 ∧
       events (r_shared r).1 = events sA ++ delivery_events pB kind (new_key pB (x25519_public kb) sA)) ∧
    (∀ s2 w2, carriesB outA [] s2 w2 →
       let r := run_over belowB connsB (handle_incoming idb (h_conn h)) sB s2 w2 (answer_end h []) in
       r_final r = Returned tt ∧ carriesB [] outB (r_shared r).2 (r_env r).1 ∧
       delivered (r_shared r).1 = delivered sB ++ given).
Proof.
  intros [Ha Hb Hhop Hkey Hpeer Hcand Hm].
  destruct (direct_exchange ka kb ida idb h sA sB pipe_message_id None m anns t kind ann others)
    as (outA & outB & sA' & sB' & HA & HB & (HeA & _ & _ & _ & _ & HfA & HfB) & HdB & _); [done..|].
  assert (run pipe_answer node_tick (send ida pB m) sA (dial_end h outB) =
    Ran (Returned (Ok tt)) sA' (done_with (dial_end h outB) outA) []) as HA'
    by (unfold send; by rewrite run_read, Hpeer).
  exists outA, outB. split_and!; [done|done| |]; intros s2 w2 Hc; cbv zeta.
  - destruct (node_over_connection belowA connsA _ _ _ _ _ _ _ _ _ _ s2 w2 (dial_end h []) HA')
      as (-> & -> & _ & Hc'); [done..|]. by split_and!.
  - destruct (node_over_connection belowB connsB _ _ _ _ _ _ _ _ _ _ s2 w2 (answer_end h []) HB)
      as (-> & -> & _ & Hc'); [done..|]. by split_and!.
Qed.

(** C4. A message over QUIC or WiFi Direct, down to the bytes: with the transport's
    connection below both nodes, [send] on one and [handle_incoming] on the other write
    exactly the bytes the other reads. Both return, every byte is read, [send] succeeds and
    reports the delivery, and the receiver's handler is given the message under the sender's
    identity, unless it is a duplicate. *)
Theorem message_over_streams conns
    (Hconn : (conns, h_mtu h) ∈ stream_conns)
    (Heof : h_dial_eof h = stream_eof ∧ h_answer_eof h = stream_eof) (Hd : deliverable) :
  ∃ bytesA bytesB,
    let rA := run_over wire_answer conns (send ida pB m) sA tt
                {| w_out := []; w_in := bytesB |} (dial_end h []) in
    let rB := run_over wire_answer conns (handle_incoming idb (h_conn h)) sB tt
                {| w_out := []; w_in := bytesA |} (answer_end h []) in
    r_final rA = Returned (Ok tt) ∧ (r_env rA).1 = {| w_out := bytesA; w_in := [] |} ∧
    events (r_shared rA).1 = events sA ++ delivery_events pB kind (new_key pB (x25519_public kb) sA) ∧
    r_final rB = Returned tt ∧ (r_env rB).1 = {| w_out := bytesB; w_in := [] |} ∧
    delivered (r_shared rB).1 = delivered sB ++ given.
Proof.
  destruct (stream_conns_carry _ _ Hconn) as [Hc Hmtu]. destruct Heof as [HeA HeB].
  assert (∀ fs, Forall (noise_frame (h_mtu h)) fs → Forall framable fs) as Hframable.
  { intros fs Hf. eapply Forall_impl; [exact Hf|]. intros f. by apply noise_frame_framable. }
  pose proof Hc as HcB. rewrite <-HeA in Hc. rewrite <-HeB in HcB.
  destruct (message_over_connections wire_answer conns stream_carries wire_answer conns stream_carries)
    as (outA & outB & HfA & HfB & HA & HB); [done|].
  exists (stream_bytes outA), (stream_bytes outB). cbv zeta.
  destruct (HA tt {| w_out := []; w_in := stream_bytes outB |}) as (H5 & (HinA & HoutA & _) & H6);
    [split_and!; eauto|].
  destruct (HB tt {| w_out := []; w_in := stream_bytes outA |}) as (H7 & (HinB & HoutB & _) & H8);
    [split_and!; eauto|].
  split_and!; [exact H5| |exact H6|exact H7| |exact H8].
  - by apply wire_eq.
  - by apply wire_eq.
Qed.

(** C5. A message over BLE: the central's [send] and the peripheral's [handle_incoming], over
    the code of the two GATT connections. When the peripheral is handed the writes of the
    central, and the central is notified of the replies of the peripheral, both return,
    [send] succeeds, and the peripheral's handler is given the message. *)
Theorem message_over_ble (bc : BleConnection) (pc : BlePeripheralConnection) other
    (Hmtu : h_mtu h = ble_mtu)
    (Heof : h_dial_eof h = central_eof ∧ h_answer_eof h = peripheral_eof) (Hd : deliverable) :
  ∃ writes replies,
    (∀ central, central_carries bc replies [] central [] →
       let r := run_over (radio_answer other) (ble_central_conn bc) (send ida pB m) sA central []
                  (dial_end h []) in
       r_final r = Returned (Ok tt) ∧ (r_env r).1 = writes) ∧
    (∀ peripheral radio, peripheral_carries pc writes [] peripheral radio →
       let r := run_over (radio_answer other) (ble_peripheral_conn pc)
                  (handle_incoming idb (h_conn h)) sB peripheral radio (answer_end h []) in
       r_final r = Returned tt ∧ delivered (r_shared r).1 = delivered sB ++ given ∧
       ∃ n, b_frames (r_shared r).2 !! reply_tx pc = Some (Mpsc replies n true)).
Proof.
  destruct Heof as [HeA HeB].
  pose proof (ble_central_carries_frames other bc) as HcA. rewrite <-Hmtu, <-HeA in HcA.
  pose proof (ble_peripheral_carries_frames other pc) as HcB. rewrite <-Hmtu, <-HeB in HcB.
  destruct (message_over_connections (radio_answer other) (ble_central_conn bc) (central_carries bc)
    (radio_answer other) (ble_peripheral_conn pc) (peripheral_carries pc))
    as (outA & outB & _ & _ & HA & HB); [done|].
  exists outA, outB. split.
  - intros central Hc. destruct (HA central [] Hc) as (H5 & (_ & H6) & _). by split.
  - intros peripheral radio Hc. destruct (HB peripheral radio Hc) as (H5 & (_ & H6 & _) & H7).
    by split_and!.
Qed.
End full_stack.
