(* ===== verification/Bearers.v ===== *)
(** * The radios of the advertising transport
      ([crates/pathweave-transport-ble/src/linux_adv.rs], [windows_adv.rs])

    Both implement [AdvertisingBearer]: a packet is advertised as manufacturer data behind
    a magic byte, and scanning forwards the packets of advertisements that have it. The
    Bluetooth stacks are the environment. *)

From S2P Require Import Prelude RustStd Types Effects Channels Advertising BlePeripheral.

Abbreviation handle := nat (only parsing).

Definition MANUFACTURER_COMPANY_ID : Z := 65535.
Definition ADV_BEARER_MAGIC : byte := xc0.
Definition ADVERTISE_HOLD : Z := 500000000.

(** ** The manufacturer data *)

Definition bearer_data (packet : list byte) : list byte := ADV_BEARER_MAGIC :: packet.

(** [data.first() != Some(&ADV_BEARER_MAGIC)], then [data[1..].to_vec()]. *)
Definition bearer_packet (data : list byte) : rust (option (list byte)) :=
  if decide (head data ≠ Some ADV_BEARER_MAGIC) then Val None
  else let! packet := slice_from data 1 in Val (Some packet).

(** ** State *)

Record bearer_state := {
  (** [adapter], whose guard [ensure_adapter] holds while it opens one (Linux). *)
  r_adapter : option handle;
  r_adapter_held : bool;
  r_packets : list (mpsc (list byte))
}.

Definition bearer_new : bearer_state :=
  {| r_adapter := None; r_adapter_held := false; r_packets := [] |}.

Definition set_r_adapter (s : bearer_state) (o : option handle) (held : bool) : bearer_state :=
  {| r_adapter := o; r_adapter_held := held; r_packets := r_packets s |}.

Definition packets_alter (f : mpsc (list byte) → mpsc (list byte)) (i : nat) (s : bearer_state) :
    bearer_state :=
  {| r_adapter := r_adapter s; r_adapter_held := r_adapter_held s;
     r_packets := alter f i (r_packets s) |}.

Definition new_packets (s : bearer_state) : nat * bearer_state :=
  (length (r_packets s),
   {| r_adapter := r_adapter s; r_adapter_held := r_adapter_held s;
      r_packets := r_packets s ++ [mpsc_new] |}).

(** [tx.unbounded_send(packet).is_err()] *)
Definition send_packet (tx : nat) (packet : list byte) (s : bearer_state) : bool * bearer_state :=
  (send_fails (r_packets s) tx, packets_alter (mpsc_send packet) tx s).

(** ** The environment *)

Inductive bearer_op : Type → Type :=
| BearerSession : bearer_op (string + handle)
| BearerAdapter (session : handle) : bearer_op (string + handle)
(** [adapter.advertise(adv)] with the manufacturer data, held and dropped. *)
| BearerAdvertise (adapter : handle) (company : Z) (data : list byte) :
    bearer_op (string + handle)
| HoldAdvertisement (duration : Z) : bearer_op unit
| DropAdvertisement (h : handle) : bearer_op unit
| DiscoverDevices (adapter : handle) : bearer_op (string + handle)
(** The next adapter event: the address of an added device, or another event. *)
| NextAdapterEvent (events : handle) : bearer_op (option (option nat))
| DeviceOf (adapter : handle) (addr : nat) : bearer_op (string + handle)
| ManufacturerData (device : handle) : bearer_op (string + option (gmap Z (list byte)))
| DeviceEvents (device : handle) : bearer_op (string + handle)
| NextDeviceEvent (events : handle) : bearer_op (option unit)
(** WinRT: a fallible step; the advertisement; the watcher. *)
| BearerStep (what : string) : bearer_op (string + unit)
| PublishExtended (company : Z) (data : list byte) : bearer_op (string + unit)
| StopPublisher : bearer_op unit
(** The next advertisement the watcher reports: the first manufacturer data of our company,
    when it could be read; [None] once the watcher is stopped or dropped. *)
| NextAdvertisement : bearer_op (option (option (list byte)))
| StopWatcher : bearer_op unit
| DropWatcher : bearer_op unit
| BearerWait : bearer_op unit
| BearerLoopBound : bearer_op nat.

Inductive bearer_task :=
| LinuxScan (tx : nat)
| LinuxDevice (device : handle) (tx : nat)
| WindowsScan (tx : nat)
| WindowsReceived (tx : nat).

Abbreviation bearer_prog := (prog bearer_state bearer_op bearer_task).

(** ** [LinuxAdvertisingBearer] *)

(** The guard is taken; the adapter that is there, or a new one. *)
Definition ensure_adapter : bearer_prog (result handle) :=
  existing ← mutex_lock r_adapter_held BearerWait BearerLoopBound
    (λ s, match r_adapter s with
          | Some a => (Some a, s)
          | None => (None, set_r_adapter s None true)
          end);
  match existing with
  | Some a => Ret (Ok a)
  | None =>
    r ← await_ok ETransport BearerSession (λ session,
        await_ok ETransport (BearerAdapter session) (λ new_adapter, Ret (Ok new_adapter)));
    match r with
    | Ok a => modify (λ s, set_r_adapter s (Some a) false)
    | Err _ => modify (λ s, set_r_adapter s (r_adapter s) false)
    end ;;
    Ret r
  end.

Definition linux_advertise (packet : list byte) : bearer_prog (result unit) :=
  a ← ensure_adapter;
  match a with
  | Err e => Ret (Err e)
  | Ok adapter =>
    await_ok ETransport
      (BearerAdvertise adapter MANUFACTURER_COMPANY_ID (bearer_data packet)) (λ h,
    call (HoldAdvertisement ADVERTISE_HOLD) ;;
    call (DropAdvertisement h) ;;
    Ret (Ok tt))
  end.

(** Whether the channel is still open. *)
Definition check_and_forward (device : handle) (tx : nat) : bearer_prog bool :=
  r ← call (ManufacturerData device);
  match r with
  | inr (Some manufacturer_data) =>
    match manufacturer_data !! MANUFACTURER_COMPANY_ID with
    | None => Ret true
    | Some data =>
      packet ← lift (bearer_packet data);
      match packet with
      | None => Ret true
      | Some packet => err ← lock (send_packet tx packet); Ret (negb err)
      end
    end
  | _ => Ret true
  end.

Fixpoint device_rounds (bound : nat) (device events : handle) (tx : nat) : bearer_prog unit :=
  match bound with
  | O => Stuck Blocked
  | S bound =>
    e ← call (NextDeviceEvent events);
    match e with
    | None => Ret tt
    | Some _ =>
      ok ← check_and_forward device tx;
      if (ok : bool) then device_rounds bound device events tx else Ret tt
    end
  end.

(** The forwarding task of one device. *)
Definition device_task (device : handle) (tx : nat) : bearer_prog unit :=
  ok ← check_and_forward device tx;
  (if (ok : bool) then
     r ← call (DeviceEvents device);
     match r with
     | inl _ => Ret tt
     | inr events => bound ← call BearerLoopBound; device_rounds bound device events tx
     end
   else Ret tt) ;;
  modify (packets_alter mpsc_drop_tx tx).

Fixpoint scan_loop (bound : nat) (adapter events : handle) (tx : nat) : bearer_prog unit :=
  match bound with
  | O => Stuck Blocked
  | S bound =>
    event ← call (NextAdapterEvent events);
    match event with
    | None => Ret tt
    | Some None => scan_loop bound adapter events tx
    | Some (Some addr) =>
      d ← call (DeviceOf adapter addr);
      match d with
      | inl _ => scan_loop bound adapter events tx
      | inr device =>
        modify (packets_alter mpsc_clone tx) ;;
        spawn (LinuxDevice device tx) ;;
        scan_loop bound adapter events tx
      end
    end
  end.

Definition scan_task (tx : nat) : bearer_prog unit :=
  a ← ensure_adapter;
  match a with
  | Err _ => Ret tt
  | Ok adapter =>
    r ← call (DiscoverDevices adapter);
    match r with
    | inl _ => Ret tt
    | inr events => bound ← call BearerLoopBound; scan_loop bound adapter events tx
    end
  end ;;
  modify (packets_alter mpsc_drop_tx tx).

Definition linux_scan : bearer_prog nat :=
  tx ← lock new_packets; spawn (LinuxScan tx) ;; Ret tx.
(** ** [WindowsAdvertisingBearer] *)

Fixpoint bearer_steps (steps : list string) (k : bearer_prog (result unit)) :
    bearer_prog (result unit) :=
  match steps with
  | [] => k
  | step :: steps => await_ok ETransport (BearerStep step) (λ _, bearer_steps steps k)
  end.

(** Creating the publisher and its objects, filling in the data, extended advertising;
    then [Start], the hold and [Stop]. *)
Definition windows_advertise (packet : list byte) : bearer_prog (result unit) :=
  bearer_steps ["BluetoothLEAdvertisementPublisher"; "bytes_to_ibuffer";
                "BluetoothLEManufacturerData"; "Advertisement"; "ManufacturerData"; "Append";
                "SetUseExtendedAdvertisement"] (
  await_ok ETransport (PublishExtended MANUFACTURER_COMPANY_ID (bearer_data packet)) (λ _,
  call (HoldAdvertisement ADVERTISE_HOLD) ;;
  call StopPublisher ;;
  Ret (Ok tt))).

(** The [Received] handler. *)
Fixpoint received_rounds (bound : nat) (tx : nat) : bearer_prog unit :=
  match bound with
  | O => Stuck Blocked
  | S bound =>
    a ← call NextAdvertisement;
    match a with
    | None => modify (packets_alter mpsc_drop_tx tx)
    | Some None => received_rounds bound tx
    | Some (Some buf) =>
      packet ← lift (bearer_packet buf);
      match packet with
      | None => received_rounds bound tx
      | Some packet => lock (send_packet tx packet) ;; received_rounds bound tx
      end
    end
  end.

(** [loop { sleep; if tx.is_closed() { watcher.Stop(); break } }] *)
Fixpoint watch_rounds (bound : nat) (tx : nat) : bearer_prog unit :=
  match bound with
  | O => Stuck Blocked
  | S bound =>
    call (HoldAdvertisement 500000000) ;;
    closed ← read (λ s, send_fails (r_packets s) tx);
    if (closed : bool) then call StopWatcher else watch_rounds bound tx
  end.

(** The thread once it has its watcher, which it drops at the end. *)
Definition watch (tx : nat) : bearer_prog unit :=
  r ← call (BearerStep "SetAllowExtendedAdvertisements");
  match r with
  | inl _ => Ret tt
  | inr _ =>
    modify (packets_alter mpsc_clone tx) ;;
    r ← call (BearerStep "Received");
    match r with
    | inl _ => modify (packets_alter mpsc_drop_tx tx)
    | inr _ =>
      spawn (WindowsReceived tx) ;;
      r ← call (BearerStep "Start");
      match r with
      | inl _ => Ret tt
      | inr _ => bound ← call BearerLoopBound; watch_rounds bound tx
      end
    end
  end ;;
  call DropWatcher.

Definition windows_scan_thread (tx : nat) : bearer_prog unit :=
  r ← call (BearerStep "BluetoothLEAdvertisementWatcher");
  match r with
  | inl _ => Ret tt
  | inr _ => watch tx
  end ;;
  modify (packets_alter mpsc_drop_tx tx).

Definition windows_scan : bearer_prog nat :=
  tx ← lock new_packets; spawn (WindowsScan tx) ;; Ret tx.

(** [UnsupportedBearer]: advertising fails, the scan is over at once (no sender). *)
Definition unsupported_advertise (packet : list byte) : bearer_prog (result unit) :=
  Ret (Err (ETransport "BLE advertising-mode bearer is not implemented on this platform")).

Definition unsupported_scan : bearer_prog nat :=
  tx ← lock new_packets; modify (packets_alter mpsc_drop_tx tx) ;; Ret tx.

(** [BleAdvertisingTransport::new]: the bearer of the platform. *)
Record AdvertisingBearer := {
  advertise : list byte → bearer_prog (result unit);
  scan : bearer_prog nat
}.

Definition platform_bearer (p : platform) : AdvertisingBearer :=
  match p with
  | Linux => {| advertise := linux_advertise; scan := linux_scan |}
  | Windows => {| advertise := windows_advertise; scan := windows_scan |}
  | Macos | OtherPlatform => {| advertise := unsupported_advertise; scan := unsupported_scan |}
  end.

Definition bearer_body (t : bearer_task) : bearer_prog unit :=
  match t with
  | LinuxScan tx => scan_task tx
  | LinuxDevice device tx => device_task device tx
  | WindowsScan tx => windows_scan_thread tx
  | WindowsReceived tx => bound ← call BearerLoopBound; received_rounds bound tx
  end.

(** ** Packets *)

Lemma bearer_packet_data packet : bearer_packet (bearer_data packet) = Val (Some packet).
Proof. unfold bearer_packet. cbn. by rewrite slice_from_Val by (cbn; lia). Qed.

Lemma bearer_packet_total data :
  ∃ o, bearer_packet data = Val o ∧ ∀ packet, o = Some packet ↔ data = bearer_data packet.
Proof.
  unfold bearer_packet. destruct data as [|b data]; cbn.
  { exists None. split; [done|]. by intros packet. }
  case_decide as Hb.
  - exists None. split; [done|]. intros packet. split; [done|]. by intros [= -> ->].
  - injection Hb as ->. rewrite slice_from_Val by (cbn; lia). cbn. exists (Some data). split; [done|].
    intros packet. split; [by intros [= ->]|by intros [= ->]].
Qed.

(** A shared medium: the manufacturer data of our company on the air, in order. *)
Definition radio_answer (X : Type) (e : bearer_op X) (air : list (list byte)) :
    X * N * list (list byte) :=
  match e in bearer_op X return X * N * list (list byte) with
  | BearerSession => (inr 0, 0%N, air)
  | BearerAdapter _ => (inr 0, 0%N, air)
  | BearerAdvertise _ company data =>
    (inr 0, 0%N, if decide (company = MANUFACTURER_COMPANY_ID) then air ++ [data] else air)
  | HoldAdvertisement _ => (tt, 0%N, air)
  | DropAdvertisement _ => (tt, 0%N, air)
  | DiscoverDevices _ => (inr 0, 0%N, air)
  | NextAdapterEvent _ => (Some (Some 0), 0%N, air)
  | DeviceOf _ _ => (inr 0, 0%N, air)
  | ManufacturerData _ =>
    (inr (match air with
          | [] => None
          | data :: _ => Some {[ MANUFACTURER_COMPANY_ID := data ]}
          end), 0%N, tail air)
  | DeviceEvents _ => (inr 0, 0%N, air)
  | NextDeviceEvent _ => (match air with [] => None | _ => Some tt end, 0%N, air)
  | BearerStep _ => (inr tt, 0%N, air)
  | PublishExtended company data =>
    (inr tt, 0%N, if decide (company = MANUFACTURER_COMPANY_ID) then air ++ [data] else air)
  | StopPublisher => (tt, 0%N, air)
  | NextAdvertisement => (match air with [] => None | data :: _ => Some (Some data) end, 0%N, tail air)
  | StopWatcher => (tt, 0%N, air)
  | DropWatcher => (tt, 0%N, air)
  | BearerWait => (tt, 0%N, air)
  | BearerLoopBound => (S (length air), 0%N, air)
  end.

Abbreviation rrun := (run radio_answer (λ _ (s : bearer_state), s)).

(** What a scanner of [air] forwards: the packets behind the magic byte. *)
Definition packets_of (air : list (list byte)) : list (list byte) :=
  omap (λ data, match bearer_packet data with Val o => o | Panic => None end) air.

Lemma packets_of_cons data air :
  packets_of (data :: air) =
  match bearer_packet data with Val (Some p) => p :: packets_of air | _ => packets_of air end.
Proof. unfold packets_of. cbn. by destruct (bearer_packet data) as [[]|]. Qed.

Lemma packets_of_app air1 air2 : packets_of (air1 ++ air2) = packets_of air1 ++ packets_of air2.
Proof. apply omap_app. Qed.

Lemma packets_of_sent packets : packets_of (bearer_data <$> packets) = packets.
Proof.
  induction packets as [|p l IH]; [done|]. cbn [fmap list_fmap].
  rewrite packets_of_cons, bearer_packet_data. by rewrite IH.
Qed.

(** The device task and the watcher's handler forward the same packets. *)
Lemma forward_run data device tx s q n air :
  r_packets s !! tx = Some (Mpsc q n true) → ∃ s',
  rrun (check_and_forward device tx) s (data :: air) = Ran (Returned true) s' air [] ∧
  r_packets s' !! tx = Some (Mpsc (q ++ packets_of [data]) n true) ∧
  r_adapter_held s' = r_adapter_held s.
Proof.
  intros Hs. unfold check_and_forward. rewrite packets_of_cons.
  destruct (bearer_packet_total data) as (o & Ho & _). rewrite Ho.
  cbn -[packets_alter lookup singletonM]. rewrite lookup_singleton_eq, Ho.
  destruct o as [p|]; cbn -[packets_alter].
  - unfold send_fails. rewrite Hs. cbn. eexists. split; [reflexivity|]. cbn.
    by rewrite list_lookup_alter_eq, Hs.
  - eexists. split; [reflexivity|]. by rewrite app_nil_r.
Qed.

Lemma device_rounds_run air device events tx s q n :
  r_packets s !! tx = Some (Mpsc q n true) → ∃ s',
  rrun (device_rounds (S (length air)) device events tx) s air = Ran (Returned tt) s' [] [] ∧
  r_packets s' !! tx = Some (Mpsc (q ++ packets_of air) n true) ∧
  r_adapter_held s' = r_adapter_held s.
Proof.
  revert s q. induction air as [|data air IH]; intros s q Hs.
  { exists s. cbn. by rewrite app_nil_r. }
  cbn [length]. set (m := S (length air)) in *. clearbody m. cbn [device_rounds].
  cbn [bind call run radio_answer]. rewrite run_bind.
  destruct (forward_run data device tx s q n air Hs) as (s1 & -> & Hs1 & Hf1).
  cbn [r_final r_shared r_env r_spawned]. destruct (IH s1 _ Hs1) as (s2 & -> & Hs2 & Hf2).
  exists s2. split; [done|]. rewrite Hs2, Hf2. split; [|done]. change (data :: air) with ([data] ++ air).
  by rewrite packets_of_app, <-app_assoc.
Qed.

Lemma received_rounds_run air tx s q n :
  r_packets s !! tx = Some (Mpsc q n true) → ∃ s',
  rrun (received_rounds (S (length air)) tx) s air = Ran (Returned tt) s' [] [] ∧
  r_packets s' !! tx = Some (Mpsc (q ++ packets_of air) (pred n) true) ∧
  r_adapter_held s' = r_adapter_held s.
Proof.
  revert s q. induction air as [|data air IH]; intros s q Hs.
  { eexists. split; [done|]. cbn. by rewrite list_lookup_alter_eq, Hs, app_nil_r. }
  cbn [length]. set (m := S (length air)) in *. clearbody m. cbn [received_rounds].
  rewrite packets_of_cons. destruct (bearer_packet_total data) as (o & Ho & _). rewrite Ho.
  cbn -[packets_alter]. rewrite Ho. destruct o as [p|]; cbn -[packets_alter].
  - destruct (IH (packets_alter (mpsc_send p) tx s) (q ++ [p])) as (s' & -> & Hs' & Hf).
    { cbn. by rewrite list_lookup_alter_eq, Hs. }
    exists s'. split; [done|]. split; [by rewrite Hs', <-app_assoc|done].
  - apply IH, Hs.
Qed.

(** Advertising a list of packets, one after the other. *)
Fixpoint advertise_all (adv : list byte → bearer_prog (result unit)) (packets : list (list byte)) :
    bearer_prog (result unit) :=
  match packets with
  | [] => Ret (Ok tt)
  | p :: packets =>
    r ← adv p;
    match r with Ok _ => advertise_all adv packets | Err e => Ret (Err e) end
  end.

Definition airs (adv : list byte → bearer_prog (result unit)) : Prop :=
  ∀ p s air, r_adapter_held s = false →
  ∃ s', rrun (adv p) s air = Ran (Returned (Ok tt)) s' (air ++ [bearer_data p]) [] ∧
        r_adapter_held s' = false ∧ r_packets s' = r_packets s.

Lemma linux_airs : airs linux_advertise.
Proof.
  intros p s air Hf. unfold linux_advertise, ensure_adapter. cbn. rewrite Hf.
  destruct (r_adapter s); cbn; by eexists.
Qed.

Lemma windows_airs : airs windows_advertise.
Proof. intros p s air Hf. by exists s. Qed.

Definition can_advertise (p : platform) : Prop := p = Linux ∨ p = Windows.

Lemma platform_airs p : can_advertise p → airs (advertise (platform_bearer p)).
Proof. intros [-> | ->]; [apply linux_airs|apply windows_airs]. Qed.

Lemma advertise_all_run adv packets s air :
  airs adv → r_adapter_held s = false →
  ∃ s', rrun (advertise_all adv packets) s air =
    Ran (Returned (Ok tt)) s' (air ++ (bearer_data <$> packets)) [].
Proof.
  intros Hadv. revert s air. induction packets as [|p l IH]; intros s air Hf; cbn [advertise_all].
  { exists s. cbn. by rewrite app_nil_r. }
  rewrite run_bind. destruct (Hadv p s air Hf) as (s1 & -> & Hf1 & _).
  cbn [r_final r_spawned r_shared r_env]. destruct (IH s1 (air ++ [bearer_data p]) Hf1) as [s2 ->].
  exists s2. cbn. by rewrite <-app_assoc.
Qed.

(** Bearers over the air. Packets that a Linux or a Windows bearer advertises are
    forwarded unchanged and in order by the scanner of either platform, to a channel
    somebody reads; of everything else on the air a scanner forwards exactly the data
    behind our magic byte, and nothing makes it panic. *)
Theorem bearer_packets packets s tx q n :
  r_adapter_held s = false → r_packets s !! tx = Some (Mpsc q n true) →
  (∀ p, can_advertise p →
    ∃ s1, rrun (advertise_all (advertise (platform_bearer p)) packets) s [] =
      Ran (Returned (Ok tt)) s1 (bearer_data <$> packets) []) ∧
  (∀ air device events,
    let linux := rrun (device_rounds (S (length air)) device events tx) s air in
    let windows := rrun (received_rounds (S (length air)) tx) s air in
    r_final linux = Returned tt ∧ r_final windows = Returned tt ∧
    r_packets (r_shared linux) !! tx = Some (Mpsc (q ++ packets_of air) n true) ∧
    r_packets (r_shared windows) !! tx = Some (Mpsc (q ++ packets_of air) (pred n) true)) ∧
  packets_of (bearer_data <$> packets) = packets.
Proof.
  intros Hf Hs. split_and!.
  - intros p Hp. apply (advertise_all_run _ packets s []); [by apply platform_airs|done].
  - intros air device events. cbv zeta.
    destruct (device_rounds_run air device events tx s q n Hs) as (s1 & -> & H1 & _).
    destruct (received_rounds_run air tx s q n Hs) as (s2 & -> & H2 & _). done.
  - apply packets_of_sent.
Qed.

(** ** Scanning after the transport has stopped

    [BleAdvertisingTransport::stop] aborts the dispatcher, which drops the receiver. The
    Windows thread polls for that; the Linux loop never looks. *)

Definition keeps_coming (X : Type) (e : bearer_op X) : X → Prop :=
  match e in bearer_op X return X → Prop with
  | NextAdapterEvent _ => λ o, is_Some o
  | _ => λ _, True
  end.

Section scanning.
Context (tx : nat).

Abbreviation scanning p Q :=
  (safe_under keeps_coming (λ _, True) (λ t, ∃ device, t = LinuxDevice device tx) p Q).

Lemma scanning_forward device (Q : bool → Prop) :
  (∀ b, Q b) → scanning (check_and_forward device tx) Q.
Proof.
  intros HQ. unfold check_and_forward. intros [e|[m|]] _; [apply HQ| |apply HQ].
  cbn -[lookup]. destruct (m !! MANUFACTURER_COMPANY_ID) as [data|]; [|apply HQ].
  destruct (bearer_packet_total data) as (o & -> & _). cbn.
  destruct o; [|apply HQ]. intros s _. split; [done|apply HQ].
Qed.

Lemma scanning_device device : scanning (device_task device tx) (λ _, True).
Proof.
  apply safe_under_bind, scanning_forward. intros ok. apply safe_under_bind.
  destruct ok; [|by intros s _]. cbn. intros [e|events] _; [by intros s _|].
  cbn. intros bound _. induction bound as [|bound IH]; [done|]. cbn [device_rounds].
  apply safe_under_bind. intros [[]|] _; [|by intros s _].
  apply safe_under_bind, scanning_forward. intros [|]; [apply IH|by intros s _].
Qed.

Lemma scanning_loop bound adapter events Q : scanning (scan_loop bound adapter events tx) Q.
Proof.
  induction bound as [|bound IH]; [done|]. cbn [scan_loop]. apply safe_under_bind.
  intros o [[addr|] ->]; [|apply IH]. intros [e|device] _; [apply IH|].
  intros s _. split; [done|]. split; [by eexists|apply IH].
Qed.
End scanning.

(** On Linux scanning outlives the transport: as long as the adapter reports events,
    the scan task never returns, under every interleaving with the device tasks it
    spawns and whether or not anybody still holds the receiver of its channel. *)
Theorem linux_scan_never_ends {W} (answer : ∀ X, bearer_op X → W → X * N * W)
    bound adapter events tx sched s env :
  (∀ X (e : bearer_op X) w, keeps_coming X e (answer X e w).1.1) →
  c_pool (exec answer (λ _ s, s) bearer_body sched
    (Config [scan_loop bound adapter events tx ;; modify (packets_alter mpsc_drop_tx tx)] s env))
    !! 0 ≠ Some (Ret tt).
Proof.
  intros Ha.
  edestruct (exec_under keeps_coming (λ _, True) (λ t, ∃ device, t = LinuxDevice device tx)
    answer (λ _ s, s) bearer_body Ha (λ _ _ H, H)) with (Qs := λ i : nat, 1 ≤ i) as (_ & Hp & _).
  3:{ intros Hi. apply Hp in Hi. cbn in Hi. lia. }
  - intros t [device ->]. apply scanning_device.
  - split_and!; [done| |done]. intros [|i] p Hi; [|done]. apply (inj Some) in Hi as <-.
    apply safe_under_bind, scanning_loop.
Qed.
