(* ===== verification/AdvertisingStack.v ===== *)
(** * The advertising transport over its bearers

    [BleAdvertisingTransport] calls [bearer.advertise] and reads [bearer.scan()]; here those
    calls are replaced by the code of the platform's bearer, and a node's frames are followed
    from its virtual connection, through the radio, to the mailbox of the node they are for. *)

From S2P Require Import Prelude RustStd Types Effects Channels Advertising BlePeripheral Bearers.
From S2P Require Import Env KeyRegistry Dedup Wire Bundle Session NodeState Router Node Sending LinkRuns Layers FullStack.

(** ** Composition *)

(** The calls left: the radio's, and those of the transport that no bearer answers. *)
Inductive adv_bearer_op : Type → Type :=
| Radio {X} (e : bearer_op X) : adv_bearer_op X
| Rest {X} (e : adv_op X) : adv_bearer_op X.

Abbreviation stacked_prog := (prog (adv_state * bearer_state) adv_bearer_op (adv_task + bearer_task)).

(** The bearer's code, next to the transport's state. *)
Fixpoint on_bearer {A} (p : bearer_prog A) : stacked_prog A :=
  match p with
  | Ret a => Ret a
  | Lock f k => Lock (λ s, ((f s.2).1, (s.1, (f s.2).2))) (λ x, on_bearer (k x))
  | Call e k => Call (Radio e) (λ x, on_bearer (k x))
  | Spawn t k => Spawn (inr t) (on_bearer k)
  | Stuck why => Stuck why
  end.

(** [scan.next().await], on the receiver that [scan] returned. *)
Fixpoint next_wait (bound : nat) (rx : nat) : bearer_prog (option (list byte)) :=
  match bound with
  | O => Stuck Blocked
  | S bound =>
    r ← lock (λ s, let '(r, l) := mpsc_poll (r_packets s) rx in
                   (r, {| r_adapter := r_adapter s; r_adapter_held := r_adapter_held s;
                          r_packets := l |}));
    match r with
    | Some r => Ret r
    | None => call BearerWait ;; next_wait bound rx
    end
  end.

Definition scan_next (rx : nat) : bearer_prog (option (list byte)) :=
  bound ← call BearerLoopBound; next_wait bound rx.

Definition bearer_call (b : AdvertisingBearer) (rx : nat) {X} (e : adv_op X) : stacked_prog X :=
  match e in adv_op X return stacked_prog X with
  | Advertise packet => on_bearer (advertise b packet)
  | ScanNext => on_bearer (scan_next rx)
  | e => call (Rest e)
  end.

Fixpoint with_bearer (b : AdvertisingBearer) (rx : nat) {A} (p : adv_prog A) : stacked_prog A :=
  match p with
  | Ret a => Ret a
  | Lock f k => Lock (λ s, ((f s.1).1, ((f s.1).2, s.2))) (λ x, with_bearer b rx (k x))
  | Call e k => x ← bearer_call b rx e; with_bearer b rx (k x)
  | Spawn t k => Spawn (inl t) (with_bearer b rx k)
  | Stuck why => Stuck why
  end.

(** The radio, at one instant; a loop goes round [bound] times. *)
Section world.
Context (now : Z) (bound : nat).

Definition stacked_answer (X : Type) (e : adv_bearer_op X) (air : list (list byte)) :
    X * N * list (list byte) :=
  match e in adv_bearer_op X return X * N * list (list byte) with
  | Radio e => radio_answer _ e air
  | Rest e =>
    match e in adv_op X return X * N * list (list byte) with
    | Advertise _ => (Ok tt, 0%N, air)
    | ScanNext => (None, 0%N, air)
    | Now => (now, 0%N, air)
    | WaitChannel => (tt, 0%N, air)
    | AdvLoopBound => (bound, 0%N, air)
    end
  end.

Abbreviation srun := (run stacked_answer (λ _ s, s)).

Lemma run_on_bearer {A} (p : bearer_prog A) s b air :
  srun (on_bearer p) (s, b) air =
  let r := rrun p b air in Ran (r_final r) (s, r_shared r) (r_env r) (inr <$> r_spawned r).
Proof.
  revert b air. induction p as [a|X f k IH|X e k IH|t k IH|why]; intros b air; cbn.
  - done.
  - by rewrite IH.
  - destruct (radio_answer X e air) as [[x d] air']. apply IH.
  - by rewrite IH.
  - done.
Qed.

(** ** Hearing: the transport's code over a scan that has ended *)

(** Programs that ask for no loop bound. *)
Fixpoint unlooped {A} (p : adv_prog A) : Prop :=
  match p with
  | Ret _ => True
  | Lock f k => ∀ s, unlooped (k (f s).1)
  | Call e k => match e with AdvLoopBound => False | _ => True end ∧ ∀ x, unlooped (k x)
  | Spawn _ k => unlooped k
  | Stuck _ => True
  end.

(** The packets that wait in the channel of the scan are those the air brings. *)
Definition scanned (rx : nat) (q : list (list byte)) (b : bearer_state) : Prop :=
  r_adapter_held b = false ∧ r_packets b !! rx = Some (Mpsc q 0 true).

Definition heard_now (q : list (list byte)) : air :=
  {| air_packets := (λ p, (p, now)) <$> q; air_now := now |}.

Section listener.
Context (b : AdvertisingBearer) (rx : nat).
Hypothesis Hairs : airs (advertise b).

Lemma scan_next_run q bs air :
  scanned rx q bs →
  ∃ bs', rrun (scan_next rx) bs air = Ran (Returned (head q)) bs' air [] ∧ scanned rx (tail q) bs'.
Proof.
  intros [Hf Hq]. unfold scan_next. cbn -[head]. unfold mpsc_poll. rewrite Hq.
  destruct q as [|p q]; cbn; eexists; (split; [reflexivity|]); split; try done.
  cbn. apply list_lookup_insert_eq. by eapply lookup_lt_Some.
Qed.

(** Over the bearer a program does what it does over the air. *)
Lemma listener_simulation {A} (p : adv_prog A) q s bs air :
  unlooped p → scanned rx q bs →
  let low := srun (with_bearer b rx p) (s, bs) air in
  let high := run air_answer (λ _ s, s) p s (heard_now q) in
  r_final low = r_final high ∧ (r_shared low).1 = r_shared high.
Proof.
  revert q s bs air. induction p as [a|X f k IH|X e k IH|t k IH|why];
    intros q s bs air Hu Hq; cbv zeta; cbn [with_bearer]; try done.
  - apply IH; [apply Hu|done].
  - destruct Hu as [He Hu]. rewrite run_bind. destruct e; cbn [bearer_call]; try done.
    + rewrite run_on_bearer. cbv zeta. destruct (Hairs packet bs air) as (bs' & -> & Hf & Hp); [apply Hq|].
      destruct Hq as [_ Hq]. rewrite <-Hp in Hq. by apply (IH (Ok tt) q).
    + rewrite run_on_bearer. cbv zeta. destruct (scan_next_run q bs air Hq) as (bs' & -> & Hq').
      destruct q as [|p q]; cbn; [by apply (IH None [])|]. by apply (IH (Some p) q).
    + by apply (IH now q).
    + by apply (IH tt q).
  - cbn. destruct (IH q s bs air Hu Hq). done.
Qed.
End listener.

(** ** Sending *)

(** Frames sent on a virtual connection, one after the other. *)
Fixpoint adv_send_all (c : BroadcastConnection) (ms : list (list byte)) : adv_prog (result unit) :=
  match ms with
  | [] => Ret (Ok tt)
  | m :: ms =>
    r ← adv_send_bytes c m;
    match r with Ok _ => adv_send_all c ms | Err e => Ret (Err e) end
  end.

(** The packet of a frame. *)
Definition packet_of (c : BroadcastConnection) (m : list byte) : list byte :=
  encode_header (bc_peer_short_id c) (bc_local_short_id c) ++ m.

Lemma send_all_run b rx c ms s bs air :
  airs (advertise b) → r_adapter_held bs = false →
  ∃ bs', srun (with_bearer b rx (adv_send_all c ms)) (s, bs) air =
    Ran (Returned (Ok tt)) (s, bs') (air ++ (bearer_data <$> (packet_of c <$> ms))) [].
Proof.
  intros Hairs. revert bs air. induction ms as [|m ms IH]; intros bs air Hf.
  { exists bs. cbn. by rewrite app_nil_r. }
  cbn [adv_send_all adv_send_bytes bind call with_bearer bearer_call]. rewrite run_bind, run_on_bearer.
  fold (packet_of c m). destruct (Hairs (packet_of c m) bs air Hf) as (bs1 & -> & Hf1 & _).
  cbn [r_final r_shared r_env r_spawned fmap list_fmap].
  destruct (IH bs1 (air ++ [bearer_data (packet_of c m)]) Hf1) as [bs2 ->].
  exists bs2. cbn. by rewrite <-app_assoc.
Qed.
End world.

(** ** Scanning *)

(** The task that forwards what the platform's radio hears. *)
Definition scanner_task (p : platform) (device tx : nat) : bearer_task :=
  match p with Linux => LinuxDevice device tx | _ => WindowsReceived tx end.

Lemma scanner_run p device tx s air :
  can_advertise p → r_adapter_held s = false → r_packets s !! tx = Some (Mpsc [] 1 true) → ∃ s',
  rrun (bearer_body (scanner_task p device tx)) s air = Ran (Returned tt) s' [] [] ∧
  scanned tx (packets_of air) s'.
Proof.
  intros [-> | ->] Hf Hs; cbn [scanner_task bearer_body].
  - unfold device_task. rewrite run_bind. destruct air as [|data air].
    + eexists. split; [reflexivity|]. split; [done|]. cbn. by rewrite list_lookup_alter_eq, Hs.
    + destruct (forward_run data device tx s [] 1 air Hs) as (s1 & -> & Hs1 & Hf1).
      cbn [r_final r_shared r_env r_spawned]. rewrite run_bind. cbn [bind call run radio_answer].
      destruct (device_rounds_run air device 0 tx s1 _ 1 Hs1) as (s2 & -> & Hs2 & Hf2).
      eexists. split; [reflexivity|]. split; [cbn; congruence|].
      change (data :: air) with ([data] ++ air). rewrite packets_of_app.
      cbn -[packets_of]. by rewrite list_lookup_alter_eq, Hs2.
  - cbn [bind call run radio_answer].
    destruct (received_rounds_run air tx s [] 1 Hs) as (s1 & -> & Hs1 & Hf1).
    eexists. split; [reflexivity|]. split; [congruence|exact Hs1].
Qed.

(** ** Frames of one peer *)

Lemma header_of_packet c m :
  header_of (packet_of c m) = Some (bc_peer_short_id c, bc_local_short_id c, m).
Proof.
  pose proof (decode_header_total (packet_of c m)) as Ht. unfold packet_of in *.
  rewrite decode_encode_header in Ht. by injection Ht as <-.
Qed.

Section frames.
Context (hash_payload : list byte → u64).

(** Frames with different hashes, heard at one instant, are all acted on. *)
Lemma acted_on_frames now c ms last :
  bc_local_short_id c ≠ bc_peer_short_id c → NoDup (hash_payload <$> ms) →
  (∀ m, m ∈ ms → last !! (bc_local_short_id c, hash_payload m) = None) →
  acted_on hash_payload (bc_peer_short_id c) last ((λ p, (p, now)) <$> (packet_of c <$> ms)) =
  (λ m, (bc_peer_short_id c, bc_local_short_id c, m)) <$> ms.
Proof.
  intros Hne. revert last. induction ms as [|m ms IH]; intros last Hnd Hlast; [done|].
  apply NoDup_cons in Hnd as [Hm Hnd]. cbn [fmap list_fmap acted_on]. rewrite header_of_packet.
  rewrite decide_False by done. rewrite Hlast by (apply elem_of_cons; by left). cbn [repeated].
  f_equal. apply IH; [done|]. intros m' Hm'. rewrite lookup_insert_ne.
  - apply Hlast, elem_of_cons. by right.
  - intros [= Heq]. apply Hm. rewrite Heq. by apply list_elem_of_fmap_2.
Qed.

Lemma mail_frames local src (ms : list (list byte)) :
  mail local src ((λ m, (local, src, m)) <$> ms) = ms.
Proof.
  induction ms as [|m ms IH]; [done|]. cbn [fmap list_fmap]. rewrite mail_cons.
  rewrite decide_True by done. cbn. by rewrite IH.
Qed.

Lemma newcomers_known local src known (ms : list (list byte)) :
  src ∈ known → newcomers local known ((λ m, (local, src, m)) <$> ms) = [].
Proof.
  intros Hs. induction ms as [|m ms IH]; [done|]. cbn [fmap list_fmap newcomers].
  rewrite decide_False; [done|]. tauto.
Qed.

Lemma newcomers_frames local src known (ms : list (list byte)) :
  newcomers local known ((λ m, (local, src, m)) <$> ms) =
  if decide (ms ≠ [] ∧ src ∉ known) then [src] else [].
Proof.
  destruct (decide (src ∈ known)) as [Hs|Hs].
  { rewrite newcomers_known by done. rewrite decide_False by tauto. done. }
  destruct ms as [|m ms]; [by rewrite decide_False by tauto|]. rewrite decide_True by done.
  cbn [fmap list_fmap newcomers]. rewrite decide_True by done. rewrite newcomers_known; [done|].
  apply elem_of_union_l. by apply elem_of_singleton.
Qed.

Lemma unlooped_rounds bound handle local recent :
  unlooped (dispatch_rounds hash_payload bound handle local recent).
Proof.
  revert recent. induction bound as [|bound IH]; intros recent; [done|]. cbn [dispatch_rounds].
  split; [done|]. intros packet s. cbn. destruct (bool_decide _); [done|].
  destruct packet as [packet|]; [|done]. rewrite decode_header_total. cbn.
  destruct (header_of packet) as [[[d src] pl]|]; [|apply IH].
  destruct (decide _); [apply IH|]. split; [done|]. intros now.
  destruct (_ !! _); [apply IH|]. cbn. intros ?. destruct (decide _); [apply IH|].
  intros s2. cbn. destruct (_ !! _); [intros ?; apply IH|]. intros ? ? ? s3. cbn.
  destruct (incoming_open s3); [apply IH|done].
Qed.

(** C31. Frames over the air: what a node sends on its virtual connection to a peer, over the
    bearer of a Linux or Windows machine, is heard by the scanner of the peer's machine,
    forwarded to the peer's dispatcher, and put into the mailbox the peer keeps for the
    sender, unchanged and in order. All sends succeed, nothing else enters the mailbox, and
    a sender that was not known is offered as a new connection. (Frames with the same hash
    within two seconds would be taken for repetitions.) *)
Theorem advertised_frames_arrive p q c ms now n rxA sA bsA handle device rx sB bsB
    (Hp : can_advertise p) (Hq : can_advertise q) (HbsA : r_adapter_held bsA = false)
    (Hc : bc_local_short_id c ≠ bc_peer_short_id c) (Hms : NoDup (hash_payload <$> ms))
    (HsB : adv_wf sB ∧ incoming_open sB = true ∧ (handle ∉ aborted sB) ∧
           listening sB (bc_local_short_id c))
    (HbsB : r_adapter_held bsB = false ∧ r_packets bsB !! rx = Some (Mpsc [] 1 true)) :
  let src := bc_local_short_id c in
  let local := bc_peer_short_id c in
  ∃ bsA' air bsB',
    run (stacked_answer now n) (λ _ s, s) (with_bearer (platform_bearer p) rxA (adv_send_all c ms))
      (sA, bsA) [] = Ran (Returned (Ok tt)) (sA, bsA') air [] ∧
    rrun (bearer_body (scanner_task q device rx)) bsB air = Ran (Returned tt) bsB' [] [] ∧
    let r := run (stacked_answer now (S (length ms))) (λ _ s, s)
               (with_bearer (platform_bearer q) rx (dispatch_loop hash_payload handle local))
               (sB, bsB') [] in
    r_final r = Returned tt ∧
    inbox (r_shared r).1 src = inbox sB src ++ ms ∧
    bc_peer_short_id <$> incoming (r_shared r).1 =
      (bc_peer_short_id <$> incoming sB) ++
      (if decide (ms ≠ [] ∧ src ∉ dom (connections sB)) then [src] else []).
Proof.
  destruct HsB as (Hwf & Hopen & Hlive & Hlisten). destruct HbsB as [Hf Hrx]. intros src local.
  destruct (send_all_run now n (platform_bearer p) rxA c ms sA bsA [] (platform_airs p Hp) HbsA)
    as [bsA' HA]. cbn [app] in HA.
  destruct (scanner_run q device rx bsB (bearer_data <$> (packet_of c <$> ms)) Hq Hf Hrx)
    as (bsB' & HB & Hscan). rewrite packets_of_sent in Hscan.
  eexists bsA', _, bsB'. split; [exact HA|]. split; [exact HB|]. cbv zeta.
  unfold dispatch_loop. cbn [bind call with_bearer bearer_call run stacked_answer].
  destruct (listener_simulation now (S (length ms)) (platform_bearer q) rx (platform_airs q Hq)
    (dispatch_rounds hash_payload (S (length ms)) handle local ∅) _ sB bsB' []
    (unlooped_rounds _ _ _ _) Hscan) as [-> ->].
  destruct (rounds_run hash_payload handle local ((λ p, (p, now)) <$> (packet_of c <$> ms)) ∅ ∅ now sB)
    as (s' & w' & Hrun & Hd); [done| |done..|].
  { clear. induction ms as [|m ms IH]; [done|]. by split. }
  rewrite !length_fmap in Hrun. unfold heard_now. rewrite Hrun. cbn [r_final r_shared].
  rewrite (acted_on_frames now c ms ∅ Hc Hms) in Hd by done. split; [done|].
  split; [|rewrite (dl_incoming _ _ _ _ Hd)]; [by rewrite (dl_inbox _ _ _ _ Hd), mail_frames|].
  f_equal. apply newcomers_frames.
Qed.
End frames.

(** ** The virtual connection carries frames *)

Definition adv_conn (c : BroadcastConnection) (_ : conn) : Connection adv_state adv_op adv_task := {|
  send_bytes := adv_send_bytes c; recv_bytes := adv_recv_bytes c;
  conn_close := adv_close c; conn_mtu := adv_mtu c |}.

Definition adv_eof : PathweaveError := ETransport "ble-advertising connection closed".

(** The medium: the packets advertised so far. *)
Definition medium_answer (X : Type) (e : adv_op X) (w : list (list byte)) : X * N * list (list byte) :=
  match e in adv_op X return X * N * list (list byte) with
  | Advertise packet => (Ok tt, 0%N, w ++ [packet])
  | ScanNext => (None, 0%N, w)
  | Now => (0%Z, 0%N, w)
  | WaitChannel => (tt, 0%N, w)
  | AdvLoopBound => (1, 0%N, w)
  end.

(** The dispatcher has put [inbox] into the mailbox, and the transport has stopped since. *)
Definition adv_carries (c : BroadcastConnection) (frames out : list (list byte)) (s : adv_state)
    (w : list (list byte)) : Prop :=
  channels s !! bc_inbound_rx c = Some (Channel frames true) ∧
  connections s = ∅ ∧ w = packet_of c <$> out.

#[export] Instance adv_carries_frames c :
  CarriesFrames medium_answer (adv_conn c) MAX_PAYLOAD_LEN adv_eof (adv_carries c).
Proof.
  assert (∀ frames s, connections s = ∅ → channels s !! bc_inbound_rx c = Some (Channel frames true) →
    poll_inbound (bc_inbound_rx c) s =
      (Some (ok_or (head frames) adv_eof),
       set_channels s (<[bc_inbound_rx c := Channel (tail frames) true]> (channels s)))) as Hpoll.
  { intros frames s Hn Hs. unfold poll_inbound, has_sender. rewrite Hs, Hn.
    destruct frames; [|done]. cbn. rewrite list_insert_id by done. by destruct s. }
  assert (∀ frames s, channels s !! bc_inbound_rx c = Some (Channel frames true) →
    <[bc_inbound_rx c := Channel (tail frames) true]> (channels s) !! bc_inbound_rx c =
    Some (Channel (tail frames) true)) as Hset.
  { intros frames s Hs. apply list_lookup_insert_eq. by eapply lookup_lt_Some. }
  split; intros c'; cbn [adv_conn send_bytes recv_bytes conn_close conn_mtu].
  - intros bytes frames out s w (Hs & Hn & ->). cbn. split_and!; [done..|].
    split_and!; [done|done|]. by rewrite fmap_app.
  - intros f frames out s w (Hs & Hn & ->). cbn -[poll_inbound]. unfold still. rewrite (Hpoll _ _ Hn Hs).
    cbn. split_and!; [done..|]. split_and!; [by apply (Hset (f :: frames))|done|done].
  - intros out s w (Hs & Hn & ->). cbn -[poll_inbound]. unfold still. rewrite (Hpoll _ _ Hn Hs).
    cbn. split_and!; [done..|]. split_and!; [by apply (Hset [])|done|done].
  - done.
  - done.
Qed.

(** A message between two nodes over their virtual connections, as [FullStack.message_over_ble]. *)
Theorem message_over_advertising `{Crypto, Bp7, Snow, !SnowLaws, HashOrder} {LAWS : Bp7Laws}
    {SIZES : Bp7Sizes} ka kb ida idb (h : hop) sA sB t kind ann others anns m cA cB :
  h_mtu h = MAX_PAYLOAD_LEN → h_dial_eof h = adv_eof → h_answer_eof h = adv_eof →
  deliverable ka kb ida idb h sA sB t kind ann others anns m →
  ∃ outA outB,
    (∀ s2, adv_carries cA outB [] s2 [] →
       let r := run_over medium_answer (adv_conn cA) (send ida (peer_id idb) m) sA s2 [] (dial_end h []) in
       r_final r = Returned (Ok tt) ∧ (r_env r).1 = packet_of cA <$> outA) ∧
    (∀ s2, adv_carries cB outA [] s2 [] →
       let r := run_over medium_answer (adv_conn cB) (handle_incoming idb (h_conn h)) sB s2 []
                  (answer_end h []) in
       r_final r = Returned tt ∧ (r_env r).1 = packet_of cB <$> outB ∧
       NodeState.delivered (r_shared r).1 = NodeState.delivered sB ++ given ida sB m).
Proof.
  intros Hm HeA HeB Hd.
  pose proof (adv_carries_frames cA) as HcA. rewrite <-Hm, <-HeA in HcA.
  pose proof (adv_carries_frames cB) as HcB. rewrite <-Hm, <-HeB in HcB.
  destruct (message_over_connections ka kb ida idb h sA sB t kind ann others anns m medium_answer
    (adv_conn cA) (adv_carries cA) medium_answer (adv_conn cB) (adv_carries cB) Hd)
    as (outA & outB & _ & _ & HA & HB).
  exists outA, outB. split; intros s2 Hc.
  - destruct (HA s2 [] Hc) as (H5 & (_ & _ & H6) & _). by split.
  - destruct (HB s2 [] Hc) as (H5 & (_ & _ & H6) & H7). by split_and!.
Qed.
