(* ===== verification/Transparency.v ===== *)
(** * The core over the connections of all transports

    The connections of the QUIC, WiFi Direct, BLE (both roles) and BLE advertising
    transports, each in place of the abstract link the core is verified over. *)

From S2P Require Import Prelude RustStd Types Effects Env Framing Channels Ble Layers Carriers Advertising Stack AdvertisingStack.

(** C10. The connections of the transports are as good as the abstract link. Take any
    program of the core (an exchange of bundles, a handshake, a send, a handler) and put the
    code of a connection in place of its calls: of a QUIC or a WiFi Direct connection, on
    streams that hold the frames behind their lengths; of a BLE central, whose peer has
    sent its notifications; of a BLE peripheral, whose peer has sent its writes; of an
    advertising connection, whose mailbox the dispatcher has filled. The program returns,
    panics or blocks as it does over the link, changes the core's state the same way and
    spawns the same tasks; what it sent is, byte for byte, on the stream, written to the
    characteristic, queued for notification or advertised; and what it has not yet received
    is still to come. The mtu and the error at the end of the frames are each connection's
    own. (On the link, as below, no timeout of a receive fires.) *)
Theorem connections_as_the_link {S T A} (p : prog S env_op T A) :
  as_the_link wire_answer quic_conn 1200 (ETransport "early eof") stream_carries p ∧
  as_the_link wire_answer wifi_conn 1400 (ETransport "early eof") stream_carries p ∧
  (∀ radio bc, as_the_link (radio_answer radio) (ble_central_conn bc) 512
     (ETransport "BLE notification stream ended") (central_carries bc) p) ∧
  (∀ radio pc, as_the_link (radio_answer radio) (ble_peripheral_conn pc) 512
     (ETransport "peripheral write channel closed") (peripheral_carries pc) p) ∧
  ∀ c, as_the_link medium_answer (adv_conn c) 150
         (ETransport "ble-advertising connection closed") (adv_carries c) p.
Proof.
  split_and!; [..|intros c].
  - exact (carries_as_the_link wire_answer quic_conn quic_mtu _ _ p).
  - exact (carries_as_the_link wire_answer wifi_conn wifi_mtu _ _ p).
  - intros radio bc. exact (carries_as_the_link _ (ble_central_conn bc) ble_mtu _ _ p).
  - intros radio pc. exact (carries_as_the_link _ (ble_peripheral_conn pc) ble_mtu _ _ p).
  - exact (carries_as_the_link medium_answer (adv_conn c) MAX_PAYLOAD_LEN _ _ p).
Qed.
