(* ===== verification/TransportWitnesses.v ===== *)
(** * Concrete runs of the transports

    Each theorem about the transports with hypotheses, at an input where they hold. *)

From S2P Require Import Prelude RustStd Types Effects Advertising Quic.

(** ** Advertising *)

Definition us : ShortId := Array (n := 8) (replicate 8 x01) eq_refl.
Definition them : ShortId := Array (n := 8) (replicate 8 x02) eq_refl.

Definition toy_hash (l : list byte) : u64 := u64_from_be_bytes (take 8 l).

(** A greeting, its repetition a second later, the same again three seconds later,
    our own echo, and a packet for somebody else. *)
Definition some_air : list (list byte * Z) :=
  [(encode_header us them ++ [x68; x69], secs 1);
   (encode_header us them ++ [x68; x69], secs 2);
   (encode_header us them ++ [x68; x69], secs 4);
   (encode_header them us ++ [x68; x69], secs 4);
   (encode_header them (array_of_byte 8 x03) ++ [x00], secs 5)].

Lemma adv_demultiplex_witness :
  let s' := r_shared (run air_answer (λ _ s, s) (dispatch_loop toy_hash 0 us) adv_new
              {| air_packets := some_air; air_now := secs 0 |}) in
  inbox s' them = [[x68; x69]; [x68; x69]] ∧
  bc_peer_short_id <$> incoming s' = [them] ∧
  length (announced s') = 3.
Proof.
  destruct (adv_demultiplex toy_hash 0 us some_air (secs 0) adv_new) as [_ [_ Ha Hi Hn]];
    [by constructor|done|set_solver|cbn; unfold secs; lia|].
  cbv zeta. split_and!.
  - rewrite Hi by done. by vm_compute.
  - rewrite Hn. by vm_compute.
  - rewrite Ha. by vm_compute.
Defined.

(** [them] connected once, and that connection was dropped. *)
Definition after_drop : adv_state :=
  set_connections (set_channels adv_new [Channel [] false]) {[ them := 0 ]}.

Lemma adv_dropped_peer_lost_witness :
  incoming (c_shared (exec air_answer (λ _ s, s) (adv_task_body toy_hash)
    (replicate 40 (Step 0))
    (Config [dispatch_loop toy_hash 0 us] after_drop
       {| air_packets := some_air; air_now := secs 0 |}))) = [] ∧
  unreachable them 0 (c_shared (exec air_answer (λ _ s, s) (adv_task_body toy_hash)
    (replicate 40 (Step 0))
    (Config [dispatch_loop toy_hash 0 us] after_drop
       {| air_packets := some_air; air_now := secs 0 |}))).
Proof.
  split; [by vm_compute|].
  apply (adv_dropped_peer_lost toy_hash them 0 air_answer (replicate 40 (Step 0))
    [dispatch_loop toy_hash 0 us] after_drop {| air_packets := some_air; air_now := secs 0 |}).
  - constructor; [by vm_compute|done|set_solver].
  - repeat constructor.
Defined.

(** ** QUIC *)

(** A table with a local route before the default route of [wlan0]. *)
Definition some_rows : list Cost.row :=
  [{| Cost.r_iface := ascii_bytes "tun0"; Cost.r_dest := ascii_bytes "0000A8C0";
      Cost.r_rest := ascii_bytes "00000000" |};
   {| Cost.r_iface := ascii_bytes "wlan0"; Cost.r_dest := ascii_bytes "00000000";
      Cost.r_rest := [x30; x0d] |}].

Definition some_table : rstring :=
  RString (Cost.print_table (ascii_bytes "Iface") some_rows) eq_refl.

Lemma detect_linux_spec_witness :
  Cost.classify (Cost.first_default some_rows) = Free ∧
  Cost.detect_linux (Some some_table) = Free.
Proof.
  split; [by vm_compute|].
  rewrite (proj1 (Cost.detect_linux_spec (ascii_bytes "Iface") some_rows some_table
    ltac:(vm_compute; set_solver) ltac:(repeat (constructor; [split_and!; [split; [done|]|split; [done|]|]|]);
      [set_unfold; vm_compute; naive_solver..|constructor]) eq_refl)).
  by vm_compute.
Defined.

Definition printer : rstring := RString (ascii_bytes "printer") eq_refl.
Definition ip (b : byte) : array 4 := Array (n := 4) [x0a; x00; x00; b] eq_refl.

(** A service appears with two addresses, moves to one, and leaves. *)
Definition some_events : list ServiceEvent :=
  [ServiceResolved printer (u16_of_Z 80) [ip x01; ip x02]; OtherServiceEvent;
   ServiceResolved printer (u16_of_Z 80) [ip x03]; ServiceRemoved printer;
   ServiceRemoved printer].

Definition bridged : quic_state := set_queues quic_new [Queue [] true] [Queue [] true].

Lemma quic_bridge_spec_witness :
  let r := run lan_answer (λ _ s, s) (bridge (Bridge 0 0 0 0)) bridged some_events in
  announces (r_shared r) = [Queue (announcements some_events) true] ∧
  length (announcements some_events) = 3 ∧
  departed (r_shared r) = [Queue [Types.Quic (V4 (ip x03) (u16_of_Z 80))] true].
Proof.
  destruct (quic_bridge_spec 0 0 0 0 some_events bridged) as (_ & (Ha & Hd & _) & _);
    [by split; eexists|set_solver|].
  cbv zeta. split_and!; [by rewrite (Ha [])|done|].
  rewrite (Hd []) by done. f_equal.
Defined.

(** Asked for any port, the stack binds 4433: that address is reported. Without mDNS the
    endpoint and its address stay behind. *)
Definition mdns_down_answer (X : Type) (e : quic_op X) (w : list ServiceEvent) :
    X * N * list ServiceEvent :=
  match e in quic_op X return X * N * list ServiceEvent with
  | DaemonNew => (inl "no daemon", 0%N, w)
  | e => lan_answer _ e w
  end.

Definition any_port : SocketAddr := V4 LOCALHOST (u16_of_Z 0).

Lemma quic_lifecycle_witness :
  mdns_wf quic_new ∧
  (let r := run (logged lan_answer) (λ _ s, s) (quic_start any_port []) quic_new ([], []) in
   r_final r = Returned (Ok tt) ∧ start_outcome any_port [] quic_new r ∧
   quic_local_addresses (r_shared r) = [Types.Quic (V4 LOCALHOST (u16_of_Z 4433))]) ∧
  (let r := run (logged mdns_down_answer) (λ _ s, s) (quic_start any_port []) quic_new ([], []) in
   (∃ e, r_final r = Returned (Err e)) ∧ start_outcome any_port [] quic_new r ∧
   quic_local_addresses (r_shared r) = [Types.Quic (V4 LOCALHOST (u16_of_Z 4433))]).
Proof.
  assert (mdns_wf quic_new) as Hwf by (intros m [=]). split; [done|]. split.
  - split_and!; [done| |done].
    exact (proj1 (quic_lifecycle lan_answer any_port [] quic_new [] Hwf)).
  - split_and!; [by eexists| |done].
    exact (proj1 (quic_lifecycle mdns_down_answer any_port [] quic_new [] Hwf)).
Defined.
