(* ===== verification/WifiWitnesses.v ===== *)
(** * Concrete runs of the WiFi Direct transport *)

From S2P Require Import Prelude RustStd Types Effects NetAddr Channels Advertising Framing WifiDirect WifiLinux WifiWindows.

Definition wlan_path : rstring := RString (ascii_bytes "/fi/w1/wpa_supplicant1/Interfaces/0") eq_refl.
Definition somebody : NodeIdentity :=
  {| private_key := []; public_key := []; peer_id := PeerId_from_bytes (array_of_byte 32 x07) |}.

(** A supplicant with one interface, on which only malformed signals arrive. *)
Definition quiet_answer (X : Type) (e : linux_op X) (w : unit) : X * N * unit :=
  match e in linux_op X return X * N * unit with
  | DbusSystem => (inr 0, 0%N, w)
  | ProxyNew _ _ _ _ => (inr 0, 0%N, w)
  | GetInterfaces _ => (inr [wlan_path], 0%N, w)
  | ServiceAdd _ _ _ _ => (inr tt, 0%N, w)
  | Find _ => (inr tt, 0%N, w)
  | P2PConnect _ _ _ _ => (inl ""%string, 0%N, w)
  | ReceiveSignal _ _ => (inr 0, 0%N, w)
  | NextPeerFound _ => (None, 0%N, w)
  | NextGroup _ => (Some (inl ""%string), 0%N, w)
  | NextGroupTimed _ => (None, 0%N, w)
  | TcpConnect _ => (inl ""%string, 0%N, w)
  | TcpBind _ => (inl ""%string, 0%N, w)
  | TcpAccept _ => (inl ""%string, 0%N, w)
  | LinuxWait => (tt, 0%N, w)
  | LinuxLoopBound => (100, 0%N, w)
  end.

Lemma quiet_answers X (e : linux_op X) w : no_owned_group X e (quiet_answer X e w).1.1.
Proof. destruct e; cbn; eauto with lia. Qed.

Lemma linux_lifecycle_witness :
  start_outcome wifi_new (run quiet_answer (λ _ s, s) (linux_start somebody) wifi_new tt) ∧
  r_final (run quiet_answer (λ _ s, s) (linux_start somebody) wifi_new tt) = Returned (Ok tt).
Proof.
  split; [|by vm_compute].
  apply (linux_lifecycle quiet_answer wifi_new eq_refl ltac:(done)).
Defined.

Lemma linux_stop_hangs_witness :
  let r := run quiet_answer (λ _ s, s) (linux_start somebody) wifi_new tt in
  c_pool (exec quiet_answer (λ _ s, s) linux_body
    (replicate 4 (Step 0) ++ mjoin (replicate 30 [Step 2; Step 1; Step 0]))
    (Config ((linux_accept ;; Ret tt) :: (linux_body <$> r_spawned r) ++
      [linux_stop ;; Ret tt]) (r_shared r) (r_env r))) !! 2 ≠ Some (Ret tt).
Proof.
  apply (linux_stop_hangs quiet_answer somebody tt
    (mjoin (replicate 30 [Step 2; Step 1; Step 0])) quiet_answers).
  by vm_compute.
Defined.

Definition linux_node (b : byte) : wifi_state LinuxState :=
  set_w_state wifi_new (Some {| ls_conn := 0; ls_iface_path := wlan_path;
    ls_local_short_id := Array (n := 8) (replicate 8 b) eq_refl |}).

Definition windows_node (b : byte) : wifi_state WindowsState :=
  set_w_state wifi_new (Some {| ws_stop_tx := 0;
    ws_local_short_id := Array (n := 8) (replicate 8 b) eq_refl |}).

Definition go_ip : array 4 := Array (n := 4) [xc0; xa8; x31; x01] eq_refl.
Definition go_ip_text : rstring := RString (ascii_bytes "192.168.49.1") eq_refl.

Definition group_of_two : gmap (list byte) dbus_value :=
  {[ ascii_bytes "ip_addr_go" := VStr go_ip_text ]}.

Lemma group_owner_election_witness :
  intents (r_env (connect_to group_of_two (linux_node x01) go_ip_text None)) = [0%Z] ∧
  dialled (r_env (connect_to group_of_two (linux_node x01) go_ip_text
    (Some (array_of_byte 8 x02)))) = [V4 go_ip WIFI_DIRECT_PORT].
Proof.
  destruct (group_owner_election group_of_two group_of_two (linux_node x01) (linux_node x02)
    _ _ go_ip_text go_ip_text eq_refl eq_refl ltac:(by vm_compute)) as (_ & Hn & _ & Hd).
  split; [exact Hn|].
  apply (Hd (Some (array_of_byte 8 x02)) go_ip go_ip_text); by vm_compute.
Defined.

Lemma windows_roles_witness :
  r_final (win_connect_to go_ip_text (windows_node x01) go_ip_text None) = Returned (Ok 0).
Proof.
  destruct (windows_roles go_ip_text go_ip_text go_ip go_ip (windows_node x01) (windows_node x02)
    _ _ go_ip_text go_ip_text eq_refl eq_refl ltac:(by vm_compute) ltac:(by vm_compute)
    ltac:(by vm_compute)) as (_ & H & _).
  exact H.
Defined.
