(* ===== verification/BleRuns.v ===== *)
(** * Concrete runs of the BLE GATT transport

    Witnesses of its theorems, and scenarios that show how the platforms' peripherals
    behave when centrals come and go. *)

From S2P Require Import Prelude RustStd Types Effects Channels Ble BlePeripheral BleFacts.

(** A stack that does nothing: streams end, calls fail. *)
Definition ble_nothing (X : Type) (e : ble_op X) : X :=
  match e in ble_op X return X with
  | ManagerNew => inl ""%string
  | Adapters _ => inl ""%string
  | StopScan _ => inl ""%string
  | StartScan _ _ => inl ""%string
  | AdapterEvents _ => inl ""%string
  | NextEvent _ => None
  | PeripheralOf _ _ => inl ""%string
  | Properties _ => inl ""%string
  | Peripherals _ => inl ""%string
  | Disconnect _ => inl ""%string
  | Sleep _ => tt
  | ConnectTimed _ => None
  | DiscoverServices _ => inl ""%string
  | Characteristics _ => []
  | Subscribe _ _ => inl ""%string
  | Notifications _ => inl ""%string
  | NextNotification _ => None
  | WriteChar _ _ _ _ => inl ""%string
  | BluerSession => inr 0
  | DefaultAdapter _ => inr 0
  | ServeGatt _ => inr 0
  | AdvertiseService _ _ _ => inr 0
  | DropHandles _ _ => tt
  | AcceptWrite _ => inr 0
  | ReadToEnd _ => inr []
  | WriterWrite _ _ => inr tt
  | GattStep _ => inr tt
  | StartAdvertising _ => inr tt
  | StopAdvertising => tt
  | NotifyValue _ => tt
  | ObjcNew _ => 0
  | ObjcSend _ => tt
  | NextCallback => None
  | RespondToRequests => tt
  | Select => SelStop
  | BleWait => tt
  | BleLoopBound => 100
  end.

Definition nothing_env {W} (X : Type) (e : ble_op X) (w : W) : X * N * W :=
  (ble_nothing X e, 0%N, w).

(** ** Witnesses *)

(** One channel for connections, one for replies that holds a frame. *)
Definition listening : ble_state :=
  set_b_frames (set_b_conns ble_new [mpsc_new]) [Mpsc [[x2a]] 1 true].

Lemma peripheral_mailbox_witness :
  let evs := [GWrite [x01]; GSubscribe 7; GWrite [x02]; GSubscribe 8; GReply; GWrite [x03]] in
  let res := run (gatt_env nothing_env) (λ _ s, s)
    (loop_rounds (S (length evs)) 0 0 no_subscriber) listening
    {| gw_events := evs; gw_buf := []; gw_out := [] |} in
  b_frames (r_shared res) !! 1 = Some (Mpsc [[x02]; [x03]] 1 true) ∧
  gw_out (r_env res) = [(7, [x2a])].
Proof.
  intros evs res.
  destruct (peripheral_mailbox nothing_env evs 0 0 listening [] [] 1 [[x2a]] 1 eq_refl eq_refl)
    as (_ & _ & Hi & _ & Ho).
  split; [exact Hi|exact Ho].
Defined.

(** The connection of channel 1 is alive, and nothing waits for [accept]. *)
Definition serving : ble_state :=
  set_b_frames (set_b_conns ble_new [mpsc_new]) [Mpsc [] 2 true; Mpsc [] 1 true].

Lemma peripheral_one_connection_witness :
  only_conn 0 1 (c_shared (exec nothing_env (λ _ s, s) ble_body (replicate 40 (Step 0))
    (Config [loop_from 0 1 50 0 (Some 7); ble_accept ;; Ret tt] serving tt))).
Proof.
  apply (peripheral_one_connection nothing_env 0 1 0 50 (Some 7) [ble_accept ;; Ret tt]
    (replicate 40 (Step 0)) serving tt).
  - intros X e w. by destruct e.
  - done.
  - split; [by eexists|]. intros q c [= <-]. by intros ?%not_elem_of_nil.
  - repeat constructor.
Defined.

(** ** A frame for a central that has left reaches the next one

    The Linux loop has one reply channel for all connections. The node sends a frame to
    the first subscriber and drops the connection before the loop writes it; a second
    central subscribes, and the frame is written to it. *)

Example stale_reply_reaches_next_subscriber :
  let first := {| write_rx := 1; reply_tx := 0 |} in
  let c := exec (gatt_env nothing_env) (λ _ s, s) ble_body
    (replicate 7 (Step 0) ++ replicate 2 (Step 1) ++ replicate 20 (Step 0))
    (Config [peripheral_loop 0; peripheral_send_bytes first [x2a] ;; peripheral_drop first]
       (set_b_conns ble_new [mpsc_new])
       {| gw_events := [GSubscribe 7; GSubscribe 8; GReply]; gw_buf := []; gw_out := [] |}) in
  gw_out (c_env c) = [(8, [x2a])] ∧
  (m_items <$> b_conns (c_shared c)) =
    [[first; {| write_rx := 2; reply_tx := 0 |}]].
Proof. by vm_compute. Qed.

(** ** [stop] while [accept] waits

    Dropping bluer's handles ends the loop's streams; with the loop its sender goes, the
    waiting [accept] fails and releases the guard, and [stop] returns. *)

Definition handles_env (X : Type) (e : ble_op X) (dropped : bool) : X * N * bool :=
  match e in ble_op X return X * N * bool with
  | DropHandles _ _ => (tt, 0%N, true)
  | Select => (if dropped then SelNotify None else SelReply, 0%N, dropped)
  | ManagerNew => (inr 0, 0%N, dropped)
  | Adapters _ => (inr [0], 0%N, dropped)
  | e => (ble_nothing _ e, 0%N, dropped)
  end.

Definition somebody : NodeIdentity :=
  {| private_key := []; public_key := []; peer_id := PeerId_from_bytes (array_of_byte 32 x07) |}.

Example ble_stop_returns :
  let r := run handles_env (λ _ s, s) (ble_start Linux somebody) ble_new false in
  let c := exec handles_env (λ _ s, s) ble_body
    (replicate 6 (Step 0) ++ mjoin (replicate 20 [Step 0; Step 1; Step 2]))
    (Config ((ble_accept ;; Ret tt) :: (ble_body <$> r_spawned r) ++ [ble_stop Linux ;; Ret tt])
       (r_shared r) (r_env r)) in
  r_final r = Returned (Ok tt) ∧ c_pool c = [Ret tt; Ret tt; Ret tt] ∧
  b_adapter (c_shared c) = None ∧ b_conn_rx (c_shared c) = None.
Proof. by vm_compute. Qed.

(** ** A central that leaves, on Windows and on macOS

    The node serves connections one after the other, each until [recv_bytes] fails. On
    Windows the callback for the departed central ends the connection, and the next
    central is served. macOS has no such callback: the subscription of the next central
    is consumed while the old connection stays. *)

Fixpoint serve (bound : nat) (c : BlePeripheralConnection) : ble_prog unit :=
  match bound with
  | O => Stuck Blocked
  | S bound =>
    r ← peripheral_recv_bytes c;
    match r with Ok _ => serve bound c | Err _ => peripheral_drop c end
  end.

Definition serve_two : ble_prog unit :=
  r ← ble_accept;
  match r with
  | Err _ => Ret tt
  | Ok c => serve 10 c ;; ble_accept ;; Ret tt
  end.

(** The callbacks to come; the branches of the task's [select!] in turn. *)
Definition callback_env (X : Type) (e : ble_op X) (w : list gatt_callback * bool) :
    X * N * (list gatt_callback * bool) :=
  match e in ble_op X return X * N * (list gatt_callback * bool) with
  | NextCallback =>
    match w.1 with
    | [] => (Some OtherCallback, 0%N, w)
    | c :: cs => (Some c, 0%N, (cs, w.2))
    end
  | Select => (if w.2 then SelSubscribe else SelReply, 0%N, (w.1, negb w.2))
  | ManagerNew => (inr 0, 0%N, w)
  | Adapters _ => (inr [0], 0%N, w)
  | e => (ble_nothing _ e, 0%N, w)
  end.

(** The callbacks of each phase, with twenty rounds of the tasks after each. *)
Definition after_phases (p : platform) (phases : list (list gatt_callback)) : config :=
  let r := run callback_env (λ _ s, s) (ble_start p somebody) ble_new ([], true) in
  foldl (λ c cs, exec callback_env (λ _ s, s) ble_body
                   (mjoin (replicate 20 [Step 0; Step 1; Step 2]))
                   (Config (c_pool c) (c_shared c) (cs, true)))
    (Config (serve_two :: (ble_body <$> r_spawned r)) (r_shared r) (r_env r)) phases.

Example windows_serves_the_next_central :
  c_pool (after_phases Windows [[SubscribedClientsChanged 1]; [SubscribedClientsChanged 0];
                                [SubscribedClientsChanged 1]]) !! 0 = Some (Ret tt).
Proof. by vm_compute. Qed.

(** A central that leaves before the task has seen it come: the cell is cleared first and
    filled afterwards, so the connection outlives its central and the next subscription
    is consumed. *)
Example windows_quick_leave :
  let c := after_phases Windows [[SubscribedClientsChanged 1; SubscribedClientsChanged 0];
                                 [SubscribedClientsChanged 1]] in
  c_pool c !! 0 ≠ Some (Ret tt) ∧
  (m_items <$> b_signals (c_shared c)) = [[]] ∧ (m_items <$> b_conns (c_shared c)) = [[]].
Proof. by vm_compute. Qed.

Example macos_keeps_the_next_central_out :
  let c := after_phases Macos [[DidSubscribe]; [DidSubscribe]] in
  c_pool c !! 0 ≠ Some (Ret tt) ∧
  (m_items <$> b_signals (c_shared c)) = [[]] ∧ (m_items <$> b_conns (c_shared c)) = [[]].
Proof. by vm_compute. Qed.
