(* ===== verification/ChatRuns.v ===== *)
(** * The chat demo at concrete inputs *)

From S2P Require Import Prelude RustStd Utf8 Types Effects Env Bundle Bp7Cbor Session NodeState Router Node Models Witnesses Channels Chat ChatFacts.

(** "a", and U+00E9, which takes two bytes. *)
Definition char_a : char := Char 97 eq_refl.
Definition char_e_acute : char := Char 233 eq_refl.

(** An app that talks to peer 2, and a terminal of 80 columns and 24 rows. *)
Definition some_app (cs : list char) (messages : list text) : App := {|
  a_messages := messages; a_input := cs; a_peer_id := Some (peer_of x02);
  a_peer_short_id := None; a_transport_name := None; a_local_short_id := [] |}.

Definition rect (x y w h : Z) : Rect :=
  {| r_x := u16_of_Z x; r_y := u16_of_Z y; r_width := u16_of_Z w; r_height := u16_of_Z h |}.

Definition rows_of_80x24 (_ : Rect) : Rect * Rect * Rect :=
  (rect 0 0 80 1, rect 0 1 80 20, rect 0 21 80 3).

(** Twenty messages in eighteen rows: the two oldest are gone. *)
Lemma draw_spec_witness :
  match draw (rows_of_80x24 (rect 0 0 80 24)) (some_app [char_a] ((λ n, [byte_of_Z (Z.of_nat n)]) <$> List.seq 0 20)) with
  | Val scr =>
    length (scr_lines scr) = 18 ∧ uval (scr_cursor scr).1 = 4%Z ∧ uval (scr_cursor scr).2 = 22%Z
  | Panic => False
  end.
Proof.
  pose proof (draw_spec (rect 0 0 80 1) (rect 0 1 80 20) (rect 0 21 80 3)
    (some_app [char_a] ((λ n, [byte_of_Z (Z.of_nat n)]) <$> List.seq 0 20))
    ltac:(vm_compute; reflexivity) ltac:(vm_compute; reflexivity) ltac:(vm_compute; reflexivity)) as Hd.
  unfold rows_of_80x24. cbv zeta in Hd.
  destruct (draw _ _) as [scr|]; [|apply Hd; vm_compute; reflexivity].
  destruct Hd as (_ & _ & Hl & _ & Hx & Hy). split; [exact Hl|]. split; [exact Hx|exact Hy].
Defined.

(** The cursor counts bytes: behind one letter that takes two of them it stands a column
    past the end of the text. *)
Lemma cursor_past_text :
  (λ scr, uval (scr_cursor scr).1) <$>
    match draw (rows_of_80x24 (rect 0 0 80 24)) (some_app [char_e_acute] []) with
    | Val scr => Some scr | Panic => None end
  = Some (3 + 2)%Z.
Proof. vm_compute. reflexivity. Qed.

(** An input of 65533 bytes, which a paste can bring, ends the program. *)
Lemma long_input_panics :
  draw (rows_of_80x24 (rect 0 0 80 24)) (some_app (replicate (Z.to_nat 65533) char_a) []) = Panic.
Proof. vm_compute. reflexivity. Qed.

(** A terminal that brings the given keys and then Escape; a link that is closed. *)
Definition script_answer (X : Type) (e : chat_op X) (w : list (option KeyEvent) * pipe) :
    X * N * (list (option KeyEvent) * pipe) :=
  match e in chat_op X return X * N * (list (option KeyEvent) * pipe) with
  | Core e => let '(x, d, p) := pipe_answer _ e w.2 in (x, d, (w.1, p))
  | FrameArea => (inr (rect 0 0 80 24), 0%N, w)
  | Present _ => (inr tt, 0%N, w)
  | NextReady =>
    match w.1 with
    | k :: ks => (ReadyKey k, 0%N, (ks, w.2))
    | [] => (ReadyKey (Some {| key_code := Esc; key_control := false; key_press := true |}), 0%N, w)
    end
  | WaitMessage => (true, 0%N, w)
  | EnableRawMode => (inr tt, 0%N, w)
  | EnterAlternateScreen => (inr tt, 0%N, w)
  | TerminalNew => (inr tt, 0%N, w)
  | DisableRawMode => (inr tt, 0%N, w)
  | LeaveAlternateScreen => (inr tt, 0%N, w)
  | Eprintln _ => (tt, 0%N, w)
  end.

(** Typing a letter and leaving: the program exits with 0 and gives the terminal back. *)
Lemma chat_quits :
  let r := run (watched script_answer) node_tick
    (chat_main (identity_of x01) rows_of_80x24 (λ _, []) (λ _, [])
       {| arg_peer := None; arg_port := DEFAULT_LISTEN_PORT |})
    (node_new NodeConfig_default 0) (([typed char_a], wide_pipe []), untouched) in
  r_final r = Returned 0%Z ∧ r_spawned r = [TEventLoop; THealthMonitor 0 KQuic; TAcceptLoop 0;
    TPeerStream 0; THealthMonitor 1 KBle; TAcceptLoop 1; TPeerStream 1] ∧ (r_env r).2 = untouched.
Proof. vm_compute. by split_and!. Qed.

(** The same terminal, which does not come out of raw mode: the alternate screen is left
    all the same, and the exit code does not tell. *)
Definition stuck_raw_answer (X : Type) (e : chat_op X) (w : list (option KeyEvent) * pipe) :
    X * N * (list (option KeyEvent) * pipe) :=
  match e in chat_op X return X * N * (list (option KeyEvent) * pipe) with
  | DisableRawMode => (inl "not a terminal", 0%N, w)
  | e => script_answer _ e w
  end.

Lemma chat_leaves_what_it_can :
  let r := run (watched stuck_raw_answer) node_tick
    (chat_main (identity_of x01) rows_of_80x24 (λ _, []) (λ _, [])
       {| arg_peer := None; arg_port := DEFAULT_LISTEN_PORT |})
    (node_new NodeConfig_default 0) (([], wide_pipe []), untouched) in
  r_final r = Returned 0%Z ∧
  (r_env r).2 = {| t_raw := Refused "not a terminal"; t_alternate := Left |}.
Proof. vm_compute. by split_and!. Qed.

(** "aé" from peer 1 to peer 2. *)
Lemma line_goes_through_witness :
  let line := [x61; xc3; xa9] in
  let shown := push_message (ascii_bytes "me: " ++ line) (some_app [] []) in
  (run script_answer node_tick
     (press (identity_of x01) rows_of_80x24 [typed char_a; typed char_e_acute; entered] (some_app [] []))
     (node_knowing x02) ([], wide_pipe []) =
   run script_answer node_tick
     (r ← terminal_draw rows_of_80x24 shown;
      match r with
      | inl e => Ret (Quit (inl e))
      | inr _ =>
        r ← on_node (send (identity_of x01) (peer_of x02) line);
        Ret (Continue match r with
                      | Err e => push_message (ascii_bytes "[error] " ++ show_error e) shown
                      | Ok _ => shown
                      end)
      end) (node_knowing x02) ([], wide_pipe [])) ∧
  show_received (Some (peer_of x01, line)) (some_app [] []) =
    Val (push_message (ascii_bytes "01010101: " ++ line) (some_app [] [])).
Proof.
  apply (line_goes_through (identity_of x01) rows_of_80x24 script_answer node_tick char_a
    [char_e_acute] (peer_of x02) (some_app [] []) (node_knowing x02) ([], wide_pipe [])
    (some_app [] []) (ascii_bytes "01010101")); reflexivity.
Defined.
