(* ===== verification/StackWitnesses.v ===== *)
(** * The stack over connections, at concrete inputs *)

From S2P Require Import Prelude RustStd Types Effects Env Bundle Bp7Cbor Session LinkCalls NodeState Models Witnesses Framing Channels Ble Layers Carriers Stack FullStack BleRuns Transparency.
From S2P Require Import KeyRegistry Dedup Wire Router Node Sending LinkRuns.

(** With the CBOR encoding a fragment's header takes at most 90 bytes, so every message
    can be sent over the transports' mtus. *)
Lemma cbor_overhead sq n : (overhead sq n ≤ 90)%nat.
Proof.
  unfold overhead. change (@to_cbor cbor_bp7) with enc_bundle.
  rewrite length_enc_bundle, length_enc_fragment.
  pose proof (cbor_head_len_bounds (uval (u64_of_nat n))).
  pose proof (cbor_head_len_bounds (uval sq)).
  unfold enc_primary. rewrite !length_app, !length_head.
  change (@local_eid cbor_bp7 cbor_laws) with node_eid.
  cbn [whole_primary destination source report_to lifetime creation_time creation_seqno
    bundle_control_flags].
  change (length (enc_eid node_eid)) with 20%nat.
  change (cbor_head_len (BUNDLE_LIFETIME / 1000000)) with 5%nat.
  change (@eid_none cbor_bp7) with (None : Eid).
  change (cbor_head_len DTN_TIME_EPOCH) with 1%nat. change (cbor_head_len 0) with 1%nat.
  change (cbor_head_len (Z.of_nat (length []))) with 1%nat. cbn [length is_fragment].
  cbn -[cbor_head_len uval u64_of_nat]. lia.
Qed.

Lemma cbor_roomy mtu : (90 < mtu)%nat → roomy mtu.
Proof.
  intros Hmtu sq bytes. unfold sent_frames. destruct (fits _ _ _); [by eexists|].
  pose proof (cbor_overhead sq (length bytes)).
  rewrite (proj2 (Nat.leb_gt _ _)) by lia. by eexists.
Qed.

(** A bundle in two fragments sent over QUIC. *)
Lemma connections_as_the_link_witness :
  let side := beside stream_eof quic_mtu 1 [] in
  let low := run (layered_answer wire_answer) still
               (compile (S := unit) (T := unit) quic_conn (layer_send_bytes (BundleLayer_new 0) long))
               (tt, tt) ({| w_out := []; w_in := [] |}, side) in
  let high := run (T := unit) pipe_answer still (layer_send_bytes (BundleLayer_new 0) long) tt side in
  r_final low = r_final high ∧
  w_out (r_env low).1 = concat (frame <$> p_out (r_env high)) ∧
  (204 < length (w_out (r_env low).1))%nat.
Proof.
  cbv zeta.
  destruct (proj1 (connections_as_the_link (S := unit) (T := unit)
      (layer_send_bytes (BundleLayer_new 0) long)) tt tt {| w_out := []; w_in := [] |}
      (beside stream_eof quic_mtu 1 []) (beside stream_eof quic_mtu 1 []))
    as (Hf & _ & _ & (_ & Ho & _)); [|constructor; reflexivity|reflexivity|reflexivity|].
  { split_and!; [reflexivity|reflexivity|constructor]. }
  split; [exact Hf|]. split; [exact Ho|]. apply Nat.ltb_lt. vm_compute. reflexivity.
Defined.

(** XK between peers 1 and 2, over WiFi Direct. *)
Lemma handshake_over_streams_witness :
  ∃ bytesA bytesB sa sb,
    over_stream (S := unit) (T := unit) wifi_conn (beside stream_eof wifi_mtu big_bound [[]; []])
      (initiate (identity_of x01) (BundleLayer_new 0) (Some (key_of x02)))
      {| w_out := []; w_in := bytesB |} (Ok sa) {| w_out := bytesA; w_in := [] |} ∧
    over_stream (S := unit) (T := unit) wifi_conn (beside stream_eof wifi_mtu big_bound [[]])
      (respond (identity_of x02) (BundleLayer_new 0))
      {| w_out := []; w_in := bytesA |} (Ok sb) {| w_out := bytesB; w_in := [] |} ∧
    s_peer_id sa = peer_of x02 ∧ s_peer_id sb = peer_of x01 ∧ linked sa sb.
Proof.
  apply (handshake_over_streams (S := unit) (T := unit) wifi_conn wifi_mtu (key_of x01) (key_of x02)
    (identity_of x01) (identity_of x02) (Some (key_of x02)) 0 0 big_bound [] [] []).
  - unfold stream_conns. rewrite !elem_of_cons. auto.
  - apply identity_of_bytes.
  - apply identity_of_bytes.
  - right. reflexivity.
  - apply cbor_roomy. unfold wifi_mtu. lia.
  - apply big_bound_enough.
Defined.


(** XX between a central with notifications in channel 0 and a peripheral whose writes come
    in channel 0 and whose replies leave by channel 1. *)
Lemma handshake_over_ble_witness :
  let bc := {| g_peripheral := 0; g_write_char := {| c_uuid := WRITE_CHAR_UUID;
                 c_write_without_response := true |}; g_rx_chan := 0 |} in
  let pc := {| write_rx := 0; reply_tx := 1 |} in
  ∃ outA outB sa sb,
    r_final (run (layered_answer (radio_answer nothing_env)) still
      (compile (S := unit) (T := unit) (ble_central_conn bc)
         (initiate (identity_of x01) (BundleLayer_new 0) None))
      (tt, set_b_frames ble_new [Mpsc outB 0 true])
      ([], beside central_eof ble_mtu big_bound [[]; []])) = Returned (Ok sa) ∧
    r_final (run (layered_answer (radio_answer nothing_env)) still
      (compile (S := unit) (T := unit) (ble_peripheral_conn pc)
         (respond (identity_of x02) (BundleLayer_new 0)))
      (tt, set_b_frames ble_new [Mpsc outA 0 true; Mpsc [] 1 true])
      ([], beside peripheral_eof ble_mtu big_bound [[]])) = Returned (Ok sb) ∧
    s_peer_id sa = peer_of x02 ∧ s_peer_id sb = peer_of x01.
Proof.
  intros bc pc.
  destruct (handshake_over_ble (S := unit) (T := unit) (key_of x01) (key_of x02)
    (identity_of x01) (identity_of x02) None 0 0 big_bound [] [] [] bc pc nothing_env)
    as (outA & outB & sa & sb & Ha & Hb & Hia & Hib & _).
  - apply identity_of_bytes.
  - apply identity_of_bytes.
  - left. reflexivity.
  - apply cbor_roomy. unfold ble_mtu. lia.
  - apply big_bound_enough.
  - exists outA, outB, sa, sb.
    split; [apply (Ha tt (set_b_frames ble_new [Mpsc outB 0 true])); split; reflexivity|].
    split; [|split; [exact Hia|exact Hib]].
    apply (Hb tt (set_b_frames ble_new [Mpsc outA 0 true; Mpsc [] 1 true]) []).
    split; [reflexivity|]. split; [exists 1; reflexivity|discriminate].
Defined.

(** Two messages over QUIC. *)
Lemma conversation_over_streams_witness :
  ∃ bytes a' b',
    over_stream quic_conn (beside stream_eof quic_mtu 0 []) (say (S := unit) (T := unit) (session_with x02) [abc; long])
      {| w_out := []; w_in := [] |} (Ok a') {| w_out := bytes; w_in := [] |} ∧
    over_stream quic_conn (beside stream_eof quic_mtu big_bound []) (hear (S := unit) (T := unit) (session_with x01) 2)
      {| w_out := []; w_in := bytes |} (Ok ([abc; long], b')) {| w_out := []; w_in := [] |} ∧
    linked a' b'.
Proof.
  apply (conversation_over_streams (S := unit) (T := unit) quic_conn quic_mtu (session_with x02)
    (session_with x01) [abc; long] 0 big_bound [] []).
  - unfold stream_conns. rewrite !elem_of_cons. auto.
  - split; [exact Logic.I|]. split; reflexivity.
  - apply Forall_cons. split; [|apply Forall_cons; split; [|apply Forall_nil; exact Logic.I]];
      apply Nat2Z.inj_le; unfold NOISE_MSG_MAX; rewrite Z2Nat.id by lia; vm_compute; discriminate.
  - apply cbor_roomy. unfold quic_mtu. lia.
  - apply big_bound_enough.
Defined.

(** ** A message from node 1 to node 2 *)

Definition hop_over (mtu : nat) (eof_a eof_b : PathweaveError) : hop := {|
  h_mtu := mtu; h_bound := big_bound; h_dial_eof := eof_a; h_answer_eof := eof_b;
  h_dial_entropy := ([], []); h_answer_entropy := []; h_dial_local := [addr_of x01];
  h_answer_local := [addr_of x02]; h_conn := 0 |}.

Lemma deliverable_over mtu eof_a eof_b :
  (90 < mtu)%nat →
  deliverable (key_of x01) (key_of x02) (identity_of x01) (identity_of x02) (hop_over mtu eof_a eof_b)
    (node_knowing x02) (node_knowing x01) 0 KQuic (ann_of x02) [] [ann_of x02] abc.
Proof.
  intros Hmtu. split.
  - apply identity_of_bytes.
  - apply identity_of_bytes.
  - split; [by apply cbor_roomy|]. split; [apply big_bound_enough|]. unfold NOISE_MSG_MAX.
    split; apply Nat2Z.inj_le; rewrite Z2Nat.id by lia; vm_compute; discriminate.
  - left. by vm_compute.
  - by vm_compute.
  - by vm_compute.
  - unfold NOISE_MSG_MAX. apply Nat2Z.inj_le. rewrite Z2Nat.id by lia. vm_compute. discriminate.
Qed.

(** Over QUIC. *)
Lemma message_over_streams_witness :
  let h := hop_over quic_mtu stream_eof stream_eof in
  ∃ bytesA bytesB,
    r_final (run_over wire_answer quic_conn (send (identity_of x01) (peer_of x02) abc)
      (node_knowing x02) tt {| w_out := []; w_in := bytesB |} (dial_end h [])) = Returned (Ok tt) ∧
    delivered (r_shared (run_over wire_answer quic_conn (handle_incoming (identity_of x02) 0)
      (node_knowing x01) tt {| w_out := []; w_in := bytesA |} (answer_end h []))).1 =
      [(peer_of x01, abc)].
Proof.
  intros h.
  destruct (message_over_streams (key_of x01) (key_of x02) (identity_of x01) (identity_of x02) h
    (node_knowing x02) (node_knowing x01) 0 KQuic (ann_of x02) [] [ann_of x02] abc quic_conn)
    as (bytesA & bytesB & HA & _ & _ & _ & _ & HB).
  - unfold stream_conns. rewrite !elem_of_cons. auto.
  - split; reflexivity.
  - apply deliverable_over. unfold quic_mtu. lia.
  - exists bytesA, bytesB. split; [exact HA|]. etransitivity; [exact HB|]. vm_compute. reflexivity.
Defined.

(** Over BLE. *)
Lemma message_over_ble_witness :
  let h := hop_over ble_mtu central_eof peripheral_eof in
  let bc := {| g_peripheral := 0; g_write_char := {| c_uuid := WRITE_CHAR_UUID;
                 c_write_without_response := true |}; g_rx_chan := 0 |} in
  let pc := {| write_rx := 0; reply_tx := 1 |} in
  ∃ writes replies,
    r_final (run_over (radio_answer nothing_env) (ble_central_conn bc)
      (send (identity_of x01) (peer_of x02) abc) (node_knowing x02)
      (set_b_frames ble_new [Mpsc replies 0 true]) [] (dial_end h [])) = Returned (Ok tt) ∧
    delivered (r_shared (run_over (radio_answer nothing_env) (ble_peripheral_conn pc)
      (handle_incoming (identity_of x02) 0) (node_knowing x01)
      (set_b_frames ble_new [Mpsc writes 0 true; Mpsc [] 1 true]) [] (answer_end h []))).1 =
      [(peer_of x01, abc)].
Proof.
  intros h bc pc.
  destruct (message_over_ble (key_of x01) (key_of x02) (identity_of x01) (identity_of x02) h
    (node_knowing x02) (node_knowing x01) 0 KQuic (ann_of x02) [] [ann_of x02] abc bc pc nothing_env)
    as (writes & replies & HA & HB).
  - reflexivity.
  - split; reflexivity.
  - apply deliverable_over. unfold ble_mtu. lia.
  - exists writes, replies.
    split; [apply (HA (set_b_frames ble_new [Mpsc replies 0 true])); split; reflexivity|].
    destruct (HB (set_b_frames ble_new [Mpsc writes 0 true; Mpsc [] 1 true]) []) as (_ & Hd & _).
    + split; [reflexivity|]. split; [exists 1; reflexivity|discriminate].
    + etransitivity; [exact Hd|]. vm_compute. reflexivity.
Defined.
