(* ===== verification/BearerWitnesses.v ===== *)
(** * Concrete runs of the advertising bearers *)

From S2P Require Import Prelude RustStd Types Effects Channels Advertising BlePeripheral Bearers AdvertisingStack.

Definition scanner : bearer_state :=
  {| r_adapter := None; r_adapter_held := false; r_packets := [mpsc_new] |}.

Lemma bearer_packets_witness :
  packets_of (bearer_data <$> [[x01]; [x02; x03]]) = [[x01]; [x02; x03]] ∧
  r_packets (r_shared (run radio_answer (λ _ s, s) (device_rounds 4 0 0 0) scanner
    [[xc0; x01]; [x11; x01]; [xc0]])) !! 0 = Some (Mpsc [[x01]; []] 1 true).
Proof.
  destruct (bearer_packets [[x01]; [x02; x03]] scanner 0 [] 1 eq_refl eq_refl) as (_ & H & Hp).
  split; [exact Hp|].
  apply (H [[xc0; x01]; [x11; x01]; [xc0]] 0 0).
Defined.

(** The receiver is gone; devices keep appearing. *)
Lemma linux_scan_never_ends_witness :
  c_pool (exec radio_answer (λ _ s, s) bearer_body (replicate 60 (Step 0))
    (Config [scan_loop 100 0 0 0 ;; modify (packets_alter mpsc_drop_tx 0)]
       {| r_adapter := Some 0; r_adapter_held := false; r_packets := [Mpsc [] 1 false] |} []))
    !! 0 ≠ Some (Ret tt).
Proof.
  apply (linux_scan_never_ends radio_answer 100 0 0 0 (replicate 60 (Step 0))).
  intros X e w. destruct e; cbn; eauto.
Defined.

(** Two frames from a Linux node to a Windows node that has not heard of it. *)
Definition to_peer : BroadcastConnection :=
  {| bc_local_short_id := array_of_byte 8 x01; bc_peer_short_id := array_of_byte 8 x02;
     bc_inbound_rx := 0 |}.

Definition length_hash (l : list byte) : u64 := u64_of_Z (Z.of_nat (length l)).

Lemma advertised_frames_arrive_witness :
  ∃ air bsB',
    r_env (run (stacked_answer 0 0) (λ _ s, s)
      (with_bearer (platform_bearer Linux) 0 (adv_send_all to_peer [[x61]; [x62; x63]]))
      (adv_new, bearer_new) []) = air ∧
    r_shared (run radio_answer (λ _ s, s) (bearer_body (WindowsReceived 0)) scanner air) = bsB' ∧
    let s' := (r_shared (run (stacked_answer 0 3) (λ _ s, s)
      (with_bearer (platform_bearer Windows) 0 (dispatch_loop length_hash 0 (array_of_byte 8 x02)))
      (adv_new, bsB') [])).1 in
    inbox s' (array_of_byte 8 x01) = [[x61]; [x62; x63]] ∧ length (incoming s') = 1.
Proof.
  destruct (advertised_frames_arrive length_hash Linux Windows to_peer [[x61]; [x62; x63]] 0 0 0
    adv_new bearer_new 0 0 0 adv_new scanner) as (bsA' & air & bsB' & HA & HB & _ & Hi & Hn).
  - left. reflexivity.
  - right. reflexivity.
  - reflexivity.
  - apply (bool_decide_unpack _). vm_compute. exact Logic.I.
  - apply (bool_decide_unpack _). vm_compute. exact Logic.I.
  - split; [split; intros; discriminate|]. split; [reflexivity|].
    split; [apply not_elem_of_empty|]. intros tx Htx. discriminate Htx.
  - split; reflexivity.
  - exists air, bsB'. split; [exact (f_equal r_env HA)|]. split; [exact (f_equal r_shared HB)|].
    split; [exact Hi|]. apply (f_equal length) in Hn. rewrite length_fmap in Hn.
    etransitivity; [exact Hn|]. vm_compute. reflexivity.
Defined.
